(** * Card hand demo: the holographic effect engine and the pointer gesture
    state machine, embedded from the JavaScript sources.

    - [Holographic] follows [holographic-effect/holographic.js]: the
      constructor with its target guard and its read of the options
      argument, [_setup], [_bindEvents], [_render],
      [_updateFromPoint], [_handleEnter], [_handleLeave], [update] and
      [destroy], the delivery of browser events to the registered listeners,
      the animation frames, and [autoInit].
    - [App] follows the application script: the card registry ([cards],
      [playedCards]), the reset and toggle controls, the lightbox, and the
      pointer state machine ([pointerdown], [pointermove], [pointerup], the
      hold timer, [startDrag], [updateDrag], [endDrag]).  Card objects and
      engine objects live in stores indexed by identity, the two arrays hold
      identities, and the document is the three child lists the script moves
      nodes between.  Rectangles come from the browser's layout, which the
      sources do not fix: every pointer event carries the rectangles its
      listener reads.
    - [HolographicSpec] and [AppSpec] hold the results; [HolographicProps]
      and [AppProps] hold further properties of the same code.

    Numbers.  JavaScript numbers are binary64 floats.  Coordinates, sizes and
    angles are embedded as exact rationals [Q]; all the results below are
    stated for that exact arithmetic.  [Qdiv] by zero is [0] where JavaScript
    yields [NaN] or an infinity, so the theorems about quotients assume
    rectangles of positive size. *)

From Stdlib Require Import QArith Qabs Qminmax Lqa.
From stdpp Require Import gmap strings list fin_maps sorting.

(** Strict comparison of rationals as a boolean, for [a < b] in the source. *)
Definition Qltb (a b : Q) : bool := negb (Qle_bool b a).

(** [getBoundingClientRect()]: [right] and [bottom] are derived. *)
Record Rect := mkRect { left : Q; top : Q; width : Q; height : Q }.

Definition right (r : Rect) : Q := (left r + width r)%Q.
Definition bottom (r : Rect) : Q := (top r + height r)%Q.

(* ====================================================================== *)
(** * The effect engine                                                    *)
(* ====================================================================== *)

Module Holographic.
Open Scope Q_scope.

(** ** Values a caller may pass as the constructor's first argument *)

Inductive js_value :=
| JUndefined
| JNull
| JBool (b : bool)
| JNumber (q : Q)
| JString (s : string)
| JObject                     (* an object that is not a DOM element *)
| JElement (id : nat).        (* an HTMLElement, by identity *)

(** [!v] is false exactly on the truthy values. *)
Definition truthy (v : js_value) : bool :=
  match v with
  | JUndefined | JNull => false
  | JBool b => b
  | JNumber q => negb (Qeq_bool q 0)
  | JString s => negb (String.eqb s "")
  | JObject | JElement _ => true
  end.

Definition instanceof_HTMLElement (v : js_value) : bool :=
  match v with JElement _ => true | _ => false end.

(** ** Options *)

Record Opacity := mkOpacity { o_holographic : Q; o_shimmer : Q; o_glare : Q }.

Record Opts := mkOpts {
  maxRotation : Q;
  perspective : Q;
  glareMultiplier : Q;
  hoverTransition : string;
  leaveTransition : string;
  tilt : bool;
  holographic : bool;
  shimmer : bool;
  glare : bool;
  idle : Opacity;
  hover : Opacity;
}.

Definition DEFAULTS : Opts := {|
  maxRotation := 15;
  perspective := 1000;
  glareMultiplier := 1.5;
  hoverTransition := "0.1s ease";
  leaveTransition := "0.8s cubic-bezier(0.23, 1, 0.32, 1)";
  tilt := true;
  holographic := true;
  shimmer := true;
  glare := true;
  idle := mkOpacity 0.3 0.4 0.5;
  hover := mkOpacity 0.6 0.7 1.0;
|}.

(** The [opts] argument: every key may be absent. *)
Record PartialOpacity := mkPartialOpacity {
  po_holographic : option Q; po_shimmer : option Q; po_glare : option Q }.

Record PartialOpts := mkPartialOpts {
  p_maxRotation : option Q;
  p_perspective : option Q;
  p_glareMultiplier : option Q;
  p_hoverTransition : option string;
  p_leaveTransition : option string;
  p_tilt : option bool;
  p_holographic : option bool;
  p_shimmer : option bool;
  p_glare : option bool;
  p_idle : option PartialOpacity;
  p_hover : option PartialOpacity;
}.

(** [opts = {}] *)
Definition no_opts : PartialOpts :=
  mkPartialOpts None None None None None None None None None None None.

(** [{ ...base, ...(over || {}) }] on an opacity set. *)
Definition merge_opacity (base : Opacity) (over : option PartialOpacity) : Opacity :=
  match over with
  | None => base
  | Some p => {|
      o_holographic := default (o_holographic base) (po_holographic p);
      o_shimmer := default (o_shimmer base) (po_shimmer p);
      o_glare := default (o_glare base) (po_glare p) |}
  end.

(** [{ ...DEFAULTS, ...opts }], then the two nested merges. *)
Definition merge_opts (p : PartialOpts) : Opts := {|
  maxRotation := default (maxRotation DEFAULTS) (p_maxRotation p);
  perspective := default (perspective DEFAULTS) (p_perspective p);
  glareMultiplier := default (glareMultiplier DEFAULTS) (p_glareMultiplier p);
  hoverTransition := default (hoverTransition DEFAULTS) (p_hoverTransition p);
  leaveTransition := default (leaveTransition DEFAULTS) (p_leaveTransition p);
  tilt := default (tilt DEFAULTS) (p_tilt p);
  holographic := default (holographic DEFAULTS) (p_holographic p);
  shimmer := default (shimmer DEFAULTS) (p_shimmer p);
  glare := default (glare DEFAULTS) (p_glare p);
  idle := merge_opacity (idle DEFAULTS) (p_idle p);
  hover := merge_opacity (hover DEFAULTS) (p_hover p);
|}.

(** ** The page as the engine sees it *)

Inductive LayerKind := HoloColor | HoloShimmer | HoloGlare.

#[export] Instance LayerKind_eq_dec : EqDecision LayerKind.
Proof. solve_decision. Defined.

(** What [_render] paints on a layer; the gradients are kept as the numbers
    the template strings interpolate. *)
Inductive Paint :=
| Unpainted
| HoloGradient (angle h1 h2 h3 h4 : Q)
| ShimmerGradient (angle : Q)
| GlareGradient (gx gy : Q).

Record Layer := mkLayer {
  l_kind : LayerKind;
  l_blend : option string;       (* mixBlendMode *)
  l_paint : Paint;
  l_opacity : option Q;
}.

Inductive Listener :=
| OnMouseMove | OnMouseEnter | OnMouseLeave | OnTouchMove | OnTouchStart | OnTouchEnd.

#[export] Instance Listener_eq_dec : EqDecision Listener.
Proof. solve_decision. Defined.

(** One element: the computed style [getComputedStyle] reports, the inline
    style the engine writes, the overlay children and the listeners bound by
    instance [owner]. *)
Record Element := mkElement {
  computed_position : string;
  computed_overflow : string;
  inline_position : option string;
  inline_overflow : option string;
  inline_transition : option string;
  inline_transform : option (Q * Q * Q);    (* perspective, rotateX, rotateY *)
  overlays : list (nat * Layer);       (* owning instance, layer *)
  listeners : list (nat * Listener);   (* owning instance, event *)
}.

Definition fresh_element (pos ovf : string) : Element :=
  mkElement pos ovf None None None None [] [].

Record EffectState := mkEffectState { rx : Q; ry : Q; mx : Q; my : Q; active : bool }.

Record Instance := mkInstance {
  i_el : nat;
  i_opts : Opts;
  i_reducedMotion : bool;
  i_state : EffectState;
  i_layers : list LayerKind;      (* keys of [this._layers] *)
  i_raf : option nat;
  i_dirty : bool;
}.

Record Page := mkPage {
  elements : gmap nat Element;
  instances : gmap nat Instance;          (* live or destroyed engine objects *)
  prefersReducedMotion : bool;
  pending_frames : list (nat * nat);      (* frame request id, instance *)
  next_frame : nat;
}.

(** An element the page has not styled yet is a plain block: position
    [static], overflow [visible], nothing inline, no children. *)
Definition element_of (pg : Page) (id : nat) : Element :=
  default (fresh_element "static" "visible") (elements pg !! id).

Inductive Outcome (A : Type) :=
| Returned (a : A)
| Thrown (msg : string).
Arguments Returned {A} a.
Arguments Thrown {A} msg.

Definition set_elements (f : gmap nat Element -> gmap nat Element) (pg : Page) : Page :=
  mkPage (f (elements pg)) (instances pg) (prefersReducedMotion pg)
         (pending_frames pg) (next_frame pg).

Definition set_instances (f : gmap nat Instance -> gmap nat Instance) (pg : Page) : Page :=
  mkPage (elements pg) (f (instances pg)) (prefersReducedMotion pg)
         (pending_frames pg) (next_frame pg).

Definition with_state (f : EffectState -> EffectState) (i : Instance) : Instance :=
  mkInstance (i_el i) (i_opts i) (i_reducedMotion i) (f (i_state i))
             (i_layers i) (i_raf i) (i_dirty i).

(** ** [_setup] *)

Definition fix_position (e : Element) : Element :=
  if String.eqb (computed_position e) "static"
  then mkElement (computed_position e) (computed_overflow e) (Some "relative"%string)
         (inline_overflow e) (inline_transition e) (inline_transform e)
         (overlays e) (listeners e)
  else e.

Definition fix_overflow (e : Element) : Element :=
  if negb (String.eqb (computed_overflow e) "hidden")
  then mkElement (computed_position e) (computed_overflow e) (inline_position e)
         (Some "hidden"%string) (inline_transition e) (inline_transform e)
         (overlays e) (listeners e)
  else e.

(** [_makeLayer(cls)] followed by the blend mode assignment. *)
Definition add_layer (owner : nat) (k : LayerKind) (blend : option string)
    (e : Element) : Element :=
  mkElement (computed_position e) (computed_overflow e) (inline_position e)
    (inline_overflow e) (inline_transition e) (inline_transform e)
    (overlays e ++ [(owner, mkLayer k blend Unpainted None)]) (listeners e).

Definition setup_layers (o : Opts) : list (LayerKind * option string) :=
  (if holographic o then [(HoloColor, Some "overlay"%string)] else []) ++
  (if shimmer o then [(HoloShimmer, Some "soft-light"%string)] else []) ++
  (if glare o then [(HoloGlare, None)] else []).

Definition _setup (owner : nat) (o : Opts) (reduced : bool) (e : Element)
    : Element * list LayerKind :=
  let e1 := fix_overflow (fix_position e) in
  if reduced then (e1, [])
  else (foldl (fun acc kb => add_layer owner (fst kb) (snd kb) acc) e1 (setup_layers o),
        map fst (setup_layers o)).

(** ** [_bindEvents] *)

Definition bound_events : list Listener :=
  [OnMouseMove; OnMouseEnter; OnMouseLeave; OnTouchMove; OnTouchStart; OnTouchEnd].

Definition _bindEvents (owner : nat) (e : Element) : Element :=
  mkElement (computed_position e) (computed_overflow e) (inline_position e)
    (inline_overflow e) (inline_transition e) (inline_transform e)
    (overlays e) (listeners e ++ map (pair owner) bound_events).

(** ** [_render] *)

Definition Qclamp100 (q : Q) : Q := Qmin 100 (Qmax 0 q).

Definition paint_layer (o : Opts) (st : EffectState) (l : Layer) : Layer :=
  let opacity := if active st then hover o else idle o in
  match l_kind l with
  | HoloColor =>
      mkLayer HoloColor (l_blend l)
        (HoloGradient (45 + mx st / 5) (mx st * 0.8 + 180) (mx st * 0.8 + 240)
                      (mx st * 0.8 + 300) (mx st * 0.8 + 360))
        (Some (o_holographic opacity))
  | HoloShimmer =>
      mkLayer HoloShimmer (l_blend l) (ShimmerGradient (90 + mx st / 2))
        (Some (o_shimmer opacity))
  | HoloGlare =>
      mkLayer HoloGlare (l_blend l)
        (GlareGradient (Qclamp100 (mx st * glareMultiplier o))
                       (Qclamp100 (my st * glareMultiplier o)))
        (Some (o_glare opacity))
  end.

Definition _render (owner : nat) (i : Instance) (e : Element) : Element :=
  let o := i_opts i in
  let st := i_state i in
  mkElement (computed_position e) (computed_overflow e) (inline_position e)
    (inline_overflow e) (inline_transition e)
    (if tilt o && negb (i_reducedMotion i)
     then Some (perspective o, rx st, ry st) else inline_transform e)
    (map (fun ol => if bool_decide (fst ol = owner)
                    then (fst ol, paint_layer o st (snd ol)) else ol) (overlays e))
    (listeners e).

(** ** The constructor *)

Definition guard_message : string :=
  "HolographicEffect: first argument must be an HTMLElement".

(** [new HolographicEffect(el, opts)] called with an object as [opts].  The
    new object gets the identity [fresh (dom (instances pg))]; when the
    guard throws nothing has been allocated or touched. *)
Definition construct (el : js_value) (opts : PartialOpts) (pg : Page)
    : Outcome nat * Page :=
  if negb (truthy el) || negb (instanceof_HTMLElement el) then
    (Thrown guard_message, pg)
  else
    match el with
    | JElement id =>
        let this := fresh (dom (instances pg)) in
        let o := merge_opts opts in
        let reduced := prefersReducedMotion pg in
        let st0 := mkEffectState 0 0 50 50 false in
        let e := element_of pg id in
        let '(e1, layers) := _setup this o reduced e in
        let e2 := _bindEvents this e1 in
        let inst := mkInstance id o reduced st0 layers None false in
        let e3 := _render this inst e2 in
        (Returned this,
         set_instances (insert this inst) (set_elements (insert id e3) pg))
    | _ => (Thrown guard_message, pg)
    end.

(** What a caller may pass as the constructor's second argument: nothing or
    [undefined], for which the default parameter [opts = {}] applies;
    [null]; a boolean, number or string; or an object, given by its option
    keys. *)
Inductive OptsArg :=
| OptsUndefined
| OptsNull
| OptsPrimitive
| OptsObject (p : PartialOpts).

(** The [TypeError] of a property read on [null]; the text is the engine's. *)
Definition null_read_message : string :=
  "TypeError: Cannot read properties of null (reading 'idle')".

(** [new HolographicEffect(el, opts)] for any second argument.  After the
    guard, [{ ...DEFAULTS, ...opts }] accepts every value: spreading
    [null] or a primitive adds none of the option keys.  The next statement
    reads [opts.idle]: on [null] the read throws, before [_setup] and with
    nothing written to the page; on a primitive it gives [undefined], as on
    an object without the key. *)
Definition new_HolographicEffect (el : js_value) (opts : OptsArg) (pg : Page)
    : Outcome nat * Page :=
  if negb (truthy el) || negb (instanceof_HTMLElement el) then
    (Thrown guard_message, pg)
  else
    match opts with
    | OptsUndefined => construct el no_opts pg
    | OptsNull => (Thrown null_read_message, pg)
    | OptsPrimitive => construct el no_opts pg
    | OptsObject p => construct el p pg
    end.

(** ** Input handlers *)

(** [_scheduleRender]: at most one frame request is outstanding. *)
Definition _scheduleRender (this : nat) (pg : Page) : Page :=
  match instances pg !! this with
  | Some i =>
      if i_dirty i then pg
      else
        let f := next_frame pg in
        mkPage (elements pg)
          (<[this := mkInstance (i_el i) (i_opts i) (i_reducedMotion i) (i_state i)
                       (i_layers i) (Some f) true]> (instances pg))
          (prefersReducedMotion pg)
          (pending_frames pg ++ [(f, this)]) (S f)
  | None => pg
  end.

(** The four assignments of [_updateFromPoint(cx, cy)], on the bounding
    rectangle [rect] of the element. *)
Definition point_state (o : Opts) (rect : Rect) (cx cy : Q) (st : EffectState)
    : EffectState :=
  let x := cx - left rect in
  let y := cy - top rect in
  let halfW := width rect / 2 in
  let halfH := height rect / 2 in
  {| rx := ((y - halfH) / halfH) * - maxRotation o;
     ry := ((x - halfW) / halfW) * maxRotation o;
     mx := (x / width rect) * 100;
     my := (y / height rect) * 100;
     active := active st |}.

Definition _updateFromPoint (this : nat) (rect : Rect) (cx cy : Q) (pg : Page) : Page :=
  match instances pg !! this with
  | Some i =>
      _scheduleRender this
        (set_instances (insert this (with_state (point_state (i_opts i) rect cx cy) i)) pg)
  | None => pg
  end.

(** [_handleTouchMove]: the first touch point, if any. *)
Definition _handleTouchMove (this : nat) (rect : Rect) (touches : list (Q * Q))
    (pg : Page) : Page :=
  match touches with
  | (cx, cy) :: _ => _updateFromPoint this rect cx cy pg
  | [] => pg
  end.

Definition _handleMove (this : nat) (rect : Rect) (cx cy : Q) (pg : Page) : Page :=
  _updateFromPoint this rect cx cy pg.

(** [_handleEnter] *)
Definition _handleEnter (this : nat) (pg : Page) : Page :=
  match instances pg !! this with
  | Some i =>
      let e := element_of pg (i_el i) in
      let e' := mkElement (computed_position e) (computed_overflow e) (inline_position e)
                  (inline_overflow e)
                  (Some ("transform " ++ hoverTransition (i_opts i))%string)
                  (inline_transform e) (overlays e) (listeners e) in
      _scheduleRender this
        (set_elements (insert (i_el i) e')
           (set_instances
              (insert this (with_state (fun st => mkEffectState (rx st) (ry st) (mx st) (my st) true) i))
              pg))
  | None => pg
  end.

(** [_handleLeave]: the rotation is reset, the cursor position is kept. *)
Definition _handleLeave (this : nat) (pg : Page) : Page :=
  match instances pg !! this with
  | Some i =>
      let e := element_of pg (i_el i) in
      let e' := mkElement (computed_position e) (computed_overflow e) (inline_position e)
                  (inline_overflow e)
                  (Some ("transform " ++ leaveTransition (i_opts i))%string)
                  (inline_transform e) (overlays e) (listeners e) in
      _scheduleRender this
        (set_elements (insert (i_el i) e')
           (set_instances
              (insert this (with_state (fun st => mkEffectState 0 0 (mx st) (my st) false) i))
              pg))
  | None => pg
  end.

(** The animation frame callback: [_dirty = false; _render()]. *)
Definition run_frame (f : nat) (pg : Page) : Page :=
  match list_find (fun fr => fst fr = f) (pending_frames pg) with
  | Some (_, (_, this)) =>
      let pg1 := mkPage (elements pg) (instances pg) (prefersReducedMotion pg)
                   (filter (fun fr => fst fr <> f) (pending_frames pg)) (next_frame pg) in
      match instances pg1 !! this with
      | Some i =>
          let i' := mkInstance (i_el i) (i_opts i) (i_reducedMotion i) (i_state i)
                      (i_layers i) (i_raf i) false in
          set_elements (insert (i_el i) (_render this i' (element_of pg1 (i_el i))))
            (set_instances (insert this i') pg1)
      | None => pg1
      end
  | None => pg
  end.

(** [destroy()] *)
Definition destroy (this : nat) (pg : Page) : Page :=
  match instances pg !! this with
  | Some i =>
      let e := element_of pg (i_el i) in
      let e' := mkElement (computed_position e) (computed_overflow e) (inline_position e)
                  (inline_overflow e) None None
                  (filter (fun ol => fst ol <> this) (overlays e))
                  (filter (fun li => fst li <> this) (listeners e)) in
      mkPage (<[i_el i := e']> (elements pg))
        (<[this := mkInstance (i_el i) (i_opts i) (i_reducedMotion i) (i_state i)
                     [] (i_raf i) (i_dirty i)]> (instances pg))
        (prefersReducedMotion pg)
        (match i_raf i with
         | Some f => filter (fun fr => fst fr <> f) (pending_frames pg)
         | None => pending_frames pg
         end)
        (next_frame pg)
  | None => pg
  end.

(** ** Sample page *)

(** A page with nothing on it, and the page after one engine has been
    constructed with default options on element [0]. *)
Definition blank_page : Page := mkPage ∅ ∅ false [] 0.
Definition one_card_page : Page := snd (construct (JElement 0) no_opts blank_page).
Definition unit_square : Rect := mkRect 0 0 100 100.

(** ** [update(opts)] *)

Definition with_opts (o : Opts) (i : Instance) : Instance :=
  mkInstance (i_el i) o (i_reducedMotion i) (i_state i) (i_layers i) (i_raf i) (i_dirty i).

(** The options after [update(opts)]: the nested [idle] and [hover] of the
    argument are first completed from the current ones, then [Object.assign]
    copies every key the argument has over the current options. *)
Definition assign_opts (cur : Opts) (p : PartialOpts) : Opts := {|
  maxRotation := default (maxRotation cur) (p_maxRotation p);
  perspective := default (perspective cur) (p_perspective p);
  glareMultiplier := default (glareMultiplier cur) (p_glareMultiplier p);
  hoverTransition := default (hoverTransition cur) (p_hoverTransition p);
  leaveTransition := default (leaveTransition cur) (p_leaveTransition p);
  tilt := default (tilt cur) (p_tilt p);
  holographic := default (holographic cur) (p_holographic p);
  shimmer := default (shimmer cur) (p_shimmer p);
  glare := default (glare cur) (p_glare p);
  idle := merge_opacity (idle cur) (p_idle p);
  hover := merge_opacity (hover cur) (p_hover p);
|}.

Definition update (this : nat) (p : PartialOpts) (pg : Page) : Page :=
  match instances pg !! this with
  | Some i =>
      _scheduleRender this
        (set_instances (insert this (with_opts (assign_opts (i_opts i) p) i)) pg)
  | None => pg
  end.

(** ** Events reaching an element

    [_bindEvents] registers six listeners; the browser runs, for an event on
    the element, the listeners registered for its type, in registration
    order.  [rect] is what [getBoundingClientRect()] returns for the element
    while the event is handled. *)

Inductive DomEvent :=
| MouseMove (cx cy : Q)
| MouseEnter
| MouseLeave
| TouchMove (touches : list (Q * Q))
| TouchStart
| TouchEnd.

Definition event_type (ev : DomEvent) : Listener :=
  match ev with
  | MouseMove _ _ => OnMouseMove
  | MouseEnter => OnMouseEnter
  | MouseLeave => OnMouseLeave
  | TouchMove _ => OnTouchMove
  | TouchStart => OnTouchStart
  | TouchEnd => OnTouchEnd
  end.

(** The method [_bindEvents] bound to each event type. *)
Definition handle (this : nat) (rect : Rect) (ev : DomEvent) (pg : Page) : Page :=
  match ev with
  | MouseMove cx cy => _handleMove this rect cx cy pg
  | MouseEnter | TouchStart => _handleEnter this pg
  | MouseLeave | TouchEnd => _handleLeave this pg
  | TouchMove touches => _handleTouchMove this rect touches pg
  end.

Definition dispatch (id : nat) (rect : Rect) (ev : DomEvent) (pg : Page) : Page :=
  foldl (fun acc li => if bool_decide (snd li = event_type ev)
                       then handle (fst li) rect ev acc else acc)
        pg (listeners (element_of pg id)).

(** ** What can happen to a page *)

Inductive Action :=
| New (el : js_value) (opts : PartialOpts)
| Deliver (id : nat) (rect : Rect) (ev : DomEvent)
| Frame (f : nat)
| Update (this : nat) (opts : PartialOpts)
| Destroy (this : nat).

Definition act (pg : Page) (a : Action) : Page :=
  match a with
  | New el opts => snd (construct el opts pg)
  | Deliver id rect ev => dispatch id rect ev pg
  | Frame f => run_frame f pg
  | Update this opts => update this opts pg
  | Destroy this => destroy this pg
  end.

Definition acts (pg : Page) (l : list Action) : Page := foldl act pg l.

(** A method call on the object [this]. *)
Definition calls (this : nat) (a : Action) : bool :=
  match a with
  | Update t _ | Destroy t => bool_decide (t = this)
  | _ => false
  end.

(** Construction and destruction, the two actions that add or remove
    layers. *)
Definition builds (a : Action) : bool :=
  match a with
  | New _ _ | Destroy _ => true
  | _ => false
  end.

(** ** Predicates on pages used in the statements *)

(** The frame requests outstanding for one engine object. *)
Definition frames_of (this : nat) (pg : Page) : list (nat * nat) :=
  filter (fun fr => snd fr = this) (pending_frames pg).

(** Owner, kind and blend mode of the layers of an element, in order. *)
Definition layer_skeleton (e : Element) : list (nat * LayerKind * option string) :=
  map (fun ol => (fst ol, l_kind (snd ol), l_blend (snd ol))) (overlays e).

(** Pages as the engine builds them: frame request ids are below
    [next_frame] and pairwise different, a requested frame is the one its
    engine object remembers, layers and listeners belong to engine objects
    constructed on that element, and every engine object carries the page's
    reduced-motion preference. *)
Record page_ok (pg : Page) : Prop := mkPageOk {
  ok_frame_ids : forall f this, (f, this) ∈ pending_frames pg -> (f < next_frame pg)%nat;
  ok_frame_nodup : NoDup (fst <$> pending_frames pg);
  ok_frame_owner : forall f this, (f, this) ∈ pending_frames pg ->
    exists i, instances pg !! this = Some i /\ i_raf i = Some f /\ i_dirty i = true;
  ok_overlays : forall id o, o ∈ (fst <$> overlays (element_of pg id)) ->
    exists i, instances pg !! o = Some i /\ i_el i = id;
  ok_listeners : forall id o, o ∈ (fst <$> listeners (element_of pg id)) ->
    exists i, instances pg !! o = Some i /\ i_el i = id;
  ok_reduced : forall this i, instances pg !! this = Some i ->
    i_reducedMotion i = prefersReducedMotion pg;
}.

(** Nothing on the page refers to the engine object [this]: no layer, no
    listener, no frame request. *)
Definition detached (this : nat) (pg : Page) : Prop :=
  (forall id, (this ∉ (fst <$> overlays (element_of pg id))) /\
              (this ∉ (fst <$> listeners (element_of pg id)))) /\
  frames_of this pg = [].

(** [pg'] has nothing for the engine object [this] that [pg] did not have:
    the object itself is as it was, and it owns no new layer, listener or
    frame request. *)
Definition untouched (this : nat) (pg pg' : Page) : Prop :=
  instances pg' !! this = instances pg !! this /\
  (forall id, this ∈ (fst <$> overlays (element_of pg' id)) ->
              this ∈ (fst <$> overlays (element_of pg id))) /\
  (forall id, this ∈ (fst <$> listeners (element_of pg' id)) ->
              this ∈ (fst <$> listeners (element_of pg id))) /\
  (forall fr, fr ∈ frames_of this pg' -> fr ∈ frames_of this pg).

(** A page on which no engine has been constructed yet. *)
Definition empty_page (reduced : bool) : Page := mkPage ∅ ∅ reduced [] 0.

(** ** [autoInit]

    [el.dataset] gives each [data-holographic-*] attribute as a string, or
    nothing when the attribute is absent.  [querySelectorAll] returns the
    matching elements in document order; an element that is not an
    [HTMLElement] (an SVG element, say) is carried as [JObject].  The
    [_holographic] property is kept per element. *)

Record DataSet := mkDataSet {
  holographicMaxRotation : option string;
  holographicPerspective : option string;
  holographicTilt : option string;
  holographicShimmer : option string;
  holographicGlare : option string;
  holographicEffect : option string;
}.

Record Document := mkDocument {
  page : Page;
  marked : list (js_value * DataSet);
  holographic_prop : gmap nat nat;       (* element, engine object *)
}.

Section AutoInit.

(** [Number(s)] on the text of an attribute, as the runtime computes it. *)
Variable Number : string -> Q.

(** [if (ds.key) opts.key = Number(ds.key)]: the empty string is falsy. *)
Definition number_attr (a : option string) : option Q :=
  match a with
  | Some s => if String.eqb s "" then None else Some (Number s)
  | None => None
  end.

(** [if (ds.key === 'false') opts.key = false] *)
Definition false_attr (a : option string) : option bool :=
  match a with
  | Some s => if String.eqb s "false" then Some false else None
  | None => None
  end.

Definition dataset_opts (ds : DataSet) : PartialOpts :=
  mkPartialOpts (number_attr (holographicMaxRotation ds))
    (number_attr (holographicPerspective ds)) None None None
    (false_attr (holographicTilt ds)) (false_attr (holographicEffect ds))
    (false_attr (holographicShimmer ds)) (false_attr (holographicGlare ds)) None None.

(** [el._holographic] is truthy. *)
Definition initialized (d : Document) (el : js_value) : bool :=
  match el with
  | JElement id => bool_decide (is_Some (holographic_prop d !! id))
  | _ => false
  end.

(** The callback given to [forEach], for one element. *)
Definition init_one (d : Document) (m : js_value * DataSet) : Outcome unit * Document :=
  if initialized d (fst m) then (Returned tt, d)
  else
    match construct (fst m) (dataset_opts (snd m)) (page d) with
    | (Returned this, pg') =>
        (Returned tt,
         mkDocument pg' (marked d)
           (match fst m with
            | JElement id => <[id := this]> (holographic_prop d)
            | _ => holographic_prop d
            end))
    | (Thrown msg, pg') => (Thrown msg, mkDocument pg' (marked d) (holographic_prop d))
    end.

(** [forEach]: an exception thrown by the callback ends the loop. *)
Fixpoint init_all (ms : list (js_value * DataSet)) (d : Document)
    : Outcome unit * Document :=
  match ms with
  | [] => (Returned tt, d)
  | m :: ms' =>
      match init_one d m with
      | (Returned _, d') => init_all ms' d'
      | (Thrown msg, d') => (Thrown msg, d')
      end
  end.

Definition autoInit (d : Document) : Outcome unit * Document := init_all (marked d) d.

End AutoInit.

End Holographic.

(* ====================================================================== *)
(** * The application: card registry and pointer state machine            *)
(* ====================================================================== *)

Module App.

(** ** Constants *)

Definition CARD_COUNT : nat := 6.
Definition MAX_FIELD : nat := 3.
Definition HOLD_DELAY : nat := 400.
Definition DRAG_THRESHOLD : Q := 8.

(** The field limit the README announces. *)
Definition README_field_limit : nat := 2.

(** ** The document *)

(** Children of the three containers the script moves nodes between.  A card
    object is identified by a number, and so is its [slot] element. *)
Inductive Node :=
| Slot (c : nat)
| Placeholder (p : nat).

#[export] Instance Node_eq_dec : EqDecision Node.
Proof. solve_decision. Defined.

Inductive Container := Hand | PlayArea | Body.

#[export] Instance Container_eq_dec : EqDecision Container.
Proof. solve_decision. Defined.

Record Dom := mkDom {
  hand_children : list Node;
  play_children : list Node;
  body_children : list Node;
}.

Definition children (k : Container) (d : Dom) : list Node :=
  match k with
  | Hand => hand_children d
  | PlayArea => play_children d
  | Body => body_children d
  end.

Definition set_children (k : Container) (l : list Node) (d : Dom) : Dom :=
  match k with
  | Hand => mkDom l (play_children d) (body_children d)
  | PlayArea => mkDom (hand_children d) l (body_children d)
  | Body => mkDom (hand_children d) (play_children d) l
  end.

Definition without (n : Node) (l : list Node) : list Node :=
  filter (fun x => x <> n) l.

(** [n.remove()]; also the first half of every insertion, which takes the
    node out of its current parent. *)
Definition dom_remove (n : Node) (d : Dom) : Dom :=
  mkDom (without n (hand_children d)) (without n (play_children d))
        (without n (body_children d)).

Definition parentNode (n : Node) (d : Dom) : option Container :=
  if bool_decide (n ∈ hand_children d) then Some Hand
  else if bool_decide (n ∈ play_children d) then Some PlayArea
  else if bool_decide (n ∈ body_children d) then Some Body
  else None.

Definition appendChild (k : Container) (n : Node) (d : Dom) : Dom :=
  let d' := dom_remove n d in
  set_children k (children k d' ++ [n]) d'.

Fixpoint insert_before (ref n : Node) (l : list Node) : list Node :=
  match l with
  | [] => []
  | x :: l' => if bool_decide (x = ref) then n :: x :: l' else x :: insert_before ref n l'
  end.

(** [k.insertBefore(n, ref)]: [None] is the [NotFoundError] raised when
    [ref] is not a child of [k]; inserting a node before itself leaves the
    tree as it is. *)
Definition insertBefore (k : Container) (n ref : Node) (d : Dom) : option Dom :=
  if bool_decide (ref ∈ children k d) then
    if bool_decide (n = ref) then Some d
    else
      let d' := dom_remove n d in
      Some (set_children k (insert_before ref n (children k d')) d')
  else None.

Fixpoint next_in (n : Node) (l : list Node) : option Node :=
  match l with
  | [] => None
  | x :: l' => if bool_decide (x = n) then head l' else next_in n l'
  end.

(** [n.nextSibling] *)
Definition nextSibling (n : Node) (d : Dom) : option Node :=
  match parentNode n d with
  | Some k => next_in n (children k d)
  | None => None
  end.

(** [Array.from(hand.querySelectorAll('.card-slot'))], as card identities. *)
Definition slots_of (l : list Node) : list nat :=
  omap (fun n => match n with Slot c => Some c | Placeholder _ => None end) l.

(** ** Card objects and effect instances *)

Inductive Element := Inner (c : nat) | LightboxCard.

#[export] Instance Element_eq_dec : EqDecision Element.
Proof. solve_decision. Defined.

(** An engine instance as the application sees it: the element it was
    constructed on and whether [destroy()] has been called on it. *)
Record EffectInst := mkEffectInst { eff_el : Element; eff_destroyed : bool }.

(** A card object [{ slot, inner, img, holoEffect }] with the state of its
    slot element: the custom properties [--i] and [--n], the classes
    [hovered] and [dragging], and the four inline lengths (in px, [None] for
    the empty string). *)
Record CardObj := mkCardObj {
  style_i : nat;
  style_n : nat;
  cls_hovered : bool;
  cls_dragging : bool;
  style_left : option Q;
  style_top : option Q;
  style_width : option Q;
  style_height : option Q;
  holoEffect : nat;
}.

Definition set_index (i n : nat) (o : CardObj) : CardObj :=
  mkCardObj i n (cls_hovered o) (cls_dragging o) (style_left o) (style_top o)
            (style_width o) (style_height o) (holoEffect o).

Definition set_hovered (b : bool) (o : CardObj) : CardObj :=
  mkCardObj (style_i o) (style_n o) b (cls_dragging o) (style_left o) (style_top o)
            (style_width o) (style_height o) (holoEffect o).

Definition set_dragging (b : bool) (o : CardObj) : CardObj :=
  mkCardObj (style_i o) (style_n o) (cls_hovered o) b (style_left o) (style_top o)
            (style_width o) (style_height o) (holoEffect o).

Definition set_box (l t w h : option Q) (o : CardObj) : CardObj :=
  mkCardObj (style_i o) (style_n o) (cls_hovered o) (cls_dragging o) l t w h
            (holoEffect o).

Definition set_holoEffect (e : nat) (o : CardObj) : CardObj :=
  mkCardObj (style_i o) (style_n o) (cls_hovered o) (cls_dragging o) (style_left o)
            (style_top o) (style_width o) (style_height o) e.

(** ** The gesture session *)

Record PointerState := mkPointerState {
  card : nat;
  pointerId : nat;
  startX : Q;
  startY : Q;
  offsetX : Q;
  offsetY : Q;
  isDragging : bool;
  holdTimer : nat;
  placeholder : option nat;
  originalIndex : Z;
}.

Definition set_isDragging (b : bool) (ps : PointerState) : PointerState :=
  mkPointerState (card ps) (pointerId ps) (startX ps) (startY ps) (offsetX ps)
    (offsetY ps) b (holdTimer ps) (placeholder ps) (originalIndex ps).

Definition set_placeholder (p : option nat) (ps : PointerState) : PointerState :=
  mkPointerState (card ps) (pointerId ps) (startX ps) (startY ps) (offsetX ps)
    (offsetY ps) (isDragging ps) (holdTimer ps) p (originalIndex ps).

(** ** Observable actions, in program order

    The calls a listener makes on timers, on the session variable, on the
    lightbox and on engine objects are appended to [trace] as they happen.
    The program never reads the log; it is kept so that the order of those
    calls can be stated. *)

Inductive Obs :=
| SetTimeout (t delay : nat)
| ClearTimeout (t : nat)
| SessionSet (c : nat)
| SessionNull
| LightboxOpen
| LightboxClose
| EffectNew (id : nat) (el : Element)
| EffectDestroy (id : nat).

#[export] Instance Obs_eq_dec : EqDecision Obs.
Proof. solve_decision. Defined.

(** The number of times the lightbox was opened. *)
Definition opens (tr : list Obs) : nat :=
  length (filter (fun o => o = LightboxOpen) tr).

(** ** Program state *)

Record State := mkState {
  cards : list nat;
  playedCards : list nat;
  isFan : bool;
  lightboxEffect : option nat;
  pointerState : option PointerState;
  objs : gmap nat CardObj;            (* the card objects, by identity *)
  effects : gmap nat EffectInst;      (* the engine objects, by identity *)
  doc : Dom;
  hand_flat : bool;                   (* class [flat] on the hand *)
  toggle_text : option string;      (* label written by the toggle, if any *)
  lightbox_active : bool;             (* class [active] on the lightbox *)
  drop_hover : bool;                  (* classes on the play area *)
  field_full : bool;
  timers : list (nat * nat);          (* armed timeouts: id, delay *)
  next_timer : nat;
  next_placeholder : nat;
  trace : list Obs;
}.

Definition set_cards (f : list nat -> list nat) (s : State) : State :=
  mkState (f (cards s)) (playedCards s) (isFan s) (lightboxEffect s) (pointerState s)
    (objs s) (effects s) (doc s) (hand_flat s) (toggle_text s) (lightbox_active s)
    (drop_hover s) (field_full s) (timers s) (next_timer s) (next_placeholder s) (trace s).

Definition set_playedCards (f : list nat -> list nat) (s : State) : State :=
  mkState (cards s) (f (playedCards s)) (isFan s) (lightboxEffect s) (pointerState s)
    (objs s) (effects s) (doc s) (hand_flat s) (toggle_text s) (lightbox_active s)
    (drop_hover s) (field_full s) (timers s) (next_timer s) (next_placeholder s) (trace s).

Definition set_layout (fan : bool) (s : State) : State :=
  mkState (cards s) (playedCards s) fan (lightboxEffect s) (pointerState s)
    (objs s) (effects s) (doc s) (negb fan)
    (Some (if fan then "Flat Layout" else "Fan Layout")%string) (lightbox_active s)
    (drop_hover s) (field_full s) (timers s) (next_timer s) (next_placeholder s) (trace s).

Definition set_lightbox (active : bool) (eff : option nat) (s : State) : State :=
  mkState (cards s) (playedCards s) (isFan s) eff (pointerState s)
    (objs s) (effects s) (doc s) (hand_flat s) (toggle_text s) active
    (drop_hover s) (field_full s) (timers s) (next_timer s) (next_placeholder s) (trace s).

Definition set_pointerState (ps : option PointerState) (s : State) : State :=
  mkState (cards s) (playedCards s) (isFan s) (lightboxEffect s) ps
    (objs s) (effects s) (doc s) (hand_flat s) (toggle_text s) (lightbox_active s)
    (drop_hover s) (field_full s) (timers s) (next_timer s) (next_placeholder s) (trace s).

Definition set_objs (f : gmap nat CardObj -> gmap nat CardObj) (s : State) : State :=
  mkState (cards s) (playedCards s) (isFan s) (lightboxEffect s) (pointerState s)
    (f (objs s)) (effects s) (doc s) (hand_flat s) (toggle_text s) (lightbox_active s)
    (drop_hover s) (field_full s) (timers s) (next_timer s) (next_placeholder s) (trace s).

Definition set_effects (f : gmap nat EffectInst -> gmap nat EffectInst) (s : State) : State :=
  mkState (cards s) (playedCards s) (isFan s) (lightboxEffect s) (pointerState s)
    (objs s) (f (effects s)) (doc s) (hand_flat s) (toggle_text s) (lightbox_active s)
    (drop_hover s) (field_full s) (timers s) (next_timer s) (next_placeholder s) (trace s).

Definition set_doc (f : Dom -> Dom) (s : State) : State :=
  mkState (cards s) (playedCards s) (isFan s) (lightboxEffect s) (pointerState s)
    (objs s) (effects s) (f (doc s)) (hand_flat s) (toggle_text s) (lightbox_active s)
    (drop_hover s) (field_full s) (timers s) (next_timer s) (next_placeholder s) (trace s).

Definition set_play_classes (hover full : bool) (s : State) : State :=
  mkState (cards s) (playedCards s) (isFan s) (lightboxEffect s) (pointerState s)
    (objs s) (effects s) (doc s) (hand_flat s) (toggle_text s) (lightbox_active s)
    hover full (timers s) (next_timer s) (next_placeholder s) (trace s).

Definition set_timers (f : list (nat * nat) -> list (nat * nat)) (nt : nat) (s : State)
    : State :=
  mkState (cards s) (playedCards s) (isFan s) (lightboxEffect s) (pointerState s)
    (objs s) (effects s) (doc s) (hand_flat s) (toggle_text s) (lightbox_active s)
    (drop_hover s) (field_full s) (f (timers s)) nt (next_placeholder s) (trace s).

Definition set_next_placeholder (n : nat) (s : State) : State :=
  mkState (cards s) (playedCards s) (isFan s) (lightboxEffect s) (pointerState s)
    (objs s) (effects s) (doc s) (hand_flat s) (toggle_text s) (lightbox_active s)
    (drop_hover s) (field_full s) (timers s) (next_timer s) n (trace s).

Definition log (o : Obs) (s : State) : State :=
  mkState (cards s) (playedCards s) (isFan s) (lightboxEffect s) (pointerState s)
    (objs s) (effects s) (doc s) (hand_flat s) (toggle_text s) (lightbox_active s)
    (drop_hover s) (field_full s) (timers s) (next_timer s) (next_placeholder s)
    (trace s ++ [o]).

(** ** Effect instances *)

Definition kill (e : EffectInst) : EffectInst := mkEffectInst (eff_el e) true.

(** [inst.destroy()] *)
Definition destroy_effect (id : nat) (s : State) : State :=
  log (EffectDestroy id)
    (set_effects (alter kill id) s).

(** [card.holoEffect.destroy()] *)
Definition destroy_card_effect (c : nat) (s : State) : State :=
  match objs s !! c with
  | Some o => destroy_effect (holoEffect o) s
  | None => s
  end.

(** [new HolographicEffect(el)] on an element of the page: the constructor's
    guard passes, and the new object has an identity no engine object has. *)
Definition new_effect (el : Element) (s : State) : nat * State :=
  let id := fresh (dom (effects s)) in
  (id, log (EffectNew id el) (set_effects (insert id (mkEffectInst el false)) s)).

(** [card.holoEffect = new HolographicEffect(card.inner)] *)
Definition attach_card_effect (c : nat) (s : State) : State :=
  let '(id, s') := new_effect (Inner c) s in
  set_objs (alter (set_holoEffect id) c) s'.

(** ** Card creation *)

Definition createCard (index total : nat) (s : State) : nat * State :=
  let c := fresh (dom (objs s)) in
  let '(e, s1) := new_effect (Inner c) s in
  (c, set_objs (insert c (mkCardObj index total false false None None None None e)) s1).

Definition initHand (s : State) : State :=
  foldl (fun st i =>
           let '(c, s1) := createCard i CARD_COUNT st in
           set_doc (appendChild Hand (Slot c)) (set_cards (fun l => l ++ [c]) s1))
        s (seq 0 CARD_COUNT).

Fixpoint reindex_from (i n : nat) (cs : list nat) (o : gmap nat CardObj)
    : gmap nat CardObj :=
  match cs with
  | [] => o
  | c :: cs' => reindex_from (S i) n cs' (alter (set_index i n) c o)
  end.

Definition reindexHand (s : State) : State :=
  set_objs (reindex_from 0 (length (cards s)) (cards s)) s.

(** The module's top-level state before [initHand()] runs. *)
Definition blank : State := {|
  cards := []; playedCards := []; isFan := true; lightboxEffect := None;
  pointerState := None; objs := ∅; effects := ∅; doc := mkDom [] [] [];
  hand_flat := false; toggle_text := None; lightbox_active := false;
  drop_hover := false; field_full := false; timers := []; next_timer := 0;
  next_placeholder := 0; trace := [] |}.

Definition initial : State := initHand blank.

(** ** Layout toggle *)

Definition on_toggle (s : State) : State := set_layout (negb (isFan s)) s.

(** ** Reset *)

(** [playedCards.pop()] *)
Definition pop (l : list nat) : option (nat * list nat) :=
  match last l with
  | Some c => Some (c, removelast l)
  | None => None
  end.

(** One turn of the [while] body, for the popped [card]. *)
Definition reset_body (c : nat) (s : State) : State :=
  let s1 := destroy_card_effect c s in
  let s2 := set_doc (appendChild Hand (Slot c)) s1 in
  let s3 := set_cards (fun l => l ++ [c]) s2 in
  attach_card_effect c s3.

(** [while (playedCards.length > 0) { ... }]; every turn pops one card, so
    [length (playedCards s)] turns are enough. *)
Fixpoint reset_loop (fuel : nat) (s : State) : State :=
  match fuel with
  | O => s
  | S fuel' =>
      match pop (playedCards s) with
      | Some (c, rest) => reset_loop fuel' (reset_body c (set_playedCards (fun _ => rest) s))
      | None => s
      end
  end.

Definition on_reset (s : State) : State :=
  reindexHand (reset_loop (length (playedCards s)) s).

(** ** Hover *)

Definition on_pointerover (target : option nat) (s : State) : State :=
  match target with
  | Some c =>
      if bool_decide (Slot c ∈ hand_children (doc s))
         && negb (default false (cls_dragging <$> objs s !! c))
      then set_objs (alter (set_hovered true) c) s
      else s
  | None => s
  end.

(** [related_inside]: [relatedTarget] is non-null and inside the slot. *)
Definition on_pointerout (target : option nat) (related_inside : bool) (s : State)
    : State :=
  match target with
  | Some c =>
      if bool_decide (Slot c ∈ hand_children (doc s)) && negb related_inside
      then set_objs (alter (set_hovered false) c) s
      else s
  | None => s
  end.

(** ** Lightbox *)

Definition openLightbox (s : State) : State :=
  let s1 := log LightboxOpen (set_lightbox true (lightboxEffect s) s) in
  let '(id, s2) := new_effect LightboxCard s1 in
  set_lightbox (lightbox_active s2) (Some id) s2.

Definition closeLightbox (s : State) : State :=
  let s1 := log LightboxClose (set_lightbox false (lightboxEffect s) s) in
  match lightboxEffect s1 with
  | Some id => set_lightbox (lightbox_active s1) None (destroy_effect id s1)
  | None => s1
  end.

(** [on_backdrop]: the click target is the lightbox or the lightbox card. *)
Definition on_lightbox_click (on_backdrop : bool) (s : State) : State :=
  if on_backdrop then closeLightbox s else s.

(** ** Timers and the session *)

Definition clearTimeout (t : nat) (s : State) : State :=
  log (ClearTimeout t)
    (set_timers (filter (fun p => fst p <> t)) (next_timer s) s).

Definition cleanupPointer (clearTimer : bool) (s : State) : State :=
  match pointerState s with
  | None => s
  | Some ps =>
      let s1 := if clearTimer then clearTimeout (holdTimer ps) s else s in
      log SessionNull (set_pointerState None s1)
  end.

(** The callback given to [setTimeout] in the [pointerdown] listener.  It
    reads the global [pointerState] when it runs. *)
Definition hold_callback (s : State) : State :=
  match pointerState s with
  | Some ps =>
      if negb (isDragging ps) then openLightbox (cleanupPointer true s) else s
  | None => s
  end.

(** The runtime running the timeout [t]: nothing happens unless [t] is still
    armed, and a timeout runs once. *)
Definition on_timer (t : nat) (s : State) : State :=
  if bool_decide (t ∈ (fst <$> timers s)) then
    hold_callback (set_timers (filter (fun p => fst p <> t)) (next_timer s) s)
  else s.

(** ** Geometry read from the browser *)

(** What the [getBoundingClientRect] calls of one listener return: the play
    area, the hand, and the slot of each card. *)
Record Layout := mkLayout {
  lay_play : Rect;
  lay_hand : Rect;
  lay_slot : nat -> Rect;
}.

Definition Qgeb (a b : Q) : bool := Qle_bool b a.

(** [x >= r.left && x <= r.right && y >= r.top && y <= r.bottom] *)
Definition over_play (x y : Q) (r : Rect) : bool :=
  Qgeb x (left r) && Qle_bool x (right r) && Qgeb y (top r) && Qle_bool y (bottom r).

(** The hand's rectangle, padded by 60 above and 20 below. *)
Definition over_hand (x y : Q) (r : Rect) : bool :=
  Qgeb x (left r) && Qle_bool x (right r) &&
  Qgeb y (top r - 60)%Q && Qle_bool y (bottom r + 20)%Q.

(** [Math.sqrt(dx * dx + dy * dy) > DRAG_THRESHOLD], with both sides squared
    (the threshold is positive). *)
Definition beyond_threshold (dx dy : Q) : bool :=
  Qltb (DRAG_THRESHOLD * DRAG_THRESHOLD)%Q (dx * dx + dy * dy)%Q.

(** [cards.indexOf(card)] *)
Definition indexOf (c : nat) (l : list nat) : Z :=
  match list_find (fun x => x = c) l with
  | Some (i, _) => Z.of_nat i
  | None => (-1)%Z
  end.

(** ** Pointer down

    [target] is the card whose slot contains the event target, if any; the
    listener sits on the hand, and [closest('.hand .card-slot')] finds that
    slot only while it is a child of the hand. *)

Definition on_pointerdown (target : option nat) (pid : nat) (x y : Q) (lay : Layout)
    (s : State) : State :=
  match target with
  | None => s
  | Some c =>
      if bool_decide (Slot c ∈ hand_children (doc s)) then
        if bool_decide (c ∈ cards s) then
          let s1 := set_objs (alter (set_hovered false) c) s in
          let rect := lay_slot lay c in
          let t := next_timer s1 in
          let s2 := log (SetTimeout t HOLD_DELAY)
                      (set_timers (fun l => l ++ [(t, HOLD_DELAY)]) (S t) s1) in
          log (SessionSet c)
            (set_pointerState
               (Some {| card := c; pointerId := pid; startX := x; startY := y;
                        offsetX := (x - left rect)%Q; offsetY := (y - top rect)%Q;
                        isDragging := false; holdTimer := t; placeholder := None;
                        originalIndex := indexOf c (cards s) |}) s2)
        else s
      else s
  end.

(** ** Listeners that may throw

    An exception raised inside a listener ends that listener; what it had
    written so far stays.  [M] threads the state through and carries the
    completion. *)

Inductive JsError := TypeError | NotFoundError.

Inductive Completion (A : Type) :=
| Normal (a : A)
| Throw (e : JsError).
Arguments Normal {A} a.
Arguments Throw {A} e.

Definition M (A : Type) : Type := State -> Completion A * State.

Definition ret {A} (a : A) : M A := fun s => (Normal a, s).

Definition bind {A B} (m : M A) (k : A -> M B) : M B :=
  fun s => match m s with
           | (Normal a, s') => k a s'
           | (Throw e, s') => (Throw e, s')
           end.

Definition get : M State := fun s => (Normal s, s).
Definition modify (f : State -> State) : M unit := fun s => (Normal tt, f s).
Definition throw {A} (e : JsError) : M A := fun s => (Throw e, s).

Notation "'let*' x ':=' m 'in' k" := (bind m (fun x => k))
  (at level 10, x name, m at level 100, k at level 200).
Notation "m ';;' k" := (bind m (fun _ => k))
  (at level 100, k at level 200, right associativity).

(** The state a listener leaves behind, thrown or not. *)
Definition run (m : M unit) (s : State) : State := snd (m s).

(** Reading the session: a property read on [null] throws. *)
Definition session : M PointerState :=
  let* s := get in
  match pointerState s with
  | Some ps => ret ps
  | None => throw TypeError
  end.

Definition update_session (f : PointerState -> PointerState) : M unit :=
  modify (fun s => set_pointerState (f <$> pointerState s) s).

(** A method call on the [placeholder] of the session, [null] until the drag
    starts. *)
Definition the_placeholder (ps : PointerState) : M nat :=
  match placeholder ps with
  | Some p => ret p
  | None => throw TypeError
  end.

(** [k.insertBefore(n, ref)] as a statement. *)
Definition do_insertBefore (k : Container) (n ref : Node) : M unit :=
  let* s := get in
  match insertBefore k n ref (doc s) with
  | Some d => modify (set_doc (fun _ => d))
  | None => throw NotFoundError
  end.

(** ** Drag and drop *)

Definition startDrag (lay : Layout) : M unit :=
  let* ps := session in
  let c := card ps in
  update_session (set_isDragging true) ;;
  (* Destroy holographic during drag *)
  modify (destroy_card_effect c) ;;
  (* Insert placeholder *)
  let* s := get in
  let p := next_placeholder s in
  modify (set_next_placeholder (S p)) ;;
  match parentNode (Slot c) (doc s) with
  | Some k => do_insertBefore k (Placeholder p) (Slot c)
  | None => throw TypeError
  end ;;
  update_session (set_placeholder (Some p)) ;;
  (* Go fixed *)
  let rect := lay_slot lay c in
  modify (set_objs (alter (set_dragging true) c)) ;;
  modify (set_objs (alter (set_box (Some (left rect)) (Some (top rect))
                                   (Some (width rect)) (Some (height rect))) c)) ;;
  (* Move to body so it floats above everything *)
  modify (set_doc (appendChild Body (Slot c))).

(** The midpoint scan: the first card of [cards], other than the dragged one,
    whose midpoint is to the right of [x]. *)
Definition midX (r : Rect) : Q := (left r + width r / 2)%Q.

Fixpoint find_insertBefore (dragged : nat) (x : Q) (lay : Layout) (cs : list nat)
    : option nat :=
  match cs with
  | [] => None
  | c :: cs' =>
      if bool_decide (c = dragged) then find_insertBefore dragged x lay cs'
      else if Qltb x (midX (lay_slot lay c)) then Some c
      else find_insertBefore dragged x lay cs'
  end.

Definition updateDrag (x y : Q) (lay : Layout) : M unit :=
  let* ps := session in
  let c := card ps in
  (* Move card with pointer *)
  modify (set_objs (alter (fun o => set_box (Some (x - offsetX ps)%Q)
                                            (Some (y - offsetY ps)%Q)
                                            (style_width o) (style_height o) o) c)) ;;
  (* Check if over play area *)
  let overPlay := over_play x y (lay_play lay) in
  let* s := get in
  let fieldFull := bool_decide (MAX_FIELD <= length (playedCards s)) in
  modify (set_play_classes (overPlay && negb fieldFull) (overPlay && fieldFull)) ;;
  (* If over hand, update placeholder position for reorder *)
  if negb overPlay then
    if over_hand x y (lay_hand lay) then
      match find_insertBefore c x lay (cards s) with
      | Some c' =>
          let* p := the_placeholder ps in
          do_insertBefore Hand (Placeholder p) (Slot c')
      | None =>
          let* p := the_placeholder ps in
          modify (set_doc (appendChild Hand (Placeholder p)))
      end
    else ret tt
  else ret tt.

(** [cards.splice(start, 1)] *)
Definition splice1 (start : Z) (l : list nat) : list nat :=
  let n := Z.of_nat (length l) in
  let from := if (start <? 0)%Z then Z.max (n + start) 0 else Z.min start n in
  delete (Z.to_nat from) l.

(** [cards.sort((a, b) => key(a) - key(b))]: the sort is stable, so the
    result is the one of a stable insertion sort on the keys. *)
Fixpoint insert_by (key : nat -> Z) (x : nat) (l : list nat) : list nat :=
  match l with
  | [] => [x]
  | y :: l' => if (key x <=? key y)%Z then x :: y :: l' else y :: insert_by key x l'
  end.

Definition sort_by (key : nat -> Z) (l : list nat) : list nat :=
  foldr (insert_by key) [] l.

Definition endDrag (x y : Q) (lay : Layout) : M unit :=
  let* ps := session in
  let c := card ps in
  (* Check drop target *)
  let overPlay := over_play x y (lay_play lay) in
  (* Remove dragging styles *)
  modify (set_objs (alter (set_dragging false) c)) ;;
  modify (set_objs (alter (set_box None None None None) c)) ;;
  modify (set_play_classes false false) ;;
  let* s := get in
  let fieldFull := bool_decide (MAX_FIELD <= length (playedCards s)) in
  (if overPlay && negb fieldFull then
     (* Drop card onto play area *)
     let* p := the_placeholder ps in
     modify (set_doc (dom_remove (Placeholder p))) ;;
     modify (set_cards (fun l => splice1 (indexOf c l) l)) ;;
     (* Reset card slot for table display *)
     modify (set_objs (alter (set_index 0 1) c)) ;;
     modify (set_doc (appendChild PlayArea (Slot c))) ;;
     modify (set_playedCards (fun l => l ++ [c])) ;;
     (* Re-init holo on table *)
     modify (attach_card_effect c) ;;
     modify reindexHand
   else
     (* Return to hand: replace placeholder with card *)
     let* p := the_placeholder ps in
     let nextSib := nextSibling (Placeholder p) (doc s) in
     modify (set_doc (dom_remove (Placeholder p))) ;;
     match nextSib with
     | Some n => do_insertBefore Hand (Slot c) n
     | None => modify (set_doc (appendChild Hand (Slot c)))
     end ;;
     (* Update cards array order to match DOM *)
     modify (fun s' =>
               let slotOrder := slots_of (hand_children (doc s')) in
               set_cards (sort_by (fun a => indexOf a slotOrder)) s') ;;
     (* Re-init holo *)
     modify (attach_card_effect c) ;;
     modify reindexHand) ;;
  modify (cleanupPointer false).

(** ** Pointer move and pointer up *)

Definition pointermove (x y : Q) (lay : Layout) : M unit :=
  let* s := get in
  match pointerState s with
  | None => ret tt
  | Some ps =>
      let dx := (x - startX ps)%Q in
      let dy := (y - startY ps)%Q in
      (if negb (isDragging ps) && beyond_threshold dx dy then
         (* Transition to drag mode *)
         modify (clearTimeout (holdTimer ps)) ;;
         startDrag lay
       else ret tt) ;;
      let* ps' := session in
      if isDragging ps' then updateDrag x y lay else ret tt
  end.

Definition pointerup (x y : Q) (lay : Layout) : M unit :=
  let* s := get in
  match pointerState s with
  | None => ret tt
  | Some ps =>
      if isDragging ps then endDrag x y lay
      else modify (cleanupPointer true)
  end.

(** ** Events and the transition function *)

Inductive Event :=
| ToggleClick
| ResetClick
| LightboxClick (on_backdrop : bool)
| PointerOver (target : option nat)
| PointerOut (target : option nat) (related_inside : bool)
| PointerDown (target : option nat) (pid : nat) (x y : Q) (lay : Layout)
| PointerMove (x y : Q) (lay : Layout)
| PointerUp (x y : Q) (lay : Layout)
| TimerFire (t : nat).

Definition step (s : State) (e : Event) : State :=
  match e with
  | ToggleClick => on_toggle s
  | ResetClick => on_reset s
  | LightboxClick b => on_lightbox_click b s
  | PointerOver t => on_pointerover t s
  | PointerOut t r => on_pointerout t r s
  | PointerDown t pid x y lay => on_pointerdown t pid x y lay s
  | PointerMove x y lay => run (pointermove x y lay) s
  | PointerUp x y lay => run (pointerup x y lay) s
  | TimerFire t => on_timer t s
  end.

Definition steps (s : State) (es : list Event) : State := foldl step s es.

(** ** Predicates on states used in the statements *)

(** Every card object refers to an engine object that exists. *)
Definition refs_ok (s : State) : Prop :=
  map_Forall (fun _ o => holoEffect o ∈ dom (effects s)) (objs s).

(** The hand is indexed: the card at position [i] of [cards] carries
    [--i = i] and [--n = cards.length]. *)
Definition indexed (s : State) : Prop :=
  forall i c, cards s !! i = Some c ->
    exists o, objs s !! c = Some o /\ style_i o = i /\ style_n o = length (cards s).

(** A test for [indexed], walking [cards] the way [reindexHand] does. *)
Fixpoint indexed_from (i n : nat) (cs : list nat) (o : gmap nat CardObj) : bool :=
  match cs with
  | [] => true
  | c :: cs' =>
      match o !! c with
      | Some obj => (style_i obj =? i) && (style_n obj =? n) && indexed_from (S i) n cs' o
      | None => false
      end
  end.

(** ** Well-formed states

    What holds of every state the script reaches as long as no second
    pointer goes down on a hand card in the middle of a drag: the two
    collections share no card, every card has its object and its engine
    object, the hand is indexed, the play area shows [playedCards] in order,
    and the hand shows [cards] in order, with the placeholder standing in for
    the dragged card while a drag is on. *)

Definition session_shape (s : State) : Prop :=
  match pointerState s with
  | Some ps =>
      card ps ∈ cards s /\
      if isDragging ps then
        exists p l1 l2,
          placeholder ps = Some p /\
          hand_children (doc s) = l1 ++ Placeholder p :: l2 /\
          l1 ++ l2 = Slot <$> filter (fun k => k <> card ps) (cards s) /\
          body_children (doc s) = [Slot (card ps)]
      else hand_children (doc s) = Slot <$> cards s /\ body_children (doc s) = []
  | None => hand_children (doc s) = Slot <$> cards s /\ body_children (doc s) = []
  end.

Record wf (s : State) : Prop := mkWf {
  wf_nodup : NoDup (cards s ++ playedCards s);
  wf_objs : forall c, c ∈ cards s ++ playedCards s -> is_Some (objs s !! c);
  wf_refs : refs_ok s;
  wf_indexed : indexed s;
  wf_table : play_children (doc s) = Slot <$> playedCards s;
  wf_session : session_shape s;
}.

(** The one thing the environment must not do: press a second pointer on a
    card of the hand while a drag is in progress. *)
Definition allowed (s : State) (e : Event) : Prop :=
  match e with
  | PointerDown (Some c) _ _ _ _ =>
      forall ps, pointerState s = Some ps -> isDragging ps = true ->
                 Slot c ∉ hand_children (doc s)
  | _ => True
  end.

Fixpoint allowed_run (s : State) (es : list Event) : Prop :=
  match es with
  | [] => True
  | e :: es' => allowed s e /\ allowed_run (step s e) es'
  end.

(** ** Sample geometry and runs

    A hand of 100 by 150 slots laid out from the left edge at [y = 500],
    below a 600 by 300 play area; [near_layout] has the play area reach down
    to [y = 480], inside the 60 px band above the hand. *)

Definition slot_at (c : nat) : Rect := mkRect (inject_Z (Z.of_nat c * 100)) 500 100 150.

Definition table_layout : Layout :=
  mkLayout (mkRect 0 0 600 300) (mkRect 0 500 600 150) slot_at.

Definition near_layout : Layout :=
  mkLayout (mkRect 0 0 600 480) (mkRect 0 500 600 150) slot_at.

(** Press on the middle of card [c] and pull it 100 px up: the drag starts. *)
Definition lift (c : nat) : list Event :=
  let x := inject_Z (Z.of_nat c * 100 + 50) in
  [PointerDown (Some c) 1 x 550 table_layout; PointerMove x 450 table_layout].

(** Lift card [c] and release it in the middle of the play area. *)
Definition play (c : nat) : list Event :=
  lift c ++ [PointerUp 300 100 table_layout].

(** Card 2 lifted out of the initial hand. *)
Definition lifted : State := steps initial (lift 2).

(** Cards 0 and 1 on the table. *)
Definition two_played : State := steps initial (play 0 ++ play 1).

(** Cards 0, 1 and 2 on the table. *)
Definition three_played : State := steps initial (play 0 ++ play 1 ++ play 2).

(** Card 2 lifted, then a second pointer pressed on card 3. *)
Definition two_pointers : State :=
  steps initial (lift 2 ++ [PointerDown (Some 3) 2 350 550 table_layout]).

(** Three cards on the table, card 3 lifted and its placeholder moved between
    cards 4 and 5. *)
Definition lifted_over_full : State :=
  steps three_played (lift 3 ++ [PointerMove 500 520 table_layout]).

(** The number of clicks on the layout toggle in a run. *)
Definition is_toggle (e : Event) : bool :=
  match e with ToggleClick => true | _ => false end.

Definition toggles (es : list Event) : nat :=
  length (filter (fun e => is_toggle e = true) es).

(** The label the toggle button shows for a layout. *)
Definition toggle_label (fan : bool) : string :=
  if fan then "Flat Layout" else "Fan Layout".

(** The drop feedback on the play area: [drop-hover] and [field-full] are
    never set together, either is set only while a card is being dragged,
    and [drop-hover] only while the table has room. *)
Definition highlight_ok (s : State) : Prop :=
  (drop_hover s = true \/ field_full s = true ->
   exists ps, pointerState s = Some ps /\ isDragging ps = true) /\
  drop_hover s && field_full s = false /\
  (drop_hover s = true -> length (playedCards s) < MAX_FIELD).

(** The engine objects that have not been destroyed. *)
Definition live (e : gmap nat EffectInst) : gmap nat EffectInst :=
  filter (fun kv => eff_destroyed (snd kv) = false) e.

(** The card a drag in progress has lifted. *)
Definition dragged (s : State) : option nat :=
  match pointerState s with
  | Some ps => if isDragging ps then Some (card ps) else None
  | None => None
  end.

(** The engine object a card refers to through [card.holoEffect]. *)
Definition engine_in (ob : gmap nat CardObj) (ef : gmap nat EffectInst) (c : nat)
    : option EffectInst :=
  match ob !! c with
  | Some o => ef !! holoEffect o
  | None => None
  end.

Definition engine_of (s : State) (c : nat) : option EffectInst :=
  engine_in (objs s) (effects s) c.

(** Every card of the hand and of the table has an engine object on its own
    [inner] element, destroyed exactly while the card is being dragged; the
    lightbox's engine, if any, is on the lightbox card. *)
Definition engines_ok (s : State) : Prop :=
  (forall c, c ∈ cards s ++ playedCards s ->
     engine_of s c = Some (mkEffectInst (Inner c) (bool_decide (dragged s = Some c)))) /\
  (forall id, lightboxEffect s = Some id ->
     exists d, effects s !! id = Some (mkEffectInst LightboxCard d)).

(** ** Proof support *)

#[export] Instance Slot_inj : Inj (=) (=) Slot.
Proof. intros a b H. injection H as ->. reflexivity. Qed.

(** Projections through the state setters. *)
Ltac state_simpl :=
  cbn [cards playedCards isFan lightboxEffect pointerState objs effects doc hand_flat
       toggle_text lightbox_active drop_hover field_full timers next_timer
       next_placeholder trace
       set_cards set_playedCards set_layout set_lightbox set_pointerState set_objs
       set_effects set_doc set_play_classes set_timers set_next_placeholder log
       reindexHand attach_card_effect new_effect destroy_effect clearTimeout
       fst snd].

(** Unfolding of the listener monad. *)
Ltac monad_unfold :=
  unfold run, session, update_session, the_placeholder, do_insertBefore;
  unfold bind, ret, get, modify, throw.

End App.

(* ====================================================================== *)
(** * Comparison of rationals                                              *)
(* ====================================================================== *)

Lemma Qltb_true (a b : Q) : Qltb a b = true <-> (a < b)%Q.
Proof.
  unfold Qltb. rewrite negb_true_iff. split.
  - intros H. apply Qnot_le_lt. intros Hle.
    apply Qle_bool_iff in Hle. congruence.
  - intros H. destruct (Qle_bool b a) eqn:E; [|reflexivity].
    apply Qle_bool_iff in E. exfalso. apply (Qlt_not_le _ _ H E).
Qed.

Lemma Qltb_false (a b : Q) : Qltb a b = false <-> (b <= a)%Q.
Proof.
  unfold Qltb. rewrite negb_false_iff. apply Qle_bool_iff.
Qed.

(* ====================================================================== *)
(** * Results about the effect engine                                      *)
(* ====================================================================== *)

Module HolographicSpec.
Import Holographic.
Open Scope Q_scope.

Lemma Qdiv_bounds (a h : Q) : 0 < h -> - h <= a <= h -> -1 <= a / h <= 1.
Proof.
  intros Hh [H1 H2]. split.
  - apply Qle_shift_div_l; [exact Hh|]. lra.
  - apply Qle_shift_div_r; [exact Hh|]. lra.
Qed.

Lemma scaled_bound (t m : Q) : 0 <= m -> -1 <= t <= 1 -> Qabs (t * m) <= m.
Proof.
  intros Hm [H1 H2]. apply Qabs_Qle_condition. split; nra.
Qed.

Lemma scaled_bound_neg (t m : Q) : 0 <= m -> -1 <= t <= 1 -> Qabs (t * - m) <= m.
Proof.
  intros Hm [H1 H2]. apply Qabs_Qle_condition. split; nra.
Qed.

(** [_scheduleRender] leaves the numbers of the instance alone. *)
Lemma scheduleRender_state (this : nat) (pg : Page) (i : Instance) :
  instances pg !! this = Some i ->
  exists i', instances (_scheduleRender this pg) !! this = Some i' /\
             i_state i' = i_state i /\ i_opts i' = i_opts i.
Proof.
  intros Hi. unfold _scheduleRender. rewrite Hi.
  destruct (i_dirty i).
  - exists i. auto.
  - eexists. cbn. rewrite lookup_insert_eq. split; [reflexivity|]. auto.
Qed.

Lemma updateFromPoint_state (this : nat) (pg : Page) (i : Instance) (rect : Rect)
    (cx cy : Q) :
  instances pg !! this = Some i ->
  exists i', instances (_updateFromPoint this rect cx cy pg) !! this = Some i' /\
             i_state i' = point_state (i_opts i) rect cx cy (i_state i) /\
             i_opts i' = i_opts i.
Proof.
  intros Hi. unfold _updateFromPoint. rewrite Hi.
  edestruct (scheduleRender_state this
    (set_instances (insert this (with_state (point_state (i_opts i) rect cx cy) i)) pg))
    as (i' & H1 & H2 & H3).
  { cbn. apply lookup_insert_eq. }
  exists i'. split; [exact H1|]. split; [exact H2 | exact H3].
Qed.

(** The numbers of [point_state], inside a rectangle of positive size. *)
Lemma point_state_inside (o : Opts) (rect : Rect) (cx cy : Q) (st : EffectState) :
  0 < width rect -> 0 < height rect -> 0 <= maxRotation o ->
  left rect <= cx <= right rect -> top rect <= cy <= bottom rect ->
  let st' := point_state o rect cx cy st in
  let m := maxRotation o in
  let dx := cx - (left rect + width rect / 2) in
  let dy := cy - (top rect + height rect / 2) in
  rx st' == dy * (- m / (height rect / 2)) /\
  ry st' == dx * (m / (width rect / 2)) /\
  Qabs (rx st') <= m /\ Qabs (ry st') <= m /\
  (dx == 0 -> ry st' == 0) /\ (dy == 0 -> rx st' == 0) /\
  (cx == left rect -> ry st' == - m) /\ (cy == top rect -> rx st' == m).
Proof.
  intros Hw Hh Hm [Hx1 Hx2] [Hy1 Hy2]. unfold right in Hx2. unfold bottom in Hy2.
  assert (EW : 2 * (width rect / 2) == width rect) by field.
  assert (EH : 2 * (height rect / 2) == height rect) by field.
  cbn zeta. unfold point_state; cbn [rx ry].
  set (hW := width rect / 2) in *. set (hH := height rect / 2) in *.
  assert (HhW : ~ hW == 0) by lra.
  assert (HhH : ~ hH == 0) by lra.
  repeat split.
  - field. exact HhH.
  - field. exact HhW.
  - apply scaled_bound_neg; [exact Hm|]. apply Qdiv_bounds; lra.
  - apply scaled_bound; [exact Hm|]. apply Qdiv_bounds; lra.
  - intros E.
    assert (E' : cx - left rect - hW == 0) by lra.
    rewrite E'. field. exact HhW.
  - intros E.
    assert (E' : cy - top rect - hH == 0) by lra.
    rewrite E'. field. exact HhH.
  - intros E. rewrite E. field. exact HhW.
  - intros E. rewrite E. field. exact HhH.
Qed.

(** C7 (as amended).  For a pointer position inside the element's bounding
    rectangle, [_updateFromPoint] stores rotations that are proportional to
    the signed offset of the pointer from the centre (the vertical offset
    drives [rx] with the sign inverted, the horizontal offset drives [ry]),
    of magnitude at most [maxRotation]; at the centre both are [0], and at the
    top-left corner [rx] is [+maxRotation] and [ry] is [-maxRotation]. *)
Theorem rotation_within_element (pg : Page) (this : nat) (i : Instance) (rect : Rect)
    (cx cy : Q) :
  instances pg !! this = Some i ->
  0 < width rect -> 0 < height rect -> 0 <= maxRotation (i_opts i) ->
  left rect <= cx <= right rect -> top rect <= cy <= bottom rect ->
  exists i', instances (_updateFromPoint this rect cx cy pg) !! this = Some i' /\
    let st' := i_state i' in
    let m := maxRotation (i_opts i) in
    let dx := cx - (left rect + width rect / 2) in
    let dy := cy - (top rect + height rect / 2) in
    rx st' == dy * (- m / (height rect / 2)) /\
    ry st' == dx * (m / (width rect / 2)) /\
    Qabs (rx st') <= m /\ Qabs (ry st') <= m /\
    (dx == 0 -> ry st' == 0) /\ (dy == 0 -> rx st' == 0) /\
    (cx == left rect -> ry st' == - m) /\ (cy == top rect -> rx st' == m).
Proof.
  intros Hi Hw Hh Hm Hx Hy.
  destruct (updateFromPoint_state this pg i rect cx cy Hi) as (i' & H1 & H2 & _).
  exists i'. split; [exact H1|]. cbn zeta. rewrite H2.
  apply (point_state_inside (i_opts i) rect cx cy (i_state i) Hw Hh Hm Hx Hy).
Qed.

(** The theorem at the top-left corner of a 100 by 100 element carrying a
    default engine. *)
Lemma rotation_within_element_witness :
  exists i', instances (_updateFromPoint 0 unit_square 0 0 one_card_page) !! 0%nat = Some i' /\
             rx (i_state i') == 15 /\ ry (i_state i') == - (15).
Proof.
  assert (Hi : instances one_card_page !! 0%nat =
               Some (mkInstance 0 DEFAULTS false (mkEffectState 0 0 50 50 false)
                       [HoloColor; HoloShimmer; HoloGlare] None false))
    by (vm_compute; reflexivity).
  destruct (rotation_within_element one_card_page 0 _ unit_square 0 0 Hi)
    as (i' & H1 & _ & _ & _ & _ & _ & _ & H7 & H8).
  - reflexivity.
  - reflexivity.
  - discriminate.
  - split; discriminate.
  - split; discriminate.
  - exists i'. split; [exact H1|]. split.
    + apply H8. reflexivity.
    + apply H7. reflexivity.
Defined.

(** C7 (as stated) fails: no clamp is applied.  A touch that started on the
    element keeps reporting to it after the finger has left it; at
    [(200, 50)] on a 100 by 100 element the stored [ry] is 45, three times
    the default [maxRotation] of 15. *)
Lemma rotation_not_clamped :
  ~ (forall (pg : Page) (this : nat) (i i' : Instance) (rect : Rect) (cx cy : Q),
       instances pg !! this = Some i ->
       0 < width rect -> 0 < height rect -> 0 <= maxRotation (i_opts i) ->
       instances (_updateFromPoint this rect cx cy pg) !! this = Some i' ->
       Qabs (rx (i_state i')) <= maxRotation (i_opts i) /\
       Qabs (ry (i_state i')) <= maxRotation (i_opts i)).
Proof.
  intros H.
  pose (pg' := _handleTouchMove 0 unit_square [(200, 50)] one_card_page).
  destruct (instances pg' !! 0%nat) as [i'|] eqn:E; [|vm_compute in E; discriminate].
  destruct (H one_card_page 0%nat
              (mkInstance 0 DEFAULTS false (mkEffectState 0 0 50 50 false)
                 [HoloColor; HoloShimmer; HoloGlare] None false)
              i' unit_square 200 50) as [_ Hry].
  - vm_compute; reflexivity.
  - reflexivity.
  - reflexivity.
  - discriminate.
  - exact E.
  - vm_compute in E. injection E as <-. vm_compute in Hry. apply Hry. reflexivity.
Qed.

(** The constructor called with an options object: the guard is its only
    source of failure. *)
Lemma construct_outcome (el : js_value) (opts : PartialOpts) (pg : Page) :
  (~ (truthy el = true /\ instanceof_HTMLElement el = true) ->
   construct el opts pg = (Thrown guard_message, pg)) /\
  (truthy el = true /\ instanceof_HTMLElement el = true ->
   exists this, fst (construct el opts pg) = Returned this /\
                (this ∉ dom (instances pg)) /\
                is_Some (instances (snd (construct el opts pg)) !! this)).
Proof.
  assert (Hfresh : fresh (dom (instances pg)) ∉ dom (instances pg)) by apply is_fresh.
  destruct (instanceof_HTMLElement el) eqn:Ei.
  - destruct el as [| |b|q|s| |id]; try discriminate Ei.
    unfold construct. cbn [truthy instanceof_HTMLElement negb orb].
    destruct (_setup _ _ _ _) as [e1 layers] eqn:Es.
    split.
    + intros Hn. exfalso. apply Hn. split; reflexivity.
    + intros _. eexists. split; [reflexivity|]. split; [exact Hfresh|].
      cbn. rewrite lookup_insert_eq. eexists; reflexivity.
  - split.
    + intros _. unfold construct. rewrite Ei. rewrite orb_true_r. reflexivity.
    + intros [_ ?]. discriminate.
Qed.

Lemma guard_passes (el : js_value) :
  truthy el = true /\ instanceof_HTMLElement el = true ->
  negb (truthy el) || negb (instanceof_HTMLElement el) = false.
Proof. intros [-> ->]. reflexivity. Qed.

Lemma guard_fails (el : js_value) :
  ~ (truthy el = true /\ instanceof_HTMLElement el = true) ->
  negb (truthy el) || negb (instanceof_HTMLElement el) = true.
Proof.
  intros Hn. destruct (truthy el), (instanceof_HTMLElement el); try reflexivity.
  exfalso. apply Hn. split; reflexivity.
Qed.

(** C9 (amended).  The constructor throws exactly when its first argument is
    falsy or not an [HTMLElement], or its second argument is [null].  On a
    bad first argument it throws the guard's message, whatever the second
    argument is; on an element and [null] options it throws the [TypeError]
    of the read [opts.idle].  Either way the page is untouched: no object
    allocated, no style, layer or listener written.  On an element and any
    other second argument it returns a new object. *)
Theorem constructor_throws_iff (el : js_value) (opts : OptsArg) (pg : Page) :
  ((exists msg, fst (new_HolographicEffect el opts pg) = Thrown msg) <->
   (~ (truthy el = true /\ instanceof_HTMLElement el = true) \/ opts = OptsNull)) /\
  (~ (truthy el = true /\ instanceof_HTMLElement el = true) ->
   new_HolographicEffect el opts pg = (Thrown guard_message, pg)) /\
  (truthy el = true /\ instanceof_HTMLElement el = true -> opts = OptsNull ->
   new_HolographicEffect el opts pg = (Thrown null_read_message, pg)) /\
  (truthy el = true /\ instanceof_HTMLElement el = true -> opts <> OptsNull ->
   exists this, fst (new_HolographicEffect el opts pg) = Returned this /\
                (this ∉ dom (instances pg)) /\
                is_Some (instances (snd (new_HolographicEffect el opts pg)) !! this)).
Proof.
  assert (Hbad : ~ (truthy el = true /\ instanceof_HTMLElement el = true) ->
                 new_HolographicEffect el opts pg = (Thrown guard_message, pg)).
  { intros Hn. unfold new_HolographicEffect. rewrite (guard_fails el Hn). reflexivity. }
  assert (Hnull : truthy el = true /\ instanceof_HTMLElement el = true -> opts = OptsNull ->
                  new_HolographicEffect el opts pg = (Thrown null_read_message, pg)).
  { intros Hv ->. unfold new_HolographicEffect. rewrite (guard_passes el Hv). reflexivity. }
  assert (Hgood : truthy el = true /\ instanceof_HTMLElement el = true -> opts <> OptsNull ->
            exists this, fst (new_HolographicEffect el opts pg) = Returned this /\
              (this ∉ dom (instances pg)) /\
              is_Some (instances (snd (new_HolographicEffect el opts pg)) !! this)).
  { intros Hv Hne. unfold new_HolographicEffect. rewrite (guard_passes el Hv).
    destruct opts as [| | |p]; [| exfalso; apply Hne; reflexivity | |];
      apply construct_outcome; exact Hv. }
  split; [|split; [exact Hbad | split; [exact Hnull | exact Hgood]]].
  split.
  - intros [msg Hm].
    destruct (truthy el) eqn:Et; [|left; intros [? _]; discriminate].
    destruct (instanceof_HTMLElement el) eqn:Ei; [|left; intros [_ ?]; discriminate].
    destruct opts as [| | |p]; [|right; reflexivity| |];
      exfalso;
      (destruct Hgood as (this & Hr & _); [split; reflexivity | discriminate |]);
      rewrite Hr in Hm; discriminate Hm.
  - intros [Hn | ->].
    + exists guard_message. rewrite (Hbad Hn). reflexivity.
    + destruct (truthy el) eqn:Et;
        [|exists guard_message; rewrite Hbad; [reflexivity | intros [? _]; discriminate]].
      destruct (instanceof_HTMLElement el) eqn:Ei;
        [|exists guard_message; rewrite Hbad; [reflexivity | intros [_ ?]; discriminate]].
      exists null_read_message. rewrite Hnull; [reflexivity | split; reflexivity | reflexivity].
Qed.

(** C9 (as stated) fails in its "only if" half: on a valid element with
    [null] as options the guard passes and the constructor throws at
    [opts.idle]. *)
Lemma null_options_throw_on_element :
  ~ (forall (el : js_value) (opts : OptsArg) (pg : Page),
       (exists msg, fst (new_HolographicEffect el opts pg) = Thrown msg) <->
       ~ (truthy el = true /\ instanceof_HTMLElement el = true)).
Proof.
  intros H.
  destruct (H (JElement 0) OptsNull blank_page) as [H1 _].
  apply H1; [exists null_read_message; reflexivity | split; reflexivity].
Qed.

End HolographicSpec.

(* ====================================================================== *)
(** * Results about the application                                        *)
(* ====================================================================== *)

Module AppSpec.
Import App.

Lemma pop_snoc (l : list nat) (c : nat) : pop (l ++ [c]) = Some (c, l).
Proof.
  unfold pop. rewrite last_snoc. rewrite removelast_last. reflexivity.
Qed.

Lemma reindex_from_lookup_notin (cs : list nat) (i n : nat) (o : gmap nat CardObj) (c : nat) :
  c ∉ cs -> reindex_from i n cs o !! c = o !! c.
Proof.
  revert i o. induction cs as [|c' cs IH]; intros i o Hc; [reflexivity|].
  apply not_elem_of_cons in Hc as [Hne Hc].
  cbn. rewrite IH by exact Hc. apply lookup_alter_ne. congruence.
Qed.

Lemma reindex_from_holoEffect (cs : list nat) (i n : nat) (o : gmap nat CardObj) (c : nat) :
  holoEffect <$> reindex_from i n cs o !! c = holoEffect <$> o !! c.
Proof.
  revert i o. induction cs as [|c' cs IH]; intros i o; [reflexivity|].
  cbn. rewrite IH. destruct (decide (c' = c)) as [->|Hne].
  - rewrite lookup_alter_eq. destruct (o !! c); reflexivity.
  - rewrite lookup_alter_ne by exact Hne. reflexivity.
Qed.

Lemma reset_loop_cards (l : list nat) (s : State) :
  playedCards s = l ->
  playedCards (reset_loop (length l) s) = [] /\
  cards (reset_loop (length l) s) = cards s ++ rev l.
Proof.
  revert s. induction l as [|c l IH] using rev_ind; intros s Hs.
  - cbn. rewrite Hs. split; [reflexivity|]. rewrite app_nil_r. reflexivity.
  - rewrite length_app. cbn [length]. rewrite Nat.add_1_r. cbn [reset_loop].
    rewrite Hs, pop_snoc.
    destruct (IH (reset_body c (set_playedCards (fun _ => l) s))) as [H1 H2].
    { unfold reset_body, attach_card_effect, destroy_card_effect. cbn.
      destruct (objs s !! c); reflexivity. }
    split; [exact H1|]. rewrite H2. rewrite rev_app_distr. cbn.
    unfold reset_body, attach_card_effect, destroy_card_effect. cbn.
    destruct (objs s !! c); cbn; rewrite <- app_assoc; reflexivity.
Qed.

(** The engine objects after one turn of the reset loop. *)
Lemma reset_body_objs (c : nat) (s : State) :
  objs (reset_body c s) = alter (set_holoEffect (fresh (dom (effects s)))) c (objs s).
Proof.
  unfold reset_body, attach_card_effect, destroy_card_effect.
  destruct (objs s !! c) as [o|]; cbn; [|reflexivity].
  rewrite dom_alter_L. reflexivity.
Qed.

Lemma reset_body_effects (c : nat) (s : State) :
  effects (reset_body c s) =
  <[fresh (dom (effects s)) := mkEffectInst (Inner c) false]>
    (match objs s !! c with
     | Some o => alter kill (holoEffect o) (effects s)
     | None => effects s
     end).
Proof.
  unfold reset_body, attach_card_effect, destroy_card_effect.
  destruct (objs s !! c) as [o|]; cbn; [|reflexivity].
  rewrite dom_alter_L. reflexivity.
Qed.

Lemma reset_body_playedCards (c : nat) (s : State) :
  playedCards (reset_body c s) = playedCards s.
Proof.
  unfold reset_body, attach_card_effect, destroy_card_effect.
  destruct (objs s !! c); reflexivity.
Qed.

Lemma kill_eta (e e' : EffectInst) :
  eff_el e' = eff_el e -> eff_destroyed e' = true -> e' = kill e.
Proof. destruct e, e'; cbn; intros -> ->; reflexivity. Qed.

(** What the loop does to one engine object of the old state. *)
Lemma reset_body_old_effect (c : nat) (s : State) (id : nat) (e : EffectInst) :
  effects s !! id = Some e ->
  exists e1, effects (reset_body c s) !! id = Some e1 /\ eff_el e1 = eff_el e /\
             (eff_destroyed e = true -> eff_destroyed e1 = true) /\
             ((forall o, objs s !! c = Some o -> holoEffect o <> id) -> e1 = e) /\
             (forall o, objs s !! c = Some o -> holoEffect o = id -> e1 = kill e).
Proof.
  intros He. rewrite reset_body_effects.
  assert (Hid : fresh (dom (effects s)) <> id).
  { intros <-. apply (is_fresh (dom (effects s))). apply elem_of_dom. eauto. }
  rewrite lookup_insert_ne by exact Hid.
  destruct (objs s !! c) as [o|].
  - destruct (decide (holoEffect o = id)) as [<-|Hne].
    + rewrite lookup_alter_eq, He. cbn. eexists. split; [reflexivity|].
      split; [reflexivity|]. split; [reflexivity|]. split.
      * intros H. exfalso. apply (H o); reflexivity.
      * reflexivity.
    + rewrite lookup_alter_ne by exact Hne. exists e. split; [exact He|].
      split; [reflexivity|]. split; [auto|]. split; [reflexivity|].
      intros o' [= <-] Heq. contradiction.
  - exists e. split; [exact He|]. split; [reflexivity|]. split; [auto|].
    split; [reflexivity|]. intros o' [=].
Qed.

Lemma reset_body_refs_ok (c : nat) (s : State) : refs_ok s -> refs_ok (reset_body c s).
Proof.
  unfold refs_ok. intros Hr c' o'. rewrite reset_body_objs, reset_body_effects.
  rewrite dom_insert_L.
  assert (Hdom : dom (match objs s !! c with
                      | Some o => alter kill (holoEffect o) (effects s)
                      | None => effects s end) = dom (effects s)).
  { destruct (objs s !! c); [apply dom_alter_L | reflexivity]. }
  rewrite Hdom. intros Ho.
  destruct (decide (c = c')) as [->|Hne].
  - rewrite lookup_alter_eq in Ho. destruct (objs s !! c') as [o|]; [|discriminate].
    injection Ho as <-. cbn. apply elem_of_union. left. apply elem_of_singleton. reflexivity.
  - rewrite lookup_alter_ne in Ho by exact Hne. apply Hr in Ho.
    apply elem_of_union. right. exact Ho.
Qed.

Lemma reset_loop_effects (l : list nat) (s : State) :
  playedCards s = l -> NoDup l -> refs_ok s ->
  let s' := reset_loop (length l) s in
  (forall c', c' ∉ l -> objs s' !! c' = objs s !! c') /\
  (forall id e, effects s !! id = Some e ->
     exists e', effects s' !! id = Some e' /\ eff_el e' = eff_el e /\
       (eff_destroyed e = true -> eff_destroyed e' = true) /\
       ((forall c o, c ∈ l -> objs s !! c = Some o -> holoEffect o <> id) -> e' = e)) /\
  (forall c o, c ∈ l -> objs s !! c = Some o ->
     exists o', objs s' !! c = Some o' /\
       (holoEffect o' ∉ dom (effects s)) /\
       effects s' !! holoEffect o' = Some (mkEffectInst (Inner c) false) /\
       (forall e, effects s !! holoEffect o = Some e ->
                  effects s' !! holoEffect o = Some (kill e))).
Proof.
  revert s. induction l as [|c l IH] using rev_ind; intros s Hs Hnd Hr.
  - cbn. split; [reflexivity|]. split.
    + intros id e He. exists e. auto.
    + intros c o Hc. inversion Hc.
  - rewrite length_app. cbn [length]. rewrite Nat.add_1_r. cbn [reset_loop].
    rewrite Hs, pop_snoc.
    apply NoDup_app in Hnd as (Hndl & Hcl & _).
    assert (Hcl' : c ∉ l) by (intros Hin; apply (Hcl c Hin); left).
    set (s0 := set_playedCards (fun _ => l) s).
    set (s1 := reset_body c s0).
    assert (Hs1 : playedCards s1 = l) by (unfold s1; rewrite reset_body_playedCards; reflexivity).
    assert (Hr1 : refs_ok s1) by (apply reset_body_refs_ok; exact Hr).
    destruct (IH s1 Hs1 Hndl Hr1) as (Ha & Hb & Hc).
    assert (Hobjs1 : objs s1 = alter (set_holoEffect (fresh (dom (effects s)))) c (objs s))
      by (unfold s1; rewrite reset_body_objs; reflexivity).
    assert (Hfresh : fresh (dom (effects s)) ∉ dom (effects s)) by apply is_fresh.
    assert (Hsub : forall id, id ∈ dom (effects s) -> id ∈ dom (effects s1)).
    { intros id Hid. apply elem_of_dom in Hid as [e He].
      destruct (reset_body_old_effect c s0 id e He) as (e1 & H1 & _).
      apply elem_of_dom. eauto. }
    cbn zeta. split; [|split].
    + intros c' Hc'. apply not_elem_of_app in Hc' as [Hc'1 Hc'2].
      rewrite Ha by exact Hc'1. rewrite Hobjs1.
      apply lookup_alter_ne. intros ->. apply Hc'2. left.
    + intros id e He.
      destruct (reset_body_old_effect c s0 id e He) as (e1 & H1 & H2 & H3 & H4 & _).
      destruct (Hb id e1 H1) as (e' & G1 & G2 & G3 & G4).
      exists e'. split; [exact G1|]. split; [congruence|]. split; [auto|].
      intros Hno. rewrite G4.
      * apply H4. intros o Ho.
        apply (Hno c o); [apply elem_of_app; right; left | exact Ho].
      * intros c2 o2 Hc2 Ho2. rewrite Hobjs1 in Ho2.
        rewrite lookup_alter_ne in Ho2 by (intros ->; contradiction).
        apply (Hno c2 o2); [apply elem_of_app; left; exact Hc2 | exact Ho2].
    + intros c2 o Hc2 Ho. apply elem_of_app in Hc2 as [Hc2|Hc2].
      * assert (Hne : c <> c2) by (intros ->; contradiction).
        assert (Ho1 : objs s1 !! c2 = Some o)
          by (rewrite Hobjs1, lookup_alter_ne by exact Hne; exact Ho).
        destruct (Hc c2 o Hc2 Ho1) as (o' & G1 & G2 & G3 & G4).
        exists o'. split; [exact G1|]. split; [intros Hin; apply G2, Hsub, Hin|].
        split; [exact G3|].
        intros e He.
        destruct (reset_body_old_effect c s0 _ e He) as (e1 & H1 & H2 & _).
        rewrite (G4 e1 H1). f_equal. unfold kill. rewrite H2. reflexivity.
      * apply list_elem_of_singleton in Hc2 as ->.
        assert (Ho1 : objs s1 !! c = Some (set_holoEffect (fresh (dom (effects s))) o))
          by (rewrite Hobjs1, lookup_alter_eq, Ho; reflexivity).
        exists (set_holoEffect (fresh (dom (effects s))) o).
        split; [rewrite Ha by exact Hcl'; exact Ho1|].
        split; [exact Hfresh|]. cbn [holoEffect set_holoEffect]. split.
        -- assert (He1 : effects s1 !! fresh (dom (effects s)) =
                         Some (mkEffectInst (Inner c) false)).
           { unfold s1. rewrite reset_body_effects. apply lookup_insert_eq. }
           destruct (Hb _ _ He1) as (e' & G1 & _ & _ & G4).
           rewrite G1, G4; [reflexivity|].
           intros c2 o2 Hc2 Ho2. rewrite Hobjs1 in Ho2.
           rewrite lookup_alter_ne in Ho2 by (intros ->; contradiction).
           intros Heq. apply Hfresh. rewrite <- Heq. apply (Hr c2 o2 Ho2).
        -- intros e He.
           destruct (reset_body_old_effect c s0 _ e He) as (e1 & H1 & _ & _ & _ & H5).
           specialize (H5 o Ho eq_refl). subst e1.
           destruct (Hb _ _ H1) as (e' & G1 & G2 & G3 & _).
           rewrite G1. f_equal. apply kill_eta; [exact G2 | apply G3; reflexivity].
Qed.

Lemma set_index_same (o : CardObj) : set_index (style_i o) (style_n o) o = o.
Proof. destruct o; reflexivity. Qed.

Lemma reindex_from_id (cs : list nat) (i n : nat) (o : gmap nat CardObj) :
  (forall j c, cs !! j = Some c ->
     exists obj, o !! c = Some obj /\ style_i obj = i + j /\ style_n obj = n) ->
  reindex_from i n cs o = o.
Proof.
  revert i. induction cs as [|c cs IH]; intros i H; [reflexivity|].
  cbn. destruct (H 0 c eq_refl) as (obj & Ho & Hi & Hn).
  assert (Ha : alter (set_index i n) c o = o).
  { apply map_eq. intros k. destruct (decide (c = k)) as [->|Hne].
    - rewrite lookup_alter_eq, Ho. cbn. f_equal.
      rewrite Nat.add_0_r in Hi. rewrite <- Hi, <- Hn. apply set_index_same.
    - apply lookup_alter_ne. exact Hne. }
  rewrite Ha. apply IH. intros j c' Hj.
  destruct (H (S j) c' Hj) as (obj' & G1 & G2 & G3).
  exists obj'. split; [exact G1|]. split; [lia | exact G3].
Qed.

Lemma reindexHand_id (s : State) : indexed s -> reindexHand s = s.
Proof.
  intros H. unfold reindexHand, set_objs. rewrite reindex_from_id.
  - destruct s; reflexivity.
  - intros j c Hj. destruct (H j c Hj) as (o & G1 & G2 & G3). eauto.
Qed.

Lemma indexed_from_sound_aux (cs : list nat) (i n : nat) (o : gmap nat CardObj) :
  indexed_from i n cs o = true ->
  forall j c, cs !! j = Some c ->
    exists obj, o !! c = Some obj /\ style_i obj = i + j /\ style_n obj = n.
Proof.
  revert i. induction cs as [|c' cs IH]; intros i H j c Hj; [discriminate|].
  cbn in H. destruct (o !! c') as [obj|] eqn:Ho; [|discriminate].
  apply andb_true_iff in H as [H H3]. apply andb_true_iff in H as [H1 H2].
  apply Nat.eqb_eq in H1, H2.
  destruct j as [|j].
  - injection Hj as <-. exists obj. split; [exact Ho|]. split; [lia | exact H2].
  - destruct (IH (S i) H3 j c Hj) as (obj' & G1 & G2 & G3).
    exists obj'. split; [exact G1|]. split; [lia | exact G3].
Qed.

Lemma indexed_from_sound (s : State) :
  indexed_from 0 (length (cards s)) (cards s) (objs s) = true -> indexed s.
Proof.
  intros H i c Hi.
  destruct (indexed_from_sound_aux _ _ _ _ H i c Hi) as (obj & G1 & G2 & G3).
  exists obj. auto.
Qed.

(** C8.  The reset control, on a state whose played cards are distinct, whose
    card objects refer to existing engine objects and whose hand is indexed:
    with an empty table the state is left exactly as it was; in every case
    the table ends empty and the hand holds the cards of the old hand and of
    the old table; and each card that was on the table now refers to an
    engine object that did not exist before, attached to that card and not
    destroyed, while the engine object it referred to before is still on
    the element it was built on, is marked destroyed, and is not the one the
    card refers to now. *)
Theorem reset_returns_all (s : State) :
  NoDup (playedCards s) -> refs_ok s -> indexed s ->
  let s' := step s ResetClick in
  (playedCards s = [] -> s' = s) /\
  playedCards s' = [] /\
  cards s' ≡ₚ cards s ++ playedCards s /\
  (forall c o, c ∈ playedCards s -> objs s !! c = Some o ->
     exists o' e,
       objs s' !! c = Some o' /\
       (holoEffect o' ∉ dom (effects s)) /\
       effects s' !! holoEffect o' = Some (mkEffectInst (Inner c) false) /\
       effects s !! holoEffect o = Some e /\
       effects s' !! holoEffect o = Some (mkEffectInst (eff_el e) true) /\
       holoEffect o' <> holoEffect o).
Proof.
  intros Hnd Hr Hi. cbn zeta. cbn [step]. unfold on_reset.
  destruct (reset_loop_cards (playedCards s) s eq_refl) as [H1 H2].
  destruct (reset_loop_effects (playedCards s) s eq_refl Hnd Hr) as (_ & _ & H3).
  split; [|split; [|split]].
  - intros He. rewrite He. cbn. apply reindexHand_id, Hi.
  - exact H1.
  - cbn. rewrite H2. apply Permutation_app_head. symmetry. apply Permutation_rev.
  - intros c o Hc Ho. destruct (H3 c o Hc Ho) as (o' & G1 & G2 & G3 & G4).
    assert (Hold : holoEffect o ∈ dom (effects s)) by exact (Hr c o Ho).
    apply elem_of_dom in Hold as [e He].
    pose proof (reindex_from_holoEffect
                  (cards (reset_loop (length (playedCards s)) s)) 0
                  (length (cards (reset_loop (length (playedCards s)) s)))
                  (objs (reset_loop (length (playedCards s)) s)) c) as Hh.
    rewrite G1 in Hh. cbn in Hh.
    unfold reindexHand. cbn [objs set_objs effects].
    destruct (reindex_from _ _ _ _ !! c) as [o''|]; [|discriminate].
    injection Hh as Hh. exists o'', e. rewrite Hh.
    split; [reflexivity|]. split; [exact G2|]. split; [exact G3|].
    split; [exact He|]. split; [exact (G4 e He)|].
    intros Heq. apply G2. rewrite Heq. apply elem_of_dom. eauto.
Qed.

(** Reset with cards 0 and 1 on the table: engine 6, built when card 0 was
    played, is destroyed. *)
Lemma reset_returns_all_witness :
  playedCards (step two_played ResetClick) = [] /\
  cards (step two_played ResetClick) ≡ₚ [2; 3; 4; 5] ++ [0; 1] /\
  effects two_played !! 6 = Some (mkEffectInst (Inner 0) false) /\
  effects (step two_played ResetClick) !! 6 = Some (mkEffectInst (Inner 0) true).
Proof.
  destruct (reset_returns_all two_played) as (_ & H2 & H3 & H4).
  - apply (bool_decide_unpack _). vm_compute. exact I.
  - apply (bool_decide_unpack _). vm_compute. exact I.
  - apply indexed_from_sound. vm_compute. reflexivity.
  - assert (Ho : exists o, objs two_played !! 0 = Some o /\ holoEffect o = 6).
    { eexists. split; vm_compute; reflexivity. }
    destruct Ho as (o & Ho & Hid).
    assert (E : effects two_played !! 6 = Some (mkEffectInst (Inner 0) false))
      by (vm_compute; reflexivity).
    destruct (H4 0 o) as (o' & e & _ & _ & _ & He & He' & _);
      [apply list_elem_of_In; vm_compute; tauto | exact Ho |].
    rewrite Hid in He, He'. rewrite E in He. injection He as <-.
    split; [exact H2|]. split; [exact H3|]. split; [exact E | exact He'].
Defined.


(** C10.  After the reset control, [cards] is the old [cards] followed by the
    old [playedCards] in reverse order (the loop pops the table from its end
    and pushes onto the hand), and the table is empty. *)
Theorem reset_reverse_order (s : State) :
  cards (step s ResetClick) = cards s ++ rev (playedCards s) /\
  playedCards (step s ResetClick) = [].
Proof.
  cbn [step]. unfold on_reset.
  destruct (reset_loop_cards (playedCards s) s eq_refl) as [H1 H2].
  split; [exact H2 | exact H1].
Qed.



(** ** Lists of nodes *)

Lemma without_notin (n : Node) (l : list Node) : n ∉ l -> without n l = l.
Proof.
  intros H. unfold without. induction l as [|x l IH]; [reflexivity|].
  apply not_elem_of_cons in H as [H1 H2].
  rewrite filter_cons_True by congruence. rewrite IH by exact H2. reflexivity.
Qed.

Lemma without_app (n : Node) (l1 l2 : list Node) :
  without n (l1 ++ l2) = without n l1 ++ without n l2.
Proof. apply filter_app. Qed.

Lemma without_mid (n : Node) (l1 l2 : list Node) :
  n ∉ l1 -> n ∉ l2 -> without n (l1 ++ n :: l2) = l1 ++ l2.
Proof.
  intros H1 H2. rewrite without_app. unfold without at 2.
  rewrite filter_cons_False by (intros H; apply H; reflexivity).
  fold (without n l2). rewrite !without_notin by assumption. reflexivity.
Qed.

Lemma next_in_mid (n : Node) (l1 l2 : list Node) :
  n ∉ l1 -> next_in n (l1 ++ n :: l2) = head l2.
Proof.
  induction l1 as [|x l1 IH]; intros H; cbn.
  - rewrite bool_decide_eq_true_2 by reflexivity. reflexivity.
  - apply not_elem_of_cons in H as [H1 H2].
    rewrite bool_decide_eq_false_2 by congruence. apply IH, H2.
Qed.

Lemma insert_before_mid (ref n : Node) (l1 l2 : list Node) :
  ref ∉ l1 -> insert_before ref n (l1 ++ ref :: l2) = l1 ++ n :: ref :: l2.
Proof.
  induction l1 as [|x l1 IH]; intros H; cbn.
  - rewrite bool_decide_eq_true_2 by reflexivity. reflexivity.
  - apply not_elem_of_cons in H as [H1 H2].
    rewrite bool_decide_eq_false_2 by congruence. rewrite IH by exact H2. reflexivity.
Qed.

Lemma slots_of_app (l1 l2 : list Node) : slots_of (l1 ++ l2) = slots_of l1 ++ slots_of l2.
Proof. apply omap_app. Qed.

Lemma slots_of_Slot (l : list nat) : slots_of (Slot <$> l) = l.
Proof.
  unfold slots_of. induction l as [|c l IH]; [reflexivity|].
  cbn. f_equal. exact IH.
Qed.

Lemma elem_of_slots_of (c : nat) (l : list Node) : c ∈ slots_of l <-> Slot c ∈ l.
Proof.
  unfold slots_of. rewrite list_elem_of_omap. split.
  - intros (n & Hn & Hc). destruct n; [|discriminate]. injection Hc as ->. exact Hn.
  - intros H. exists (Slot c). split; [exact H | reflexivity].
Qed.

Lemma NoDup_slots_of (l : list Node) : NoDup l -> NoDup (slots_of l).
Proof.
  induction 1 as [|n l Hn Hl IH]; [constructor|].
  destruct n as [c|p]; cbn; [|exact IH].
  constructor; [|exact IH]. rewrite elem_of_slots_of. exact Hn.
Qed.

(** ** [indexOf], [splice] and [sort] *)

Lemma indexOf_elem (c : nat) (l : list nat) :
  c ∈ l -> exists i, indexOf c l = Z.of_nat i /\ l !! i = Some c /\
                     forall j, j < i -> l !! j <> Some c.
Proof.
  intros Hc. unfold indexOf.
  destruct (list_find_elem_of (fun x => x = c) l c Hc eq_refl) as [[i x] Hf].
  rewrite Hf. apply list_find_Some in Hf as (H1 & -> & H3).
  exists i. split; [reflexivity|]. split; [exact H1|].
  intros j Hj Hl. apply (H3 j c Hl Hj). reflexivity.
Qed.

Lemma indexOf_lookup (c : nat) (l : list nat) (i : nat) :
  NoDup l -> l !! i = Some c -> indexOf c l = Z.of_nat i.
Proof.
  intros Hnd Hi.
  destruct (indexOf_elem c l) as (j & H1 & H2 & _).
  { apply list_elem_of_lookup. eauto. }
  rewrite H1. f_equal. apply (NoDup_lookup l j i c Hnd H2 Hi).
Qed.

Lemma indexOf_notin (c : nat) (l : list nat) : c ∉ l -> indexOf c l = (-1)%Z.
Proof.
  intros Hc. unfold indexOf.
  destruct (list_find _ l) as [[i x]|] eqn:Hf; [|reflexivity].
  apply list_find_Some in Hf as (H1 & -> & _).
  exfalso. apply Hc. apply list_elem_of_lookup. eauto.
Qed.

Lemma filter_out_notin (c : nat) (l : list nat) :
  c ∉ l -> filter (fun k => k <> c) l = l.
Proof.
  induction l as [|x l IH]; intros H; [reflexivity|].
  apply not_elem_of_cons in H as [H1 H2].
  rewrite filter_cons_True by congruence. rewrite IH by exact H2. reflexivity.
Qed.

Lemma delete_first_NoDup (c : nat) (l : list nat) (i : nat) :
  NoDup l -> l !! i = Some c -> delete i l = filter (fun k => k <> c) l.
Proof.
  intros Hnd. revert i. induction Hnd as [|x l Hx Hl IH]; intros i Hi; [discriminate|].
  destruct i as [|i].
  - injection Hi as ->. change (l = filter (fun k => k <> c) (c :: l)).
    rewrite filter_cons_False by (intros H; apply H; reflexivity).
    symmetry. apply filter_out_notin, Hx.
  - change (l !! i = Some c) in Hi.
    change (x :: delete i l = filter (fun k => k <> c) (x :: l)).
    assert (x <> c).
    { intros ->. apply Hx. apply list_elem_of_lookup. eauto. }
    rewrite filter_cons_True by assumption. f_equal. apply IH, Hi.
Qed.

Lemma splice1_indexOf (c : nat) (l : list nat) :
  NoDup l -> c ∈ l -> splice1 (indexOf c l) l = filter (fun k => k <> c) l.
Proof.
  intros Hnd Hc. destruct (indexOf_elem c l Hc) as (i & H1 & H2 & _).
  unfold splice1. rewrite H1.
  assert (Hlt : i < length l) by (apply lookup_lt_Some in H2; exact H2).
  destruct (Z.ltb_spec (Z.of_nat i) 0) as [Hneg|_]; [lia|].
  rewrite Z.min_l by lia. rewrite Nat2Z.id.
  apply delete_first_NoDup; assumption.
Qed.

Lemma length_filter_out (c : nat) (l : list nat) :
  NoDup l -> c ∈ l -> S (length (filter (fun k => k <> c) l)) = length l.
Proof.
  intros Hnd. induction Hnd as [|x l Hx Hl IH]; intros Hc; [inversion Hc|].
  destruct (decide (x = c)) as [->|Hne].
  - rewrite filter_cons_False by (intros H; apply H; reflexivity).
    rewrite filter_out_notin by exact Hx. reflexivity.
  - rewrite filter_cons_True by exact Hne. cbn. f_equal. apply IH.
    apply elem_of_cons in Hc as [->|Hc]; [contradiction | exact Hc].
Qed.

Section sorting.
Variable key : nat -> Z.

Let R (a b : nat) : Prop := (key a <= key b)%Z.

Lemma insert_by_perm (x : nat) (l : list nat) : insert_by key x l ≡ₚ x :: l.
Proof.
  induction l as [|y l IH]; [reflexivity|]. cbn.
  destruct (key x <=? key y)%Z; [reflexivity|].
  rewrite IH. apply perm_swap.
Qed.

Lemma sort_by_perm (l : list nat) : sort_by key l ≡ₚ l.
Proof.
  induction l as [|x l IH]; [reflexivity|]. cbn.
  rewrite insert_by_perm. rewrite IH. reflexivity.
Qed.

Lemma insert_by_sorted (x : nat) (l : list nat) :
  StronglySorted R l -> StronglySorted R (insert_by key x l).
Proof.
  induction 1 as [|y l Hl IH Hy]; cbn.
  - constructor; constructor.
  - destruct (Z.leb_spec (key x) (key y)) as [Hle|Hgt].
    + constructor; [constructor; assumption|].
      constructor; [exact Hle|].
      eapply Forall_impl; [exact Hy|]. intros z Hz. unfold R in *. lia.
    + constructor; [exact IH|].
      rewrite (insert_by_perm x l). constructor; [unfold R; lia | exact Hy].
Qed.

Lemma sort_by_sorted (l : list nat) : StronglySorted R (sort_by key l).
Proof.
  induction l as [|x l IH]; [constructor|]. cbn. apply insert_by_sorted, IH.
Qed.

Lemma sorted_of_lookups (l : list nat) :
  (forall i j a b, l !! i = Some a -> l !! j = Some b -> i < j -> R a b) ->
  StronglySorted R l.
Proof.
  induction l as [|x l IH]; intros H; [constructor|].
  constructor.
  - apply IH. intros i j a b Hi Hj Hij. apply (H (S i) (S j) a b Hi Hj). lia.
  - apply Forall_forall. intros b Hb. apply list_elem_of_lookup in Hb as [j Hj].
    apply (H 0 (S j) x b eq_refl Hj). lia.
Qed.
End sorting.

(** Sorting a rearrangement of [order] by position in [order] gives [order]. *)
Lemma sort_by_position (order l : list nat) :
  NoDup order -> l ≡ₚ order ->
  sort_by (fun a => indexOf a order) l = order.
Proof.
  intros Hnd Hp.
  apply (StronglySorted_unique_strong
           (fun a b => (indexOf a order <= indexOf b order)%Z)).
  - intros a b Ha Hb Hab Hba.
    assert (Ha' : a ∈ order).
    { rewrite <- Hp. rewrite <- (sort_by_perm (fun a => indexOf a order) l). exact Ha. }
    destruct (indexOf_elem a order Ha') as (i & E1 & L1 & _).
    destruct (indexOf_elem b order Hb) as (j & E2 & L2 & _).
    assert (i = j) by lia. subst j. congruence.
  - apply sort_by_sorted.
  - apply sorted_of_lookups. intros i j a b Hi Hj Hij.
    rewrite (indexOf_lookup a order i Hnd Hi), (indexOf_lookup b order j Hnd Hj). lia.
  - rewrite sort_by_perm. exact Hp.
Qed.

(** ** Pointer up while dragging *)

(** The listener's result when the drop lands on the play area with room
    left: the straight-line run of the first branch of [endDrag]. *)
Lemma pointerup_play_run (s : State) (ps : PointerState) (p : nat) (x y : Q)
    (lay : Layout) :
  pointerState s = Some ps -> isDragging ps = true -> placeholder ps = Some p ->
  over_play x y (lay_play lay) = true ->
  length (playedCards s) < MAX_FIELD ->
  let c := card ps in
  let s1 := set_play_classes false false
              (set_objs (alter (set_box None None None None) c)
                 (set_objs (alter (set_dragging false) c) s)) in
  let s2 := set_objs (alter (set_index 0 1) c)
              (set_cards (fun l => splice1 (indexOf c l) l)
                 (set_doc (dom_remove (Placeholder p)) s1)) in
  let s3 := set_playedCards (fun l => l ++ [c])
              (set_doc (appendChild PlayArea (Slot c)) s2) in
  step s (PointerUp x y lay) =
  log SessionNull (set_pointerState None (reindexHand (attach_card_effect c s3))).
Proof.
  intros Hps Hd Hp Hov Hlen.
  cbn [step]. unfold run, pointerup, bind, get. rewrite Hps, Hd.
  unfold endDrag, bind, session, get. cbn. rewrite Hps. cbn. rewrite Hov.
  rewrite bool_decide_eq_false_2 by lia. cbn. unfold the_placeholder. rewrite Hp. cbn.
  unfold cleanupPointer. state_simpl. rewrite Hps. reflexivity.
Qed.

(** C1.  A drag released over the play area while fewer than three cards are
    on the table moves the dragged card from [cards] to the end of
    [playedCards]: the hand loses exactly that card, the table gains exactly
    one, and the card's slot carries [--i = 0] and [--n = 1]. *)
Theorem drop_on_table (s : State) (ps : PointerState) (p : nat) (x y : Q)
    (lay : Layout) :
  pointerState s = Some ps -> isDragging ps = true -> placeholder ps = Some p ->
  over_play x y (lay_play lay) = true ->
  length (playedCards s) < 3 ->
  NoDup (cards s) -> card ps ∈ cards s -> is_Some (objs s !! card ps) ->
  let s' := step s (PointerUp x y lay) in
  let c := card ps in
  cards s' = filter (fun k => k <> c) (cards s) /\
  (c ∉ cards s') /\
  S (length (cards s')) = length (cards s) /\
  playedCards s' = playedCards s ++ [c] /\
  length (playedCards s') = S (length (playedCards s)) /\
  (exists o', objs s' !! c = Some o' /\ style_i o' = 0 /\ style_n o' = 1) /\
  pointerState s' = None.
Proof.
  intros Hps Hd Hp Hov Hlen Hnd Hc [o Ho]. cbn zeta.
  rewrite (pointerup_play_run s ps p x y lay Hps Hd Hp Hov Hlen).
  state_simpl.
  rewrite (splice1_indexOf _ _ Hnd Hc).
  assert (Hout : card ps ∉ filter (fun k => k <> card ps) (cards s)).
  { intros Hin. apply list_elem_of_filter in Hin as [Hne _]. apply Hne. reflexivity. }
  split; [reflexivity|]. split; [exact Hout|].
  split; [apply length_filter_out; assumption|].
  split; [reflexivity|]. split; [rewrite length_app; cbn; lia|].
  split; [|reflexivity].
  rewrite reindex_from_lookup_notin by exact Hout.
  rewrite !lookup_alter_eq, Ho. cbn. eexists. split; [reflexivity|]. split; reflexivity.
Qed.

(** Card 2, lifted out of the initial hand, dropped on the empty table. *)
Lemma drop_on_table_witness :
  cards (step lifted (PointerUp 300 100 table_layout)) = [0; 1; 3; 4; 5] /\
  playedCards (step lifted (PointerUp 300 100 table_layout)) = [2] /\
  (exists o', objs (step lifted (PointerUp 300 100 table_layout)) !! 2 = Some o' /\
              style_i o' = 0 /\ style_n o' = 1).
Proof.
  assert (Hps : pointerState lifted =
                Some (mkPointerState 2 1 250 550 50 50 true 0 (Some 0) 2))
    by (vm_compute; reflexivity).
  destruct (drop_on_table lifted _ 0 300 100 table_layout Hps eq_refl eq_refl)
    as (H1 & _ & _ & H4 & _ & H6 & _).
  - reflexivity.
  - vm_compute. lia.
  - apply (bool_decide_unpack _). vm_compute. exact I.
  - apply (bool_decide_unpack _). vm_compute. exact I.
  - eexists. vm_compute. reflexivity.
  - split; [rewrite H1; vm_compute; reflexivity|].
    split; [rewrite H4; vm_compute; reflexivity | exact H6].
Defined.


(** The tree once the dragged slot has taken the placeholder's place. *)
Lemma replace_placeholder (d : Dom) (p c : nat) (l1 l2 : list Node) :
  hand_children d = l1 ++ Placeholder p :: l2 ->
  NoDup (hand_children d) -> Slot c ∉ hand_children d ->
  exists d',
    match nextSibling (Placeholder p) d with
    | Some n => insertBefore Hand (Slot c) n (dom_remove (Placeholder p) d)
    | None => Some (appendChild Hand (Slot c) (dom_remove (Placeholder p) d))
    end = Some d' /\
    hand_children d' = l1 ++ Slot c :: l2 /\
    play_children d' = without (Slot c) (without (Placeholder p) (play_children d)) /\
    body_children d' = without (Slot c) (without (Placeholder p) (body_children d)).
Proof.
  intros Hh Hnd Hc.
  rewrite Hh in Hnd, Hc.
  apply NoDup_app in Hnd as (Hnd1 & Hdisj & Hnd2).
  apply NoDup_cons in Hnd2 as (Hp2 & Hnd2).
  assert (Hp1 : Placeholder p ∉ l1).
  { intros Hin. apply (Hdisj _ Hin). left. }
  assert (Hc1 : Slot c ∉ l1) by (intros Hin; apply Hc, elem_of_app; left; exact Hin).
  assert (Hc2 : Slot c ∉ l2).
  { intros Hin. apply Hc, elem_of_app. right. right. exact Hin. }
  assert (Hhand : hand_children (dom_remove (Placeholder p) d) = l1 ++ l2).
  { cbn. rewrite Hh. apply without_mid; assumption. }
  assert (Hnext : nextSibling (Placeholder p) d = head l2).
  { unfold nextSibling, parentNode.
    rewrite bool_decide_eq_true_2.
    - cbn. rewrite Hh. apply next_in_mid, Hp1.
    - rewrite Hh. apply elem_of_app. right. left. }
  rewrite Hnext. destruct l2 as [|n l2]; cbn [head].
  - eexists. split; [reflexivity|]. split; [|split; reflexivity].
    unfold appendChild. cbn [set_children children].
    cbn [hand_children dom_remove]. fold (dom_remove (Placeholder p) d).
    rewrite Hh, without_mid by assumption.
    rewrite app_nil_r. rewrite without_notin by exact Hc1. reflexivity.
  - assert (Hn1 : n ∉ l1).
    { intros Hin. apply (Hdisj _ Hin). right. left. }
    unfold insertBefore. cbn [children]. rewrite Hhand.
    rewrite bool_decide_eq_true_2 by (apply elem_of_app; right; left).
    rewrite bool_decide_eq_false_2 by (intros <-; apply Hc2; left).
    eexists. split; [reflexivity|]. split; [|split; reflexivity].
    cbn [set_children children hand_children dom_remove].
    rewrite Hh, without_mid by assumption.
    rewrite without_notin.
    + apply insert_before_mid, Hn1.
    + intros Hin. apply elem_of_app in Hin as [Hin|Hin]; [exact (Hc1 Hin)|].
      apply Hc, elem_of_app. right. right. exact Hin.
Qed.

(** The run of the second branch of [endDrag]. *)
Lemma pointerup_return_run (s : State) (ps : PointerState) (p : nat) (x y : Q)
    (lay : Layout) (d' : Dom) :
  pointerState s = Some ps -> isDragging ps = true -> placeholder ps = Some p ->
  over_play x y (lay_play lay) && negb (bool_decide (MAX_FIELD <= length (playedCards s)))
    = false ->
  match nextSibling (Placeholder p) (doc s) with
  | Some n => insertBefore Hand (Slot (card ps)) n (dom_remove (Placeholder p) (doc s))
  | None => Some (appendChild Hand (Slot (card ps)) (dom_remove (Placeholder p) (doc s)))
  end = Some d' ->
  step s (PointerUp x y lay) =
  log SessionNull (set_pointerState None (reindexHand (attach_card_effect (card ps)
    (set_cards (sort_by (fun a => indexOf a (slots_of (hand_children d'))))
       (set_doc (fun _ => d')
          (set_play_classes false false
             (set_objs (alter (set_box None None None None) (card ps))
                (set_objs (alter (set_dragging false) (card ps)) s)))))))).
Proof.
  intros Hps Hd Hp Hcond Hd'.
  cbn [step]. unfold run, pointerup, bind, get. rewrite Hps, Hd.
  unfold endDrag, bind, session, get. cbn. rewrite Hps. cbn. rewrite Hcond.
  unfold the_placeholder. rewrite Hp. cbn.
  destruct (nextSibling (Placeholder p) (doc s)) as [n|].
  - unfold do_insertBefore, bind, get. state_simpl. rewrite Hd'.
    unfold modify. state_simpl. unfold cleanupPointer. state_simpl. rewrite Hps.
    reflexivity.
  - injection Hd' as <-. unfold modify. state_simpl.
    unfold cleanupPointer. state_simpl. rewrite Hps. reflexivity.
Qed.

(** C2.  A drag released over the play area while it holds three cards leaves
    [playedCards] as it was and puts the dragged card back in the hand where
    the placeholder stood: in the hand's children the slot takes the
    placeholder's place, and [cards] is reordered to that sequence. *)
Theorem drop_on_full_table (s : State) (ps : PointerState) (p : nat) (x y : Q)
    (lay : Layout) (l1 l2 : list Node) :
  pointerState s = Some ps -> isDragging ps = true -> placeholder ps = Some p ->
  over_play x y (lay_play lay) = true ->
  length (playedCards s) = 3 ->
  hand_children (doc s) = l1 ++ Placeholder p :: l2 ->
  NoDup (hand_children (doc s)) ->
  Slot (card ps) ∉ hand_children (doc s) ->
  cards s ≡ₚ card ps :: slots_of (l1 ++ l2) ->
  let s' := step s (PointerUp x y lay) in
  playedCards s' = playedCards s /\
  hand_children (doc s') = l1 ++ Slot (card ps) :: l2 /\
  cards s' = slots_of l1 ++ card ps :: slots_of l2 /\
  pointerState s' = None.
Proof.
  intros Hps Hd Hp Hov Hlen Hh Hnd Hc Hperm. cbn zeta.
  destruct (replace_placeholder (doc s) p (card ps) l1 l2 Hh Hnd Hc)
    as (d' & Hd' & Hh' & _ & _).
  assert (Hcond : over_play x y (lay_play lay) &&
                  negb (bool_decide (MAX_FIELD <= length (playedCards s))) = false).
  { rewrite bool_decide_eq_true_2 by (unfold MAX_FIELD; lia). apply andb_false_r. }
  pose proof (pointerup_return_run s ps p x y lay d' Hps Hd Hp Hcond Hd') as Hrun.
  rewrite Hrun. state_simpl. rewrite Hh'.
  split; [reflexivity|]. split; [reflexivity|]. split; [|reflexivity].
  assert (Horder : slots_of (l1 ++ Slot (card ps) :: l2) =
                   slots_of l1 ++ card ps :: slots_of l2).
  { rewrite slots_of_app. reflexivity. }
  rewrite Horder. apply sort_by_position.
  - rewrite <- Horder. apply NoDup_slots_of. rewrite <- Hh'.
    rewrite Hh in Hnd, Hc. 
    apply NoDup_app in Hnd as (Hnd1 & Hdisj & Hnd2).
    apply NoDup_cons in Hnd2 as (Hp2 & Hnd2).
    rewrite Hh'. apply NoDup_app. split; [exact Hnd1|]. split.
    + intros n Hn1 Hn2. apply elem_of_cons in Hn2 as [->|Hn2].
      * apply Hc, elem_of_app. left. exact Hn1.
      * apply (Hdisj n Hn1). right. exact Hn2.
    + apply NoDup_cons. split; [|exact Hnd2].
      intros Hin. apply Hc, elem_of_app. right. right. exact Hin.
  - rewrite Hperm. rewrite slots_of_app. apply Permutation_middle.
Qed.

(** Card 3 released over the full table: it lands between cards 4 and 5,
    where its placeholder stood. *)
Lemma drop_on_full_table_witness :
  playedCards (step lifted_over_full (PointerUp 300 100 table_layout)) = [0; 1; 2] /\
  hand_children (doc (step lifted_over_full (PointerUp 300 100 table_layout))) =
    [Slot 4; Slot 3; Slot 5] /\
  cards (step lifted_over_full (PointerUp 300 100 table_layout)) = [4; 3; 5].
Proof.
  assert (Hps : pointerState lifted_over_full =
                Some (mkPointerState 3 1 350 550 50 50 true 3 (Some 3) 0))
    by (vm_compute; reflexivity).
  destruct (drop_on_full_table lifted_over_full _ 3 300 100 table_layout
              [Slot 4] [Slot 5] Hps eq_refl eq_refl)
    as (H1 & H2 & H3 & _).
  - reflexivity.
  - vm_compute. reflexivity.
  - vm_compute. reflexivity.
  - apply (bool_decide_unpack _). vm_compute. exact I.
  - apply (bool_decide_unpack _). vm_compute. exact I.
  - assert (E : cards lifted_over_full = [3; 4; 5]) by (vm_compute; reflexivity).
    rewrite E. reflexivity.
  - split; [rewrite H1; vm_compute; reflexivity|].
    split; [exact H2 | exact H3].
Defined.


(** ** Pointer move while dragging *)

Lemma find_insertBefore_filter (c : nat) (x : Q) (lay : Layout) (cs : list nat) :
  find_insertBefore c x lay cs =
  find_insertBefore c x lay (filter (fun k => k <> c) cs).
Proof.
  induction cs as [|k cs IH]; [reflexivity|].
  destruct (decide (k = c)) as [->|Hne].
  - rewrite filter_cons_False by (intros H; apply H; reflexivity).
    cbn. rewrite bool_decide_eq_true_2 by reflexivity. exact IH.
  - rewrite filter_cons_True by exact Hne. cbn.
    rewrite bool_decide_eq_false_2 by exact Hne.
    destruct (Qltb x (midX (lay_slot lay k))); [reflexivity | exact IH].
Qed.

Lemma find_insertBefore_first (c : nat) (x : Q) (lay : Layout)
    (before : list nat) (c' : nat) (after : list nat) :
  c ∉ before -> c' <> c ->
  Forall (fun k => (midX (lay_slot lay k) <= x)%Q) before ->
  (x < midX (lay_slot lay c'))%Q ->
  find_insertBefore c x lay (before ++ c' :: after) = Some c'.
Proof.
  intros Hc Hc' Hb Hx. induction Hb as [|k before Hk Hb IH]; cbn.
  - rewrite bool_decide_eq_false_2 by exact Hc'.
    apply Qltb_true in Hx. rewrite Hx. reflexivity.
  - apply not_elem_of_cons in Hc as [Hck Hc].
    rewrite bool_decide_eq_false_2 by congruence.
    apply Qltb_false in Hk. rewrite Hk. apply IH, Hc.
Qed.

Lemma find_insertBefore_none (c : nat) (x : Q) (lay : Layout) (cs : list nat) :
  Forall (fun k => (midX (lay_slot lay k) <= x)%Q) cs ->
  find_insertBefore c x lay cs = None.
Proof.
  induction 1 as [|k cs Hk Hcs IH]; [reflexivity|]. cbn.
  destruct (bool_decide (k = c)); [exact IH|].
  apply Qltb_false in Hk. rewrite Hk. exact IH.
Qed.

(** The run of [updateDrag] when the pointer is over the hand and not over
    the play area. *)
Lemma updateDrag_hand_run (s : State) (ps : PointerState) (p : nat) (x y : Q)
    (lay : Layout) :
  pointerState s = Some ps -> placeholder ps = Some p ->
  over_play x y (lay_play lay) = false -> over_hand x y (lay_hand lay) = true ->
  doc (run (updateDrag x y lay) s) =
  match find_insertBefore (card ps) x lay (cards s) with
  | Some c' => default (doc s) (insertBefore Hand (Placeholder p) (Slot c') (doc s))
  | None => appendChild Hand (Placeholder p) (doc s)
  end.
Proof.
  intros Hps Hp Hov Hoh.
  unfold run, updateDrag, session, bind, get. rewrite Hps. cbn.
  rewrite Hov, Hoh. cbn.
  destruct (find_insertBefore (card ps) x lay (cards s)) as [c'|].
  - unfold the_placeholder. rewrite Hp. cbn.
    destruct (insertBefore Hand (Placeholder p) (Slot c') (doc s)); reflexivity.
  - unfold the_placeholder. rewrite Hp. reflexivity.
Qed.

Lemma pointermove_dragging (s : State) (ps : PointerState) (x y : Q) (lay : Layout) :
  pointerState s = Some ps -> isDragging ps = true ->
  step s (PointerMove x y lay) = run (updateDrag x y lay) s.
Proof.
  intros Hps Hd. cbn [step]. unfold run, pointermove, bind, get. rewrite Hps, Hd. cbn.
  unfold session, bind, get. rewrite Hps. cbn. rewrite Hd. reflexivity.
Qed.

(** Where [updateDrag] leaves the placeholder when the pointer is over the
    padded hand rectangle and not over the play area. *)
Lemma updateDrag_places (s : State) (ps : PointerState) (p : nat)
    (x y : Q) (lay : Layout) (l1 l2 : list Node) :
  pointerState s = Some ps -> placeholder ps = Some p ->
  over_play x y (lay_play lay) = false -> over_hand x y (lay_hand lay) = true ->
  hand_children (doc s) = l1 ++ Placeholder p :: l2 ->
  l1 ++ l2 = Slot <$> filter (fun k => k <> card ps) (cards s) ->
  let s' := run (updateDrag x y lay) s in
  let others := filter (fun k => k <> card ps) (cards s) in
  (forall before c' after,
     others = before ++ c' :: after ->
     Forall (fun k => (midX (lay_slot lay k) <= x)%Q) before ->
     (x < midX (lay_slot lay c'))%Q ->
     hand_children (doc s') =
     (Slot <$> before) ++ Placeholder p :: Slot c' :: (Slot <$> after)) /\
  (Forall (fun k => (midX (lay_slot lay k) <= x)%Q) others ->
   hand_children (doc s') = (Slot <$> others) ++ [Placeholder p]).
Proof.
  intros Hps Hp Hov Hoh Hh Hothers. cbn zeta.
  rewrite (updateDrag_hand_run s ps p x y lay Hps Hp Hov Hoh).
  rewrite find_insertBefore_filter.
  assert (Hp1 : (Placeholder p ∉ l1) /\ (Placeholder p ∉ l2)).
  { assert (Hn : Placeholder p ∉ l1 ++ l2).
    { rewrite Hothers. intros Hin. apply list_elem_of_fmap in Hin as (k & Hk & _).
      discriminate. }
    split; intros Hin; apply Hn, elem_of_app; [left | right]; exact Hin. }
  destruct Hp1 as [Hp1 Hp2].
  assert (Hwo : without (Placeholder p) (hand_children (doc s)) =
                Slot <$> filter (fun k => k <> card ps) (cards s)).
  { rewrite Hh, without_mid by assumption. exact Hothers. }
  split.
  - intros before c' after Hsplit Hb Hx.
    assert (Hc'in : c' ∈ filter (fun k => k <> card ps) (cards s)).
    { rewrite Hsplit. apply elem_of_app. right. left. }
    assert (Hc' : c' <> card ps).
    { apply list_elem_of_filter in Hc'in as [Hne _]. exact Hne. }
    assert (Hcb : card ps ∉ before).
    { intros Hin.
      assert (Hin' : card ps ∈ filter (fun k => k <> card ps) (cards s)).
      { rewrite Hsplit. apply elem_of_app. left. exact Hin. }
      apply list_elem_of_filter in Hin' as [Hne _]. apply Hne. reflexivity. }
    rewrite Hsplit.
    rewrite (find_insertBefore_first _ _ _ _ _ _ Hcb Hc' Hb Hx).
    unfold insertBefore. cbn [children].
    rewrite bool_decide_eq_true_2.
    + rewrite bool_decide_eq_false_2 by discriminate.
      cbn [default set_children children hand_children dom_remove].
      rewrite Hwo, Hsplit. rewrite fmap_app, fmap_cons.
      apply insert_before_mid.
      intros Hin. apply list_elem_of_fmap in Hin as (k & Hk & Hkin).
      injection Hk as <-.
      rewrite Forall_forall in Hb. specialize (Hb c' Hkin).
      apply (Qlt_not_le _ _ Hx Hb).
    + rewrite Hh. apply elem_of_app.
      assert (Hs : Slot c' ∈ l1 ++ l2).
      { rewrite Hothers. apply list_elem_of_fmap_2. exact Hc'in. }
      apply elem_of_app in Hs as [Hs|Hs]; [left | right; right]; exact Hs.
  - intros Hall. rewrite (find_insertBefore_none _ _ _ _ Hall).
    unfold appendChild. cbn [set_children children hand_children dom_remove].
    rewrite Hwo. reflexivity.
Qed.

(** C6 (as amended).  During a drag, for a pointer position that is not over
    the play area and is over the padded hand rectangle, [updateDrag] moves
    the placeholder immediately before the first hand card, in left-to-right
    order and leaving out the dragged one, whose horizontal midpoint is
    strictly greater than the pointer's x; if there is none the placeholder
    becomes the hand's last child. *)
Theorem placeholder_follows_pointer (s : State) (ps : PointerState) (p : nat)
    (x y : Q) (lay : Layout) (l1 l2 : list Node) :
  pointerState s = Some ps -> isDragging ps = true -> placeholder ps = Some p ->
  over_play x y (lay_play lay) = false -> over_hand x y (lay_hand lay) = true ->
  hand_children (doc s) = l1 ++ Placeholder p :: l2 ->
  l1 ++ l2 = Slot <$> filter (fun k => k <> card ps) (cards s) ->
  let s' := step s (PointerMove x y lay) in
  let others := filter (fun k => k <> card ps) (cards s) in
  (forall before c' after,
     others = before ++ c' :: after ->
     Forall (fun k => (midX (lay_slot lay k) <= x)%Q) before ->
     (x < midX (lay_slot lay c'))%Q ->
     hand_children (doc s') =
     (Slot <$> before) ++ Placeholder p :: Slot c' :: (Slot <$> after)) /\
  (Forall (fun k => (midX (lay_slot lay k) <= x)%Q) others ->
   hand_children (doc s') = (Slot <$> others) ++ [Placeholder p]).
Proof.
  intros Hps Hd Hp Hov Hoh Hh Hothers. cbn zeta.
  rewrite (pointermove_dragging s ps x y lay Hps Hd).
  apply (updateDrag_places s ps p x y lay l1 l2); assumption.
Qed.

(** Card 2 lifted, the pointer brought to the left end of the hand: the
    placeholder goes in front of card 0. *)
Lemma placeholder_follows_pointer_witness :
  hand_children (doc (step lifted (PointerMove 20 520 table_layout))) =
  [Placeholder 0; Slot 0; Slot 1; Slot 3; Slot 4; Slot 5].
Proof.
  assert (Hps : pointerState lifted =
                Some (mkPointerState 2 1 250 550 50 50 true 0 (Some 0) 2))
    by (vm_compute; reflexivity).
  destruct (placeholder_follows_pointer lifted _ 0 20 520 table_layout
              [Slot 0; Slot 1] [Slot 3; Slot 4; Slot 5] Hps eq_refl eq_refl)
    as [H1 _].
  - reflexivity.
  - reflexivity.
  - vm_compute. reflexivity.
  - vm_compute. reflexivity.
  - apply (H1 [] 0 [1; 3; 4; 5]).
    + vm_compute. reflexivity.
    + constructor.
    + reflexivity.
Defined.

(** C6 (as stated) fails: the hand test is only made when the pointer is not
    over the play area.  With the play area reaching into the 60 px band
    above the hand, the pointer at [(20, 450)] is over both; the placeholder
    of the lifted card 2 stays before card 3 instead of moving before
    card 0. *)
Lemma placeholder_stays_over_table :
  ~ (forall (s : State) (ps : PointerState) (p : nat) (x y : Q) (lay : Layout)
            (l1 l2 : list Node),
       pointerState s = Some ps -> isDragging ps = true -> placeholder ps = Some p ->
       over_hand x y (lay_hand lay) = true ->
       hand_children (doc s) = l1 ++ Placeholder p :: l2 ->
       l1 ++ l2 = Slot <$> filter (fun k => k <> card ps) (cards s) ->
       forall before c' after,
         filter (fun k => k <> card ps) (cards s) = before ++ c' :: after ->
         Forall (fun k => (midX (lay_slot lay k) <= x)%Q) before ->
         (x < midX (lay_slot lay c'))%Q ->
         hand_children (doc (step s (PointerMove x y lay))) =
         (Slot <$> before) ++ Placeholder p :: Slot c' :: (Slot <$> after)).
Proof.
  intros H.
  assert (Hps : pointerState lifted =
                Some (mkPointerState 2 1 250 550 50 50 true 0 (Some 0) 2))
    by (vm_compute; reflexivity).
  specialize (H lifted _ 0 20%Q 450%Q near_layout [Slot 0; Slot 1] [Slot 3; Slot 4; Slot 5]
                Hps eq_refl eq_refl).
  assert (Hover : over_play 20 450 (lay_play near_layout) = true) by reflexivity.
  specialize (H eq_refl).
  assert (E1 : hand_children (doc lifted) =
               [Slot 0; Slot 1] ++ Placeholder 0 :: [Slot 3; Slot 4; Slot 5])
    by (vm_compute; reflexivity).
  assert (E2 : [Slot 0; Slot 1] ++ [Slot 3; Slot 4; Slot 5] =
               Slot <$> filter (fun k => k <> card (mkPointerState 2 1 250 550 50 50 true 0 (Some 0) 2))
                               (cards lifted))
    by (vm_compute; reflexivity).
  specialize (H E1 E2 [] 0 [1; 3; 4; 5]).
  assert (E3 : filter (fun k => k <> card (mkPointerState 2 1 250 550 50 50 true 0 (Some 0) 2))
                      (cards lifted) = [] ++ 0 :: [1; 3; 4; 5])
    by (vm_compute; reflexivity).
  specialize (H E3 (Forall_nil_2 _) eq_refl).
  vm_compute in H. discriminate H.
Qed.


(** ** Taps and holds *)

(** The state right after a pointer-down on the hand card [c]. *)
Lemma pointerdown_run (s : State) (c pid : nat) (x y : Q) (lay : Layout) :
  Slot c ∈ hand_children (doc s) -> c ∈ cards s ->
  step s (PointerDown (Some c) pid x y lay) =
  log (SessionSet c)
    (set_pointerState
       (Some {| card := c; pointerId := pid; startX := x; startY := y;
                offsetX := (x - left (lay_slot lay c))%Q;
                offsetY := (y - top (lay_slot lay c))%Q;
                isDragging := false; holdTimer := next_timer s; placeholder := None;
                originalIndex := indexOf c (cards s) |})
       (log (SetTimeout (next_timer s) HOLD_DELAY)
          (set_timers (fun l => l ++ [(next_timer s, HOLD_DELAY)]) (S (next_timer s))
             (set_objs (alter (set_hovered false) c) s)))).
Proof.
  intros Hs Hc. cbn [step]. unfold on_pointerdown.
  rewrite !bool_decide_eq_true_2 by assumption. reflexivity.
Qed.

(** A move that stays within the threshold of a session that is not dragging
    changes nothing. *)
Lemma pointermove_within (s : State) (ps : PointerState) (x y : Q) (lay : Layout) :
  pointerState s = Some ps -> isDragging ps = false ->
  ((x - startX ps) * (x - startX ps) + (y - startY ps) * (y - startY ps)
   <= DRAG_THRESHOLD * DRAG_THRESHOLD)%Q ->
  step s (PointerMove x y lay) = s.
Proof.
  intros Hps Hd Hdist. cbn [step]. unfold run, pointermove, bind, get. rewrite Hps, Hd.
  unfold beyond_threshold. apply Qltb_false in Hdist. rewrite Hdist. cbn.
  unfold session, bind, get. rewrite Hps. cbn. rewrite Hd. reflexivity.
Qed.

Lemma pointermoves_within (s : State) (ps : PointerState)
    (moves : list (Q * Q * Layout)) :
  pointerState s = Some ps -> isDragging ps = false ->
  Forall (fun m => ((m.1.1 - startX ps) * (m.1.1 - startX ps) +
                    (m.1.2 - startY ps) * (m.1.2 - startY ps)
                    <= DRAG_THRESHOLD * DRAG_THRESHOLD)%Q) moves ->
  steps s (map (fun m => PointerMove m.1.1 m.1.2 m.2) moves) = s.
Proof.
  intros Hps Hd Hall. induction Hall as [|m moves Hm Hall IH]; [reflexivity|].
  cbn [map]. unfold steps. cbn [foldl].
  rewrite (pointermove_within s ps _ _ _ Hps Hd Hm). exact IH.
Qed.

Lemma steps_app (s : State) (es1 es2 : list Event) :
  steps s (es1 ++ es2) = steps (steps s es1) es2.
Proof. apply foldl_app. Qed.

(** C5.  A pointer-down on a hand card, any number of moves that stay within
    8 px of the start point, and a pointer-up with no timer having fired in
    between: [cards], [playedCards] and the document tree are as before, the
    session is gone and its hold timer is no longer armed. *)
Theorem tap_is_noop (s : State) (c pid : nat) (x0 y0 : Q) (lay0 : Layout)
    (moves : list (Q * Q * Layout)) (x y : Q) (lay : Layout) :
  Slot c ∈ hand_children (doc s) -> c ∈ cards s ->
  Forall (fun m => ((m.1.1 - x0) * (m.1.1 - x0) + (m.1.2 - y0) * (m.1.2 - y0)
                    <= DRAG_THRESHOLD * DRAG_THRESHOLD)%Q) moves ->
  let s' := steps s (PointerDown (Some c) pid x0 y0 lay0
                       :: map (fun m => PointerMove m.1.1 m.1.2 m.2) moves
                       ++ [PointerUp x y lay]) in
  cards s' = cards s /\ playedCards s' = playedCards s /\ doc s' = doc s /\
  pointerState s' = None /\ lightbox_active s' = lightbox_active s /\
  (next_timer s ∉ (fst <$> timers s')).
Proof.
  intros Hs Hc Hall. cbn zeta.
  change (PointerDown (Some c) pid x0 y0 lay0
            :: map (fun m => PointerMove m.1.1 m.1.2 m.2) moves ++ [PointerUp x y lay])
    with ([PointerDown (Some c) pid x0 y0 lay0]
            ++ map (fun m => PointerMove m.1.1 m.1.2 m.2) moves ++ [PointerUp x y lay]).
  rewrite !steps_app.
  change (steps s [PointerDown (Some c) pid x0 y0 lay0])
    with (step s (PointerDown (Some c) pid x0 y0 lay0)).
  rewrite (pointerdown_run s c pid x0 y0 lay0 Hs Hc).
  match goal with |- context [steps ?st (map _ moves)] => set (s1 := st) end.
  rewrite (pointermoves_within s1 _ moves eq_refl eq_refl Hall).
  unfold steps. cbn [foldl step]. unfold run, pointerup, bind, get. subst s1.
  state_simpl. cbn [isDragging]. unfold modify, cleanupPointer. state_simpl.
  cbn [holdTimer].
  split; [reflexivity|]. split; [reflexivity|]. split; [reflexivity|].
  split; [reflexivity|]. split; [reflexivity|].
  intros Hin. apply list_elem_of_fmap in Hin as ([t d] & Ht & Hin).
  cbn in Ht. subst t. apply list_elem_of_filter in Hin as [Hne _].
  apply Hne. reflexivity.
Qed.

(** A tap on card 2 of the initial hand, the pointer wandering 2 px right and
    3 px down before the release. *)
Lemma tap_is_noop_witness :
  cards (steps initial [PointerDown (Some 2) 1 250 550 table_layout;
                        PointerMove 252 553 table_layout;
                        PointerUp 252 553 table_layout]) = [0; 1; 2; 3; 4; 5] /\
  playedCards (steps initial [PointerDown (Some 2) 1 250 550 table_layout;
                              PointerMove 252 553 table_layout;
                              PointerUp 252 553 table_layout]) = [].
Proof.
  destruct (tap_is_noop initial 2 1 250 550 table_layout [(252%Q, 553%Q, table_layout)]
              252 553 table_layout) as (H1 & H2 & _).
  - apply (bool_decide_unpack _). vm_compute. exact I.
  - apply (bool_decide_unpack _). vm_compute. exact I.
  - constructor; [|constructor]. cbn. vm_compute. discriminate.
  - cbn [map app fst snd] in H1, H2.
    split; [rewrite H1 | rewrite H2]; vm_compute; reflexivity.
Defined.


Lemma on_timer_unarmed (t : nat) (s : State) :
  t ∉ (fst <$> timers s) -> on_timer t s = s.
Proof.
  intros H. unfold on_timer. rewrite bool_decide_eq_false_2 by exact H. reflexivity.
Qed.

(** C4.  After a pointer-down on a hand card, when the hold timer runs with
    no move or release before it, the listener first cancels the timer and
    clears the session and only then opens the lightbox; the lightbox is
    opened once, and the timer cannot run again. *)
Theorem hold_opens_preview_once (s : State) (c pid : nat) (x y : Q) (lay : Layout) :
  Slot c ∈ hand_children (doc s) -> c ∈ cards s ->
  let t := next_timer s in
  let s1 := step s (PointerDown (Some c) pid x y lay) in
  let s2 := step s1 (TimerFire t) in
  (t, HOLD_DELAY) ∈ timers s1 /\
  trace s2 = trace s1 ++ [ClearTimeout t; SessionNull; LightboxOpen;
                          EffectNew (fresh (dom (effects s))) LightboxCard] /\
  opens (trace s2) = S (opens (trace s1)) /\
  pointerState s2 = None /\ lightbox_active s2 = true /\
  (t ∉ (fst <$> timers s2)) /\
  step s2 (TimerFire t) = s2.
Proof.
  intros Hs Hc. cbn zeta.
  rewrite (pointerdown_run s c pid x y lay Hs Hc).
  match goal with |- context [step ?st (TimerFire _)] => set (s1 := st) end.
  assert (Hin : (next_timer s, HOLD_DELAY) ∈ timers s1).
  { subst s1. state_simpl. apply elem_of_app. right. left. }
  assert (Hout : forall l : list (nat * nat),
             next_timer s ∉ (fst <$> filter (fun q => q.1 <> next_timer s) l)).
  { intros l H. apply list_elem_of_fmap in H as ([t d] & Ht & H).
    cbn in Ht. subst t. apply list_elem_of_filter in H as [Hne _].
    apply Hne. reflexivity. }
  assert (Hrun : step s1 (TimerFire (next_timer s)) =
                 openLightbox
                   (log SessionNull
                      (set_pointerState None
                         (clearTimeout (next_timer s)
                            (set_timers (filter (fun q => q.1 <> next_timer s))
                               (next_timer s1) s1))))).
  { cbn [step]. unfold on_timer.
    rewrite bool_decide_eq_true_2
      by (apply list_elem_of_fmap; exists (next_timer s, HOLD_DELAY); split;
          [reflexivity | exact Hin]).
    unfold hold_callback, cleanupPointer. subst s1. state_simpl.
    cbn [isDragging negb holdTimer]. reflexivity. }
  rewrite Hrun. clear Hrun.
  split; [exact Hin|].
  split.
  { unfold openLightbox. state_simpl. rewrite <- !app_assoc. reflexivity. }
  split.
  { unfold openLightbox, opens. state_simpl. rewrite !filter_app, !length_app. cbn.
    repeat first [rewrite decide_False by discriminate
                 | rewrite decide_True by reflexivity].
    cbn. lia. }
  split; [reflexivity|]. split; [reflexivity|].
  split; [unfold openLightbox; state_simpl; apply Hout|].
  cbn [step]. apply on_timer_unarmed. unfold openLightbox. state_simpl. apply Hout.
Qed.

(** Card 2 of the initial hand pressed and held. *)
Lemma hold_opens_preview_once_witness :
  trace (steps initial [PointerDown (Some 2) 1 250 550 table_layout; TimerFire 0]) =
  trace (steps initial [PointerDown (Some 2) 1 250 550 table_layout]) ++
  [ClearTimeout 0; SessionNull; LightboxOpen; EffectNew 6 LightboxCard].
Proof.
  destruct (hold_opens_preview_once initial 2 1 250 550 table_layout) as (_ & H2 & _).
  - apply (bool_decide_unpack _). vm_compute. exact I.
  - apply (bool_decide_unpack _). vm_compute. exact I.
  - exact H2.
Defined.


(** ** The table's capacity *)

Lemma cleanupPointer_playedCards (b : bool) (s : State) :
  playedCards (cleanupPointer b s) = playedCards s.
Proof. unfold cleanupPointer. destruct (pointerState s), b; reflexivity. Qed.

Lemma destroy_card_effect_playedCards (c : nat) (s : State) :
  playedCards (destroy_card_effect c s) = playedCards s.
Proof. unfold destroy_card_effect. destruct (objs s !! c); reflexivity. Qed.

(** [endDrag] either leaves [playedCards] alone or, when there was room,
    pushes one card. *)
Lemma endDrag_playedCards (x y : Q) (lay : Layout) (s : State) :
  playedCards (run (endDrag x y lay) s) = playedCards s \/
  (length (playedCards s) < MAX_FIELD /\
   exists c, playedCards (run (endDrag x y lay) s) = playedCards s ++ [c]).
Proof.
  unfold endDrag. monad_unfold. state_simpl.
  destruct (pointerState s) as [ps|] eqn:Hps; state_simpl; [|left; reflexivity].
  destruct (over_play x y (lay_play lay)); cbn [andb].
  - destruct (bool_decide (MAX_FIELD <= length (playedCards s))) eqn:Hfull; cbn [negb].
    + destruct (placeholder ps) as [p|]; state_simpl; [|left; reflexivity].
      destruct (nextSibling (Placeholder p) (doc s)) as [n|]; state_simpl.
      * destruct (insertBefore Hand (Slot (card ps)) n _); state_simpl;
          [|left; reflexivity].
        rewrite cleanupPointer_playedCards. left. reflexivity.
      * rewrite cleanupPointer_playedCards. left. reflexivity.
    + apply bool_decide_eq_false in Hfull.
      destruct (placeholder ps) as [p|]; state_simpl; [|left; reflexivity].
      rewrite cleanupPointer_playedCards. state_simpl.
      right. split; [lia|]. eexists. reflexivity.
  - destruct (placeholder ps) as [p|]; state_simpl; [|left; reflexivity].
    destruct (nextSibling (Placeholder p) (doc s)) as [n|]; state_simpl.
    + destruct (insertBefore Hand (Slot (card ps)) n _); state_simpl;
        [|left; reflexivity].
      rewrite cleanupPointer_playedCards. left. reflexivity.
    + rewrite cleanupPointer_playedCards. left. reflexivity.
Qed.

Lemma startDrag_playedCards (lay : Layout) (s : State) :
  playedCards (run (startDrag lay) s) = playedCards s.
Proof.
  unfold startDrag. monad_unfold. state_simpl.
  destruct (pointerState s) as [ps|] eqn:Hps; state_simpl; [|reflexivity].
  destruct (parentNode _ _) as [k|]; state_simpl.
  - destruct (insertBefore k _ _ _); state_simpl;
      rewrite destroy_card_effect_playedCards; reflexivity.
  - rewrite destroy_card_effect_playedCards; reflexivity.
Qed.

Lemma updateDrag_playedCards (x y : Q) (lay : Layout) (s : State) :
  playedCards (run (updateDrag x y lay) s) = playedCards s.
Proof.
  unfold updateDrag. monad_unfold. state_simpl.
  destruct (pointerState s) as [ps|] eqn:Hps; state_simpl; [|reflexivity].
  destruct (negb _); [|reflexivity].
  destruct (over_hand _ _ _); [|reflexivity].
  destruct (find_insertBefore _ _ _ _) as [c'|];
    destruct (placeholder ps) as [p|]; state_simpl; try reflexivity.
  destruct (insertBefore _ _ _ _); reflexivity.
Qed.

Lemma run_bind {A} (m : M A) (k : A -> M unit) (s : State) :
  run (bind m k) s =
  match m s with
  | (Normal a, s') => run (k a) s'
  | (Throw _, s') => s'
  end.
Proof. unfold run, bind. destruct (m s) as [[a|e] s']; reflexivity. Qed.

Lemma pointermove_playedCards (x y : Q) (lay : Layout) (s : State) :
  playedCards (step s (PointerMove x y lay)) = playedCards s.
Proof.
  cbn [step]. unfold pointermove. rewrite run_bind. unfold get at 1.
  destruct (pointerState s) as [ps|] eqn:Hps; [|reflexivity].
  rewrite run_bind.
  destruct (negb (isDragging ps) && beyond_threshold _ _).
  - pose proof (startDrag_playedCards lay (clearTimeout (holdTimer ps) s)) as Hsd.
    unfold run in Hsd.
    change ((modify (clearTimeout (holdTimer ps));; startDrag lay) s)
      with (startDrag lay (clearTimeout (holdTimer ps) s)).
    destruct (startDrag lay (clearTimeout (holdTimer ps) s)) as [[[]|e] s1];
      cbn [snd] in Hsd; [|exact Hsd].
    rewrite run_bind. unfold session, bind, get.
    destruct (pointerState s1) as [ps1|]; cbn [throw ret]; [|exact Hsd].
    destruct (isDragging ps1); [|exact Hsd].
    rewrite updateDrag_playedCards. exact Hsd.
  - cbn [ret]. rewrite run_bind. unfold session, bind, get. rewrite Hps. cbn [ret].
    destruct (isDragging ps); [|reflexivity].
    apply updateDrag_playedCards.
Qed.

Lemma pointerup_unfold (x y : Q) (lay : Layout) (s : State) :
  step s (PointerUp x y lay) =
  match pointerState s with
  | Some ps => if isDragging ps then run (endDrag x y lay) s else cleanupPointer true s
  | None => s
  end.
Proof.
  cbn [step]. unfold pointerup, run, bind, get.
  destruct (pointerState s) as [ps|]; [|reflexivity].
  destruct (isDragging ps); reflexivity.
Qed.

Lemma pointerup_playedCards (x y : Q) (lay : Layout) (s : State) :
  playedCards (step s (PointerUp x y lay)) = playedCards s \/
  (length (playedCards s) < MAX_FIELD /\
   exists c, playedCards (step s (PointerUp x y lay)) = playedCards s ++ [c]).
Proof.
  rewrite pointerup_unfold.
  destruct (pointerState s) as [ps|] eqn:Hps; [|left; reflexivity].
  destruct (isDragging ps).
  - apply endDrag_playedCards.
  - left. apply cleanupPointer_playedCards.
Qed.

Lemma reset_playedCards (s : State) : playedCards (on_reset s) = [].
Proof.
  unfold on_reset. state_simpl.
  apply (reset_loop_cards (playedCards s) s eq_refl).
Qed.

Lemma openLightbox_playedCards (s : State) :
  playedCards (openLightbox s) = playedCards s.
Proof. reflexivity. Qed.

(** What one event can do to [playedCards]: nothing, empty it, or push one
    card when there was room. *)
Lemma step_playedCards (s : State) (e : Event) :
  playedCards (step s e) = playedCards s \/
  playedCards (step s e) = [] \/
  (length (playedCards s) < MAX_FIELD /\
   exists c, playedCards (step s e) = playedCards s ++ [c]).
Proof.
  destruct e as [| |b|t|t r|t pid x y lay|x y lay|x y lay|t].
  - left. reflexivity.
  - right. left. apply reset_playedCards.
  - left. cbn [step]. unfold on_lightbox_click, closeLightbox.
    destruct b; [|reflexivity]. state_simpl.
    destruct (lightboxEffect s); reflexivity.
  - left. cbn [step]. unfold on_pointerover. destruct t; [|reflexivity].
    destruct (_ && _); reflexivity.
  - left. cbn [step]. unfold on_pointerout. destruct t; [|reflexivity].
    destruct (_ && _); reflexivity.
  - left. cbn [step]. unfold on_pointerdown. destruct t; [|reflexivity].
    destruct (bool_decide _); [|reflexivity].
    destruct (bool_decide _); reflexivity.
  - left. apply pointermove_playedCards.
  - destruct (pointerup_playedCards x y lay s) as [H|H]; [left; exact H | right; right; exact H].
  - left. cbn [step]. unfold on_timer. destruct (bool_decide _); [|reflexivity].
    unfold hold_callback. state_simpl.
    destruct (pointerState s) as [ps|]; [|reflexivity].
    destruct (negb _); [|reflexivity].
    rewrite openLightbox_playedCards, cleanupPointer_playedCards. reflexivity.
Qed.

(** C3.  No event takes the table above [MAX_FIELD] cards, and [MAX_FIELD]
    is 3, one more than the limit the README announces. *)
Theorem table_never_exceeds_limit (s : State) (e : Event) :
  length (playedCards s) <= MAX_FIELD ->
  length (playedCards (step s e)) <= MAX_FIELD /\
  MAX_FIELD = 3 /\ README_field_limit = 2.
Proof.
  intros Hle. split; [|split; reflexivity].
  destruct (step_playedCards s e) as [H|[H|(Hlt & c & H)]]; rewrite H.
  - exact Hle.
  - cbn. lia.
  - rewrite length_app. cbn. lia.
Qed.

(** Card 3 released over the table that already holds three cards. *)
Lemma table_never_exceeds_limit_witness :
  length (playedCards (step lifted_over_full (PointerUp 300 100 table_layout))) <= 3.
Proof.
  apply (table_never_exceeds_limit lifted_over_full (PointerUp 300 100 table_layout)).
  vm_compute. lia.
Defined.

(** Three cards can be on the table, one more than the README's limit. *)
Lemma three_cards_reachable :
  playedCards three_played = [0; 1; 2] /\
  README_field_limit < length (playedCards three_played).
Proof. vm_compute. split; [reflexivity | lia]. Qed.


(** Hence the bound holds along every run from the initial state. *)
Lemma table_bound_reachable (es : list Event) :
  length (playedCards (steps initial es)) <= MAX_FIELD.
Proof.
  induction es as [|e es IH] using rev_ind.
  - cbn. unfold MAX_FIELD. lia.
  - rewrite steps_app. unfold steps at 1. cbn [foldl].
    destruct (step_playedCards (steps initial es) e) as [H|[H|(Hlt & c & H)]]; rewrite H.
    + exact IH.
    + cbn [length]. unfold MAX_FIELD. lia.
    + rewrite length_app. cbn [length]. lia.
Qed.

(** ** Well-formed states are closed under the events *)

Lemma refs_alter_style (e : gmap nat EffectInst) (o : gmap nat CardObj)
    (f : CardObj -> CardObj) (c : nat) :
  (forall x, holoEffect (f x) = holoEffect x) ->
  map_Forall (fun _ obj => holoEffect obj ∈ dom e) o ->
  map_Forall (fun _ obj => holoEffect obj ∈ dom e) (alter f c o).
Proof.
  intros Hf Hr k obj Hk. destruct (decide (c = k)) as [->|Hne].
  - rewrite lookup_alter_eq in Hk. destruct (o !! k) as [x|] eqn:Hx; [|discriminate].
    injection Hk as <-. rewrite Hf. apply (Hr k x Hx).
  - rewrite lookup_alter_ne in Hk by exact Hne. apply (Hr k obj Hk).
Qed.

Lemma refs_kill (e : gmap nat EffectInst) (o : gmap nat CardObj) (id : nat) :
  map_Forall (fun _ obj => holoEffect obj ∈ dom e) o ->
  map_Forall (fun _ obj => holoEffect obj ∈ dom (alter kill id e)) o.
Proof. intros Hr k obj Hk. rewrite dom_alter_L. apply (Hr k obj Hk). Qed.

Lemma refs_insert (e : gmap nat EffectInst) (o : gmap nat CardObj) (id : nat)
    (x : EffectInst) :
  map_Forall (fun _ obj => holoEffect obj ∈ dom e) o ->
  map_Forall (fun _ obj => holoEffect obj ∈ dom (<[id := x]> e)) o.
Proof.
  intros Hr k obj Hk. rewrite dom_insert_L. apply elem_of_union. right.
  apply (Hr k obj Hk).
Qed.

Lemma refs_attach (e : gmap nat EffectInst) (o : gmap nat CardObj) (id c : nat)
    (x : EffectInst) :
  map_Forall (fun _ obj => holoEffect obj ∈ dom e) o ->
  map_Forall (fun _ obj => holoEffect obj ∈ dom (<[id := x]> e))
             (alter (set_holoEffect id) c o).
Proof.
  intros Hr k obj Hk. rewrite dom_insert_L. apply elem_of_union.
  destruct (decide (c = k)) as [->|Hne].
  - rewrite lookup_alter_eq in Hk. destruct (o !! k) as [y|]; [|discriminate].
    injection Hk as <-. left. apply elem_of_singleton. reflexivity.
  - rewrite lookup_alter_ne in Hk by exact Hne. right. apply (Hr k obj Hk).
Qed.

Lemma refs_reindex (e : gmap nat EffectInst) (cs : list nat) (i n : nat)
    (o : gmap nat CardObj) :
  map_Forall (fun _ obj => holoEffect obj ∈ dom e) o ->
  map_Forall (fun _ obj => holoEffect obj ∈ dom e) (reindex_from i n cs o).
Proof.
  intros Hr k obj Hk.
  pose proof (reindex_from_holoEffect cs i n o k) as Hh. rewrite Hk in Hh. cbn in Hh.
  destruct (o !! k) as [x|] eqn:Hx; [|discriminate].
  injection Hh as ->. apply (Hr k x Hx).
Qed.

Lemma is_Some_alter (o : gmap nat CardObj) (f : CardObj -> CardObj) (c k : nat) :
  is_Some (alter f c o !! k) <-> is_Some (o !! k).
Proof.
  destruct (decide (c = k)) as [->|Hne].
  - rewrite lookup_alter_eq. apply fmap_is_Some.
  - rewrite lookup_alter_ne by exact Hne. reflexivity.
Qed.

Lemma is_Some_reindex (cs : list nat) (i n : nat) (o : gmap nat CardObj) (k : nat) :
  is_Some (reindex_from i n cs o !! k) <-> is_Some (o !! k).
Proof.
  rewrite <- (fmap_is_Some holoEffect (reindex_from i n cs o !! k)).
  rewrite reindex_from_holoEffect. apply fmap_is_Some.
Qed.

Lemma indexed_alter_style (s : State) (f : CardObj -> CardObj) (c : nat) :
  (forall x, style_i (f x) = style_i x /\ style_n (f x) = style_n x) ->
  indexed s -> indexed (set_objs (alter f c) s).
Proof.
  intros Hf Hi i k Hk. destruct (Hi i k Hk) as (obj & H1 & H2 & H3).
  state_simpl. destruct (decide (c = k)) as [->|Hne].
  - rewrite lookup_alter_eq, H1. exists (f obj). split; [reflexivity|].
    destruct (Hf obj) as [-> ->]. auto.
  - rewrite lookup_alter_ne by exact Hne. exists obj. auto.
Qed.

(** After [reindexHand] the hand is indexed. *)
Lemma reindex_from_indexed (cs : list nat) (i n : nat) (o : gmap nat CardObj) :
  NoDup cs -> (forall c, c ∈ cs -> is_Some (o !! c)) ->
  forall j c, cs !! j = Some c ->
    exists obj, reindex_from i n cs o !! c = Some obj /\
                style_i obj = i + j /\ style_n obj = n.
Proof.
  intros Hnd. revert i o. induction Hnd as [|c0 cs Hc0 Hnd IH]; intros i o Hall j c Hj;
    [discriminate|].
  destruct j as [|j].
  - injection Hj as <-. cbn [reindex_from].
    rewrite reindex_from_lookup_notin by exact Hc0.
    rewrite lookup_alter_eq. destruct (Hall c0) as [obj Ho]; [left|].
    rewrite Ho. exists (set_index i n obj). split; [reflexivity|]. cbn. split; [lia|reflexivity].
  - cbn [reindex_from]. change (cs !! j = Some c) in Hj.
    destruct (IH (S i) (alter (set_index i n) c0 o)) with (j := j) (c := c)
      as (obj & G1 & G2 & G3).
    + intros k Hk. apply is_Some_alter. apply Hall. right. exact Hk.
    + exact Hj.
    + exists obj. split; [exact G1|]. split; [lia | exact G3].
Qed.

Lemma reindexHand_indexed (s : State) :
  NoDup (cards s) -> (forall c, c ∈ cards s -> is_Some (objs s !! c)) ->
  indexed (reindexHand s).
Proof.
  intros Hnd Hall i c Hi. state_simpl.
  destruct (reindex_from_indexed (cards s) 0 (length (cards s)) (objs s) Hnd Hall i c Hi)
    as (obj & G1 & G2 & G3).
  exists obj. auto.
Qed.

Lemma session_shape_idle (s : State) :
  session_shape s ->
  (forall ps, pointerState s = Some ps -> isDragging ps = false) ->
  hand_children (doc s) = Slot <$> cards s /\ body_children (doc s) = [].
Proof.
  unfold session_shape. intros Hs Hnd.
  destruct (pointerState s) as [ps|]; [|exact Hs].
  rewrite (Hnd ps eq_refl) in Hs. apply Hs.
Qed.

Lemma wf_toggle (s : State) : wf s -> wf (on_toggle s).
Proof. intros [H1 H2 H3 H4 H5 H6]. constructor; assumption. Qed.

Lemma wf_pointerover (t : option nat) (s : State) : wf s -> wf (on_pointerover t s).
Proof.
  intros [H1 H2 H3 H4 H5 H6]. unfold on_pointerover.
  destruct t as [c|]; [|constructor; assumption].
  destruct (_ && _); [|constructor; assumption].
  constructor; state_simpl; try assumption.
  - intros k Hk. apply is_Some_alter, H2, Hk.
  - apply refs_alter_style; [reflexivity | exact H3].
  - apply indexed_alter_style; [intros x; split; reflexivity | exact H4].
Qed.

Lemma wf_pointerout (t : option nat) (r : bool) (s : State) :
  wf s -> wf (on_pointerout t r s).
Proof.
  intros [H1 H2 H3 H4 H5 H6]. unfold on_pointerout.
  destruct t as [c|]; [|constructor; assumption].
  destruct (_ && _); [|constructor; assumption].
  constructor; state_simpl; try assumption.
  - intros k Hk. apply is_Some_alter, H2, Hk.
  - apply refs_alter_style; [reflexivity | exact H3].
  - apply indexed_alter_style; [intros x; split; reflexivity | exact H4].
Qed.

Lemma wf_lightbox_click (b : bool) (s : State) : wf s -> wf (on_lightbox_click b s).
Proof.
  intros [H1 H2 H3 H4 H5 H6]. unfold on_lightbox_click, closeLightbox.
  destruct b; [|constructor; assumption]. state_simpl.
  destruct (lightboxEffect s) as [id|]; constructor; state_simpl; try assumption.
  apply refs_kill, H3.
Qed.

Lemma wf_pointerdown (t : option nat) (pid : nat) (x y : Q) (lay : Layout) (s : State) :
  wf s -> allowed s (PointerDown t pid x y lay) ->
  wf (on_pointerdown t pid x y lay s).
Proof.
  intros Hwf Hal. pose proof Hwf as [H1 H2 H3 H4 H5 H6]. unfold on_pointerdown.
  destruct t as [c|]; [|exact Hwf].
  destruct (bool_decide (Slot c ∈ _)) eqn:Hin; [|exact Hwf].
  destruct (bool_decide (c ∈ cards s)) eqn:Hc; [|exact Hwf].
  apply bool_decide_eq_true in Hin, Hc.
  assert (Hidle : forall ps, pointerState s = Some ps -> isDragging ps = false).
  { intros ps Hps. destruct (isDragging ps) eqn:Hd; [|reflexivity].
    exfalso. apply (Hal ps Hps Hd). exact Hin. }
  constructor; state_simpl; try assumption.
  - intros k Hk. apply is_Some_alter, H2, Hk.
  - apply refs_alter_style; [reflexivity | exact H3].
  - apply indexed_alter_style; [intros o; split; reflexivity | exact H4].
  - unfold session_shape. state_simpl. cbn [card isDragging].
    split; [exact Hc|]. apply (session_shape_idle s H6 Hidle).
Qed.

Lemma wf_timer (t : nat) (s : State) : wf s -> wf (on_timer t s).
Proof.
  intros Hwf. pose proof Hwf as [H1 H2 H3 H4 H5 H6]. unfold on_timer.
  destruct (bool_decide _); [|exact Hwf].
  unfold hold_callback. state_simpl.
  destruct (pointerState s) as [ps|] eqn:Hps; [|constructor; assumption].
  destruct (isDragging ps) eqn:Hd; cbn [negb]; [constructor; assumption|].
  unfold openLightbox, cleanupPointer. state_simpl. rewrite Hps. state_simpl.
  constructor; state_simpl; try assumption.
  - apply refs_insert, H3.
  - unfold session_shape. state_simpl.
    unfold session_shape in H6. rewrite Hps, Hd in H6. apply H6.
Qed.

(** *** Lists of slots *)

Lemma without_placeholder_slots (p : nat) (l : list nat) :
  without (Placeholder p) (Slot <$> l) = Slot <$> l.
Proof.
  apply without_notin. intros H. apply list_elem_of_fmap in H as (k & Hk & _).
  discriminate.
Qed.

Lemma without_slot_slots (c : nat) (l : list nat) :
  without (Slot c) (Slot <$> l) = Slot <$> filter (fun k => k <> c) l.
Proof.
  induction l as [|k l IH]; [reflexivity|]. rewrite fmap_cons. unfold without in *.
  destruct (decide (k = c)) as [->|Hne].
  - rewrite (filter_cons_False (fun x => x <> Slot c)) by (intros H; apply H; reflexivity).
    rewrite (filter_cons_False (fun k => k <> c)) by (intros H; apply H; reflexivity).
    exact IH.
  - rewrite (filter_cons_True (fun x => x <> Slot c)) by congruence.
    rewrite (filter_cons_True (fun k => k <> c)) by exact Hne.
    rewrite fmap_cons. f_equal. exact IH.
Qed.

Lemma without_slot_absent (c : nat) (l : list nat) :
  c ∉ l -> without (Slot c) (Slot <$> l) = Slot <$> l.
Proof. intros H. rewrite without_slot_slots, filter_out_notin by exact H. reflexivity. Qed.

Lemma slots_split (l1 l2 : list Node) (cs : list nat) :
  l1 ++ l2 = Slot <$> cs ->
  l1 = Slot <$> slots_of l1 /\ l2 = Slot <$> slots_of l2 /\
  cs = slots_of l1 ++ slots_of l2.
Proof.
  intros H. symmetry in H. apply fmap_app_inv in H as (k1 & k2 & -> & -> & ->).
  rewrite !slots_of_Slot. auto.
Qed.

Lemma perm_filter_out (c : nat) (l : list nat) :
  NoDup l -> c ∈ l -> l ≡ₚ c :: filter (fun k => k <> c) l.
Proof.
  intros Hnd. induction Hnd as [|x l Hx Hl IH]; intros Hc; [inversion Hc|].
  destruct (decide (x = c)) as [->|Hne].
  - rewrite filter_cons_False by (intros H; apply H; reflexivity).
    rewrite filter_out_notin by exact Hx. reflexivity.
  - rewrite filter_cons_True by exact Hne.
    apply elem_of_cons in Hc as [->|Hc]; [contradiction|].
    rewrite (IH Hc) at 1. apply perm_swap.
Qed.

(** What a well-formed state with a drag in progress guarantees: the
    hypotheses of the drop theorems. *)
Lemma wf_dragging (s : State) (ps : PointerState) :
  wf s -> pointerState s = Some ps -> isDragging ps = true ->
  exists p l1 l2,
    placeholder ps = Some p /\
    hand_children (doc s) = l1 ++ Placeholder p :: l2 /\
    l1 ++ l2 = Slot <$> filter (fun k => k <> card ps) (cards s) /\
    body_children (doc s) = [Slot (card ps)] /\
    NoDup (cards s) /\ card ps ∈ cards s /\ is_Some (objs s !! card ps) /\
    (card ps ∉ playedCards s) /\
    NoDup (hand_children (doc s)) /\
    (Slot (card ps) ∉ hand_children (doc s)) /\
    cards s ≡ₚ card ps :: slots_of (l1 ++ l2).
Proof.
  intros [H1 H2 H3 H4 H5 H6] Hps Hd. unfold session_shape in H6.
  rewrite Hps, Hd in H6. destruct H6 as (Hc & p & l1 & l2 & Hp & Hh & Hl & Hb).
  apply NoDup_app in H1 as (Hnd & Hdisj & Hndp).
  exists p, l1, l2.
  assert (Hp1 : Placeholder p ∉ l1 ++ l2).
  { rewrite Hl. intros H. apply list_elem_of_fmap in H as (k & Hk & _). discriminate. }
  assert (Hc1 : Slot (card ps) ∉ l1 ++ l2).
  { rewrite Hl. intros H. apply list_elem_of_fmap in H as (k & Hk & Hin).
    injection Hk as <-. apply list_elem_of_filter in Hin as [Hne _]. apply Hne. reflexivity. }
  assert (Hndl : NoDup (l1 ++ l2)).
  { rewrite Hl. apply (NoDup_fmap_2 Slot). apply NoDup_filter, Hnd. }
  split; [exact Hp|]. split; [exact Hh|]. split; [exact Hl|]. split; [exact Hb|].
  split; [exact Hnd|]. split; [exact Hc|].
  split; [apply H2, elem_of_app; left; exact Hc|].
  split; [apply Hdisj, Hc|].
  split; [|split].
  - rewrite Hh. apply NoDup_app in Hndl as (N1 & N2 & N3).
    apply not_elem_of_app in Hp1 as [P1 P2].
    apply NoDup_app. split; [exact N1|]. split.
    + intros n Hn1 Hn2. apply elem_of_cons in Hn2 as [->|Hn2]; [contradiction|].
      apply (N2 n Hn1 Hn2).
    + apply NoDup_cons. split; assumption.
  - rewrite Hh. intros H. apply elem_of_app in H as [H|H].
    + apply Hc1, elem_of_app. left. exact H.
    + apply elem_of_cons in H as [H|H]; [discriminate|].
      apply Hc1, elem_of_app. right. exact H.
  - rewrite Hl, slots_of_Slot. apply perm_filter_out; assumption.
Qed.

(** *** Pointer up *)

Lemma wf_pointerup (x y : Q) (lay : Layout) (s : State) :
  wf s -> wf (step s (PointerUp x y lay)).
Proof.
  intros Hwf. pose proof Hwf as [H1 H2 H3 H4 H5 H6].
  destruct (pointerState s) as [ps|] eqn:Hps.
  2:{ rewrite pointerup_unfold, Hps. exact Hwf. }
  destruct (isDragging ps) eqn:Hd.
  2:{ rewrite pointerup_unfold, Hps, Hd. unfold cleanupPointer. rewrite Hps.
      constructor; state_simpl; try assumption.
      unfold session_shape. state_simpl.
      unfold session_shape in H6. rewrite Hps, Hd in H6. apply H6. }
  destruct (wf_dragging s ps Hwf Hps Hd)
    as (p & l1 & l2 & Hp & Hh & Hl & Hb & Hnd & Hc & Ho & Hcp & Hndh & Hch & Hperm).
  assert (Hc' : card ps ∉ filter (fun k => k <> card ps) (cards s)).
  { intros Hin. apply list_elem_of_filter in Hin as [Hne _]. apply Hne. reflexivity. }
  assert (Hpl : (Placeholder p ∉ l1) /\ (Placeholder p ∉ l2)).
  { rewrite Hh in Hndh. apply NoDup_app in Hndh as (_ & Hdisj & Hn2).
    apply NoDup_cons in Hn2 as [Hn2 _]. split; [|exact Hn2].
    intros Hin. apply (Hdisj _ Hin). left. }
  destruct Hpl as [Hpl1 Hpl2].
  destruct (over_play x y (lay_play lay) &&
            negb (bool_decide (MAX_FIELD <= length (playedCards s)))) eqn:Hcond.
  - (* played *)
    apply andb_true_iff in Hcond as [Hov Hfull].
    apply negb_true_iff, bool_decide_eq_false in Hfull.
    rewrite (pointerup_play_run s ps p x y lay Hps Hd Hp Hov) by lia.
    assert (Hcards : splice1 (indexOf (card ps) (cards s)) (cards s) =
                     filter (fun k => k <> card ps) (cards s))
      by (apply splice1_indexOf; assumption).
    assert (Hperm' : filter (fun k => k <> card ps) (cards s) ++ playedCards s ++ [card ps]
                     ≡ₚ cards s ++ playedCards s).
    { rewrite (perm_filter_out (card ps) (cards s) Hnd Hc) at 2.
      rewrite app_assoc. rewrite <- Permutation_cons_append. reflexivity. }
    constructor; state_simpl; rewrite ?Hcards.
    + rewrite Hperm'. exact H1.
    + intros k Hk. apply is_Some_reindex. rewrite !is_Some_alter.
      apply H2. rewrite <- Hperm'. exact Hk.
    + unfold refs_ok. state_simpl. apply refs_reindex, refs_attach.
      repeat (apply refs_alter_style; [reflexivity|]). exact H3.
    + unfold indexed. state_simpl. rewrite Hcards. intros i k Hk.
      match goal with
      | |- context [reindex_from 0 ?n ?cs ?o !! _] =>
          destruct (reindex_from_indexed cs 0 n o) with (j := i) (c := k)
            as (obj & G1 & G2 & G3)
      end.
      * apply NoDup_filter, Hnd.
      * intros c0 Hc0. rewrite !is_Some_alter. apply H2, elem_of_app. left.
        apply list_elem_of_filter in Hc0 as [_ Hc0]. exact Hc0.
      * exact Hk.
      * exists obj. auto.
    + unfold appendChild. cbn [set_children children play_children dom_remove].
      rewrite H5, without_placeholder_slots, without_slot_absent by exact Hcp.
      rewrite fmap_app. reflexivity.
    + unfold session_shape. state_simpl. rewrite Hcards.
      unfold appendChild. cbn [set_children children hand_children body_children dom_remove].
      rewrite Hh, without_mid by assumption. rewrite Hl, Hb.
      rewrite without_slot_absent by exact Hc'. split; [reflexivity|].
      unfold without. rewrite filter_cons_True by discriminate.
      rewrite filter_cons_False by (intros H; apply H; reflexivity). reflexivity.
  - (* returned *)
    destruct (replace_placeholder (doc s) p (card ps) l1 l2 Hh Hndh Hch)
      as (d' & Hd' & Hh' & Hplay & Hbody).
    rewrite (pointerup_return_run s ps p x y lay d' Hps Hd Hp Hcond Hd').
    destruct (slots_split l1 l2 _ Hl) as (E1 & E2 & E3).
    assert (Horder : slots_of (hand_children d') = slots_of l1 ++ card ps :: slots_of l2).
    { rewrite Hh', slots_of_app. reflexivity. }
    assert (Hpo : cards s ≡ₚ slots_of l1 ++ card ps :: slots_of l2).
    { rewrite Hperm, slots_of_app. apply Permutation_middle. }
    assert (Hsort : sort_by (fun a => indexOf a (slots_of (hand_children d'))) (cards s) =
                    slots_of l1 ++ card ps :: slots_of l2).
    { rewrite Horder. apply sort_by_position; [|exact Hpo]. rewrite <- Hpo. exact Hnd. }
    constructor; state_simpl; rewrite ?Hsort.
    + rewrite <- Hpo. exact H1.
    + intros k Hk. apply is_Some_reindex. rewrite !is_Some_alter.
      apply H2. rewrite Hpo. exact Hk.
    + unfold refs_ok. state_simpl. apply refs_reindex, refs_attach.
      repeat (apply refs_alter_style; [reflexivity|]). exact H3.
    + unfold indexed. state_simpl. rewrite Hsort. intros i k Hk.
      match goal with
      | |- context [reindex_from 0 ?n ?cs ?o !! _] =>
          destruct (reindex_from_indexed cs 0 n o) with (j := i) (c := k)
            as (obj & G1 & G2 & G3)
      end.
      * rewrite <- Hpo. exact Hnd.
      * intros c0 Hc0. rewrite !is_Some_alter. apply H2, elem_of_app. left.
        rewrite Hpo. exact Hc0.
      * exact Hk.
      * exists obj. auto.
    + rewrite Hplay, H5, without_placeholder_slots, without_slot_absent by exact Hcp.
      reflexivity.
    + unfold session_shape. state_simpl. rewrite Hsort, Hh', Hbody, Hb. split.
      * rewrite fmap_app, fmap_cons, <- E1, <- E2. reflexivity.
      * unfold without. rewrite filter_cons_True by discriminate.
        rewrite filter_cons_False by (intros H; apply H; reflexivity). reflexivity.
Qed.

(** *** Pointer move *)

Lemma wf_restyle (s : State) (f : CardObj -> CardObj) (c : nat) (a b : bool) :
  (forall o, holoEffect (f o) = holoEffect o /\ style_i (f o) = style_i o /\
             style_n (f o) = style_n o) ->
  wf s -> wf (set_play_classes a b (set_objs (alter f c) s)).
Proof.
  intros Hf [H1 H2 H3 H4 H5 H6]. constructor; state_simpl; try assumption.
  - intros k Hk. apply is_Some_alter, H2, Hk.
  - apply refs_alter_style; [intros o; apply Hf | exact H3].
  - apply (indexed_alter_style s f c); [intros o; apply Hf | exact H4].
Qed.

(** Moving the placeholder among the hand's children keeps the state
    well formed. *)
Lemma wf_move_placeholder (s : State) (ps : PointerState) (p : nat) (d' : Dom)
    (l1 l2 : list Node) :
  wf s -> pointerState s = Some ps -> isDragging ps = true -> placeholder ps = Some p ->
  hand_children d' = l1 ++ Placeholder p :: l2 ->
  l1 ++ l2 = Slot <$> filter (fun k => k <> card ps) (cards s) ->
  play_children d' = play_children (doc s) ->
  body_children d' = body_children (doc s) ->
  wf (set_doc (fun _ => d') s).
Proof.
  intros Hwf Hps Hd Hp Hh Hl Hplay Hbody. pose proof Hwf as [H1 H2 H3 H4 H5 H6].
  destruct (wf_dragging s ps Hwf Hps Hd)
    as (p0 & k1 & k2 & Hp0 & _ & _ & Hb & _ & Hc & _).
  constructor; state_simpl; try assumption.
  - rewrite Hplay. exact H5.
  - unfold session_shape. state_simpl. rewrite Hps, Hd. split; [exact Hc|].
    exists p, l1, l2. rewrite Hbody. auto.
Qed.

Lemma find_insertBefore_elem (c : nat) (x : Q) (lay : Layout) (cs : list nat) (c' : nat) :
  find_insertBefore c x lay cs = Some c' -> c' ∈ cs /\ c' <> c.
Proof.
  induction cs as [|k cs IH]; [discriminate|]. cbn.
  destruct (bool_decide (k = c)) eqn:Hk.
  - intros H. destruct (IH H) as [H1 H2]. split; [right; exact H1 | exact H2].
  - apply bool_decide_eq_false in Hk.
    destruct (Qltb x (midX (lay_slot lay k))).
    + intros [= <-]. split; [left | exact Hk].
    + intros H. destruct (IH H) as [H1 H2]. split; [right; exact H1 | exact H2].
Qed.

Lemma wf_updateDrag (x y : Q) (lay : Layout) (s : State) (ps : PointerState) :
  wf s -> pointerState s = Some ps -> isDragging ps = true ->
  wf (run (updateDrag x y lay) s).
Proof.
  intros Hwf Hps Hd.
  destruct (wf_dragging s ps Hwf Hps Hd)
    as (p & l1 & l2 & Hp & Hh & Hl & Hb & Hnd & Hc & Ho & Hcp & Hndh & Hch & Hperm).
  pose proof Hwf as [H1 H2 H3 H4 H5 H6].
  set (f := fun o : CardObj => set_box (Some (x - offsetX ps)%Q) (Some (y - offsetY ps)%Q)
                                  (style_width o) (style_height o) o).
  assert (Hf : forall o, holoEffect (f o) = holoEffect o /\ style_i (f o) = style_i o /\
                         style_n (f o) = style_n o) by (intros o; repeat split).
  assert (Hpl : (Placeholder p ∉ l1) /\ (Placeholder p ∉ l2)).
  { rewrite Hh in Hndh. apply NoDup_app in Hndh as (_ & Hdisj & Hn2).
    apply NoDup_cons in Hn2 as [Hn2 _]. split; [|exact Hn2].
    intros Hin. apply (Hdisj _ Hin). left. }
  destruct Hpl as [Hpl1 Hpl2].
  assert (Hwo : without (Placeholder p) (hand_children (doc s)) = l1 ++ l2)
    by (rewrite Hh; apply without_mid; assumption).
  assert (Hwp : without (Placeholder p) (play_children (doc s)) = play_children (doc s))
    by (rewrite H5; apply without_placeholder_slots).
  assert (Hwb : without (Placeholder p) (body_children (doc s)) = body_children (doc s)).
  { rewrite Hb. unfold without. rewrite filter_cons_True by discriminate. reflexivity. }
  unfold run, updateDrag, session, bind, get. rewrite Hps. cbn.
  fold f.
  match goal with
  | |- context [set_play_classes ?a ?b _] =>
      pose proof (wf_restyle s f (card ps) a b Hf Hwf) as Hwf1;
      set (s1 := set_play_classes a b (set_objs (alter f (card ps)) s)) in *
  end.
  destruct (negb (over_play x y (lay_play lay))); [|exact Hwf1].
  destruct (over_hand x y (lay_hand lay)); [|exact Hwf1].
  unfold the_placeholder. rewrite Hp.
  destruct (find_insertBefore (card ps) x lay (cards s)) as [c'|] eqn:Hfind; cbn.
  - destruct (find_insertBefore_elem _ _ _ _ _ Hfind) as [Hc'in Hc'ne].
    assert (Hs : Slot c' ∈ l1 ++ l2).
    { rewrite Hl. apply list_elem_of_fmap_2. apply list_elem_of_filter. auto. }
    destruct (list_elem_of_split_l _ _ Hs) as (k1 & k2 & Hk & Hk1).
    assert (Hin : Slot c' ∈ hand_children (doc s)).
    { rewrite Hh. apply elem_of_app in Hs as [Hs|Hs]; apply elem_of_app;
        [left | right; right]; exact Hs. }
    unfold insertBefore. cbn [children]. subst s1. state_simpl.
    rewrite bool_decide_eq_true_2 by exact Hin.
    rewrite bool_decide_eq_false_2 by discriminate. cbn.
    apply (wf_move_placeholder _ ps p _ k1 (Slot c' :: k2) Hwf1 Hps Hd Hp).
    + cbn [set_children children hand_children dom_remove].
      rewrite Hwo, Hk. apply insert_before_mid, Hk1.
    + state_simpl. rewrite <- Hl. symmetry. exact Hk.
    + cbn [set_children children play_children dom_remove]. state_simpl. exact Hwp.
    + cbn [set_children children body_children dom_remove]. state_simpl. exact Hwb.
  - apply (wf_move_placeholder _ ps p _ (l1 ++ l2) [] Hwf1 Hps Hd Hp).
    + subst s1. state_simpl. unfold appendChild.
      cbn [set_children children hand_children dom_remove]. rewrite Hwo. reflexivity.
    + state_simpl. rewrite app_nil_r. exact Hl.
    + subst s1. state_simpl. unfold appendChild.
      cbn [set_children children play_children dom_remove]. exact Hwp.
    + subst s1. state_simpl. unfold appendChild.
      cbn [set_children children body_children dom_remove]. exact Hwb.
Qed.

Lemma filter_out_split (c : nat) (a b : list nat) :
  c ∉ a -> c ∉ b -> filter (fun k => k <> c) (a ++ c :: b) = a ++ b.
Proof.
  intros Ha Hb. rewrite filter_app.
  rewrite filter_cons_False by (intros H; apply H; reflexivity).
  rewrite !filter_out_notin by assumption. reflexivity.
Qed.

(** The state [startDrag] produces from a well-formed state whose session has
    not started dragging: the placeholder takes the card's place in the hand
    and the card goes to the body. *)
Lemma startDrag_run (lay : Layout) (s : State) (ps : PointerState) :
  wf s -> pointerState s = Some ps -> isDragging ps = false ->
  exists s2 ps2,
    startDrag lay s = (Normal tt, s2) /\
    pointerState s2 = Some ps2 /\ isDragging ps2 = true /\ wf s2 /\
    cards s2 = cards s /\ card ps2 = card ps /\
    placeholder ps2 = Some (next_placeholder s).
Proof.
  intros Hwf Hps Hd. pose proof Hwf as [H1 H2 H3 H4 H5 H6].
  unfold session_shape in H6. rewrite Hps, Hd in H6. destruct H6 as (Hc & Hh & Hb).
  apply NoDup_app in H1 as (Hnd & Hdisj & Hndp).
  destruct (H2 (card ps)) as [o Ho]; [apply elem_of_app; left; exact Hc|].
  destruct (list_elem_of_split_l _ _ Hc) as (a & b & Hab & Ha).
  assert (Hb' : card ps ∉ b).
  { rewrite Hab in Hnd. apply NoDup_app in Hnd as (_ & _ & Hn).
    apply NoDup_cons in Hn as [Hn _]. exact Hn. }
  assert (Hin : Slot (card ps) ∈ hand_children (doc s)).
  { rewrite Hh. apply list_elem_of_fmap_2. exact Hc. }
  set (p := next_placeholder s).
  set (d1 := set_children Hand
               (insert_before (Slot (card ps)) (Placeholder p)
                  (hand_children (dom_remove (Placeholder p) (doc s))))
               (dom_remove (Placeholder p) (doc s))).
  assert (Hd1 : insertBefore Hand (Placeholder p) (Slot (card ps)) (doc s) = Some d1).
  { unfold insertBefore. cbn [children]. rewrite bool_decide_eq_true_2 by exact Hin.
    rewrite bool_decide_eq_false_2 by discriminate. reflexivity. }
  assert (Hhand1 : hand_children d1 =
                   (Slot <$> a) ++ Placeholder p :: Slot (card ps) :: (Slot <$> b)).
  { unfold d1. cbn [set_children hand_children dom_remove].
    rewrite Hh, without_placeholder_slots, Hab, fmap_app, fmap_cons.
    apply insert_before_mid. intros H. apply list_elem_of_fmap in H as (k & Hk & Hka).
    injection Hk as <-. contradiction. }
  eexists. exists (set_placeholder (Some p) (set_isDragging true ps)).
  split.
  { unfold startDrag. monad_unfold. rewrite Hps. state_simpl.
    unfold destroy_card_effect. state_simpl. rewrite Ho.
    state_simpl. unfold parentNode. rewrite bool_decide_eq_true_2 by exact Hin.
    fold p. state_simpl. rewrite Hd1. state_simpl. rewrite Hps.
    cbn [fmap option_fmap option_map]. reflexivity. }
  split; [reflexivity|]. split; [reflexivity|].
  split; [|split; [reflexivity|split; reflexivity]].
  constructor; state_simpl.
  - apply NoDup_app. auto.
  - intros k Hk. rewrite !is_Some_alter. apply H2, Hk.
  - unfold refs_ok. state_simpl. repeat (apply refs_alter_style; [reflexivity|]).
    apply refs_kill, H3.
  - unfold indexed. state_simpl. intros i k Hk.
    destruct (H4 i k Hk) as (obj & G1 & G2 & G3).
    destruct (decide (card ps = k)) as [<-|Hne].
    + rewrite !lookup_alter_eq, G1. cbn. eexists. split; [reflexivity|]. auto.
    + rewrite !lookup_alter_ne by exact Hne. exists obj. auto.
  - unfold appendChild. cbn [set_children children play_children dom_remove].
    unfold d1. cbn [set_children play_children dom_remove].
    rewrite H5, without_placeholder_slots. apply without_slot_absent.
    apply Hdisj, Hc.
  - unfold session_shape. state_simpl. cbn [card isDragging set_placeholder set_isDragging].
    split; [exact Hc|]. exists p, (Slot <$> a), (Slot <$> b).
    split; [reflexivity|].
    unfold appendChild. cbn [set_children children hand_children body_children dom_remove].
    rewrite Hhand1. split; [|split].
    + rewrite without_app. unfold without at 2.
      rewrite filter_cons_True by discriminate.
      rewrite filter_cons_False by (intros H; apply H; reflexivity).
      fold (without (Slot (card ps)) (Slot <$> b)).
      rewrite !without_slot_absent by assumption. reflexivity.
    + rewrite <- fmap_app. f_equal. rewrite Hab. symmetry.
      apply filter_out_split; assumption.
    + unfold d1. cbn [set_children body_children dom_remove]. rewrite Hb. reflexivity.
Qed.

Lemma wf_clearTimeout (t : nat) (s : State) : wf s -> wf (clearTimeout t s).
Proof. intros [H1 H2 H3 H4 H5 H6]. constructor; assumption. Qed.

Lemma wf_pointermove (x y : Q) (lay : Layout) (s : State) :
  wf s -> wf (step s (PointerMove x y lay)).
Proof.
  intros Hwf. cbn [step]. unfold pointermove. rewrite run_bind. unfold get at 1.
  destruct (pointerState s) as [ps|] eqn:Hps; [|exact Hwf].
  rewrite run_bind.
  destruct (isDragging ps) eqn:Hd; cbn [negb andb].
  - cbn [ret]. rewrite run_bind. unfold session, bind, get. rewrite Hps. cbn [ret].
    rewrite Hd. apply (wf_updateDrag x y lay s ps Hwf Hps Hd).
  - destruct (beyond_threshold _ _).
    + change ((modify (clearTimeout (holdTimer ps));; startDrag lay) s)
        with (startDrag lay (clearTimeout (holdTimer ps) s)).
      destruct (startDrag_run lay (clearTimeout (holdTimer ps) s) ps)
        as (s2 & ps2 & Hrun & Hps2 & Hd2 & Hwf2 & _).
      { apply wf_clearTimeout, Hwf. }
      { exact Hps. }
      { exact Hd. }
      rewrite Hrun. rewrite run_bind. unfold session, bind, get. rewrite Hps2. cbn [ret].
      rewrite Hd2. apply (wf_updateDrag x y lay s2 ps2 Hwf2 Hps2 Hd2).
    + cbn [ret]. rewrite run_bind. unfold session, bind, get. rewrite Hps. cbn [ret].
      rewrite Hd. exact Hwf.
Qed.

(** The move that starts a drag places the placeholder the same way: it
    runs [startDrag] and then [updateDrag] on the state [startDrag] leaves. *)
Lemma drag_start_places (s : State) (ps : PointerState) (x y : Q) (lay : Layout) :
  wf s -> pointerState s = Some ps -> isDragging ps = false ->
  beyond_threshold (x - startX ps) (y - startY ps) = true ->
  over_play x y (lay_play lay) = false -> over_hand x y (lay_hand lay) = true ->
  let s' := step s (PointerMove x y lay) in
  let others := filter (fun k => k <> card ps) (cards s) in
  let p := next_placeholder s in
  (forall before c' after,
     others = before ++ c' :: after ->
     Forall (fun k => (midX (lay_slot lay k) <= x)%Q) before ->
     (x < midX (lay_slot lay c'))%Q ->
     hand_children (doc s') =
     (Slot <$> before) ++ Placeholder p :: Slot c' :: (Slot <$> after)) /\
  (Forall (fun k => (midX (lay_slot lay k) <= x)%Q) others ->
   hand_children (doc s') = (Slot <$> others) ++ [Placeholder p]).
Proof.
  intros Hwf Hps Hd Hfar Hov Hoh. cbn zeta.
  destruct (startDrag_run lay (clearTimeout (holdTimer ps) s) ps)
    as (s2 & ps2 & Hrun & Hps2 & Hd2 & Hwf2 & Hcards & Hcard & Hp2).
  { apply wf_clearTimeout, Hwf. }
  { exact Hps. }
  { exact Hd. }
  assert (Hstep : step s (PointerMove x y lay) = run (updateDrag x y lay) s2).
  { cbn [step]. unfold pointermove. rewrite run_bind. unfold get at 1. rewrite Hps.
    rewrite run_bind. rewrite Hd, Hfar. cbn [negb andb].
    change ((modify (clearTimeout (holdTimer ps));; startDrag lay) s)
      with (startDrag lay (clearTimeout (holdTimer ps) s)).
    rewrite Hrun. rewrite run_bind. unfold session, bind, get. rewrite Hps2. cbn [ret].
    rewrite Hd2. reflexivity. }
  rewrite Hstep.
  destruct (wf_dragging s2 ps2 Hwf2 Hps2 Hd2)
    as (p & l1 & l2 & Hp & Hh & Hl & _).
  change (next_placeholder (clearTimeout (holdTimer ps) s))
    with (next_placeholder s) in Hp2.
  assert (p = next_placeholder s) by congruence. subst p.
  change (cards (clearTimeout (holdTimer ps) s)) with (cards s) in Hcards.
  rewrite Hcards, Hcard in Hl.
  pose proof (updateDrag_places s2 ps2 (next_placeholder s) x y lay l1 l2
                Hps2 Hp Hov Hoh Hh) as Hplaces.
  cbn zeta in Hplaces. rewrite Hcards, Hcard in Hplaces. apply Hplaces. exact Hl.
Qed.

(** *** Reset *)

Lemma reset_body_cards (c : nat) (s : State) :
  cards (reset_body c s) = cards s ++ [c].
Proof.
  unfold reset_body, attach_card_effect, destroy_card_effect.
  destruct (objs s !! c); reflexivity.
Qed.

Lemma reset_body_doc (c : nat) (s : State) :
  doc (reset_body c s) = appendChild Hand (Slot c) (doc s).
Proof.
  unfold reset_body, attach_card_effect, destroy_card_effect.
  destruct (objs s !! c); reflexivity.
Qed.

Lemma reset_body_pointerState (c : nat) (s : State) :
  pointerState (reset_body c s) = pointerState s.
Proof.
  unfold reset_body, attach_card_effect, destroy_card_effect.
  destruct (objs s !! c); reflexivity.
Qed.

(** One turn of the reset loop on a state whose last played card is [c]. *)
Lemma reset_body_shape (c : nat) (rest : list nat) (s : State) :
  playedCards s = rest ++ [c] ->
  NoDup (cards s ++ playedCards s) ->
  play_children (doc s) = Slot <$> playedCards s ->
  session_shape s ->
  let s1 := reset_body c (set_playedCards (fun _ => rest) s) in
  play_children (doc s1) = Slot <$> rest /\ session_shape s1.
Proof.
  intros Hpl Hnd Hplay Hshape. cbn zeta.
  rewrite Hpl in Hnd, Hplay.
  apply NoDup_app in Hnd as (Hndc & Hdisj & Hndp).
  apply NoDup_app in Hndp as (Hndr & Hrc & _).
  assert (Hcr : c ∉ rest) by (intros Hin; apply (Hrc c Hin); left).
  assert (Hcc : c ∉ cards s).
  { intros Hin. apply (Hdisj c Hin). apply elem_of_app. right. left. }
  split.
  - rewrite reset_body_doc. state_simpl. unfold appendChild.
    cbn [set_children children play_children dom_remove].
    rewrite Hplay, fmap_app, without_app, without_slot_absent by exact Hcr.
    unfold without. cbn [fmap list_fmap].
    rewrite filter_cons_False by (intros H; apply H; reflexivity).
    rewrite app_nil_r. reflexivity.
  - unfold session_shape in *. rewrite reset_body_pointerState, reset_body_cards,
      reset_body_doc. state_simpl. unfold appendChild.
    cbn [set_children children hand_children body_children dom_remove].
    assert (Hidle : hand_children (doc s) = Slot <$> cards s /\ body_children (doc s) = [] ->
                    without (Slot c) (hand_children (doc s)) ++ [Slot c] =
                    Slot <$> (cards s ++ [c]) /\
                    without (Slot c) (body_children (doc s)) = []).
    { intros [Hh Hb]. rewrite Hh, Hb, without_slot_absent by exact Hcc.
      rewrite fmap_app. split; reflexivity. }
    destruct (pointerState s) as [ps|]; [|apply Hidle, Hshape].
    destruct Hshape as [Hc Hshape]. split; [apply elem_of_app; left; exact Hc|].
    destruct (isDragging ps); [|apply Hidle, Hshape].
    destruct Hshape as (p & l1 & l2 & Hp & Hh & Hl & Hb).
    assert (Hne : c <> card ps) by (intros ->; contradiction).
    assert (Hs12 : Slot c ∉ l1 ++ l2).
    { rewrite Hl. intros H. apply list_elem_of_fmap in H as (k & Hk & Hin).
      injection Hk as <-. apply list_elem_of_filter in Hin as [_ Hin]. contradiction. }
    apply not_elem_of_app in Hs12 as [Hs1 Hs2].
    exists p, l1, (l2 ++ [Slot c]). split; [exact Hp|]. split; [|split].
    + rewrite Hh, without_notin; [rewrite <- app_assoc; reflexivity|].
      intros H. apply elem_of_app in H as [H|H]; [contradiction|].
      apply elem_of_cons in H as [H|H]; [discriminate | contradiction].
    + rewrite app_assoc, Hl, filter_app.
      rewrite (filter_cons_True _ c []) by exact Hne.
      rewrite fmap_app. reflexivity.
    + rewrite Hb. unfold without. rewrite filter_cons_True by congruence. reflexivity.
Qed.

Lemma reset_loop_wf (l : list nat) (s : State) :
  playedCards s = l ->
  NoDup (cards s ++ playedCards s) ->
  (forall c, c ∈ cards s ++ playedCards s -> is_Some (objs s !! c)) ->
  refs_ok s ->
  play_children (doc s) = Slot <$> playedCards s ->
  session_shape s ->
  let s' := reset_loop (length l) s in
  NoDup (cards s' ++ playedCards s') /\
  (forall c, c ∈ cards s' ++ playedCards s' -> is_Some (objs s' !! c)) /\
  refs_ok s' /\
  play_children (doc s') = Slot <$> playedCards s' /\
  session_shape s'.
Proof.
  revert s. induction l as [|c l IH] using rev_ind; intros s Hs H1 H2 H3 H5 H6.
  - cbn. auto.
  - rewrite length_app. cbn [length]. rewrite Nat.add_1_r. cbn [reset_loop].
    rewrite Hs, pop_snoc.
    destruct (reset_body_shape c l s Hs H1 H5 H6) as [G5 G6].
    set (s1 := reset_body c (set_playedCards (fun _ => l) s)) in *.
    assert (Hp1 : playedCards s1 = l)
      by (unfold s1; rewrite reset_body_playedCards; reflexivity).
    assert (Hc1 : cards s1 = cards s ++ [c])
      by (unfold s1; rewrite reset_body_cards; reflexivity).
    assert (Hperm : cards s1 ++ playedCards s1 ≡ₚ cards s ++ playedCards s).
    { rewrite Hc1, Hp1, Hs, <- app_assoc. apply Permutation_app_head.
      apply Permutation_app_comm. }
    apply IH.
    + exact Hp1.
    + rewrite Hperm. exact H1.
    + intros k Hk. unfold s1. rewrite reset_body_objs. apply is_Some_alter.
      apply H2. rewrite <- Hperm. exact Hk.
    + apply reset_body_refs_ok. exact H3.
    + rewrite Hp1. exact G5.
    + exact G6.
Qed.

Lemma wf_reset (s : State) : wf s -> wf (on_reset s).
Proof.
  intros [H1 H2 H3 H4 H5 H6].
  destruct (reset_loop_wf (playedCards s) s eq_refl H1 H2 H3 H5 H6)
    as (G1 & G2 & G3 & G5 & G6).
  unfold on_reset.
  set (s' := reset_loop (length (playedCards s)) s) in *.
  assert (Hnd : NoDup (cards s')) by (apply NoDup_app in G1 as [G1 _]; exact G1).
  constructor.
  - exact G1.
  - intros k Hk. state_simpl. apply is_Some_reindex. apply G2. exact Hk.
  - unfold refs_ok. state_simpl. apply refs_reindex, G3.
  - apply reindexHand_indexed; [exact Hnd|].
    intros k Hk. apply G2, elem_of_app. left. exact Hk.
  - exact G5.
  - exact G6.
Qed.

(** *** Every event *)

Theorem wf_step (s : State) (e : Event) : wf s -> allowed s e -> wf (step s e).
Proof.
  intros Hwf Hal. destruct e as [| |b|t|t r|t pid x y lay|x y lay|x y lay|t].
  - apply wf_toggle, Hwf.
  - apply wf_reset, Hwf.
  - apply wf_lightbox_click, Hwf.
  - apply wf_pointerover, Hwf.
  - apply wf_pointerout, Hwf.
  - apply wf_pointerdown; assumption.
  - apply wf_pointermove, Hwf.
  - apply wf_pointerup, Hwf.
  - apply wf_timer, Hwf.
Qed.

Lemma wf_initial : wf initial.
Proof.
  constructor.
  - apply (bool_decide_unpack _). vm_compute. exact I.
  - assert (E : cards initial ++ playedCards initial = [0; 1; 2; 3; 4; 5])
      by (vm_compute; reflexivity).
    rewrite E. apply Forall_forall. apply (bool_decide_unpack _). vm_compute. exact I.
  - apply (bool_decide_unpack _). vm_compute. exact I.
  - apply indexed_from_sound. vm_compute. reflexivity.
  - vm_compute. reflexivity.
  - vm_compute. split; reflexivity.
Qed.

(** Every state reached from the initial one through allowed events is well
    formed. *)
Theorem wf_reachable (es : list Event) :
  allowed_run initial es -> wf (steps initial es).
Proof.
  generalize wf_initial. generalize initial.
  induction es as [|e es IH]; intros s Hwf Hal; [exact Hwf|].
  destruct Hal as [Ha Hrest]. unfold steps. cbn [foldl].
  apply IH; [apply wf_step; assumption | exact Hrest].
Qed.
(** Without a drag in progress the hand shows [cards]. *)
Lemma wf_idle_hand (s : State) (ps : PointerState) :
  wf s -> pointerState s = Some ps -> isDragging ps = false ->
  hand_children (doc s) = Slot <$> cards s.
Proof.
  intros Hwf Hps Hd. apply (session_shape_idle s (wf_session s Hwf)).
  intros ps' Hps'. congruence.
Qed.

(** The restriction cannot be dropped: a second pointer pressed on card 3
    while card 2 is being dragged replaces the session, and card 2 is left
    floating in the body with its placeholder still in the hand. *)
Lemma second_pointer_orphans_card :
  pointerState two_pointers = Some (mkPointerState 3 2 350 550 50 50 false 1 None 3) /\
  hand_children (doc two_pointers) =
    [Slot 0; Slot 1; Placeholder 0; Slot 3; Slot 4; Slot 5] /\
  body_children (doc two_pointers) = [Slot 2] /\
  ~ wf two_pointers.
Proof.
  assert (Hps : pointerState two_pointers =
                Some (mkPointerState 3 2 350 550 50 50 false 1 None 3))
    by (vm_compute; reflexivity).
  assert (Hh : hand_children (doc two_pointers) =
               [Slot 0; Slot 1; Placeholder 0; Slot 3; Slot 4; Slot 5])
    by (vm_compute; reflexivity).
  assert (Hc : cards two_pointers = [0; 1; 2; 3; 4; 5]) by (vm_compute; reflexivity).
  split; [exact Hps|]. split; [exact Hh|].
  split; [vm_compute; reflexivity|].
  intros Hwf. pose proof (wf_idle_hand two_pointers _ Hwf Hps eq_refl) as Hh'.
  rewrite Hh, Hc in Hh'. discriminate Hh'.
Qed.

End AppSpec.

(* ====================================================================== *)
(** * Further properties of the holographic engine *)
(* ====================================================================== *)

Module HolographicProps.
Import Holographic.
Local Open Scope nat_scope.

(** Projections through the page setters. *)
Ltac page_simpl :=
  cbn [elements instances prefersReducedMotion pending_frames next_frame
       set_elements set_instances with_state with_opts
       i_el i_opts i_reducedMotion i_state i_layers i_raf i_dirty
       computed_position computed_overflow inline_position inline_overflow
       inline_transition inline_transform overlays listeners fst snd].

Ltac page_simpl_in H :=
  cbn [elements instances prefersReducedMotion pending_frames next_frame
       set_elements set_instances with_state with_opts
       i_el i_opts i_reducedMotion i_state i_layers i_raf i_dirty
       computed_position computed_overflow inline_position inline_overflow
       inline_transition inline_transform overlays listeners fst snd] in H.

(** ** Elements and engine objects through the setters *)

Lemma element_of_insert_eq (pg : Page) (id : nat) (e : Element) :
  element_of (set_elements (insert id e) pg) id = e.
Proof. unfold element_of. page_simpl. rewrite lookup_insert_eq. reflexivity. Qed.

Lemma element_of_insert_ne (pg : Page) (id id' : nat) (e : Element) :
  id' <> id -> element_of (set_elements (insert id e) pg) id' = element_of pg id'.
Proof.
  intros Hne. unfold element_of. page_simpl.
  rewrite lookup_insert_ne by congruence. reflexivity.
Qed.

Lemma element_of_set_instances (pg : Page) (f : gmap nat Instance -> gmap nat Instance)
    (id : nat) :
  element_of (set_instances f pg) id = element_of pg id.
Proof. reflexivity. Qed.

(** ** What [_render] and [_setup] do to the layers *)

Lemma paint_layer_kind (o : Opts) (st : EffectState) (l : Layer) :
  l_kind (paint_layer o st l) = l_kind l /\ l_blend (paint_layer o st l) = l_blend l.
Proof. unfold paint_layer. destruct (l_kind l) eqn:E; cbn; rewrite ?E; auto. Qed.

Lemma render_skeleton (this : nat) (i : Instance) (e : Element) :
  layer_skeleton (_render this i e) = layer_skeleton e.
Proof.
  unfold layer_skeleton, _render. page_simpl. rewrite map_map.
  apply map_ext. intros [o l]. cbn.
  destruct (bool_decide (o = this)); [|reflexivity]. cbn.
  destruct (paint_layer_kind (i_opts i) (i_state i) l) as [-> ->]. reflexivity.
Qed.

Lemma skeleton_owners (e : Element) :
  fst <$> overlays e = (fun x => fst (fst x)) <$> layer_skeleton e.
Proof.
  unfold layer_skeleton. rewrite <- list_fmap_compose. reflexivity.
Qed.

Lemma render_owners (this : nat) (i : Instance) (e : Element) :
  fst <$> overlays (_render this i e) = fst <$> overlays e.
Proof. rewrite !skeleton_owners, render_skeleton. reflexivity. Qed.

Lemma render_listeners (this : nat) (i : Instance) (e : Element) :
  listeners (_render this i e) = listeners e.
Proof. reflexivity. Qed.

Lemma foldl_add_layer (this : nat) (kbs : list (LayerKind * option string)) (e : Element) :
  foldl (fun acc kb => add_layer this (fst kb) (snd kb) acc) e kbs =
  mkElement (computed_position e) (computed_overflow e) (inline_position e)
    (inline_overflow e) (inline_transition e) (inline_transform e)
    (overlays e ++ map (fun kb => (this, mkLayer (fst kb) (snd kb) Unpainted None)) kbs)
    (listeners e).
Proof.
  revert e. induction kbs as [|kb kbs IH]; intros e.
  - cbn. rewrite app_nil_r. destruct e; reflexivity.
  - cbn [foldl map]. rewrite IH. unfold add_layer. page_simpl.
    rewrite <- app_assoc. reflexivity.
Qed.

Lemma fix_styles_lists (e : Element) :
  overlays (fix_overflow (fix_position e)) = overlays e /\
  listeners (fix_overflow (fix_position e)) = listeners e /\
  inline_transform (fix_overflow (fix_position e)) = inline_transform e /\
  inline_transition (fix_overflow (fix_position e)) = inline_transition e.
Proof.
  unfold fix_overflow, fix_position.
  destruct (String.eqb (computed_position e) "static"); page_simpl;
    destruct (negb (String.eqb (computed_overflow e) "hidden")); page_simpl; auto.
Qed.

(** The element the constructor leaves behind. *)
Lemma construct_run (pg : Page) (id : nat) (p : PartialOpts) :
  let this := fresh (dom (instances pg)) in
  let o := merge_opts p in
  let e := element_of pg id in
  let e1 := fst (_setup this o (prefersReducedMotion pg) e) in
  let inst := mkInstance id o (prefersReducedMotion pg) (mkEffectState 0 0 50 50 false)
                (snd (_setup this o (prefersReducedMotion pg) e)) None false in
  construct (JElement id) p pg =
  (Returned this,
   set_instances (insert this inst)
     (set_elements (insert id (_render this inst (_bindEvents this e1))) pg)).
Proof.
  cbn zeta. unfold construct. cbn [truthy instanceof_HTMLElement negb orb].
  destruct (_setup _ _ _ _) as [e1 layers]. reflexivity.
Qed.

Lemma setup_overlays (this : nat) (o : Opts) (reduced : bool) (e : Element) :
  overlays (fst (_setup this o reduced e)) =
  overlays e ++
  (if reduced then []
   else map (fun kb => (this, mkLayer (fst kb) (snd kb) Unpainted None)) (setup_layers o)) /\
  listeners (fst (_setup this o reduced e)) = listeners e /\
  inline_transform (fst (_setup this o reduced e)) = inline_transform e.
Proof.
  destruct (fix_styles_lists e) as (E1 & E2 & E3 & _).
  unfold _setup. destruct reduced; cbn [fst].
  - rewrite app_nil_r. auto.
  - rewrite foldl_add_layer. page_simpl. rewrite E1. auto.
Qed.


(** ** Well-built pages are closed under every action *)

Lemma page_ok_instance (pg : Page) (this : nat) (i i' : Instance) :
  page_ok pg -> instances pg !! this = Some i ->
  i_el i' = i_el i -> i_reducedMotion i' = i_reducedMotion i ->
  i_raf i' = i_raf i -> i_dirty i' = i_dirty i ->
  page_ok (set_instances (insert this i') pg).
Proof.
  intros [H1 H2 H3 H4 H5 H6] Hi E1 E2 E3 E4. constructor; page_simpl.
  - exact H1.
  - exact H2.
  - intros f t Hin. destruct (H3 f t Hin) as (j & Hj & Hr & Hd).
    destruct (decide (t = this)) as [->|Hne].
    + exists i'. rewrite lookup_insert_eq. rewrite Hi in Hj. injection Hj as <-.
      rewrite E3, E4. auto.
    + exists j. rewrite lookup_insert_ne by congruence. auto.
  - intros id o Ho. destruct (H4 id o Ho) as (j & Hj & Hel).
    destruct (decide (o = this)) as [->|Hne].
    + exists i'. rewrite lookup_insert_eq. rewrite Hi in Hj. injection Hj as <-.
      rewrite E1. auto.
    + exists j. rewrite lookup_insert_ne by congruence. auto.
  - intros id o Ho. destruct (H5 id o Ho) as (j & Hj & Hel).
    destruct (decide (o = this)) as [->|Hne].
    + exists i'. rewrite lookup_insert_eq. rewrite Hi in Hj. injection Hj as <-.
      rewrite E1. auto.
    + exists j. rewrite lookup_insert_ne by congruence. auto.
  - intros t j. destruct (decide (t = this)) as [->|Hne].
    + rewrite lookup_insert_eq. intros [= <-]. rewrite E2. apply (H6 this i Hi).
    + rewrite lookup_insert_ne by congruence. apply H6.
Qed.

Lemma page_ok_element (pg : Page) (id : nat) (e' : Element) :
  page_ok pg ->
  (forall o, o ∈ (fst <$> overlays e') -> o ∈ (fst <$> overlays (element_of pg id))) ->
  (forall o, o ∈ (fst <$> listeners e') -> o ∈ (fst <$> listeners (element_of pg id))) ->
  page_ok (set_elements (insert id e') pg).
Proof.
  intros [H1 H2 H3 H4 H5 H6] Ho Hl. constructor; try assumption.
  - intros id0 o Hin. page_simpl. destruct (decide (id0 = id)) as [->|Hne].
    + rewrite element_of_insert_eq in Hin. apply H4, Ho, Hin.
    + rewrite element_of_insert_ne in Hin by exact Hne. apply H4, Hin.
  - intros id0 o Hin. page_simpl. destruct (decide (id0 = id)) as [->|Hne].
    + rewrite element_of_insert_eq in Hin. apply H5, Hl, Hin.
    + rewrite element_of_insert_ne in Hin by exact Hne. apply H5, Hin.
Qed.

Lemma page_ok_scheduleRender (this : nat) (pg : Page) :
  page_ok pg -> page_ok (_scheduleRender this pg).
Proof.
  intros Hok. pose proof Hok as [H1 H2 H3 H4 H5 H6]. unfold _scheduleRender.
  destruct (instances pg !! this) as [i|] eqn:Hi; [|exact Hok].
  destruct (i_dirty i) eqn:Hd; [exact Hok|].
  assert (Hnone : forall f, (f, this) ∉ pending_frames pg).
  { intros f Hin. destruct (H3 f this Hin) as (j & Hj & _ & Hdj). congruence. }
  constructor; page_simpl.
  - intros f t Hin. apply elem_of_app in Hin as [Hin|Hin].
    + specialize (H1 f t Hin). lia.
    + apply list_elem_of_singleton in Hin. injection Hin as -> ->. lia.
  - rewrite fmap_app. apply NoDup_app. split; [exact H2|]. split.
    + intros f Hf Hf'. cbn in Hf'. apply list_elem_of_singleton in Hf'. subst f.
      apply list_elem_of_fmap in Hf as ([f t] & Ef & Hin). cbn in Ef. subst f.
      specialize (H1 _ _ Hin). lia.
    + cbn. apply NoDup_singleton.
  - intros f t Hin. apply elem_of_app in Hin as [Hin|Hin].
    + destruct (H3 f t Hin) as (j & Hj & Hr & Hdj).
      assert (t <> this) by (intros ->; apply (Hnone f Hin)).
      exists j. rewrite lookup_insert_ne by congruence. auto.
    + apply list_elem_of_singleton in Hin. injection Hin as -> ->.
      eexists. rewrite lookup_insert_eq. split; [reflexivity|]. page_simpl. auto.
  - intros id o Ho. destruct (H4 id o Ho) as (j & Hj & Hel).
    destruct (decide (o = this)) as [->|Hne].
    + eexists. rewrite lookup_insert_eq. split; [reflexivity|]. page_simpl. congruence.
    + exists j. rewrite lookup_insert_ne by congruence. auto.
  - intros id o Ho. destruct (H5 id o Ho) as (j & Hj & Hel).
    destruct (decide (o = this)) as [->|Hne].
    + eexists. rewrite lookup_insert_eq. split; [reflexivity|]. page_simpl. congruence.
    + exists j. rewrite lookup_insert_ne by congruence. auto.
  - intros t j. destruct (decide (t = this)) as [->|Hne].
    + rewrite lookup_insert_eq. intros [= <-]. page_simpl. apply (H6 this i Hi).
    + rewrite lookup_insert_ne by congruence. apply H6.
Qed.

Lemma page_ok_updateFromPoint (this : nat) (rect : Rect) (cx cy : Q) (pg : Page) :
  page_ok pg -> page_ok (_updateFromPoint this rect cx cy pg).
Proof.
  intros Hok. unfold _updateFromPoint.
  destruct (instances pg !! this) as [i|] eqn:Hi; [|exact Hok].
  apply page_ok_scheduleRender. apply (page_ok_instance pg this i); auto.
Qed.

Lemma page_ok_handleEnter (this : nat) (pg : Page) :
  page_ok pg -> page_ok (_handleEnter this pg).
Proof.
  intros Hok. unfold _handleEnter.
  destruct (instances pg !! this) as [i|] eqn:Hi; [|exact Hok].
  apply page_ok_scheduleRender. apply page_ok_element.
  - apply (page_ok_instance pg this i); auto.
  - intros o Ho. exact Ho.
  - intros o Ho. exact Ho.
Qed.

Lemma page_ok_handleLeave (this : nat) (pg : Page) :
  page_ok pg -> page_ok (_handleLeave this pg).
Proof.
  intros Hok. unfold _handleLeave.
  destruct (instances pg !! this) as [i|] eqn:Hi; [|exact Hok].
  apply page_ok_scheduleRender. apply page_ok_element.
  - apply (page_ok_instance pg this i); auto.
  - intros o Ho. exact Ho.
  - intros o Ho. exact Ho.
Qed.

Lemma page_ok_handle (this : nat) (rect : Rect) (ev : DomEvent) (pg : Page) :
  page_ok pg -> page_ok (handle this rect ev pg).
Proof.
  intros Hok. destruct ev as [cx cy| | |ts| |]; cbn [handle].
  - apply page_ok_updateFromPoint, Hok.
  - apply page_ok_handleEnter, Hok.
  - apply page_ok_handleLeave, Hok.
  - unfold _handleTouchMove. destruct ts as [|[cx cy] ts]; [exact Hok|].
    apply page_ok_updateFromPoint, Hok.
  - apply page_ok_handleEnter, Hok.
  - apply page_ok_handleLeave, Hok.
Qed.

Lemma page_ok_dispatch (id : nat) (rect : Rect) (ev : DomEvent) (pg : Page) :
  page_ok pg -> page_ok (dispatch id rect ev pg).
Proof.
  unfold dispatch. generalize (listeners (element_of pg id)). intros ls. revert pg.
  induction ls as [|li ls IH]; intros pg Hok; [exact Hok|].
  cbn [foldl]. apply IH. destruct (bool_decide _); [|exact Hok].
  apply page_ok_handle, Hok.
Qed.

Lemma page_ok_update (this : nat) (p : PartialOpts) (pg : Page) :
  page_ok pg -> page_ok (update this p pg).
Proof.
  intros Hok. unfold update.
  destruct (instances pg !! this) as [i|] eqn:Hi; [|exact Hok].
  apply page_ok_scheduleRender. apply (page_ok_instance pg this i); auto.
Qed.

(** Dropping frame requests keeps a page well built. *)
Lemma page_ok_cancel (pg : Page) (P : nat * nat -> Prop) `{!forall x, Decision (P x)} :
  page_ok pg ->
  page_ok (mkPage (elements pg) (instances pg) (prefersReducedMotion pg)
             (filter P (pending_frames pg)) (next_frame pg)).
Proof.
  intros [H1 H2 H3 H4 H5 H6]. constructor; page_simpl; try assumption.
  - intros f t Hin. apply list_elem_of_filter in Hin as [_ Hin]. apply (H1 f t Hin).
  - apply (sublist_NoDup _ _ H2). apply fmap_sublist, sublist_filter.
  - intros f t Hin. apply list_elem_of_filter in Hin as [_ Hin]. apply (H3 f t Hin).
Qed.

(** A frame request names the engine object it was made for. *)
Lemma frame_owner_unique (pg : Page) (f t1 t2 : nat) :
  page_ok pg -> (f, t1) ∈ pending_frames pg -> (f, t2) ∈ pending_frames pg -> t1 = t2.
Proof.
  intros [_ H2 _ _ _ _] G1 G2. revert H2 G1 G2.
  generalize (pending_frames pg). intros l. induction l as [|[f0 t0] l IH]; intros Hnd G1 G2.
  - inversion G1.
  - rewrite fmap_cons in Hnd. apply NoDup_cons in Hnd as [Hf Hnd]. cbn in Hf.
    apply elem_of_cons in G1 as [G1|G1]; apply elem_of_cons in G2 as [G2|G2].
    + congruence.
    + injection G1 as -> ->. exfalso. apply Hf.
      apply list_elem_of_fmap. exists (f0, t2). auto.
    + injection G2 as -> ->. exfalso. apply Hf.
      apply list_elem_of_fmap. exists (f0, t1). auto.
    + apply IH; assumption.
Qed.

Lemma list_find_frame (pg : Page) (f : nat) :
  match list_find (fun fr : nat * nat => fst fr = f) (pending_frames pg) with
  | Some (_, (f', t)) => f' = f /\ (f, t) ∈ pending_frames pg
  | None => forall t, (f, t) ∉ pending_frames pg
  end.
Proof.
  destruct (list_find _ _) as [[k [f' t]]|] eqn:E.
  - apply list_find_Some in E as (E1 & E2 & _). cbn in E2. subst f'.
    split; [reflexivity|]. apply list_elem_of_lookup. eauto.
  - intros t Hin. apply list_find_None in E. rewrite Forall_forall in E.
    apply (E (f, t) Hin). reflexivity.
Qed.

(** The page after the frame [f], requested for [this], has run. *)
Lemma run_frame_run (pg : Page) (f this : nat) (i : Instance) :
  page_ok pg -> (f, this) ∈ pending_frames pg -> instances pg !! this = Some i ->
  let i' := mkInstance (i_el i) (i_opts i) (i_reducedMotion i) (i_state i)
              (i_layers i) (i_raf i) false in
  run_frame f pg =
  set_elements (insert (i_el i) (_render this i' (element_of pg (i_el i))))
    (set_instances (insert this i')
       (mkPage (elements pg) (instances pg) (prefersReducedMotion pg)
          (filter (fun fr => fst fr <> f) (pending_frames pg)) (next_frame pg))).
Proof.
  intros Hok Hin Hi. cbn zeta. unfold run_frame.
  pose proof (list_find_frame pg f) as Hf.
  destruct (list_find _ _) as [[k [f' t]]|].
  - destruct Hf as [-> Hin'].
    assert (t = this) by (apply (frame_owner_unique pg f); assumption). subst t.
    page_simpl. rewrite Hi. reflexivity.
  - exfalso. apply (Hf this Hin).
Qed.

Lemma page_ok_run_frame (f : nat) (pg : Page) : page_ok pg -> page_ok (run_frame f pg).
Proof.
  intros Hok.
  pose proof (list_find_frame pg f) as Hf.
  destruct (list_find (fun fr : nat * nat => fst fr = f) (pending_frames pg))
    as [[k [f' this]]|] eqn:E.
  2:{ unfold run_frame. rewrite E. exact Hok. }
  destruct Hf as [-> Hin].
  destruct (ok_frame_owner pg Hok f this Hin) as (i & Hi & Hraf & Hd).
  rewrite (run_frame_run pg f this i Hok Hin Hi).
  pose proof (page_ok_cancel pg (fun fr => fst fr <> f) Hok) as Hok1.
  set (pg1 := mkPage _ _ _ _ _) in *.
  apply page_ok_element.
  2:{ intros o Ho. rewrite render_owners in Ho. exact Ho. }
  2:{ intros o Ho. exact Ho. }
  pose proof Hok1 as [H1 H2 H3 H4 H5 H6].
  constructor; page_simpl; try assumption.
  - intros f2 t Hin2. destruct (H3 f2 t Hin2) as (j & Hj & Hr & Hdj).
    destruct (decide (t = this)) as [->|Hne].
    + exfalso. subst pg1. page_simpl.
      apply list_elem_of_filter in Hin2 as [Hne _]. cbn in Hne.
      cbn in Hj. rewrite Hi in Hj. injection Hj as <-. congruence.
    + exists j. rewrite lookup_insert_ne by congruence. auto.
  - intros id o Ho. destruct (H4 id o Ho) as (j & Hj & Hel).
    destruct (decide (o = this)) as [->|Hne].
    + eexists. rewrite lookup_insert_eq. split; [reflexivity|]. page_simpl.
      cbn in Hj. congruence.
    + exists j. rewrite lookup_insert_ne by congruence. auto.
  - intros id o Ho. destruct (H5 id o Ho) as (j & Hj & Hel).
    destruct (decide (o = this)) as [->|Hne].
    + eexists. rewrite lookup_insert_eq. split; [reflexivity|]. page_simpl.
      cbn in Hj. congruence.
    + exists j. rewrite lookup_insert_ne by congruence. auto.
  - intros t j. destruct (decide (t = this)) as [->|Hne].
    + rewrite lookup_insert_eq. intros [= <-]. page_simpl. apply (H6 this i Hi).
    + rewrite lookup_insert_ne by congruence. apply H6.
Qed.

(** [destroy] as a composition of the setters. *)
Lemma destroy_run (pg : Page) (this : nat) (i : Instance) :
  instances pg !! this = Some i ->
  let e := element_of pg (i_el i) in
  let e' := mkElement (computed_position e) (computed_overflow e) (inline_position e)
              (inline_overflow e) None None
              (filter (fun ol => fst ol <> this) (overlays e))
              (filter (fun li => fst li <> this) (listeners e)) in
  let i' := mkInstance (i_el i) (i_opts i) (i_reducedMotion i) (i_state i)
              [] (i_raf i) (i_dirty i) in
  destroy this pg =
  set_elements (insert (i_el i) e')
    (set_instances (insert this i')
       (mkPage (elements pg) (instances pg) (prefersReducedMotion pg)
          (match i_raf i with
           | Some f => filter (fun fr => fst fr <> f) (pending_frames pg)
           | None => pending_frames pg
           end) (next_frame pg))).
Proof. intros Hi. cbn zeta. unfold destroy. rewrite Hi. reflexivity. Qed.

Lemma elem_of_fst_filter {A} (P : nat * A -> Prop) `{!forall x, Decision (P x)}
    (l : list (nat * A)) (o : nat) :
  o ∈ (fst <$> filter P l) -> o ∈ (fst <$> l).
Proof.
  intros Hin. apply list_elem_of_fmap in Hin as (x & -> & Hx).
  apply list_elem_of_filter in Hx as [_ Hx]. apply list_elem_of_fmap_2, Hx.
Qed.

Lemma page_ok_destroy (this : nat) (pg : Page) : page_ok pg -> page_ok (destroy this pg).
Proof.
  intros Hok. destruct (instances pg !! this) as [i|] eqn:Hi.
  2:{ unfold destroy. rewrite Hi. exact Hok. }
  rewrite (destroy_run pg this i Hi).
  apply page_ok_element.
  2:{ intros o Ho. page_simpl. apply elem_of_fst_filter in Ho. exact Ho. }
  2:{ intros o Ho. page_simpl. apply elem_of_fst_filter in Ho. exact Ho. }
  assert (Hok1 : page_ok (mkPage (elements pg) (instances pg) (prefersReducedMotion pg)
                    (match i_raf i with
                     | Some f => filter (fun fr => fst fr <> f) (pending_frames pg)
                     | None => pending_frames pg
                     end) (next_frame pg))).
  { destruct (i_raf i) as [f|]; [apply page_ok_cancel, Hok|].
    destruct Hok. constructor; assumption. }
  apply (page_ok_instance _ this i _ Hok1 Hi); reflexivity.
Qed.

Lemma page_ok_construct (el : js_value) (p : PartialOpts) (pg : Page) :
  page_ok pg -> page_ok (snd (construct el p pg)).
Proof.
  intros Hok.
  destruct (negb (truthy el) || negb (instanceof_HTMLElement el)) eqn:G.
  { unfold construct. rewrite G. exact Hok. }
  destruct el as [| |b|q|s| |id]; try (cbn in G; rewrite ?orb_true_r in G; discriminate G).
  rewrite construct_run. cbn zeta. cbn [snd].
  set (this := fresh (dom (instances pg))).
  assert (Hfresh : instances pg !! this = None).
  { apply not_elem_of_dom. apply is_fresh. }
  set (o := merge_opts p).
  destruct (setup_overlays this o (prefersReducedMotion pg) (element_of pg id))
    as (S1 & S2 & _).
  set (e1 := fst (_setup this o (prefersReducedMotion pg) (element_of pg id))) in *.
  set (inst := mkInstance id o _ _ _ _ _).
  pose proof Hok as [H1 H2 H3 H4 H5 H6].
  assert (Hold : forall t j, instances pg !! t = Some j ->
                   <[this := inst]> (instances pg) !! t = Some j).
  { intros t j Hj. rewrite lookup_insert_ne; [exact Hj|]. intros <-. congruence. }
  constructor.
  - exact H1.
  - exact H2.
  - page_simpl. intros f t Hin. destruct (H3 f t Hin) as (j & Hj & Hr). exists j. auto.
  - intros id0 o0 Ho. rewrite element_of_set_instances in Ho. page_simpl.
    destruct (decide (id0 = id)) as [->|Hne].
    + rewrite element_of_insert_eq, render_owners in Ho. cbn [_bindEvents overlays] in Ho.
      rewrite S1, fmap_app in Ho. apply elem_of_app in Ho as [Ho|Ho].
      * destruct (H4 id o0 Ho) as (j & Hj & Hel). exists j. auto.
      * assert (o0 = this).
        { destruct (prefersReducedMotion pg); [inversion Ho|].
          apply list_elem_of_fmap in Ho as (x & -> & Hx).
          apply list_elem_of_fmap in Hx as (kb & -> & _). reflexivity. }
        subst o0. exists inst. rewrite lookup_insert_eq. auto.
    + rewrite element_of_insert_ne in Ho by exact Hne.
      destruct (H4 id0 o0 Ho) as (j & Hj & Hel). exists j. auto.
  - intros id0 o0 Ho. rewrite element_of_set_instances in Ho. page_simpl.
    destruct (decide (id0 = id)) as [->|Hne].
    + rewrite element_of_insert_eq, render_listeners in Ho.
      cbn [_bindEvents listeners] in Ho.
      rewrite S2, fmap_app in Ho. apply elem_of_app in Ho as [Ho|Ho].
      * destruct (H5 id o0 Ho) as (j & Hj & Hel). exists j. auto.
      * assert (o0 = this).
        { apply list_elem_of_fmap in Ho as (x & -> & Hx).
          apply list_elem_of_fmap in Hx as (kb & -> & _). reflexivity. }
        subst o0. exists inst. rewrite lookup_insert_eq. auto.
    + rewrite element_of_insert_ne in Ho by exact Hne.
      destruct (H5 id0 o0 Ho) as (j & Hj & Hel). exists j. auto.
  - page_simpl. intros t j. destruct (decide (t = this)) as [->|Hne].
    + rewrite lookup_insert_eq. intros [= <-]. reflexivity.
    + rewrite lookup_insert_ne by congruence. apply H6.
Qed.

Lemma page_ok_act (pg : Page) (a : Action) : page_ok pg -> page_ok (act pg a).
Proof.
  intros Hok. destruct a as [el p|id rect ev|f|this p|this]; cbn [act].
  - apply page_ok_construct, Hok.
  - apply page_ok_dispatch, Hok.
  - apply page_ok_run_frame, Hok.
  - apply page_ok_update, Hok.
  - apply page_ok_destroy, Hok.
Qed.

Lemma page_ok_acts (pg : Page) (l : list Action) : page_ok pg -> page_ok (acts pg l).
Proof.
  revert pg. induction l as [|a l IH]; intros pg Hok; [exact Hok|].
  unfold acts. cbn [foldl]. apply IH, page_ok_act, Hok.
Qed.

Lemma page_ok_empty (reduced : bool) : page_ok (empty_page reduced).
Proof.
  constructor; cbn.
  - intros f t H. inversion H.
  - constructor.
  - intros f t H. inversion H.
  - intros id o H. inversion H.
  - intros id o H. inversion H.
  - intros t i H. rewrite lookup_empty in H. discriminate.
Qed.


(** ** One frame request per engine object *)

Lemma frames_of_le_1 (pg : Page) (this : nat) :
  page_ok pg -> length (frames_of this pg) <= 1.
Proof.
  intros Hok.
  assert (Hsub : frames_of this pg `sublist_of` pending_frames pg) by apply sublist_filter.
  assert (Hnd : NoDup (fst <$> frames_of this pg)).
  { apply (sublist_NoDup _ (fst <$> pending_frames pg)); [apply (ok_frame_nodup pg Hok)|].
    apply fmap_sublist, Hsub. }
  assert (Hraf : forall f t, (f, t) ∈ frames_of this pg ->
             exists i, instances pg !! this = Some i /\ i_raf i = Some f).
  { intros f t Hin. apply list_elem_of_filter in Hin as [Ht Hin]. cbn in Ht. subst t.
    destruct (ok_frame_owner pg Hok f this Hin) as (i & Hi & Hr & _). eauto. }
  destruct (frames_of this pg) as [|[f1 t1] [|[f2 t2] l]]; cbn [length]; try lia.
  exfalso.
  destruct (Hraf f1 t1) as (i1 & G1 & R1); [left|].
  destruct (Hraf f2 t2) as (i2 & G2 & R2); [right; left|].
  assert (f1 = f2) by congruence. subst f2.
  rewrite !fmap_cons in Hnd. apply NoDup_cons in Hnd as [Hnd _]. apply Hnd. left.
Qed.

(** ** What an action leaves alone *)

Lemma untouched_refl (this : nat) (pg : Page) : untouched this pg pg.
Proof. repeat split; auto. Qed.

Lemma untouched_trans (this : nat) (pg1 pg2 pg3 : Page) :
  untouched this pg1 pg2 -> untouched this pg2 pg3 -> untouched this pg1 pg3.
Proof.
  intros (A1 & A2 & A3 & A4) (B1 & B2 & B3 & B4). repeat split.
  - congruence.
  - intros id Hin. apply A2, B2, Hin.
  - intros id Hin. apply A3, B3, Hin.
  - intros fr Hin. apply A4, B4, Hin.
Qed.

Lemma untouched_instance (this o : nat) (i' : Instance) (pg : Page) :
  o <> this -> untouched this pg (set_instances (insert o i') pg).
Proof.
  intros Hne. repeat split; auto. page_simpl. apply lookup_insert_ne. exact Hne.
Qed.

Lemma untouched_element (this id : nat) (e' : Element) (pg : Page) :
  (this ∈ (fst <$> overlays e') -> this ∈ (fst <$> overlays (element_of pg id))) ->
  (this ∈ (fst <$> listeners e') -> this ∈ (fst <$> listeners (element_of pg id))) ->
  untouched this pg (set_elements (insert id e') pg).
Proof.
  intros Ho Hl. repeat split; auto.
  - intros id0 Hin. destruct (decide (id0 = id)) as [->|Hne].
    + rewrite element_of_insert_eq in Hin. auto.
    + rewrite element_of_insert_ne in Hin by exact Hne. exact Hin.
  - intros id0 Hin. destruct (decide (id0 = id)) as [->|Hne].
    + rewrite element_of_insert_eq in Hin. auto.
    + rewrite element_of_insert_ne in Hin by exact Hne. exact Hin.
Qed.

Lemma untouched_scheduleRender (this o : nat) (pg : Page) :
  o <> this -> untouched this pg (_scheduleRender o pg).
Proof.
  intros Hne. unfold _scheduleRender.
  destruct (instances pg !! o) as [i|]; [|apply untouched_refl].
  destruct (i_dirty i); [apply untouched_refl|].
  repeat split; auto.
  - page_simpl. apply lookup_insert_ne. exact Hne.
  - intros fr Hin. unfold frames_of in *. page_simpl_in Hin.
    rewrite filter_app in Hin. apply elem_of_app in Hin as [Hin|Hin]; [exact Hin|].
    apply list_elem_of_filter in Hin as [Ht Hin].
    apply list_elem_of_singleton in Hin. subst fr. cbn in Ht. congruence.
Qed.

Lemma untouched_updateFromPoint (this o : nat) (rect : Rect) (cx cy : Q) (pg : Page) :
  o <> this -> untouched this pg (_updateFromPoint o rect cx cy pg).
Proof.
  intros Hne. unfold _updateFromPoint.
  destruct (instances pg !! o) as [i|]; [|apply untouched_refl].
  eapply untouched_trans; [|apply untouched_scheduleRender, Hne].
  apply untouched_instance, Hne.
Qed.

Lemma untouched_handleEnter (this o : nat) (pg : Page) :
  o <> this -> untouched this pg (_handleEnter o pg).
Proof.
  intros Hne. unfold _handleEnter.
  destruct (instances pg !! o) as [i|]; [|apply untouched_refl].
  eapply untouched_trans; [|apply untouched_scheduleRender, Hne].
  eapply untouched_trans; [apply untouched_instance, Hne|].
  apply untouched_element; auto.
Qed.

Lemma untouched_handleLeave (this o : nat) (pg : Page) :
  o <> this -> untouched this pg (_handleLeave o pg).
Proof.
  intros Hne. unfold _handleLeave.
  destruct (instances pg !! o) as [i|]; [|apply untouched_refl].
  eapply untouched_trans; [|apply untouched_scheduleRender, Hne].
  eapply untouched_trans; [apply untouched_instance, Hne|].
  apply untouched_element; auto.
Qed.

Lemma untouched_handle (this o : nat) (rect : Rect) (ev : DomEvent) (pg : Page) :
  o <> this -> untouched this pg (handle o rect ev pg).
Proof.
  intros Hne. destruct ev as [cx cy| | |ts| |]; cbn [handle].
  - apply untouched_updateFromPoint, Hne.
  - apply untouched_handleEnter, Hne.
  - apply untouched_handleLeave, Hne.
  - unfold _handleTouchMove. destruct ts as [|[cx cy] ts]; [apply untouched_refl|].
    apply untouched_updateFromPoint, Hne.
  - apply untouched_handleEnter, Hne.
  - apply untouched_handleLeave, Hne.
Qed.

Lemma untouched_dispatch (this id : nat) (rect : Rect) (ev : DomEvent) (pg : Page) :
  this ∉ (fst <$> listeners (element_of pg id)) ->
  untouched this pg (dispatch id rect ev pg).
Proof.
  unfold dispatch. generalize (listeners (element_of pg id)). intros ls. revert pg.
  induction ls as [|[o li] ls IH]; intros pg Hout; [apply untouched_refl|].
  rewrite fmap_cons in Hout. apply not_elem_of_cons in Hout as [Hne Hout]. cbn in Hne.
  cbn [foldl]. eapply untouched_trans; [|apply IH, Hout].
  destruct (bool_decide _); [|apply untouched_refl].
  apply untouched_handle. cbn [fst]. intros E. apply Hne. symmetry. exact E.
Qed.

Lemma untouched_update (this o : nat) (p : PartialOpts) (pg : Page) :
  o <> this -> untouched this pg (update o p pg).
Proof.
  intros Hne. unfold update.
  destruct (instances pg !! o) as [i|]; [|apply untouched_refl].
  eapply untouched_trans; [|apply untouched_scheduleRender, Hne].
  apply untouched_instance, Hne.
Qed.

Lemma untouched_cancel (this : nat) (pg : Page) (P : nat * nat -> Prop)
    `{!forall x, Decision (P x)} :
  untouched this pg
    (mkPage (elements pg) (instances pg) (prefersReducedMotion pg)
       (filter P (pending_frames pg)) (next_frame pg)).
Proof.
  repeat split; auto. intros fr Hin. unfold frames_of in *. page_simpl_in Hin.
  apply list_elem_of_filter in Hin as [Ht Hin].
  apply list_elem_of_filter in Hin as [_ Hin].
  apply list_elem_of_filter. auto.
Qed.

Lemma untouched_destroy (this o : nat) (pg : Page) :
  o <> this -> untouched this pg (destroy o pg).
Proof.
  intros Hne. destruct (instances pg !! o) as [i|] eqn:Hi.
  2:{ unfold destroy. rewrite Hi. apply untouched_refl. }
  rewrite (destroy_run pg o i Hi).
  eapply untouched_trans; [|apply untouched_element].
  - eapply untouched_trans; [|apply untouched_instance, Hne].
    destruct (i_raf i) as [f|]; [apply untouched_cancel|].
    repeat split; auto.
  - page_simpl. intros Hin. apply elem_of_fst_filter in Hin. exact Hin.
  - page_simpl. intros Hin. apply elem_of_fst_filter in Hin. exact Hin.
Qed.

Lemma untouched_run_frame (this f : nat) (pg : Page) :
  page_ok pg -> frames_of this pg = [] -> untouched this pg (run_frame f pg).
Proof.
  intros Hok Hnone.
  pose proof (list_find_frame pg f) as Hf.
  destruct (list_find (fun fr : nat * nat => fst fr = f) (pending_frames pg))
    as [[k [f' o]]|] eqn:E.
  2:{ unfold run_frame. rewrite E. apply untouched_refl. }
  destruct Hf as [-> Hin].
  assert (Hne : o <> this).
  { intros ->. assert (Hin' : (f, this) ∈ frames_of this pg)
      by (apply list_elem_of_filter; auto).
    rewrite Hnone in Hin'. inversion Hin'. }
  destruct (ok_frame_owner pg Hok f o Hin) as (i & Hi & _).
  rewrite (run_frame_run pg f o i Hok Hin Hi).
  eapply untouched_trans; [|apply untouched_element].
  - eapply untouched_trans; [|apply untouched_instance, Hne].
    apply (untouched_cancel this pg (fun fr => fst fr <> f)).
  - rewrite render_owners. auto.
  - auto.
Qed.

Lemma untouched_construct (this : nat) (el : js_value) (p : PartialOpts) (pg : Page) :
  is_Some (instances pg !! this) -> untouched this pg (snd (construct el p pg)).
Proof.
  intros Hthis.
  destruct (negb (truthy el) || negb (instanceof_HTMLElement el)) eqn:G.
  { unfold construct. rewrite G. apply untouched_refl. }
  destruct el as [| |b|q|s| |id]; try (cbn in G; rewrite ?orb_true_r in G; discriminate G).
  rewrite construct_run. cbn zeta. cbn [snd].
  set (o := fresh (dom (instances pg))).
  assert (Hne : o <> this).
  { intros E. apply (is_fresh (dom (instances pg))). apply elem_of_dom.
    fold o. rewrite E. exact Hthis. }
  destruct (setup_overlays o (merge_opts p) (prefersReducedMotion pg) (element_of pg id))
    as (S1 & S2 & _).
  eapply untouched_trans; [apply untouched_element | apply untouched_instance, Hne].
  - rewrite render_owners. cbn [_bindEvents overlays]. rewrite S1, fmap_app.
    intros Hin. apply elem_of_app in Hin as [Hin|Hin]; [exact Hin|].
    exfalso. destruct (prefersReducedMotion pg); [inversion Hin|].
    apply list_elem_of_fmap in Hin as (x & E & Hx).
    apply list_elem_of_fmap in Hx as (kb & -> & _). cbn in E. congruence.
  - cbn [_render _bindEvents listeners]. rewrite S2, fmap_app.
    intros Hin. apply elem_of_app in Hin as [Hin|Hin]; [exact Hin|].
    exfalso. apply list_elem_of_fmap in Hin as (x & E & Hx).
    apply list_elem_of_fmap in Hx as (kb & -> & _). cbn in E. congruence.
Qed.

Lemma detached_untouched (this : nat) (pg pg' : Page) :
  detached this pg -> untouched this pg pg' -> detached this pg'.
Proof.
  intros [D1 D2] (U1 & U2 & U3 & U4). split.
  - intros id. destruct (D1 id) as [A B]. split; intros Hin; [apply A, U2 | apply B, U3]; exact Hin.
  - destruct (frames_of this pg') as [|fr l] eqn:E; [reflexivity|].
    exfalso. specialize (U4 fr). rewrite D2 in U4.
    assert (Hin : fr ∈ @nil (nat * nat)) by (apply U4; left). inversion Hin.
Qed.

Lemma untouched_act (this : nat) (pg : Page) (a : Action) :
  page_ok pg -> detached this pg -> is_Some (instances pg !! this) ->
  calls this a = false -> untouched this pg (act pg a).
Proof.
  intros Hok [D1 D2] Hthis Hc. destruct a as [el p|id rect ev|f|o p|o]; cbn [act].
  - apply untouched_construct, Hthis.
  - apply untouched_dispatch. apply (D1 id).
  - apply untouched_run_frame; assumption.
  - apply untouched_update. cbn in Hc. apply bool_decide_eq_false in Hc. exact Hc.
  - apply untouched_destroy. cbn in Hc. apply bool_decide_eq_false in Hc. exact Hc.
Qed.

Lemma untouched_acts (this : nat) (pg : Page) (l : list Action) :
  page_ok pg -> detached this pg -> is_Some (instances pg !! this) ->
  Forall (fun a => calls this a = false) l -> untouched this pg (acts pg l).
Proof.
  intros Hok Hd Hthis Hall. revert pg Hok Hd Hthis.
  induction Hall as [|a l Ha Hall IH]; intros pg Hok Hd Hthis; [apply untouched_refl|].
  unfold acts. cbn [foldl].
  pose proof (untouched_act this pg a Hok Hd Hthis Ha) as Hu.
  eapply untouched_trans; [exact Hu|]. apply IH.
  - apply page_ok_act, Hok.
  - apply (detached_untouched this pg); assumption.
  - destruct Hu as [-> _]. exact Hthis.
Qed.

Lemma detached_destroy (this : nat) (pg : Page) (i : Instance) :
  page_ok pg -> instances pg !! this = Some i -> detached this (destroy this pg).
Proof.
  intros Hok Hi. rewrite (destroy_run pg this i Hi). split.
  - intros id. destruct (decide (id = i_el i)) as [->|Hne].
    + rewrite element_of_insert_eq. page_simpl.
      split; intros Hin; apply list_elem_of_fmap in Hin as (x & E & Hx);
        apply list_elem_of_filter in Hx as [Hne _]; congruence.
    + rewrite element_of_insert_ne by exact Hne. rewrite element_of_set_instances.
      change (element_of (mkPage (elements pg) _ _ _ _) id) with (element_of pg id).
      split; intros Hin.
      * destruct (ok_overlays pg Hok id this Hin) as (j & Hj & Hel). congruence.
      * destruct (ok_listeners pg Hok id this Hin) as (j & Hj & Hel). congruence.
  - unfold frames_of. page_simpl.
    destruct (filter _ _) as [|[f t] l] eqn:E; [reflexivity|]. exfalso.
    assert (Hin : (f, t) ∈ filter (fun fr : nat * nat => snd fr = this)
                    (match i_raf i with
                     | Some f0 => filter (fun fr => fst fr <> f0) (pending_frames pg)
                     | None => pending_frames pg
                     end)) by (rewrite E; left).
    apply list_elem_of_filter in Hin as [Ht Hin]. cbn in Ht. subst t.
    assert (Hin' : (f, this) ∈ pending_frames pg).
    { destruct (i_raf i); [apply list_elem_of_filter in Hin as [_ Hin]|]; exact Hin. }
    destruct (ok_frame_owner pg Hok f this Hin') as (j & Hj & Hr & _).
    rewrite Hi in Hj. injection Hj as <-. rewrite Hr in Hin.
    apply list_elem_of_filter in Hin as [Hne _]. apply Hne. reflexivity.
Qed.


(** X1.  However many events, updates, constructions and destructions happen
    between two animation frames, an engine object never has more than one
    frame request outstanding: [_scheduleRender] requests a frame only when
    [_dirty] is clear, and the flag stays set until that frame runs. *)
Theorem one_frame_per_engine (pg : Page) (l : list Action) (this : nat) :
  page_ok pg -> length (frames_of this (acts pg l)) <= 1.
Proof.
  intros Hok. apply frames_of_le_1, page_ok_acts, Hok.
Qed.

(** Two mouse moves and a leave on a card, with no frame in between. *)
Lemma one_frame_per_engine_witness :
  length (frames_of 0 (acts one_card_page
            [Deliver 0 unit_square (MouseMove 10 10);
             Deliver 0 unit_square (MouseMove 20 30);
             Deliver 0 unit_square MouseLeave])) <= 1.
Proof.
  apply one_frame_per_engine.
  apply (page_ok_construct (JElement 0) no_opts blank_page).
  apply (page_ok_empty false).
Defined.

(** X2.  After [destroy()] nothing on the page refers to the engine object
    any more (no layer, no listener, no frame request), and this stays so:
    whatever events are delivered, frames run or other engines are built,
    updated or destroyed, the destroyed object is never written again. *)
Theorem destroyed_engine_is_unreachable (pg : Page) (this : nat) (l : list Action) :
  page_ok pg -> is_Some (instances pg !! this) ->
  Forall (fun a => calls this a = false) l ->
  let pg1 := destroy this pg in
  detached this pg1 /\ detached this (acts pg1 l) /\
  instances (acts pg1 l) !! this = instances pg1 !! this.
Proof.
  intros Hok [i Hi] Hall. cbn zeta.
  pose proof (detached_destroy this pg i Hok Hi) as Hd.
  pose proof (page_ok_destroy this pg Hok) as Hok1.
  assert (Hthis : is_Some (instances (destroy this pg) !! this)).
  { rewrite (destroy_run pg this i Hi). page_simpl. rewrite lookup_insert_eq. eauto. }
  pose proof (untouched_acts this _ l Hok1 Hd Hthis Hall) as Hu.
  split; [exact Hd|]. split.
  - apply (detached_untouched this (destroy this pg)); assumption.
  - destruct Hu as [Hu _]. exact Hu.
Qed.

(** The engine of a card destroyed, then a mouse move on the card, a frame
    and a second engine constructed on the same element. *)
Lemma destroyed_engine_is_unreachable_witness :
  instances (acts (destroy 0 one_card_page)
               [Deliver 0 unit_square (MouseMove 10 10); Frame 0;
                New (JElement 0) no_opts]) !! 0 =
  instances (destroy 0 one_card_page) !! 0.
Proof.
  destruct (destroyed_engine_is_unreachable one_card_page 0
              [Deliver 0 unit_square (MouseMove 10 10); Frame 0;
               New (JElement 0) no_opts]) as (_ & _ & H).
  - apply (page_ok_construct (JElement 0) no_opts blank_page).
    apply (page_ok_empty false).
  - eexists. vm_compute. reflexivity.
  - repeat constructor.
  - exact H.
Defined.


(** ** Construction followed by destruction *)

Lemma filter_render_others (this : nat) (g : Layer -> Layer) (l : list (nat * Layer)) :
  filter (fun ol => fst ol <> this)
    (map (fun ol => if bool_decide (fst ol = this) then (fst ol, g (snd ol)) else ol) l) =
  filter (fun ol => fst ol <> this) l.
Proof.
  induction l as [|[o x] l IH]; [reflexivity|]. cbn [map fst snd].
  destruct (decide (o = this)) as [->|Hne].
  - rewrite bool_decide_eq_true_2 by reflexivity.
    rewrite !filter_cons_False by (cbn; intros H; apply H; reflexivity). exact IH.
  - rewrite bool_decide_eq_false_2 by exact Hne.
    rewrite !filter_cons_True by (cbn; exact Hne). f_equal. exact IH.
Qed.

Lemma filter_owner_keep {A} (this : nat) (l : list (nat * A)) :
  this ∉ (fst <$> l) -> filter (fun x => fst x <> this) l = l.
Proof.
  induction l as [|[o x] l IH]; intros Hout; [reflexivity|].
  rewrite fmap_cons in Hout. apply not_elem_of_cons in Hout as [Hne Hout]. cbn in Hne.
  rewrite filter_cons_True by (cbn; congruence). f_equal. apply IH, Hout.
Qed.

Lemma filter_owner_drop {A B} (this : nat) (f : B -> A) (l : list B) :
  filter (fun x : nat * A => fst x <> this) (map (fun b => (this, f b)) l) = [].
Proof.
  induction l as [|b l IH]; [reflexivity|]. cbn [map].
  rewrite filter_cons_False by (cbn; intros H; apply H; reflexivity). exact IH.
Qed.

Lemma setup_styles (this : nat) (o : Opts) (reduced : bool) (e : Element) :
  let e1 := fst (_setup this o reduced e) in
  computed_position e1 = computed_position e /\
  computed_overflow e1 = computed_overflow e /\
  inline_position e1 =
    (if String.eqb (computed_position e) "static" then Some "relative"%string
     else inline_position e) /\
  inline_overflow e1 =
    (if String.eqb (computed_overflow e) "hidden" then inline_overflow e
     else Some "hidden"%string) /\
  inline_transition e1 = inline_transition e.
Proof.
  cbn zeta. unfold _setup.
  assert (H : let e0 := fix_overflow (fix_position e) in
              computed_position e0 = computed_position e /\
              computed_overflow e0 = computed_overflow e /\
              inline_position e0 =
                (if String.eqb (computed_position e) "static" then Some "relative"%string
                 else inline_position e) /\
              inline_overflow e0 =
                (if String.eqb (computed_overflow e) "hidden" then inline_overflow e
                 else Some "hidden"%string) /\
              inline_transition e0 = inline_transition e).
  { cbn zeta. unfold fix_overflow, fix_position.
    destruct (String.eqb (computed_position e) "static"); page_simpl;
      destruct (String.eqb (computed_overflow e) "hidden"); cbn [negb]; page_simpl; auto. }
  destruct reduced; cbn [fst]; [exact H|].
  rewrite foldl_add_layer. page_simpl. exact H.
Qed.

(** X3.  Constructing an engine on an element and destroying it again
    removes exactly what the constructor added to the element, its layers
    and its listeners, and leaves the frame queue and every other element
    as they were.  The inline [position] and [overflow] written by [_setup]
    stay, and the inline [transform] and [transition] are cleared whatever
    they held before the construction. *)
Theorem destroy_undoes_construct (pg : Page) (id : nat) (opts : PartialOpts) :
  page_ok pg ->
  let this := fresh (dom (instances pg)) in
  let pg2 := destroy this (snd (construct (JElement id) opts pg)) in
  let e := element_of pg id in
  let e2 := element_of pg2 id in
  fst (construct (JElement id) opts pg) = Returned this /\
  overlays e2 = overlays e /\ listeners e2 = listeners e /\
  inline_transform e2 = None /\ inline_transition e2 = None /\
  inline_position e2 =
    (if String.eqb (computed_position e) "static" then Some "relative"%string
     else inline_position e) /\
  inline_overflow e2 =
    (if String.eqb (computed_overflow e) "hidden" then inline_overflow e
     else Some "hidden"%string) /\
  pending_frames pg2 = pending_frames pg /\
  (forall id', id' <> id -> element_of pg2 id' = element_of pg id').
Proof.
  intros Hok. cbn zeta. rewrite construct_run. cbn zeta. cbn [fst snd].
  set (this := fresh (dom (instances pg))).
  set (o := merge_opts opts).
  set (e := element_of pg id).
  destruct (setup_overlays this o (prefersReducedMotion pg) e) as (S1 & S2 & S3).
  destruct (setup_styles this o (prefersReducedMotion pg) e) as (T1 & T2 & T3 & T4 & T5).
  set (e1 := fst (_setup this o (prefersReducedMotion pg) e)) in *.
  set (inst := mkInstance id o _ _ _ _ _).
  set (e3 := _render this inst (_bindEvents this e1)).
  set (pg1 := set_instances (insert this inst) (set_elements (insert id e3) pg)).
  assert (Hi : instances pg1 !! this = Some inst).
  { unfold pg1. page_simpl. apply lookup_insert_eq. }
  assert (He3 : element_of pg1 id = e3).
  { unfold pg1. rewrite element_of_set_instances. apply element_of_insert_eq. }
  assert (Hfresh : this ∉ dom (instances pg)) by apply is_fresh.
  assert (Hov : this ∉ (fst <$> overlays e)).
  { intros Hin. destruct (ok_overlays pg Hok id this Hin) as (j & Hj & _).
    apply Hfresh. apply elem_of_dom. eauto. }
  assert (Hli : this ∉ (fst <$> listeners e)).
  { intros Hin. destruct (ok_listeners pg Hok id this Hin) as (j & Hj & _).
    apply Hfresh. apply elem_of_dom. eauto. }
  rewrite (destroy_run pg1 this inst Hi). cbn zeta.
  change (i_el inst) with id. rewrite He3.
  split; [reflexivity|].
  rewrite element_of_insert_eq. page_simpl.
  split.
  { unfold e3, _render. page_simpl. rewrite filter_render_others.
    cbn [_bindEvents overlays]. rewrite S1, filter_app.
    rewrite (filter_owner_keep this _ Hov).
    destruct (prefersReducedMotion pg); [apply app_nil_r|].
    rewrite filter_owner_drop. apply app_nil_r. }
  split.
  { unfold e3. cbn [_render _bindEvents listeners]. rewrite S2, filter_app.
    rewrite (filter_owner_keep this _ Hli).
    rewrite (filter_owner_drop this (fun li : Listener => li)). apply app_nil_r. }
  split; [reflexivity|]. split; [reflexivity|].
  split; [exact T3|]. split; [exact T4|].
  split; [reflexivity|].
  intros id' Hne. rewrite element_of_insert_ne by exact Hne.
  rewrite element_of_set_instances.
  change (element_of (mkPage (elements pg1) _ _ _ _) id') with (element_of pg1 id').
  unfold pg1. rewrite element_of_set_instances. apply element_of_insert_ne. exact Hne.
Qed.

(** An engine constructed on element 0 of an empty page and destroyed. *)
Lemma destroy_undoes_construct_witness :
  overlays (element_of (destroy 0 one_card_page) 0) = [] /\
  listeners (element_of (destroy 0 one_card_page) 0) = [] /\
  inline_position (element_of (destroy 0 one_card_page) 0) = Some "relative"%string.
Proof.
  destruct (destroy_undoes_construct blank_page 0 no_opts) as (_ & H1 & H2 & _ & _ & H3 & _).
  - apply (page_ok_empty false).
  - split; [exact H1|]. split; [exact H2 | exact H3].
Defined.


(** ** Frames after pointer input *)

Lemma scheduleRender_instance (this : nat) (pg : Page) (i : Instance) :
  instances pg !! this = Some i ->
  elements (_scheduleRender this pg) = elements pg /\
  exists i', instances (_scheduleRender this pg) !! this = Some i' /\
    i_state i' = i_state i /\ i_opts i' = i_opts i /\ i_el i' = i_el i /\
    i_reducedMotion i' = i_reducedMotion i /\ i_dirty i' = true /\
    (i_dirty i = false -> (next_frame pg, this) ∈ pending_frames (_scheduleRender this pg)).
Proof.
  intros Hi. unfold _scheduleRender. rewrite Hi. destruct (i_dirty i) eqn:Hd.
  - split; [reflexivity|]. exists i. repeat split; auto. discriminate.
  - split; [reflexivity|]. eexists. page_simpl. rewrite lookup_insert_eq.
    split; [reflexivity|]. page_simpl. repeat split; auto.
    intros _. apply elem_of_app. right. left.
Qed.

Lemma render_owned (this : nat) (i : Instance) (e : Element) (l : Layer) :
  (this, l) ∈ overlays (_render this i e) ->
  exists l0, (this, l0) ∈ overlays e /\ l = paint_layer (i_opts i) (i_state i) l0.
Proof.
  unfold _render. page_simpl. intros Hin.
  apply list_elem_of_fmap in Hin as ([o l0] & E & Hin). cbn [fst snd] in E.
  destruct (bool_decide (o = this)) eqn:Ho.
  - apply bool_decide_eq_true in Ho. subst o. injection E as ->. eauto.
  - apply bool_decide_eq_false in Ho. injection E as <- _. contradiction.
Qed.

Lemma Qclamp100_bounds (q : Q) : (0 <= Qclamp100 q <= 100)%Q.
Proof.
  unfold Qclamp100. split.
  - apply Q.min_glb; [discriminate | apply Q.le_max_l].
  - apply Q.le_min_l.
Qed.

(** X4.  Wherever the pointer is reported, also outside the element, the
    glare layer painted by the next frame is centred inside the element:
    the centre is the pointer's relative position scaled by
    [glareMultiplier] and clamped to the range from 0 to 100 percent on
    both axes.  The frame is there to run whenever the engine was not
    already waiting for one. *)
Theorem glare_stays_on_card (pg : Page) (this : nat) (i : Instance) (rect : Rect)
    (cx cy : Q) :
  page_ok pg -> instances pg !! this = Some i ->
  (0 < width rect)%Q -> (0 < height rect)%Q ->
  let pg1 := _updateFromPoint this rect cx cy pg in
  (i_dirty i = false -> (next_frame pg, this) ∈ pending_frames pg1) /\
  forall f l,
    (f, this) ∈ pending_frames pg1 ->
    (this, l) ∈ overlays (element_of (run_frame f pg1) (i_el i)) ->
    l_kind l = HoloGlare ->
    exists gx gy,
      l_paint l = GlareGradient gx gy /\
      gx = Qclamp100 ((cx - left rect) / width rect * 100 * glareMultiplier (i_opts i)) /\
      gy = Qclamp100 ((cy - top rect) / height rect * 100 * glareMultiplier (i_opts i)) /\
      (0 <= gx <= 100)%Q /\ (0 <= gy <= 100)%Q.
Proof.
  intros Hok Hi Hw Hh. cbn zeta.
  pose proof (page_ok_updateFromPoint this rect cx cy pg Hok) as Hok1.
  unfold _updateFromPoint in *. rewrite Hi in *.
  set (i0 := with_state (point_state (i_opts i) rect cx cy) i) in *.
  set (pg0 := set_instances (insert this i0) pg) in *.
  assert (Hi0 : instances pg0 !! this = Some i0) by (unfold pg0; page_simpl; apply lookup_insert_eq).
  destruct (scheduleRender_instance this pg0 i0 Hi0)
    as (Hel & i1 & Hi1 & Hst & Hop & Hid & _ & _ & Hnew).
  split; [exact Hnew|].
  intros f l Hf Hin Hk.
  rewrite (run_frame_run _ f this i1 Hok1 Hf Hi1) in Hin.
  rewrite Hid in Hin. change (i_el i0) with (i_el i) in Hin.
  rewrite element_of_insert_eq in Hin.
  apply render_owned in Hin as (l0 & _ & ->). cbn [i_opts i_state] in *.
  rewrite Hst, Hop in *. change (i_opts i0) with (i_opts i) in *.
  destruct (paint_layer_kind (i_opts i) (i_state i0) l0) as [Hk0 _].
  rewrite Hk in Hk0. unfold paint_layer. rewrite <- Hk0. cbn [l_paint].
  eexists _, _. split; [reflexivity|].
  split; [reflexivity|]. split; [reflexivity|].
  split; apply Qclamp100_bounds.
Qed.

(** A touch reported 100 px to the right of a 100 by 100 card: the glare is
    painted on the card's right edge. *)
Lemma glare_stays_on_card_witness :
  exists l,
    (0, l) ∈ overlays (element_of
                         (run_frame 0 (_updateFromPoint 0 unit_square 200 50 one_card_page)) 0) /\
    l_kind l = HoloGlare /\
    exists gx gy, l_paint l = GlareGradient gx gy /\ (0 <= gx <= 100)%Q /\ (0 <= gy <= 100)%Q.
Proof.
  assert (Hi : instances one_card_page !! 0 =
               Some (mkInstance 0 DEFAULTS false (mkEffectState 0 0 50 50 false)
                       [HoloColor; HoloShimmer; HoloGlare] None false))
    by (vm_compute; reflexivity).
  assert (Hok : page_ok one_card_page).
  { apply (page_ok_construct (JElement 0) no_opts blank_page). apply (page_ok_empty false). }
  assert (Hin : exists l,
            (0, l) ∈ overlays (element_of
                         (run_frame 0 (_updateFromPoint 0 unit_square 200 50 one_card_page)) 0) /\
            l_kind l = HoloGlare).
  { remember (overlays (element_of
                (run_frame 0 (_updateFromPoint 0 unit_square 200 50 one_card_page)) 0))
      as ov eqn:E.
    vm_compute in E. rewrite E. eexists. split; [right; right; left | reflexivity]. }
  destruct Hin as (l & Hin & Hk).
  destruct (glare_stays_on_card one_card_page 0 _ unit_square 200 50 Hok Hi) as [H1 H2].
  - reflexivity.
  - reflexivity.
  - exists l. split; [exact Hin|]. split; [exact Hk|].
    destruct (H2 0 l) as (gx & gy & G1 & _ & _ & G4 & G5).
    + apply (H1 eq_refl).
    + exact Hin.
    + exact Hk.
    + exists gx, gy. auto.
Defined.

Lemma handleLeave_run (this : nat) (pg : Page) (i : Instance) :
  instances pg !! this = Some i ->
  exists i', instances (_handleLeave this pg) !! this = Some i' /\
    i_state i' = mkEffectState 0 0 (mx (i_state i)) (my (i_state i)) false /\
    i_opts i' = i_opts i /\ i_el i' = i_el i /\
    i_reducedMotion i' = i_reducedMotion i /\
    inline_transition (element_of (_handleLeave this pg) (i_el i)) =
      Some ("transform " ++ leaveTransition (i_opts i))%string.
Proof.
  intros Hi. unfold _handleLeave. rewrite Hi.
  set (i0 := with_state _ i).
  set (pg0 := set_elements _ _).
  assert (Hi0 : instances pg0 !! this = Some i0)
    by (unfold pg0; page_simpl; apply lookup_insert_eq).
  destruct (scheduleRender_instance this pg0 i0 Hi0)
    as (Hel & i1 & Hi1 & Hst & Hop & Hid & Hred & _).
  exists i1. split; [exact Hi1|]. rewrite Hst, Hop, Hid, Hred.
  repeat split; try reflexivity.
  unfold element_of. rewrite Hel. unfold pg0. page_simpl. rewrite lookup_insert_eq.
  reflexivity.
Qed.

(** X5.  When the pointer leaves, the frame that follows lays the element
    flat, whatever position was reported last: the transform becomes
    [perspective(p) rotateX(0) rotateY(0)] under the leave transition, and
    the engine keeps the last cursor position, taken on a rectangle of
    positive size, for its gradients. *)
Theorem leave_flattens_card (pg : Page) (this : nat) (i : Instance) (rect : Rect)
    (cx cy : Q) :
  page_ok pg -> instances pg !! this = Some i ->
  tilt (i_opts i) = true -> i_reducedMotion i = false ->
  (0 < width rect)%Q -> (0 < height rect)%Q ->
  let pg1 := _handleLeave this (_updateFromPoint this rect cx cy pg) in
  (i_dirty i = false -> frames_of this pg1 = [(next_frame pg, this)]) /\
  forall f, (f, this) ∈ pending_frames pg1 ->
    let pg2 := run_frame f pg1 in
    inline_transform (element_of pg2 (i_el i)) = Some (perspective (i_opts i), 0%Q, 0%Q) /\
    inline_transition (element_of pg2 (i_el i)) =
      Some ("transform " ++ leaveTransition (i_opts i))%string /\
    exists i', instances pg2 !! this = Some i' /\
      active (i_state i') = false /\
      mx (i_state i') = ((cx - left rect) / width rect * 100)%Q /\
      my (i_state i') = ((cy - top rect) / height rect * 100)%Q.
Proof.
  intros Hok Hi Ht Hr _ _. cbn zeta.
  pose proof (page_ok_updateFromPoint this rect cx cy pg Hok) as Hok1.
  pose proof (page_ok_handleLeave this _ Hok1) as Hok2.
  assert (Hup : exists i1, instances (_updateFromPoint this rect cx cy pg) !! this = Some i1 /\
              i_state i1 = point_state (i_opts i) rect cx cy (i_state i) /\
              i_opts i1 = i_opts i /\ i_el i1 = i_el i /\
              i_reducedMotion i1 = i_reducedMotion i /\ i_dirty i1 = true /\
              (i_dirty i = false ->
               (next_frame pg, this) ∈ pending_frames (_updateFromPoint this rect cx cy pg))).
  { unfold _updateFromPoint. rewrite Hi.
    set (i0 := with_state (point_state (i_opts i) rect cx cy) i).
    set (pg0 := set_instances (insert this i0) pg).
    assert (Hi0 : instances pg0 !! this = Some i0)
      by (unfold pg0; page_simpl; apply lookup_insert_eq).
    destruct (scheduleRender_instance this pg0 i0 Hi0)
      as (_ & i1 & Hi1 & Hst & Hop & Hid & Hred & Hd & Hnew).
    exists i1. repeat split; auto. }
  destruct Hup as (i1 & Hi1 & Hst1 & Hop1 & Hid1 & Hred1 & Hd1 & Hnew).
  set (pg1 := _updateFromPoint this rect cx cy pg) in *.
  destruct (handleLeave_run this pg1 i1 Hi1) as (i2 & Hi2 & Hst2 & Hop2 & Hid2 & Hred2 & Htr).
  rewrite Hop1, Hid1 in *. rewrite Hst1 in Hst2. cbn [mx my point_state] in Hst2.
  split.
  - intros Hd.
    assert (Hin : (next_frame pg, this) ∈ frames_of this (_handleLeave this pg1)).
    { apply list_elem_of_filter. split; [reflexivity|].
      unfold _handleLeave. rewrite Hi1. unfold _scheduleRender at 1. page_simpl.
      rewrite lookup_insert_eq. page_simpl. rewrite Hd1. page_simpl. apply Hnew, Hd. }
    pose proof (frames_of_le_1 _ this Hok2) as Hle.
    destruct (frames_of this (_handleLeave this pg1)) as [|fr [|fr' l]];
      [inversion Hin| |cbn in Hle; lia].
    apply list_elem_of_singleton in Hin. subst fr. reflexivity.
  - intros f Hf. cbn zeta.
    rewrite (run_frame_run _ f this i2 Hok2 Hf Hi2). rewrite Hid2.
    rewrite element_of_insert_eq. unfold _render. page_simpl.
    rewrite Hop2, Hred2, Hred1, Ht, Hr, Hst2. cbn [andb negb rx ry].
    split; [reflexivity|].
    change (element_of (mkPage (elements (_handleLeave this pg1)) _ _ _ _) (i_el i))
      with (element_of (_handleLeave this pg1) (i_el i)).
    split; [exact Htr|].
    eexists. rewrite lookup_insert_eq. split; [reflexivity|]. page_simpl.
    cbn [active mx my]. auto.
Qed.

(** The pointer reported at the top-left corner of a card, then leaving. *)
Lemma leave_flattens_card_witness :
  inline_transform
    (element_of (run_frame 0 (_handleLeave 0 (_updateFromPoint 0 unit_square 0 0 one_card_page)))
       0) = Some (1000%Q, 0%Q, 0%Q).
Proof.
  assert (Hi : instances one_card_page !! 0 =
               Some (mkInstance 0 DEFAULTS false (mkEffectState 0 0 50 50 false)
                       [HoloColor; HoloShimmer; HoloGlare] None false))
    by (vm_compute; reflexivity).
  assert (Hok : page_ok one_card_page).
  { apply (page_ok_construct (JElement 0) no_opts blank_page). apply (page_ok_empty false). }
  destruct (leave_flattens_card one_card_page 0 _ unit_square 0 0 Hok Hi) as [H1 H2].
  - reflexivity.
  - reflexivity.
  - reflexivity.
  - reflexivity.
  - destruct (H2 0) as (G1 & _).
    + assert (Hin : (0, 0) ∈ frames_of 0
                      (_handleLeave 0 (_updateFromPoint 0 unit_square 0 0 one_card_page)))
        by (rewrite (H1 eq_refl); left).
      apply list_elem_of_filter in Hin as [_ Hin]. exact Hin.
    + exact G1.
Defined.


(** ** What the actions do to an element *)

Lemma scheduleRender_page (o : nat) (pg : Page) :
  elements (_scheduleRender o pg) = elements pg /\
  prefersReducedMotion (_scheduleRender o pg) = prefersReducedMotion pg.
Proof.
  unfold _scheduleRender. destruct (instances pg !! o) as [i|]; [|auto].
  destruct (i_dirty i); auto.
Qed.

Lemma element_of_scheduleRender (o : nat) (pg : Page) (id : nat) :
  element_of (_scheduleRender o pg) id = element_of pg id.
Proof. unfold element_of. destruct (scheduleRender_page o pg) as [-> _]. reflexivity. Qed.

(** What an action that builds nothing may change of an element: its
    inline transition and transform and the painting of its layers. *)
Lemma handleEnter_element (o : nat) (pg : Page) (id : nat) :
  overlays (element_of (_handleEnter o pg) id) = overlays (element_of pg id) /\
  inline_transform (element_of (_handleEnter o pg) id) = inline_transform (element_of pg id) /\
  prefersReducedMotion (_handleEnter o pg) = prefersReducedMotion pg.
Proof.
  unfold _handleEnter. destruct (instances pg !! o) as [i|]; [|auto].
  rewrite element_of_scheduleRender.
  destruct (scheduleRender_page o
    (set_elements (insert (i_el i)
       (mkElement (computed_position (element_of pg (i_el i)))
          (computed_overflow (element_of pg (i_el i)))
          (inline_position (element_of pg (i_el i)))
          (inline_overflow (element_of pg (i_el i)))
          (Some ("transform " ++ hoverTransition (i_opts i))%string)
          (inline_transform (element_of pg (i_el i)))
          (overlays (element_of pg (i_el i))) (listeners (element_of pg (i_el i)))))
       (set_instances
          (insert o (with_state (fun st => mkEffectState (rx st) (ry st) (mx st) (my st) true) i))
          pg))) as [_ ->].
  destruct (decide (id = i_el i)) as [->|Hne].
  - rewrite element_of_insert_eq. page_simpl. auto.
  - rewrite element_of_insert_ne by exact Hne. auto.
Qed.

Lemma handleLeave_element (o : nat) (pg : Page) (id : nat) :
  overlays (element_of (_handleLeave o pg) id) = overlays (element_of pg id) /\
  inline_transform (element_of (_handleLeave o pg) id) = inline_transform (element_of pg id) /\
  prefersReducedMotion (_handleLeave o pg) = prefersReducedMotion pg.
Proof.
  unfold _handleLeave. destruct (instances pg !! o) as [i|]; [|auto].
  rewrite element_of_scheduleRender.
  destruct (scheduleRender_page o
    (set_elements (insert (i_el i)
       (mkElement (computed_position (element_of pg (i_el i)))
          (computed_overflow (element_of pg (i_el i)))
          (inline_position (element_of pg (i_el i)))
          (inline_overflow (element_of pg (i_el i)))
          (Some ("transform " ++ leaveTransition (i_opts i))%string)
          (inline_transform (element_of pg (i_el i)))
          (overlays (element_of pg (i_el i))) (listeners (element_of pg (i_el i)))))
       (set_instances
          (insert o (with_state (fun st => mkEffectState 0 0 (mx st) (my st) false) i))
          pg))) as [_ ->].
  destruct (decide (id = i_el i)) as [->|Hne].
  - rewrite element_of_insert_eq. page_simpl. auto.
  - rewrite element_of_insert_ne by exact Hne. auto.
Qed.

Lemma updateFromPoint_element (o : nat) (rect : Rect) (cx cy : Q) (pg : Page) (id : nat) :
  element_of (_updateFromPoint o rect cx cy pg) id = element_of pg id /\
  prefersReducedMotion (_updateFromPoint o rect cx cy pg) = prefersReducedMotion pg.
Proof.
  unfold _updateFromPoint. destruct (instances pg !! o) as [i|]; [|auto].
  rewrite element_of_scheduleRender.
  destruct (scheduleRender_page o
    (set_instances (insert o (with_state (point_state (i_opts i) rect cx cy) i)) pg))
    as [_ ->].
  auto.
Qed.

Lemma handle_element (o : nat) (rect : Rect) (ev : DomEvent) (pg : Page) (id : nat) :
  overlays (element_of (handle o rect ev pg) id) = overlays (element_of pg id) /\
  inline_transform (element_of (handle o rect ev pg) id) = inline_transform (element_of pg id) /\
  prefersReducedMotion (handle o rect ev pg) = prefersReducedMotion pg.
Proof.
  destruct ev as [cx cy| | |ts| |]; cbn [handle];
    try apply handleEnter_element; try apply handleLeave_element.
  - unfold _handleMove.
    destruct (updateFromPoint_element o rect cx cy pg id) as [-> ->]. auto.
  - unfold _handleTouchMove. destruct ts as [|[cx cy] ts]; [auto|].
    destruct (updateFromPoint_element o rect cx cy pg id) as [-> ->]. auto.
Qed.

Lemma dispatch_element (id0 : nat) (rect : Rect) (ev : DomEvent) (pg : Page) (id : nat) :
  overlays (element_of (dispatch id0 rect ev pg) id) = overlays (element_of pg id) /\
  inline_transform (element_of (dispatch id0 rect ev pg) id) =
    inline_transform (element_of pg id) /\
  prefersReducedMotion (dispatch id0 rect ev pg) = prefersReducedMotion pg.
Proof.
  unfold dispatch. generalize (listeners (element_of pg id0)). intros ls. revert pg.
  induction ls as [|[o li] ls IH]; intros pg; [auto|].
  cbn [foldl fst snd]. destruct (IH (if bool_decide (li = event_type ev)
                                     then handle o rect ev pg else pg)) as (-> & -> & ->).
  destruct (bool_decide _); [|auto]. apply handle_element.
Qed.

Lemma update_element (o : nat) (p : PartialOpts) (pg : Page) (id : nat) :
  element_of (update o p pg) id = element_of pg id /\
  prefersReducedMotion (update o p pg) = prefersReducedMotion pg.
Proof.
  unfold update. destruct (instances pg !! o) as [i|]; [|auto].
  rewrite element_of_scheduleRender.
  destruct (scheduleRender_page o
    (set_instances (insert o (with_opts (assign_opts (i_opts i) p) i)) pg)) as [_ ->].
  auto.
Qed.

(** A frame repaints layers and may write the transform; it adds and
    removes nothing. *)
Lemma run_frame_element (f : nat) (pg : Page) (id : nat) :
  layer_skeleton (element_of (run_frame f pg) id) = layer_skeleton (element_of pg id) /\
  prefersReducedMotion (run_frame f pg) = prefersReducedMotion pg /\
  ((forall t i, instances pg !! t = Some i -> i_reducedMotion i = true) ->
   inline_transform (element_of (run_frame f pg) id) = inline_transform (element_of pg id)).
Proof.
  unfold run_frame.
  destruct (list_find _ _) as [[k [f' this]]|]; [|auto].
  page_simpl.
  destruct (instances pg !! this) as [i|] eqn:Hi; [|auto].
  split; [|split; [reflexivity|]].
  - destruct (decide (id = i_el i)) as [->|Hne].
    + rewrite element_of_insert_eq. apply render_skeleton.
    + rewrite element_of_insert_ne by exact Hne. reflexivity.
  - intros Hall. destruct (decide (id = i_el i)) as [->|Hne].
    + rewrite element_of_insert_eq. unfold _render. page_simpl.
      rewrite (Hall this i Hi). rewrite andb_false_r. reflexivity.
    + rewrite element_of_insert_ne by exact Hne. reflexivity.
Qed.

Lemma skeleton_of_overlays (e e' : Element) :
  overlays e' = overlays e -> layer_skeleton e' = layer_skeleton e.
Proof. unfold layer_skeleton. intros ->. reflexivity. Qed.

Lemma skeleton_act (pg : Page) (a : Action) (id : nat) :
  builds a = false ->
  layer_skeleton (element_of (act pg a) id) = layer_skeleton (element_of pg id).
Proof.
  intros Hb. destruct a as [el p|id0 rect ev|f|o p|o]; try discriminate Hb; cbn [act].
  - apply skeleton_of_overlays. apply dispatch_element.
  - apply run_frame_element.
  - destruct (update_element o p pg id) as [-> _]. reflexivity.
Qed.

(** X6.  The set of layers of an element changes only when an engine is
    constructed or destroyed.  Events, frames and [update()] keep the
    owner, kind and blend mode of every layer, in order: switching
    [holographic], [shimmer] or [glare] through [update()] neither removes
    a layer nor creates one. *)
Theorem layers_only_change_when_built (pg : Page) (l : list Action) (id : nat) :
  Forall (fun a => builds a = false) l ->
  layer_skeleton (element_of (acts pg l) id) = layer_skeleton (element_of pg id).
Proof.
  intros Hall. revert pg. induction Hall as [|a l Ha Hall IH]; intros pg; [reflexivity|].
  unfold acts. cbn [foldl]. fold (acts (act pg a) l).
  rewrite IH. apply skeleton_act, Ha.
Qed.

(** The glare switched off through [update()] on a card built with the
    default options: after the next frame the glare layer is still there. *)
Lemma layers_only_change_when_built_witness :
  layer_skeleton
    (element_of
       (acts one_card_page
          [Update 0 (mkPartialOpts None None None None None None None None (Some false)
                       None None);
           Frame 0]) 0) =
  [(0, HoloColor, Some "overlay"%string); (0, HoloShimmer, Some "soft-light"%string);
   (0, HoloGlare, None)].
Proof.
  rewrite layers_only_change_when_built.
  - vm_compute. reflexivity.
  - repeat constructor.
Defined.

(** ** Reduced motion *)

Lemma still_act (pg : Page) (a : Action) :
  page_ok pg -> prefersReducedMotion pg = true ->
  (forall id, overlays (element_of pg id) = []) ->
  prefersReducedMotion (act pg a) = true /\
  (forall id, overlays (element_of (act pg a) id) = []) /\
  (forall id, inline_transform (element_of (act pg a) id) = inline_transform (element_of pg id) \/
              inline_transform (element_of (act pg a) id) = None).
Proof.
  intros Hok Hred Hov.
  assert (Hall : forall t i, instances pg !! t = Some i -> i_reducedMotion i = true).
  { intros t i Hi. rewrite (ok_reduced pg Hok t i Hi). exact Hred. }
  destruct a as [el p|id0 rect ev|f|o p|o]; cbn [act].
  - destruct (negb (truthy el) || negb (instanceof_HTMLElement el)) eqn:G.
    { unfold construct. rewrite G. cbn [snd]. auto. }
    destruct el as [| |b|q|s| |id0]; try (cbn in G; rewrite ?orb_true_r in G; discriminate G).
    rewrite construct_run. cbn zeta. cbn [snd]. rewrite Hred.
    split; [exact Hred|].
    destruct (setup_overlays (fresh (dom (instances pg))) (merge_opts p) true
                (element_of pg id0)) as (S1 & _ & S3).
    split; intros id; rewrite element_of_set_instances;
      (destruct (decide (id = id0)) as [->|Hne];
       [rewrite element_of_insert_eq | rewrite element_of_insert_ne by exact Hne; auto]).
    + unfold _render. page_simpl. cbn [_bindEvents overlays]. rewrite S1, Hov. reflexivity.
    + left. unfold _render. page_simpl. rewrite andb_false_r.
      cbn [_bindEvents inline_transform]. exact S3.
  - destruct (dispatch_element id0 rect ev pg 0) as (_ & _ & ->).
    split; [exact Hred|]. split; intros id.
    + destruct (dispatch_element id0 rect ev pg id) as (-> & _ & _). apply Hov.
    + left. apply dispatch_element.
  - destruct (run_frame_element f pg 0) as (_ & -> & _).
    split; [exact Hred|]. split; intros id.
    + destruct (run_frame_element f pg id) as (Hs & _ & _).
      unfold layer_skeleton in Hs. rewrite Hov in Hs. cbn in Hs.
      destruct (overlays (element_of (run_frame f pg) id)); [reflexivity | discriminate Hs].
    + left. apply run_frame_element, Hall.
  - destruct (update_element o p pg 0) as [_ ->].
    split; [exact Hred|]. split; intros id;
      destruct (update_element o p pg id) as [-> _]; auto.
  - destruct (instances pg !! o) as [i|] eqn:Hi.
    2:{ unfold destroy. rewrite Hi. auto. }
    rewrite (destroy_run pg o i Hi). cbn zeta.
    split; [exact Hred|]. split; intros id;
      (destruct (decide (id = i_el i)) as [->|Hne];
       [rewrite element_of_insert_eq | rewrite element_of_insert_ne by exact Hne]).
    + page_simpl. rewrite Hov. reflexivity.
    + apply Hov.
    + right. reflexivity.
    + left. reflexivity.
Qed.

(** X7.  For a user who prefers reduced motion the engine never tilts an
    element and never adds a layer to it: whatever is constructed,
    delivered, updated or destroyed, no element gets a layer and the
    inline transform of every element is the one the page had, or has been
    cleared by [destroy()]. *)
Theorem reduced_motion_is_still (pg : Page) (l : list Action) (id : nat) :
  page_ok pg -> prefersReducedMotion pg = true -> instances pg = ∅ ->
  overlays (element_of (acts pg l) id) = [] /\
  (inline_transform (element_of (acts pg l) id) = inline_transform (element_of pg id) \/
   inline_transform (element_of (acts pg l) id) = None).
Proof.
  intros Hok Hred Hempty.
  assert (Hov : forall id, overlays (element_of pg id) = []).
  { intros id0. destruct (overlays (element_of pg id0)) as [|[o x] ov] eqn:E; [reflexivity|].
    destruct (ok_overlays pg Hok id0 o) as (j & Hj & _).
    - rewrite E. left.
    - rewrite Hempty, lookup_empty in Hj. discriminate. }
  clear Hempty. revert pg Hok Hred Hov.
  induction l as [|a l IH]; intros pg Hok Hred Hov; [auto|].
  unfold acts. cbn [foldl]. fold (acts (act pg a) l).
  destruct (still_act pg a Hok Hred Hov) as (Hred' & Hov' & Htr).
  destruct (IH (act pg a) (page_ok_act pg a Hok) Hred' Hov') as [G1 G2].
  split; [exact G1|].
  destruct G2 as [G2|G2]; [|right; exact G2].
  rewrite G2. apply Htr.
Qed.

(** An engine built on a page of a reduced-motion user, the pointer moved
    over the element and the frame run. *)
Lemma reduced_motion_is_still_witness :
  overlays (element_of
              (acts (empty_page true)
                 [New (JElement 0) no_opts; Deliver 0 unit_square (MouseMove 0 0); Frame 0])
              0) = [].
Proof.
  destruct (reduced_motion_is_still (empty_page true)
              [New (JElement 0) no_opts; Deliver 0 unit_square (MouseMove 0 0); Frame 0] 0)
    as [H _].
  - apply page_ok_empty.
  - reflexivity.
  - reflexivity.
  - exact H.
Defined.


(** ** The constructor's layers and options *)

(** X8.  On a page without the reduced-motion preference the constructor
    appends to the element one layer for each of [holographic], [shimmer]
    and [glare] that is switched on, in this order and with blend modes
    [overlay], [soft-light] and none; it registers its six listeners after
    the ones already there, paints its layers with the idle opacities, and
    lays the element flat unless [tilt] is off. *)
Theorem construct_adds_enabled_layers (pg : Page) (id : nat) (p : PartialOpts) :
  prefersReducedMotion pg = false ->
  let this := fresh (dom (instances pg)) in
  let pg1 := snd (construct (JElement id) p pg) in
  let o := merge_opts p in
  layer_skeleton (element_of pg1 id) =
    layer_skeleton (element_of pg id) ++
    (if holographic o then [(this, HoloColor, Some "overlay"%string)] else []) ++
    (if shimmer o then [(this, HoloShimmer, Some "soft-light"%string)] else []) ++
    (if glare o then [(this, HoloGlare, None)] else []) /\
  listeners (element_of pg1 id) =
    listeners (element_of pg id) ++
    [(this, OnMouseMove); (this, OnMouseEnter); (this, OnMouseLeave);
     (this, OnTouchMove); (this, OnTouchStart); (this, OnTouchEnd)] /\
  (forall l, (this, l) ∈ overlays (element_of pg1 id) ->
     l_opacity l = Some (match l_kind l with
                         | HoloColor => o_holographic (idle o)
                         | HoloShimmer => o_shimmer (idle o)
                         | HoloGlare => o_glare (idle o)
                         end)) /\
  inline_transform (element_of pg1 id) =
    (if tilt o then Some (perspective o, 0%Q, 0%Q) else inline_transform (element_of pg id)).
Proof.
  intros Hred. cbn zeta. rewrite construct_run. cbn zeta. cbn [snd].
  rewrite Hred. rewrite element_of_set_instances, element_of_insert_eq.
  set (this := fresh (dom (instances pg))).
  set (o := merge_opts p).
  destruct (setup_overlays this o false (element_of pg id)) as (S1 & S2 & S3).
  split; [|split; [|split]].
  - rewrite render_skeleton. unfold layer_skeleton. cbn [_bindEvents overlays].
    rewrite S1, map_app. f_equal. unfold setup_layers.
    destruct (holographic o), (shimmer o), (glare o); reflexivity.
  - cbn [_render _bindEvents listeners]. rewrite S2. reflexivity.
  - intros l Hin. apply render_owned in Hin as (l0 & _ & ->). page_simpl.
    unfold paint_layer. cbn [active]. destruct (l_kind l0); reflexivity.
  - unfold _render. page_simpl. rewrite andb_true_r. cbn [rx ry].
    destruct (tilt o); [reflexivity|]. cbn [_bindEvents inline_transform]. exact S3.
Qed.

(** An engine with the shimmer switched off, built on an empty page. *)
Lemma construct_adds_enabled_layers_witness :
  layer_skeleton
    (element_of
       (snd (construct (JElement 0)
               (mkPartialOpts None None None None None None None (Some false) None None None)
               blank_page)) 0) =
  [(0, HoloColor, Some "overlay"%string); (0, HoloGlare, None)].
Proof.
  destruct (construct_adds_enabled_layers blank_page 0
              (mkPartialOpts None None None None None None None (Some false) None None None))
    as (H & _).
  - reflexivity.
  - rewrite H. reflexivity.
Defined.

Lemma merge_opacity_twice (cur : Opacity) (p : option PartialOpacity) :
  merge_opacity (merge_opacity cur p) p = merge_opacity cur p.
Proof.
  destruct p as [[a b c]|]; [|reflexivity]. unfold merge_opacity. cbn.
  destruct a, b, c; reflexivity.
Qed.

Lemma assign_opts_twice (cur : Opts) (p : PartialOpts) :
  assign_opts (assign_opts cur p) p = assign_opts cur p.
Proof.
  unfold assign_opts. cbn. rewrite !merge_opacity_twice.
  destruct p as [a b c d e f g h k m n]. cbn.
  destruct a, b, c, d, e, f, g, h, k; reflexivity.
Qed.

Lemma update_opts (this : nat) (p : PartialOpts) (pg : Page) (i : Instance) :
  instances pg !! this = Some i ->
  i_opts <$> instances (update this p pg) !! this = Some (assign_opts (i_opts i) p).
Proof.
  intros Hi. unfold update. rewrite Hi.
  set (i0 := with_opts _ i).
  set (pg0 := set_instances (insert this i0) pg).
  assert (Hi0 : instances pg0 !! this = Some i0)
    by (unfold pg0; page_simpl; apply lookup_insert_eq).
  destruct (scheduleRender_instance this pg0 i0 Hi0) as (_ & i1 & Hi1 & _ & Ho1 & _).
  rewrite Hi1. cbn [fmap option_fmap option_map]. rewrite Ho1. reflexivity.
Qed.

(** X9.  [update()] merges options the way the constructor does, the
    nested [idle] and [hover] opacities key by key: an engine constructed
    with default options and then updated with [p] has the options of an
    engine constructed with [p]; and updating twice with the same [p]
    gives the options of updating once. *)
Theorem update_merges_like_constructor (pg : Page) (id : nat) (p : PartialOpts) :
  let this := fresh (dom (instances pg)) in
  let built := snd (construct (JElement id) p pg) in
  let updated := update this p (snd (construct (JElement id) no_opts pg)) in
  i_opts <$> instances built !! this = Some (merge_opts p) /\
  i_opts <$> instances updated !! this = Some (merge_opts p) /\
  i_opts <$> instances (update this p updated) !! this = Some (merge_opts p).
Proof.
  cbn zeta. rewrite !construct_run. cbn zeta. cbn [snd].
  set (this := fresh (dom (instances pg))).
  split; [page_simpl; rewrite lookup_insert_eq; reflexivity|].
  set (pg1 := set_instances _ _).
  assert (H1 : exists i1, instances pg1 !! this = Some i1 /\ i_opts i1 = merge_opts no_opts).
  { eexists. unfold pg1. page_simpl. rewrite lookup_insert_eq. split; reflexivity. }
  destruct H1 as (i1 & Hi1 & Ho1).
  pose proof (update_opts this p pg1 i1 Hi1) as Hu. rewrite Ho1 in Hu.
  change (assign_opts (merge_opts no_opts) p) with (merge_opts p) in Hu.
  split; [exact Hu|].
  destruct (instances (update this p pg1) !! this) as [i2|] eqn:Hi2; [|discriminate Hu].
  injection Hu as Ho2.
  rewrite (update_opts this p _ i2 Hi2). rewrite Ho2.
  change (merge_opts p) with (assign_opts DEFAULTS p). rewrite assign_opts_twice. reflexivity.
Qed.

(** ** [autoInit] *)

Section AutoInitProps.
Variable Number : string -> Q.

Lemma construct_guard (el : js_value) (p : PartialOpts) (pg : Page) :
  match el with
  | JElement id => exists this pg', construct el p pg = (Returned this, pg')
  | _ => construct el p pg = (Thrown guard_message, pg)
  end.
Proof.
  destruct el as [| |b|q|s| |id];
    try (unfold construct; cbn [truthy instanceof_HTMLElement negb];
         rewrite ?orb_true_r; reflexivity).
  rewrite construct_run. eauto.
Qed.

(** A run of the loop on a document in which at least the elements
    initialized by an earlier run over the same list are initialized. *)
Lemma init_all_again (ms : list (js_value * DataSet)) (d d2 : Document) :
  (forall id, is_Some (holographic_prop (snd (init_all Number ms d)) !! id) ->
              is_Some (holographic_prop d2 !! id)) ->
  init_all Number ms d2 = (fst (init_all Number ms d), d2).
Proof.
  revert d. induction ms as [|[el ds] ms IH]; intros d Hsub; [reflexivity|].
  cbn [init_all] in *. unfold init_one in *. cbn [fst snd] in *.
  assert (Hmono : forall ms0 d0 id,
            is_Some (holographic_prop d0 !! id) ->
            is_Some (holographic_prop (snd (init_all Number ms0 d0)) !! id)).
  { clear. intros ms0. induction ms0 as [|[el ds] ms0 IH0]; intros d0 id Hid; [exact Hid|].
    cbn [init_all]. unfold init_one. cbn [fst snd].
    destruct (initialized d0 el); [apply IH0, Hid|].
    pose proof (construct_guard el (dataset_opts Number ds) (page d0)) as Hc.
    destruct el as [| |b|q|s| |id0]; try (rewrite Hc; exact Hid).
    destruct Hc as (this & pg' & ->). apply IH0. cbn [holographic_prop].
    destruct (decide (id0 = id)) as [->|Hne].
    - rewrite lookup_insert_eq. eauto.
    - rewrite lookup_insert_ne by exact Hne. exact Hid. }
  destruct (initialized d el) eqn:Hinit.
  - assert (Hinit2 : initialized d2 el = true).
    { destruct el as [| |b|q|s| |id]; try discriminate Hinit. cbn in *.
      apply bool_decide_eq_true in Hinit. apply bool_decide_eq_true_2.
      apply Hsub, Hmono, Hinit. }
    rewrite Hinit2. apply IH, Hsub.
  - pose proof (construct_guard el (dataset_opts Number ds) (page d)) as Hc.
    pose proof (construct_guard el (dataset_opts Number ds) (page d2)) as Hc2.
    destruct el as [| |b|q|s| |id]; cbn [initialized];
      try (rewrite Hc2; rewrite Hc; cbn [fst]; destruct d2; reflexivity).
    destruct Hc as (this & pg' & Hc). rewrite Hc in *.
    assert (Hinit2 : is_Some (holographic_prop d2 !! id)).
    { apply Hsub, Hmono. cbn [holographic_prop]. rewrite lookup_insert_eq. eauto. }
    rewrite bool_decide_eq_true_2 by exact Hinit2.
    apply IH, Hsub.
Qed.

Lemma init_all_marked (ms : list (js_value * DataSet)) (d : Document) :
  marked (snd (init_all Number ms d)) = marked d.
Proof.
  revert d. induction ms as [|[el ds] ms IH]; intros d; [reflexivity|].
  cbn [init_all]. unfold init_one. cbn [fst snd].
  destruct (initialized d el); [apply IH|].
  destruct (construct el (dataset_opts Number ds) (page d)) as [[this|msg] pg'].
  - rewrite IH. reflexivity.
  - reflexivity.
Qed.

(** X10.  [autoInit] can be run again at no cost: a second run constructs
    nothing and changes nothing, since every element the first run
    initialized carries [_holographic]; if the first run was stopped by an
    element that is not an [HTMLElement], the second stops at the same
    element with the same error. *)
Theorem autoInit_again_changes_nothing (d : Document) :
  autoInit Number (snd (autoInit Number d)) =
  (fst (autoInit Number d), snd (autoInit Number d)).
Proof.
  unfold autoInit. rewrite init_all_marked.
  apply init_all_again. auto.
Qed.

End AutoInitProps.

End HolographicProps.

(* ====================================================================== *)
(** * Further properties of the card table *)
(* ====================================================================== *)

Module AppProps.
Import App AppSpec.

(** Projections through the state setters, in a hypothesis. *)
Ltac state_simpl_in H :=
  cbn [cards playedCards isFan lightboxEffect pointerState objs effects doc hand_flat
       toggle_text lightbox_active drop_hover field_full timers next_timer
       next_placeholder trace
       set_cards set_playedCards set_layout set_lightbox set_pointerState set_objs
       set_effects set_doc set_play_classes set_timers set_next_placeholder log
       reindexHand attach_card_effect new_effect destroy_effect clearTimeout
       fst snd] in H.

(** ** What the drag listeners leave alone *)

(** The fields no drag listener writes. *)
Lemma updateDrag_frame (x y : Q) (lay : Layout) (s : State) :
  let s' := run (updateDrag x y lay) s in
  cards s' = cards s /\ playedCards s' = playedCards s /\
  pointerState s' = pointerState s /\ timers s' = timers s /\
  trace s' = trace s /\ effects s' = effects s /\
  lightboxEffect s' = lightboxEffect s /\ lightbox_active s' = lightbox_active s /\
  isFan s' = isFan s /\ hand_flat s' = hand_flat s /\ toggle_text s' = toggle_text s.
Proof.
  cbn zeta. unfold updateDrag. monad_unfold. state_simpl.
  destruct (pointerState s) as [ps|] eqn:Hps; state_simpl; [|repeat split; auto].
  destruct (negb _); [|repeat split; auto].
  destruct (over_hand _ _ _); [|repeat split; auto].
  destruct (find_insertBefore _ _ _ _) as [c'|];
    destruct (placeholder ps) as [p|]; state_simpl; try (repeat split; auto; fail).
  destruct (insertBefore _ _ _ _); state_simpl; repeat split; auto.
Qed.

(** The play area's classes after [updateDrag]. *)
Lemma updateDrag_classes (x y : Q) (lay : Layout) (s : State) (ps : PointerState) :
  pointerState s = Some ps ->
  let s' := run (updateDrag x y lay) s in
  let full := bool_decide (MAX_FIELD <= length (playedCards s)) in
  drop_hover s' = over_play x y (lay_play lay) && negb full /\
  field_full s' = over_play x y (lay_play lay) && full.
Proof.
  intros Hps. cbn zeta. unfold updateDrag. monad_unfold. state_simpl. rewrite Hps.
  state_simpl.
  destruct (negb _); [|split; reflexivity].
  destruct (over_hand _ _ _); [|split; reflexivity].
  destruct (find_insertBefore _ _ _ _) as [c'|];
    destruct (placeholder ps) as [p|]; state_simpl; try (split; reflexivity).
  destruct (insertBefore _ _ _ _); state_simpl; split; reflexivity.
Qed.

Lemma destroy_card_effect_frame (c : nat) (s : State) :
  let s' := destroy_card_effect c s in
  cards s' = cards s /\ playedCards s' = playedCards s /\
  pointerState s' = pointerState s /\ timers s' = timers s /\
  opens (trace s') = opens (trace s) /\
  lightboxEffect s' = lightboxEffect s /\ lightbox_active s' = lightbox_active s /\
  isFan s' = isFan s /\ hand_flat s' = hand_flat s /\ toggle_text s' = toggle_text s /\
  drop_hover s' = drop_hover s /\ field_full s' = field_full s /\
  doc s' = doc s /\ objs s' = objs s.
Proof.
  cbn zeta. unfold destroy_card_effect. destruct (objs s !! c) as [o|]; [|repeat split; auto].
  state_simpl. repeat split; auto.
  unfold opens. rewrite filter_app, length_app. cbn.
  rewrite decide_False by discriminate. cbn. lia.
Qed.

(** [startDrag] marks the session as dragging before anything can throw. *)
Lemma startDrag_frame (lay : Layout) (s : State) (ps : PointerState) :
  pointerState s = Some ps ->
  let s' := snd (startDrag lay s) in
  (exists ps', pointerState s' = Some ps' /\ isDragging ps' = true /\
               card ps' = card ps /\ holdTimer ps' = holdTimer ps) /\
  cards s' = cards s /\ playedCards s' = playedCards s /\ timers s' = timers s /\
  opens (trace s') = opens (trace s) /\
  lightboxEffect s' = lightboxEffect s /\ lightbox_active s' = lightbox_active s /\
  isFan s' = isFan s /\ hand_flat s' = hand_flat s /\ toggle_text s' = toggle_text s /\
  drop_hover s' = drop_hover s /\ field_full s' = field_full s.
Proof.
  intros Hps. cbn zeta. unfold startDrag. monad_unfold. rewrite Hps. state_simpl.
  rewrite Hps. cbn [fmap option_fmap option_map].
  destruct (destroy_card_effect_frame (card ps)
              (set_pointerState (Some (set_isDragging true ps)) s))
    as (D1 & D2 & D3 & D4 & D5 & D6 & D7 & D8 & D9 & D10 & D11 & D12 & _).
  cbn zeta in *.
  set (s0 := destroy_card_effect (card ps)
               (set_pointerState (Some (set_isDragging true ps)) s)) in *.
  clearbody s0.
  cbn [cards playedCards pointerState timers trace lightboxEffect lightbox_active isFan
       hand_flat toggle_text drop_hover field_full set_pointerState] in D1, D2, D3, D4, D5,
       D6, D7, D8, D9, D10, D11, D12.
  destruct (parentNode _ _) as [k|]; state_simpl.
  - destruct (insertBefore k _ _ _) as [d|]; state_simpl; rewrite D3;
      cbn [fmap option_fmap option_map];
      (split; [eexists; split; [reflexivity|]; auto|]); repeat split; assumption.
  - rewrite D3. (split; [eexists; split; [reflexivity|]; auto|]); repeat split; assumption.
Qed.

(** A move past the threshold on a session that is not dragging. *)
Lemma pointermove_start (s : State) (ps : PointerState) (x y : Q) (lay : Layout) :
  pointerState s = Some ps -> isDragging ps = false ->
  beyond_threshold (x - startX ps) (y - startY ps) = true ->
  step s (PointerMove x y lay) =
  match startDrag lay (clearTimeout (holdTimer ps) s) with
  | (Normal _, s2) => run (updateDrag x y lay) s2
  | (Throw _, s2) => s2
  end.
Proof.
  intros Hps Hd Hfar. cbn [step]. unfold pointermove. rewrite run_bind. unfold get at 1.
  rewrite Hps. rewrite run_bind. rewrite Hd, Hfar. cbn [negb andb].
  change ((modify (clearTimeout (holdTimer ps));; startDrag lay) s)
    with (startDrag lay (clearTimeout (holdTimer ps) s)).
  pose proof (startDrag_frame lay (clearTimeout (holdTimer ps) s) ps Hps) as Hf.
  cbn zeta in Hf. destruct Hf as ((ps' & Hps' & Hd' & _) & _).
  destruct (startDrag lay (clearTimeout (holdTimer ps) s)) as [[[]|e] s2]; [|reflexivity].
  cbn [snd] in Hps'. rewrite run_bind. unfold session, bind, get. rewrite Hps'. cbn [ret].
  rewrite Hd'. reflexivity.
Qed.

Lemma not_in_filtered_timers (t : nat) (l : list (nat * nat)) :
  t ∉ (fst <$> filter (fun q : nat * nat => fst q <> t) l).
Proof.
  intros H. apply list_elem_of_fmap in H as ([t' d] & Ht & H).
  cbn in Ht. subst t'. apply list_elem_of_filter in H as [Hne _].
  apply Hne. reflexivity.
Qed.

(** X11.  Dragging and holding exclude each other.  The move that takes a
    pressed card past the 8 px threshold cancels the hold timer before it
    does anything else, and from then on the session is a drag: whichever
    timer runs afterwards, the lightbox is not opened and the session is
    left alone. *)
Theorem drag_cancels_hold (s : State) (ps : PointerState) (x y : Q) (lay : Layout) :
  pointerState s = Some ps -> isDragging ps = false ->
  beyond_threshold (x - startX ps) (y - startY ps) = true ->
  let s1 := step s (PointerMove x y lay) in
  (holdTimer ps ∉ (fst <$> timers s1)) /\
  (exists ps1, pointerState s1 = Some ps1 /\ isDragging ps1 = true /\ card ps1 = card ps) /\
  opens (trace s1) = opens (trace s) /\ lightbox_active s1 = lightbox_active s /\
  forall t, let s2 := step s1 (TimerFire t) in
    opens (trace s2) = opens (trace s1) /\ lightbox_active s2 = lightbox_active s1 /\
    pointerState s2 = pointerState s1 /\ cards s2 = cards s1 /\
    playedCards s2 = playedCards s1 /\ doc s2 = doc s1.
Proof.
  intros Hps Hd Hfar. cbn zeta.
  rewrite (pointermove_start s ps x y lay Hps Hd Hfar).
  pose proof (startDrag_frame lay (clearTimeout (holdTimer ps) s) ps Hps) as Hf.
  cbn zeta in Hf.
  destruct Hf as ((ps' & Hps' & Hd' & Hc' & _) & _ & _ & Ht & Ho & _ & Hl & _).
  change (lightbox_active (clearTimeout (holdTimer ps) s)) with (lightbox_active s) in Hl.
  assert (Hopens : opens (trace (clearTimeout (holdTimer ps) s)) = opens (trace s)).
  { state_simpl. unfold opens. rewrite filter_app, length_app. cbn.
    rewrite decide_False by discriminate. cbn. lia. }
  set (s1 := match startDrag lay (clearTimeout (holdTimer ps) s) with
             | (Normal _, s2) => run (updateDrag x y lay) s2
             | (Throw _, s2) => s2
             end).
  assert (H1 : pointerState s1 = Some ps' /\ timers s1 = timers (clearTimeout (holdTimer ps) s) /\
               opens (trace s1) = opens (trace s) /\ lightbox_active s1 = lightbox_active s).
  { subst s1. destruct (startDrag lay (clearTimeout (holdTimer ps) s)) as [[[]|e] s2];
      cbn [snd] in *.
    - destruct (updateDrag_frame x y lay s2) as (_ & _ & U3 & U4 & U5 & _ & _ & U8 & _).
      cbn zeta in *. rewrite U3, U4, U5, U8. repeat split; congruence.
    - repeat split; congruence. }
  destruct H1 as (G1 & G2 & G3 & G4). clearbody s1.
  split; [rewrite G2; state_simpl; apply not_in_filtered_timers|].
  split; [exists ps'; auto|]. split; [exact G3|]. split; [exact G4|].
  intros t. cbn [step]. unfold on_timer.
  destruct (bool_decide _); [|repeat split; reflexivity].
  unfold hold_callback. state_simpl. rewrite G1, Hd'. cbn [negb]. state_simpl.
  rewrite G1. repeat split; reflexivity.
Qed.


(** Card 2 pressed in the initial hand and pulled 100 px up. *)
Lemma drag_cancels_hold_witness :
  (0 ∉ (fst <$> timers (step (step initial (PointerDown (Some 2) 1 250 550 table_layout))
                          (PointerMove 250 450 table_layout)))) /\
  forall t,
    lightbox_active
      (step (step (step initial (PointerDown (Some 2) 1 250 550 table_layout))
               (PointerMove 250 450 table_layout)) (TimerFire t)) =
    lightbox_active
      (step (step initial (PointerDown (Some 2) 1 250 550 table_layout))
         (PointerMove 250 450 table_layout)).
Proof.
  assert (Hps : pointerState (step initial (PointerDown (Some 2) 1 250 550 table_layout)) =
                Some (mkPointerState 2 1 250 550 50 50 false 0 None 2))
    by (vm_compute; reflexivity).
  destruct (drag_cancels_hold _ _ 250 450 table_layout Hps eq_refl eq_refl)
    as (H1 & _ & _ & _ & H5).
  split; [exact H1|].
  intros t. destruct (H5 t) as (_ & H & _). exact H.
Defined.

(** ** The table only grows *)

Lemma endDrag_played (x y : Q) (lay : Layout) (s : State) (ps : PointerState) :
  pointerState s = Some ps ->
  playedCards (run (endDrag x y lay) s) = playedCards s \/
  (playedCards (run (endDrag x y lay) s) = playedCards s ++ [card ps] /\
   over_play x y (lay_play lay) = true /\ length (playedCards s) < MAX_FIELD).
Proof.
  intros Hps. unfold endDrag. monad_unfold. state_simpl. rewrite Hps. state_simpl.
  destruct (over_play x y (lay_play lay)); cbn [andb].
  - destruct (bool_decide (MAX_FIELD <= length (playedCards s))) eqn:Hfull; cbn [negb].
    + destruct (placeholder ps) as [p|]; state_simpl; [|left; reflexivity].
      destruct (nextSibling (Placeholder p) (doc s)) as [n|]; state_simpl.
      * destruct (insertBefore Hand (Slot (card ps)) n _); state_simpl;
          [|left; reflexivity].
        rewrite cleanupPointer_playedCards. left. reflexivity.
      * rewrite cleanupPointer_playedCards. left. reflexivity.
    + apply bool_decide_eq_false in Hfull.
      destruct (placeholder ps) as [p|]; state_simpl; [|left; reflexivity].
      rewrite cleanupPointer_playedCards. state_simpl.
      right. split; [reflexivity|]. split; [reflexivity|lia].
  - destruct (placeholder ps) as [p|]; state_simpl; [|left; reflexivity].
    destruct (nextSibling (Placeholder p) (doc s)) as [n|]; state_simpl.
    + destruct (insertBefore Hand (Slot (card ps)) n _); state_simpl;
        [|left; reflexivity].
      rewrite cleanupPointer_playedCards. left. reflexivity.
    + rewrite cleanupPointer_playedCards. left. reflexivity.
Qed.

(** X12.  A card on the table stays there, at its place, until the reset
    button is clicked: every other event leaves [playedCards] as it is or
    appends one card to it, and a card is appended only by the release of a
    drag over the play area while the table holds fewer than three
    cards. *)
Theorem table_is_append_only (s : State) (e : Event) :
  e <> ResetClick ->
  exists added, playedCards (step s e) = playedCards s ++ added /\
    (added = [] \/
     exists x y lay ps, e = PointerUp x y lay /\ pointerState s = Some ps /\
       isDragging ps = true /\ added = [card ps] /\
       over_play x y (lay_play lay) = true /\ length (playedCards s) < MAX_FIELD).
Proof.
  intros Hne.
  assert (Hsame : playedCards (step s e) = playedCards s ->
                  exists added, playedCards (step s e) = playedCards s ++ added /\
                    (added = [] \/
                     exists x y lay ps, e = PointerUp x y lay /\ pointerState s = Some ps /\
                       isDragging ps = true /\ added = [card ps] /\
                       over_play x y (lay_play lay) = true /\
                       length (playedCards s) < MAX_FIELD)).
  { intros H. exists []. rewrite app_nil_r. auto. }
  destruct e as [| |b|t|t r|t pid x y lay|x y lay|x y lay|t].
  - apply Hsame. reflexivity.
  - exfalso. apply Hne. reflexivity.
  - apply Hsame. cbn [step]. unfold on_lightbox_click, closeLightbox.
    destruct b; [|reflexivity]. state_simpl.
    destruct (lightboxEffect s); reflexivity.
  - apply Hsame. cbn [step]. unfold on_pointerover. destruct t; [|reflexivity].
    destruct (_ && _); reflexivity.
  - apply Hsame. cbn [step]. unfold on_pointerout. destruct t; [|reflexivity].
    destruct (_ && _); reflexivity.
  - apply Hsame. cbn [step]. unfold on_pointerdown. destruct t; [|reflexivity].
    destruct (bool_decide _); [|reflexivity].
    destruct (bool_decide _); reflexivity.
  - apply Hsame. apply pointermove_playedCards.
  - clear Hsame. rewrite pointerup_unfold.
    destruct (pointerState s) as [ps|] eqn:Hps.
    2:{ exists []. rewrite app_nil_r. auto. }
    destruct (isDragging ps) eqn:Hd.
    2:{ exists []. rewrite app_nil_r, cleanupPointer_playedCards. auto. }
    destruct (endDrag_played x y lay s ps Hps) as [H|(H & Hov & Hlen)].
    + exists []. rewrite app_nil_r. auto.
    + exists [card ps]. split; [exact H|]. right. exists x, y, lay, ps.
      repeat split; auto.
  - apply Hsame. cbn [step]. unfold on_timer. destruct (bool_decide _); [|reflexivity].
    unfold hold_callback. state_simpl.
    destruct (pointerState s) as [ps|]; [|reflexivity].
    destruct (negb _); [|reflexivity].
    rewrite openLightbox_playedCards, cleanupPointer_playedCards. reflexivity.
Qed.

(** Card 2, lifted out of the initial hand, released over the table. *)
Lemma table_is_append_only_witness :
  exists added,
    playedCards (step lifted (PointerUp 300 100 table_layout)) = playedCards lifted ++ added /\
    (added = [] \/
     exists x y lay ps, PointerUp 300 100 table_layout = PointerUp x y lay /\
       pointerState lifted = Some ps /\
       isDragging ps = true /\ added = [card ps] /\
       over_play x y (lay_play lay) = true /\ length (playedCards lifted) < MAX_FIELD).
Proof.
  apply (table_is_append_only lifted (PointerUp 300 100 table_layout)). discriminate.
Defined.


(** ** What the release and the other listeners leave alone *)

Lemma opens_snoc (tr : list Obs) (o : Obs) :
  o <> LightboxOpen -> opens (tr ++ [o]) = opens tr.
Proof.
  intros Hne. unfold opens. rewrite filter_app, length_app. cbn.
  rewrite decide_False by exact Hne. cbn. lia.
Qed.

Lemma cleanupPointer_frame (b : bool) (s : State) :
  let s' := cleanupPointer b s in
  pointerState s' = None /\
  cards s' = cards s /\ playedCards s' = playedCards s /\ doc s' = doc s /\
  objs s' = objs s /\ effects s' = effects s /\
  opens (trace s') = opens (trace s) /\
  lightboxEffect s' = lightboxEffect s /\ lightbox_active s' = lightbox_active s /\
  isFan s' = isFan s /\ hand_flat s' = hand_flat s /\ toggle_text s' = toggle_text s /\
  drop_hover s' = drop_hover s /\ field_full s' = field_full s.
Proof.
  cbn zeta. unfold cleanupPointer. destruct (pointerState s) as [ps|] eqn:Hps.
  2:{ repeat split; auto. }
  destruct b; state_simpl; repeat split; auto;
    rewrite ?opens_snoc by discriminate; reflexivity.
Qed.

Lemma endDrag_frame (x y : Q) (lay : Layout) (s : State) (ps : PointerState) :
  pointerState s = Some ps ->
  let s' := run (endDrag x y lay) s in
  drop_hover s' = false /\ field_full s' = false /\
  timers s' = timers s /\ opens (trace s') = opens (trace s) /\
  lightboxEffect s' = lightboxEffect s /\ lightbox_active s' = lightbox_active s /\
  isFan s' = isFan s /\ hand_flat s' = hand_flat s /\ toggle_text s' = toggle_text s.
Proof.
  intros Hps. cbn zeta. unfold endDrag. monad_unfold. state_simpl. rewrite Hps. state_simpl.
  assert (Hdone : forall s0 : State,
            pointerState s0 = Some ps ->
            drop_hover (cleanupPointer false s0) = drop_hover s0 /\
            field_full (cleanupPointer false s0) = field_full s0 /\
            timers (cleanupPointer false s0) = timers s0 /\
            opens (trace (cleanupPointer false s0)) = opens (trace s0) /\
            lightboxEffect (cleanupPointer false s0) = lightboxEffect s0 /\
            lightbox_active (cleanupPointer false s0) = lightbox_active s0 /\
            isFan (cleanupPointer false s0) = isFan s0 /\
            hand_flat (cleanupPointer false s0) = hand_flat s0 /\
            toggle_text (cleanupPointer false s0) = toggle_text s0).
  { intros s0 H0. unfold cleanupPointer. rewrite H0. state_simpl.
    rewrite opens_snoc by discriminate. repeat split; reflexivity. }
  destruct (over_play x y (lay_play lay) &&
            negb (bool_decide (MAX_FIELD <= length (playedCards s)))).
  - destruct (placeholder ps) as [p|]; state_simpl; [|repeat split; reflexivity].
    match goal with
    | |- context [cleanupPointer false ?s0] =>
        destruct (Hdone s0 Hps) as (-> & -> & -> & -> & -> & -> & -> & -> & ->)
    end.
    state_simpl. rewrite opens_snoc by discriminate. repeat split; reflexivity.
  - destruct (placeholder ps) as [p|]; state_simpl; [|repeat split; reflexivity].
    destruct (nextSibling (Placeholder p) (doc s)) as [n|]; state_simpl.
    + destruct (insertBefore Hand (Slot (card ps)) n _); state_simpl;
        [|repeat split; reflexivity].
      match goal with
      | |- context [cleanupPointer false ?s0] =>
          destruct (Hdone s0 Hps) as (-> & -> & -> & -> & -> & -> & -> & -> & ->)
      end.
      state_simpl. rewrite opens_snoc by discriminate. repeat split; reflexivity.
    + match goal with
      | |- context [cleanupPointer false ?s0] =>
          destruct (Hdone s0 Hps) as (-> & -> & -> & -> & -> & -> & -> & -> & ->)
      end.
      state_simpl. rewrite opens_snoc by discriminate. repeat split; reflexivity.
Qed.

Lemma reset_body_frame (c : nat) (s : State) :
  let s' := reset_body c s in
  pointerState s' = pointerState s /\ timers s' = timers s /\
  opens (trace s') = opens (trace s) /\
  lightboxEffect s' = lightboxEffect s /\ lightbox_active s' = lightbox_active s /\
  isFan s' = isFan s /\ hand_flat s' = hand_flat s /\ toggle_text s' = toggle_text s /\
  drop_hover s' = drop_hover s /\ field_full s' = field_full s.
Proof.
  cbn zeta. unfold reset_body, destroy_card_effect.
  destruct (objs s !! c) as [o|]; state_simpl;
    rewrite ?opens_snoc by discriminate; repeat split; reflexivity.
Qed.

Lemma reset_loop_frame (n : nat) (s : State) :
  let s' := reset_loop n s in
  pointerState s' = pointerState s /\ timers s' = timers s /\
  opens (trace s') = opens (trace s) /\
  lightboxEffect s' = lightboxEffect s /\ lightbox_active s' = lightbox_active s /\
  isFan s' = isFan s /\ hand_flat s' = hand_flat s /\ toggle_text s' = toggle_text s /\
  drop_hover s' = drop_hover s /\ field_full s' = field_full s.
Proof.
  revert s. induction n as [|n IH]; intros s; cbn zeta; [repeat split; reflexivity|].
  cbn [reset_loop]. destruct (pop (playedCards s)) as [[c rest]|]; [|repeat split; reflexivity].
  destruct (IH (reset_body c (set_playedCards (fun _ => rest) s)))
    as (-> & -> & -> & -> & -> & -> & -> & -> & -> & ->).
  apply (reset_body_frame c (set_playedCards (fun _ => rest) s)).
Qed.

(** A move on a session that is dragging already, or stays within the
    threshold. *)
Lemma pointermove_other (s : State) (ps : PointerState) (x y : Q) (lay : Layout) :
  pointerState s = Some ps ->
  negb (isDragging ps) && beyond_threshold (x - startX ps) (y - startY ps) = false ->
  step s (PointerMove x y lay) = if isDragging ps then run (updateDrag x y lay) s else s.
Proof.
  intros Hps Hc. cbn [step]. unfold pointermove. rewrite run_bind. unfold get at 1.
  rewrite Hps. rewrite run_bind. rewrite Hc. cbn [ret]. rewrite run_bind.
  unfold session, bind, get. rewrite Hps. cbn [ret].
  destruct (isDragging ps); reflexivity.
Qed.

(** The fields a pointer move never writes. *)
Lemma pointermove_frame (x y : Q) (lay : Layout) (s : State) :
  let s' := step s (PointerMove x y lay) in
  cards s' = cards s /\ playedCards s' = playedCards s /\
  opens (trace s') = opens (trace s) /\
  lightboxEffect s' = lightboxEffect s /\ lightbox_active s' = lightbox_active s /\
  isFan s' = isFan s /\ hand_flat s' = hand_flat s /\ toggle_text s' = toggle_text s.
Proof.
  cbn zeta.
  destruct (pointerState s) as [ps|] eqn:Hps.
  2:{ cbn [step]. unfold run, pointermove, bind, get. rewrite Hps. repeat split; reflexivity. }
  destruct (negb (isDragging ps) && beyond_threshold (x - startX ps) (y - startY ps)) eqn:Hc.
  - apply andb_true_iff in Hc as [Hd Hfar]. apply negb_true_iff in Hd.
    rewrite (pointermove_start s ps x y lay Hps Hd Hfar).
    pose proof (startDrag_frame lay (clearTimeout (holdTimer ps) s) ps Hps) as Hf.
    cbn zeta in Hf.
    destruct Hf as (_ & F1 & F2 & _ & F4 & F5 & F6 & F7 & F8 & F9 & _).
    cbn [cards playedCards lightboxEffect lightbox_active isFan hand_flat toggle_text
         trace clearTimeout log set_timers] in F1, F2, F4, F5, F6, F7, F8, F9.
    rewrite (opens_snoc (trace s)) in F4 by discriminate.
    destruct (startDrag lay (clearTimeout (holdTimer ps) s)) as [[[]|e] s2]; cbn [snd] in *.
    + destruct (updateDrag_frame x y lay s2)
        as (-> & -> & _ & _ & -> & _ & -> & -> & -> & -> & ->).
      repeat split; assumption.
    + repeat split; assumption.
  - rewrite (pointermove_other s ps x y lay Hps Hc).
    destruct (isDragging ps); [|repeat split; reflexivity].
    destruct (updateDrag_frame x y lay s)
      as (-> & -> & _ & _ & -> & _ & -> & -> & -> & -> & ->).
    repeat split; reflexivity.
Qed.

(** ** The layout toggle *)

Lemma step_layout (s : State) (e : Event) :
  is_toggle e = false ->
  isFan (step s e) = isFan s /\ hand_flat (step s e) = hand_flat s /\
  toggle_text (step s e) = toggle_text s.
Proof.
  intros Hne. destruct e as [| |b|t|t r|t pid x y lay|x y lay|x y lay|t].
  - discriminate Hne.
  - cbn [step]. unfold on_reset. state_simpl.
    destruct (reset_loop_frame (length (playedCards s)) s)
      as (_ & _ & _ & _ & _ & -> & -> & -> & _). auto.
  - cbn [step]. unfold on_lightbox_click, closeLightbox.
    destruct b; [|auto]. state_simpl. destruct (lightboxEffect s); auto.
  - cbn [step]. unfold on_pointerover. destruct t; [|auto]. destruct (_ && _); auto.
  - cbn [step]. unfold on_pointerout. destruct t; [|auto]. destruct (_ && _); auto.
  - cbn [step]. unfold on_pointerdown. destruct t; [|auto].
    destruct (bool_decide _); [|auto]. destruct (bool_decide _); auto.
  - destruct (pointermove_frame x y lay s) as (_ & _ & _ & _ & _ & -> & -> & ->). auto.
  - rewrite pointerup_unfold. destruct (pointerState s) as [ps|] eqn:Hps; [|auto].
    destruct (isDragging ps).
    + destruct (endDrag_frame x y lay s ps Hps) as (_ & _ & _ & _ & _ & _ & -> & -> & ->).
      auto.
    + destruct (cleanupPointer_frame true s)
        as (_ & _ & _ & _ & _ & _ & _ & _ & _ & -> & -> & -> & _). auto.
  - cbn [step]. unfold on_timer. destruct (bool_decide _); [|auto].
    unfold hold_callback. state_simpl.
    destruct (pointerState s) as [ps|] eqn:Hps; [|auto].
    destruct (negb _); [|auto]. unfold openLightbox. state_simpl.
    destruct (cleanupPointer_frame true
                (set_timers (filter (fun p : nat * nat => fst p <> t)) (next_timer s) s))
      as (_ & _ & _ & _ & _ & _ & _ & _ & _ & -> & -> & -> & _). auto.
Qed.

Lemma toggles_cons (e : Event) (es : list Event) :
  toggles (e :: es) = (if is_toggle e then S (toggles es) else toggles es).
Proof.
  unfold toggles. destruct (is_toggle e) eqn:E.
  - rewrite filter_cons_True by exact E. reflexivity.
  - rewrite filter_cons_False by congruence. reflexivity.
Qed.

(** X13.  The layout is a function of the clicks on the toggle alone: after
    any run the hand is fanned or flat according to the parity of the
    number of toggle clicks, whatever was dragged, played, previewed or
    reset in between; once the toggle has been clicked the [flat] class of
    the hand is the negation of [isFan] and the button's label names the
    other layout. *)
Theorem layout_follows_toggle_parity (s : State) (es : list Event) :
  let s' := steps s es in
  isFan s' = xorb (isFan s) (Nat.odd (toggles es)) /\
  (toggles es = 0 -> hand_flat s' = hand_flat s /\ toggle_text s' = toggle_text s) /\
  (0 < toggles es ->
   hand_flat s' = negb (isFan s') /\ toggle_text s' = Some (toggle_label (isFan s'))).
Proof.
  cbn zeta. induction es as [|e es IH] using rev_ind.
  - cbn. rewrite xorb_false_r. split; [reflexivity|]. split; [auto | lia].
  - rewrite !steps_app. change (steps (steps s es) [e]) with (step (steps s es) e).
    assert (Ht : toggles (es ++ [e]) = toggles es + (if is_toggle e then 1 else 0)).
    { unfold toggles. rewrite filter_app, length_app. f_equal.
      fold (toggles [e]). rewrite toggles_cons. destruct (is_toggle e); reflexivity. }
    rewrite Ht. destruct IH as (I1 & I2 & I3).
    destruct (is_toggle e) eqn:E.
    + destruct e; try discriminate E. cbn [step]. unfold on_toggle. state_simpl.
      rewrite I1. rewrite Nat.add_1_r, Nat.odd_succ, <- Nat.negb_odd.
      split; [destruct (isFan s), (Nat.odd (toggles es)); reflexivity|].
      split; [lia|]. intros _. split; [reflexivity|].
      unfold toggle_label. reflexivity.
    + destruct (step_layout (steps s es) e E) as (-> & -> & ->).
      rewrite Nat.add_0_r. auto.
Qed.


(** ** The drop feedback on the play area *)

Lemma highlight_same (s s' : State) :
  pointerState s' = pointerState s -> drop_hover s' = drop_hover s ->
  field_full s' = field_full s -> playedCards s' = playedCards s ->
  highlight_ok s -> highlight_ok s'.
Proof. unfold highlight_ok. intros -> -> -> ->. auto. Qed.

Lemma highlight_cleared (s' : State) :
  drop_hover s' = false -> field_full s' = false -> highlight_ok s'.
Proof.
  unfold highlight_ok. intros -> ->. split; [intros [H|H]; discriminate H|].
  split; [reflexivity | discriminate].
Qed.

Lemma highlight_idle (s : State) :
  highlight_ok s ->
  (forall ps, pointerState s = Some ps -> isDragging ps = false) ->
  drop_hover s = false /\ field_full s = false.
Proof.
  intros (H1 & _ & _) Hidle.
  destruct (drop_hover s) eqn:E1.
  { destruct H1 as (ps & Hps & Hd); [auto|]. rewrite (Hidle ps Hps) in Hd. discriminate. }
  destruct (field_full s) eqn:E2; [|auto].
  destruct H1 as (ps & Hps & Hd); [auto|]. rewrite (Hidle ps Hps) in Hd. discriminate.
Qed.

Lemma highlight_updateDrag (x y : Q) (lay : Layout) (s : State) (ps : PointerState) :
  pointerState s = Some ps -> isDragging ps = true ->
  highlight_ok (run (updateDrag x y lay) s).
Proof.
  intros Hps Hd.
  destruct (updateDrag_frame x y lay s) as (_ & U2 & U3 & _).
  destruct (updateDrag_classes x y lay s ps Hps) as (C1 & C2).
  cbn zeta in *. unfold highlight_ok. rewrite U2, U3, C1, C2.
  split; [intros _; exists ps; auto|].
  destruct (over_play x y (lay_play lay)); cbn [andb]; [|split; [reflexivity | discriminate]].
  destruct (bool_decide (MAX_FIELD <= length (playedCards s))) eqn:Hfull; cbn [negb].
  - split; [reflexivity | discriminate].
  - apply bool_decide_eq_false in Hfull. split; [reflexivity|]. intros _. lia.
Qed.

Lemma highlight_pointermove (x y : Q) (lay : Layout) (s : State) :
  highlight_ok s -> highlight_ok (step s (PointerMove x y lay)).
Proof.
  intros Hok.
  destruct (pointerState s) as [ps|] eqn:Hps.
  2:{ cbn [step]. unfold run, pointermove, bind, get. rewrite Hps. exact Hok. }
  destruct (negb (isDragging ps) && beyond_threshold (x - startX ps) (y - startY ps)) eqn:Hc.
  - apply andb_true_iff in Hc as [Hd Hfar]. apply negb_true_iff in Hd.
    rewrite (pointermove_start s ps x y lay Hps Hd Hfar).
    pose proof (startDrag_frame lay (clearTimeout (holdTimer ps) s) ps Hps) as Hf.
    cbn zeta in Hf.
    destruct Hf as ((ps' & Hps' & Hd' & _) & _ & F2 & _ & _ & _ & _ & _ & _ & _ & F10 & F11).
    cbn [playedCards drop_hover field_full clearTimeout log set_timers] in F2, F10, F11.
    destruct (startDrag lay (clearTimeout (holdTimer ps) s)) as [[[]|e] s2]; cbn [snd] in *.
    + apply (highlight_updateDrag x y lay s2 ps' Hps' Hd').
    + destruct Hok as (H1 & H2 & H3). unfold highlight_ok. rewrite F2, F10, F11.
      split; [intros _; exists ps'; auto|]. auto.
  - rewrite (pointermove_other s ps x y lay Hps Hc).
    destruct (isDragging ps) eqn:Hd; [|exact Hok].
    apply (highlight_updateDrag x y lay s ps Hps Hd).
Qed.

Lemma highlight_step (s : State) (e : Event) :
  allowed s e -> highlight_ok s -> highlight_ok (step s e).
Proof.
  intros Hal Hok. destruct e as [| |b|t|t r|t pid x y lay|x y lay|x y lay|t].
  - apply (highlight_same s); auto.
  - cbn [step]. unfold on_reset.
    destruct (reset_loop_frame (length (playedCards s)) s)
      as (R1 & _ & _ & _ & _ & _ & _ & _ & R9 & R10).
    cbn zeta in *. destruct Hok as (H1 & H2 & H3).
    unfold highlight_ok. state_simpl. rewrite R1, R9, R10.
    split; [exact H1|]. split; [exact H2|].
    intros _. pose proof (reset_playedCards s) as Hp. unfold on_reset in Hp.
    state_simpl_in Hp. rewrite Hp. cbn. unfold MAX_FIELD. lia.
  - cbn [step]. unfold on_lightbox_click, closeLightbox.
    destruct b; [|exact Hok]. state_simpl.
    destruct (lightboxEffect s); apply (highlight_same s); auto.
  - cbn [step]. unfold on_pointerover. destruct t; [|exact Hok].
    destruct (_ && _); [|exact Hok]. apply (highlight_same s); auto.
  - cbn [step]. unfold on_pointerout. destruct t; [|exact Hok].
    destruct (_ && _); [|exact Hok]. apply (highlight_same s); auto.
  - cbn [step]. unfold on_pointerdown. destruct t as [c|]; [|exact Hok].
    destruct (bool_decide (Slot c ∈ _)) eqn:Hin; [|exact Hok].
    destruct (bool_decide (c ∈ cards s)) eqn:Hc; [|exact Hok].
    apply bool_decide_eq_true in Hin.
    destruct (highlight_idle s Hok) as [E1 E2].
    { intros ps Hps. destruct (isDragging ps) eqn:Hd; [|reflexivity].
      exfalso. apply (Hal ps Hps Hd). exact Hin. }
    apply highlight_cleared; state_simpl; assumption.
  - apply highlight_pointermove, Hok.
  - rewrite pointerup_unfold. destruct (pointerState s) as [ps|] eqn:Hps; [|exact Hok].
    destruct (isDragging ps) eqn:Hd.
    + destruct (endDrag_frame x y lay s ps Hps) as (E1 & E2 & _).
      apply highlight_cleared; assumption.
    + destruct (highlight_idle s Hok) as [E1 E2].
      { intros ps0 Hps0. congruence. }
      destruct (cleanupPointer_frame true s)
        as (_ & _ & _ & _ & _ & _ & _ & _ & _ & _ & _ & _ & C1 & C2).
      apply highlight_cleared; congruence.
  - cbn [step]. unfold on_timer. destruct (bool_decide _); [|exact Hok].
    unfold hold_callback. state_simpl.
    destruct (pointerState s) as [ps|] eqn:Hps; [|apply (highlight_same s); auto].
    destruct (isDragging ps) eqn:Hd; cbn [negb]; [apply (highlight_same s); auto|].
    destruct (highlight_idle s Hok) as [E1 E2].
    { intros ps0 Hps0. congruence. }
    unfold openLightbox. state_simpl.
    destruct (cleanupPointer_frame true
                (set_timers (filter (fun p : nat * nat => fst p <> t)) (next_timer s) s))
      as (_ & _ & _ & _ & _ & _ & _ & _ & _ & _ & _ & _ & C1 & C2).
    cbn zeta in C1, C2. state_simpl_in C1. state_simpl_in C2.
    apply highlight_cleared; state_simpl; congruence.
Qed.

(** X14.  The drop feedback never sticks.  Along any run in which no second
    pointer is pressed on a hand card during a drag, the play area carries
    [drop-hover] or [field-full] only while a card is being dragged, never
    both, and [drop-hover] only while the table has room for a card: every
    release clears both classes before it does anything else. *)
Theorem table_highlight_only_while_dragging (s : State) (es : list Event) :
  highlight_ok s -> allowed_run s es ->
  let s' := steps s es in
  (drop_hover s' = true \/ field_full s' = true ->
   exists ps, pointerState s' = Some ps /\ isDragging ps = true) /\
  drop_hover s' && field_full s' = false /\
  (drop_hover s' = true -> length (playedCards s') < MAX_FIELD).
Proof.
  intros Hok Hal. cbn zeta. change (highlight_ok (steps s es)).
  revert s Hok Hal. induction es as [|e es IH]; intros s Hok Hal; [exact Hok|].
  destruct Hal as [Ha Hrest]. unfold steps. cbn [foldl].
  apply IH; [apply highlight_step; assumption | exact Hrest].
Qed.


(** Card 2 lifted and carried over the empty table, then back over the
    hand. *)
Lemma table_highlight_only_while_dragging_witness :
  drop_hover (steps initial (lift 2 ++ [PointerMove 300 100 table_layout;
                                        PointerMove 300 520 table_layout])) &&
  field_full (steps initial (lift 2 ++ [PointerMove 300 100 table_layout;
                                        PointerMove 300 520 table_layout])) = false.
Proof.
  destruct (table_highlight_only_while_dragging initial
              (lift 2 ++ [PointerMove 300 100 table_layout;
                          PointerMove 300 520 table_layout])) as (_ & H & _).
  - apply highlight_cleared; vm_compute; reflexivity.
  - cbn [lift app allowed_run allowed]. split; [|repeat split].
    intros ps Hps. vm_compute in Hps. discriminate Hps.
  - exact H.
Defined.

(** ** The preview *)

(** The state after a press on the hand card [c] and the hold timer. *)
Lemma hold_run (s : State) (c pid : nat) (x y : Q) (lay : Layout) :
  Slot c ∈ hand_children (doc s) -> c ∈ cards s ->
  exists s1,
    step (step s (PointerDown (Some c) pid x y lay)) (TimerFire (next_timer s)) =
      openLightbox s1 /\
    pointerState s1 = None /\ cards s1 = cards s /\ playedCards s1 = playedCards s /\
    doc s1 = doc s /\ effects s1 = effects s /\ lightboxEffect s1 = lightboxEffect s.
Proof.
  intros Hs Hc. rewrite (pointerdown_run s c pid x y lay Hs Hc).
  match goal with |- context [step ?st (TimerFire _)] => set (s1 := st) end.
  assert (Hin : (next_timer s, HOLD_DELAY) ∈ timers s1).
  { subst s1. state_simpl. apply elem_of_app. right. left. }
  eexists. split.
  - cbn [step]. unfold on_timer.
    rewrite bool_decide_eq_true_2
      by (apply list_elem_of_fmap; exists (next_timer s, HOLD_DELAY); split;
          [reflexivity | exact Hin]).
    unfold hold_callback, cleanupPointer. subst s1. state_simpl.
    cbn [isDragging negb holdTimer]. reflexivity.
  - state_simpl. repeat split; reflexivity.
Qed.

Lemma live_insert_destroyed (m : gmap nat EffectInst) (id : nat) (el : Element) :
  m !! id = None -> live (<[id := mkEffectInst el true]> m) = live m.
Proof.
  intros Hid. unfold live. rewrite map_filter_insert_False by (cbn; discriminate).
  rewrite delete_id by exact Hid. reflexivity.
Qed.

(** X15.  A preview leaves no engine behind.  A hold on a hand card followed
    by a click on the lightbox backdrop constructs one engine on the
    lightbox card and destroys that same engine: the lightbox is closed
    again, [lightboxEffect] is null, the engines that are alive are the ones
    that were alive before, and the hand, the table and the document are
    untouched. *)
Theorem preview_engine_is_destroyed_on_close (s : State) (c pid : nat) (x y : Q)
    (lay : Layout) :
  Slot c ∈ hand_children (doc s) -> c ∈ cards s ->
  let s3 := steps s [PointerDown (Some c) pid x y lay; TimerFire (next_timer s);
                     LightboxClick true] in
  lightbox_active s3 = false /\ lightboxEffect s3 = None /\
  effects s3 = <[fresh (dom (effects s)) := mkEffectInst LightboxCard true]> (effects s) /\
  live (effects s3) = live (effects s) /\
  cards s3 = cards s /\ playedCards s3 = playedCards s /\ doc s3 = doc s /\
  pointerState s3 = None.
Proof.
  intros Hs Hc. cbn zeta. unfold steps. cbn [foldl].
  destruct (hold_run s c pid x y lay Hs Hc) as (s1 & -> & H1 & H2 & H3 & H4 & H5 & H6).
  cbn [step]. unfold on_lightbox_click, closeLightbox, openLightbox. state_simpl.
  rewrite H1, H2, H3, H4, H5.
  assert (Hfresh : effects s !! fresh (dom (effects s)) = None).
  { apply not_elem_of_dom. apply is_fresh. }
  rewrite alter_insert_eq. cbn [kill eff_el].
  repeat split; try reflexivity.
  apply live_insert_destroyed, Hfresh.
Qed.

(** A hold on card 2 of the initial hand, then a click on the backdrop. *)
Lemma preview_engine_is_destroyed_on_close_witness :
  lightboxEffect (steps initial [PointerDown (Some 2) 1 250 550 table_layout;
                                 TimerFire (next_timer initial); LightboxClick true]) = None /\
  live (effects (steps initial [PointerDown (Some 2) 1 250 550 table_layout;
                                TimerFire (next_timer initial); LightboxClick true])) =
  live (effects initial).
Proof.
  destruct (preview_engine_is_destroyed_on_close initial 2 1 250 550 table_layout)
    as (_ & H2 & _ & H4 & _).
  - apply (bool_decide_unpack _). vm_compute. exact I.
  - apply (bool_decide_unpack _). vm_compute. exact I.
  - split; [exact H2 | exact H4].
Defined.

(** X16.  Opening the preview while one is open leaks an engine.
    [openLightbox] overwrites [lightboxEffect] without destroying the engine
    it held: after a second hold and a click on the backdrop the lightbox is
    closed and [lightboxEffect] is null, but the engine of the first preview
    is still alive, with nothing left that refers to it. *)
Theorem reopened_preview_leaks_engine (s : State) (id0 : nat) (c pid : nat) (x y : Q)
    (lay : Layout) :
  lightboxEffect s = Some id0 ->
  effects s !! id0 = Some (mkEffectInst LightboxCard false) ->
  Slot c ∈ hand_children (doc s) -> c ∈ cards s ->
  let s3 := steps s [PointerDown (Some c) pid x y lay; TimerFire (next_timer s);
                     LightboxClick true] in
  lightbox_active s3 = false /\ lightboxEffect s3 = None /\
  effects s3 !! id0 = Some (mkEffectInst LightboxCard false) /\
  live (effects s3) !! id0 = Some (mkEffectInst LightboxCard false).
Proof.
  intros Hl He Hs Hc. cbn zeta. unfold steps. cbn [foldl].
  destruct (hold_run s c pid x y lay Hs Hc) as (s1 & -> & H1 & H2 & H3 & H4 & H5 & H6).
  cbn [step]. unfold on_lightbox_click, closeLightbox, openLightbox. state_simpl.
  rewrite H5.
  assert (Hne : fresh (dom (effects s)) <> id0).
  { intros E. apply (is_fresh (dom (effects s))). rewrite E. apply elem_of_dom. eauto. }
  assert (Hlook : alter kill (fresh (dom (effects s)))
                    (<[fresh (dom (effects s)) := mkEffectInst LightboxCard false]> (effects s))
                    !! id0 = Some (mkEffectInst LightboxCard false)).
  { rewrite lookup_alter_ne by exact Hne. rewrite lookup_insert_ne by exact Hne. exact He. }
  split; [reflexivity|]. split; [reflexivity|]. split; [exact Hlook|].
  unfold live. apply map_lookup_filter_Some. split; [exact Hlook | reflexivity].
Qed.

(** Two holds on card 2 without closing the first preview, then a click on
    the backdrop: engine 6, built for the first preview, is still alive. *)
Lemma reopened_preview_leaks_engine_witness :
  lightboxEffect
    (steps (steps initial [PointerDown (Some 2) 1 250 550 table_layout; TimerFire 0])
       [PointerDown (Some 2) 1 250 550 table_layout; TimerFire 1; LightboxClick true]) = None /\
  effects
    (steps (steps initial [PointerDown (Some 2) 1 250 550 table_layout; TimerFire 0])
       [PointerDown (Some 2) 1 250 550 table_layout; TimerFire 1; LightboxClick true]) !! 6 =
  Some (mkEffectInst LightboxCard false).
Proof.
  destruct (reopened_preview_leaks_engine
              (steps initial [PointerDown (Some 2) 1 250 550 table_layout; TimerFire 0])
              6 2 1 250 550 table_layout) as (_ & H2 & H3 & _).
  - vm_compute. reflexivity.
  - vm_compute. reflexivity.
  - apply (bool_decide_unpack _). vm_compute. exact I.
  - apply (bool_decide_unpack _). vm_compute. exact I.
  - split; [exact H2 | exact H3].
Defined.


(** ** The start of a drag *)

(** The straight-line run of [startDrag] when the card's slot is in the
    hand. *)
Lemma startDrag_eq (lay : Layout) (s : State) (ps : PointerState) (o : CardObj) :
  pointerState s = Some ps ->
  Slot (card ps) ∈ hand_children (doc s) -> objs s !! card ps = Some o ->
  let c := card ps in
  let p := next_placeholder s in
  let rect := lay_slot lay c in
  let d0 := dom_remove (Placeholder p) (doc s) in
  let d1 := set_children Hand
              (insert_before (Slot c) (Placeholder p) (hand_children d0)) d0 in
  startDrag lay s =
  (Normal tt,
   set_doc (appendChild Body (Slot c))
     (set_objs (alter (set_box (Some (left rect)) (Some (top rect))
                               (Some (width rect)) (Some (height rect))) c)
        (set_objs (alter (set_dragging true) c)
           (set_pointerState (Some (set_placeholder (Some p) (set_isDragging true ps)))
              (set_doc (fun _ => d1)
                 (set_next_placeholder (S p)
                    (destroy_effect (holoEffect o)
                       (set_pointerState (Some (set_isDragging true ps)) s)))))))).
Proof.
  intros Hps Hin Ho. cbn zeta.
  unfold startDrag. monad_unfold. rewrite Hps. state_simpl.
  unfold destroy_card_effect. state_simpl. rewrite Ho.
  state_simpl. unfold parentNode. rewrite bool_decide_eq_true_2 by exact Hin.
  state_simpl. unfold insertBefore. cbn [children].
  rewrite bool_decide_eq_true_2 by exact Hin.
  rewrite bool_decide_eq_false_2 by discriminate. state_simpl. rewrite Hps.
  cbn [fmap option_fmap option_map]. reflexivity.
Qed.

Lemma updateDrag_objs (x y : Q) (lay : Layout) (s : State) (ps : PointerState) :
  pointerState s = Some ps ->
  objs (run (updateDrag x y lay) s) =
  alter (fun o => set_box (Some (x - offsetX ps)%Q) (Some (y - offsetY ps)%Q)
                    (style_width o) (style_height o) o) (card ps) (objs s).
Proof.
  intros Hps. unfold updateDrag. monad_unfold. state_simpl. rewrite Hps. state_simpl.
  destruct (negb _); [|reflexivity].
  destruct (over_hand _ _ _); [|reflexivity].
  destruct (find_insertBefore _ _ _ _) as [c'|];
    destruct (placeholder ps) as [p|]; state_simpl; try reflexivity.
  destruct (insertBefore _ _ _ _); reflexivity.
Qed.

Lemma insertBefore_body (n ref : Node) (d d' : Dom) (m : Node) :
  insertBefore Hand n ref d = Some d' -> m <> n ->
  m ∈ body_children d -> m ∈ body_children d'.
Proof.
  unfold insertBefore. destruct (bool_decide _); [|discriminate].
  destruct (bool_decide (n = ref)).
  - intros [= <-] _ H. exact H.
  - intros [= <-] Hne H. cbn [set_children body_children dom_remove].
    apply list_elem_of_filter. auto.
Qed.

Lemma updateDrag_body (x y : Q) (lay : Layout) (s : State) (c : nat) :
  Slot c ∈ body_children (doc s) -> Slot c ∈ body_children (doc (run (updateDrag x y lay) s)).
Proof.
  intros Hin. unfold updateDrag. monad_unfold. state_simpl.
  destruct (pointerState s) as [ps|]; state_simpl; [|exact Hin].
  destruct (negb _); [|exact Hin].
  destruct (over_hand _ _ _); [|exact Hin].
  destruct (find_insertBefore _ _ _ _) as [c'|];
    destruct (placeholder ps) as [p|]; state_simpl; try exact Hin.
  - destruct (insertBefore _ _ _ _) as [d'|] eqn:E; state_simpl; [|exact Hin].
    apply (insertBefore_body _ _ _ _ _ E); [discriminate | exact Hin].
  - unfold appendChild. cbn [set_children children body_children dom_remove].
    apply list_elem_of_filter. split; [discriminate | exact Hin].
Qed.

(** X17.  A dragged card follows the pointer rigidly.  From the press at
    [(x0, y0)] on a hand card to the move at [(x, y)] that starts the drag,
    the slot goes to the body with the [dragging] class, keeps the width
    and height it had in the hand, and its top-left corner is displaced
    from where it was at the press by exactly the pointer's displacement:
    the point of the card under the pointer stays under the pointer. *)
Theorem dragged_card_follows_pointer (s : State) (c pid : nat) (o : CardObj)
    (x0 y0 : Q) (lay0 : Layout) (x y : Q) (lay : Layout) :
  Slot c ∈ hand_children (doc s) -> c ∈ cards s -> objs s !! c = Some o ->
  beyond_threshold (x - x0) (y - y0) = true ->
  let s' := steps s [PointerDown (Some c) pid x0 y0 lay0; PointerMove x y lay] in
  Slot c ∈ body_children (doc s') /\
  exists o' l t,
    objs s' !! c = Some o' /\ cls_dragging o' = true /\ cls_hovered o' = false /\
    style_left o' = Some l /\ style_top o' = Some t /\
    (l == left (lay_slot lay0 c) + (x - x0))%Q /\
    (t == top (lay_slot lay0 c) + (y - y0))%Q /\
    style_width o' = Some (width (lay_slot lay c)) /\
    style_height o' = Some (height (lay_slot lay c)).
Proof.
  intros Hs Hc Ho Hfar. cbn zeta. unfold steps. cbn [foldl].
  rewrite (pointerdown_run s c pid x0 y0 lay0 Hs Hc).
  match goal with |- context [step ?st (PointerMove _ _ _)] => set (s1 := st) end.
  set (ps := {| card := c; pointerId := pid; startX := x0; startY := y0;
                offsetX := (x0 - left (lay_slot lay0 c))%Q;
                offsetY := (y0 - top (lay_slot lay0 c))%Q;
                isDragging := false; holdTimer := next_timer s; placeholder := None;
                originalIndex := indexOf c (cards s) |}).
  assert (Hps : pointerState s1 = Some ps) by reflexivity.
  rewrite (pointermove_start s1 ps x y lay Hps eq_refl Hfar).
  assert (Ho1 : objs (clearTimeout (holdTimer ps) s1) !! card ps =
                Some (set_hovered false o)).
  { subst s1. state_simpl. cbn [card]. rewrite lookup_alter_eq, Ho. reflexivity. }
  rewrite (startDrag_eq lay (clearTimeout (holdTimer ps) s1) ps (set_hovered false o)
             Hps Hs Ho1).
  cbn zeta.
  match goal with |- context [run (updateDrag x y lay) ?st] => set (s2 := st) end.
  assert (Hps2 : pointerState s2 =
                 Some (set_placeholder (Some (next_placeholder s)) (set_isDragging true ps)))
    by reflexivity.
  split.
  - apply updateDrag_body. subst s2. state_simpl. unfold appendChild.
    cbn [set_children children body_children]. apply elem_of_app. right. left.
  - rewrite (updateDrag_objs x y lay s2 _ Hps2).
    cbn [card offsetX offsetY set_placeholder set_isDragging ps].
    subst s2. state_simpl. cbn [card ps]. subst s1. state_simpl.
    rewrite !lookup_alter_eq, Ho. cbn [fmap option_fmap option_map].
    eexists _, _, _. split; [reflexivity|].
    cbn [cls_dragging cls_hovered style_left style_top style_width style_height
         set_box set_dragging set_hovered].
    repeat split; try reflexivity; ring.
Qed.

(** Card 2 of the initial hand pressed at its centre and pulled 100 px up
    and 30 px to the right. *)
Lemma dragged_card_follows_pointer_witness :
  exists o' l t,
    objs (steps initial [PointerDown (Some 2) 1 250 575 table_layout;
                         PointerMove 280 475 table_layout]) !! 2 = Some o' /\
    style_left o' = Some l /\ style_top o' = Some t /\
    (l == 230)%Q /\ (t == 400)%Q.
Proof.
  assert (Ho : exists o, objs initial !! 2 = Some o) by (eexists; vm_compute; reflexivity).
  destruct Ho as [o Ho].
  destruct (dragged_card_follows_pointer initial 2 1 o 250 575 table_layout 280 475
              table_layout) as (_ & o' & l & t & H1 & _ & _ & H4 & H5 & H6 & H7 & _).
  - apply (bool_decide_unpack _). vm_compute. exact I.
  - apply (bool_decide_unpack _). vm_compute. exact I.
  - exact Ho.
  - reflexivity.
  - exists o', l, t. split; [exact H1|]. split; [exact H4|]. split; [exact H5|].
    split; [rewrite H6 | rewrite H7]; reflexivity.
Defined.


(** ** Runs from a well-formed state *)

Lemma step_cards_quiet (s : State) (e : Event) :
  match e with
  | ResetClick | PointerUp _ _ _ => True
  | _ => cards (step s e) = cards s /\ playedCards (step s e) = playedCards s
  end.
Proof.
  destruct e as [| |b|t|t r|t pid x y lay|x y lay|x y lay|t]; try exact I.
  - auto.
  - cbn [step]. unfold on_lightbox_click, closeLightbox.
    destruct b; [|auto]. state_simpl. destruct (lightboxEffect s); auto.
  - cbn [step]. unfold on_pointerover. destruct t; [|auto]. destruct (_ && _); auto.
  - cbn [step]. unfold on_pointerout. destruct t; [|auto]. destruct (_ && _); auto.
  - cbn [step]. unfold on_pointerdown. destruct t; [|auto].
    destruct (bool_decide _); [|auto]. destruct (bool_decide _); auto.
  - destruct (pointermove_frame x y lay s) as (-> & -> & _). auto.
  - cbn [step]. unfold on_timer. destruct (bool_decide _); [|auto].
    unfold hold_callback. state_simpl.
    destruct (pointerState s) as [ps|] eqn:Hps; [|auto].
    destruct (negb _); [|auto]. unfold openLightbox. state_simpl.
    destruct (cleanupPointer_frame true
                (set_timers (filter (fun p : nat * nat => fst p <> t)) (next_timer s) s))
      as (_ & -> & -> & _). auto.
Qed.

(** The release of a drag in a well-formed state: the card goes to the table
    or back into the hand where the placeholder stood. *)
Lemma pointerup_cards (x y : Q) (lay : Layout) (s : State) (ps : PointerState) :
  wf s -> pointerState s = Some ps -> isDragging ps = true ->
  let s' := step s (PointerUp x y lay) in
  pointerState s' = None /\
  ((over_play x y (lay_play lay) = true /\ length (playedCards s) < MAX_FIELD /\
    cards s' = filter (fun k => k <> card ps) (cards s) /\
    playedCards s' = playedCards s ++ [card ps]) \/
   (over_play x y (lay_play lay) &&
      negb (bool_decide (MAX_FIELD <= length (playedCards s))) = false /\
    playedCards s' = playedCards s /\
    exists p l1 l2,
      placeholder ps = Some p /\
      hand_children (doc s) = l1 ++ Placeholder p :: l2 /\
      cards s' = slots_of l1 ++ card ps :: slots_of l2 /\
      cards s' ≡ₚ cards s)).
Proof.
  intros Hwf Hps Hd. cbn zeta.
  destruct (wf_dragging s ps Hwf Hps Hd)
    as (p & l1 & l2 & Hp & Hh & Hl & Hb & Hnd & Hc & Ho & Hcp & Hndh & Hch & Hperm).
  destruct (over_play x y (lay_play lay) &&
            negb (bool_decide (MAX_FIELD <= length (playedCards s)))) eqn:Hcond.
  - apply andb_true_iff in Hcond as [Hov Hfull].
    apply negb_true_iff, bool_decide_eq_false in Hfull.
    rewrite (pointerup_play_run s ps p x y lay Hps Hd Hp Hov) by lia.
    state_simpl. split; [reflexivity|]. left.
    rewrite (splice1_indexOf _ _ Hnd Hc). repeat split; auto. lia.
  - destruct (replace_placeholder (doc s) p (card ps) l1 l2 Hh Hndh Hch)
      as (d' & Hd' & Hh' & Hplay & Hbody).
    rewrite (pointerup_return_run s ps p x y lay d' Hps Hd Hp Hcond Hd').
    state_simpl. split; [reflexivity|]. right.
    split; [reflexivity|]. split; [reflexivity|].
    assert (Hpo : cards s ≡ₚ slots_of l1 ++ card ps :: slots_of l2).
    { rewrite Hperm, slots_of_app. apply Permutation_middle. }
    assert (Hsort : sort_by (fun a => indexOf a (slots_of (hand_children d'))) (cards s) =
                    slots_of l1 ++ card ps :: slots_of l2).
    { rewrite Hh', slots_of_app. cbn [slots_of omap].
      apply sort_by_position; [|exact Hpo]. rewrite <- Hpo. exact Hnd. }
    exists p, l1, l2. rewrite Hsort. repeat split; auto. symmetry. exact Hpo.
Qed.

Lemma step_conserves (s : State) (e : Event) :
  wf s -> cards (step s e) ++ playedCards (step s e) ≡ₚ cards s ++ playedCards s.
Proof.
  intros Hwf. pose proof (step_cards_quiet s e) as Hq.
  assert (Hsame : cards (step s e) = cards s /\ playedCards (step s e) = playedCards s ->
                  cards (step s e) ++ playedCards (step s e) ≡ₚ cards s ++ playedCards s).
  { intros [E1 E2]. rewrite E1, E2. reflexivity. }
  destruct e as [| |b|t|t r|t pid x y lay|x y lay|x y lay|t];
    [apply Hsame, Hq| |apply Hsame, Hq|apply Hsame, Hq|apply Hsame, Hq|apply Hsame, Hq
    |apply Hsame, Hq| |apply Hsame, Hq]; clear Hq Hsame.
  - cbn [step]. unfold on_reset. state_simpl.
    destruct (reset_loop_cards (playedCards s) s eq_refl) as [-> ->].
    rewrite app_nil_r. apply Permutation_app_head. symmetry. apply Permutation_rev.
  - destruct (pointerState s) as [ps|] eqn:Hps.
    2:{ rewrite pointerup_unfold, Hps. reflexivity. }
    destruct (isDragging ps) eqn:Hd.
    2:{ rewrite pointerup_unfold, Hps, Hd.
        destruct (cleanupPointer_frame true s) as (_ & -> & -> & _). reflexivity. }
    destruct (pointerup_cards x y lay s ps Hwf Hps Hd)
      as (_ & [(_ & _ & -> & ->)|(_ & -> & p & l1 & l2 & _ & _ & _ & Hperm)]).
    + destruct (wf_dragging s ps Hwf Hps Hd) as (_ & _ & _ & _ & _ & _ & _ & Hnd & Hc & _).
      rewrite (perm_filter_out (card ps) (cards s) Hnd Hc) at 2.
      rewrite app_assoc. rewrite <- Permutation_cons_append. reflexivity.
    + rewrite Hperm. reflexivity.
Qed.

Lemma run_wf_conserves (s : State) (es : list Event) :
  wf s -> allowed_run s es ->
  wf (steps s es) /\
  cards (steps s es) ++ playedCards (steps s es) ≡ₚ cards s ++ playedCards s.
Proof.
  revert s. induction es as [|e es IH]; intros s Hwf Hal; [split; [exact Hwf | reflexivity]|].
  destruct Hal as [Ha Hrest]. unfold steps. cbn [foldl]. fold (steps (step s e) es).
  destruct (IH (step s e) (wf_step s e Hwf Ha) Hrest) as [G1 G2].
  split; [exact G1|]. rewrite G2. apply step_conserves, Hwf.
Qed.

(** X18.  No card is ever lost or duplicated.  Along any run in which no
    second pointer is pressed on a hand card during a drag, the cards of the
    hand and of the table together are a rearrangement of what they were at
    the start, without repetition; from the initial hand they are the six
    cards dealt by [initHand]. *)
Theorem cards_are_conserved (s : State) (es : list Event) :
  wf s -> allowed_run s es ->
  let s' := steps s es in
  cards s' ++ playedCards s' ≡ₚ cards s ++ playedCards s /\
  NoDup (cards s' ++ playedCards s') /\
  length (cards s') + length (playedCards s') = length (cards s) + length (playedCards s).
Proof.
  intros Hwf Hal. cbn zeta.
  destruct (run_wf_conserves s es Hwf Hal) as [G1 G2].
  split; [exact G2|]. split; [apply (wf_nodup _ G1)|].
  rewrite <- !length_app. rewrite G2. reflexivity.
Qed.

(** Cards 0 and 1 played, then the reset button. *)
Lemma cards_are_conserved_witness :
  cards (steps initial (play 0 ++ play 1 ++ [ResetClick])) ++
  playedCards (steps initial (play 0 ++ play 1 ++ [ResetClick])) ≡ₚ seq 0 CARD_COUNT.
Proof.
  destruct (cards_are_conserved initial (play 0 ++ play 1 ++ [ResetClick])) as (H & _).
  - apply wf_initial.
  - cbn [play lift app allowed_run allowed]. repeat split.
    + intros ps Hps. vm_compute in Hps. discriminate Hps.
    + intros ps Hps. vm_compute in Hps. discriminate Hps.
  - rewrite H. vm_compute. reflexivity.
Defined.

(** X19.  The document shows the two arrays.  Along any such run the play
    area's children are the slots of [playedCards] in order and every hand
    card carries its position and the hand's size in [--i] and [--n]; while
    no card is being dragged the hand's children are the slots of [cards]
    in order and nothing floats in the body; while card [c] is being
    dragged its slot is the only floating node and the hand shows the other
    cards in order, with one placeholder among them. *)
Theorem document_mirrors_arrays (s : State) (es : list Event) :
  wf s -> allowed_run s es ->
  let s' := steps s es in
  play_children (doc s') = Slot <$> playedCards s' /\
  indexed s' /\
  (dragged s' = None ->
   hand_children (doc s') = Slot <$> cards s' /\ body_children (doc s') = []) /\
  (forall c, dragged s' = Some c ->
   body_children (doc s') = [Slot c] /\ c ∈ cards s' /\
   exists p l1 l2,
     hand_children (doc s') = l1 ++ Placeholder p :: l2 /\
     l1 ++ l2 = Slot <$> filter (fun k => k <> c) (cards s')).
Proof.
  intros Hwf Hal. cbn zeta.
  destruct (run_wf_conserves s es Hwf Hal) as [G _].
  split; [apply (wf_table _ G)|]. split; [apply (wf_indexed _ G)|].
  unfold dragged. split.
  - intros Hn. apply (session_shape_idle _ (wf_session _ G)).
    intros ps Hps. rewrite Hps in Hn. destruct (isDragging ps); [discriminate | reflexivity].
  - intros c Hc. destruct (pointerState (steps s es)) as [ps|] eqn:Hps; [|discriminate].
    destruct (isDragging ps) eqn:Hd; [|discriminate]. injection Hc as <-.
    destruct (wf_dragging _ ps G Hps Hd) as (p & l1 & l2 & _ & Hh & Hl & Hb & _ & Hin & _).
    split; [exact Hb|]. split; [exact Hin|]. exists p, l1, l2. auto.
Qed.

(** Card 0 played, then card 3 lifted out of the hand. *)
Lemma document_mirrors_arrays_witness :
  play_children (doc (steps initial (play 0 ++ lift 3))) =
    Slot <$> playedCards (steps initial (play 0 ++ lift 3)) /\
  (forall c, dragged (steps initial (play 0 ++ lift 3)) = Some c ->
     body_children (doc (steps initial (play 0 ++ lift 3))) = [Slot c]).
Proof.
  destruct (document_mirrors_arrays initial (play 0 ++ lift 3)) as (H1 & _ & _ & H4).
  - apply wf_initial.
  - cbn [play lift app allowed_run allowed]. repeat split.
    + intros ps Hps. vm_compute in Hps. discriminate Hps.
    + intros ps Hps. vm_compute in Hps. discriminate Hps.
  - split; [exact H1|]. intros c Hc. apply (H4 c Hc).
Defined.


(** ** A drag that stays away from the hand *)

(** [updateDrag] with the pointer over the play area, or outside the padded
    hand rectangle: the placeholder is not moved. *)
Lemma updateDrag_away (x y : Q) (lay : Layout) (s : State) :
  negb (over_play x y (lay_play lay)) && over_hand x y (lay_hand lay) = false ->
  doc (run (updateDrag x y lay) s) = doc s.
Proof.
  intros Haway. unfold updateDrag. monad_unfold. state_simpl.
  destruct (pointerState s) as [ps|]; state_simpl; [|reflexivity].
  destruct (negb (over_play x y (lay_play lay))); [|reflexivity].
  cbn [andb] in Haway. rewrite Haway. reflexivity.
Qed.

(** The state after the move that starts a drag, when that move does not
    take the placeholder anywhere. *)
Lemma drag_start_away (s : State) (ps : PointerState) (o : CardObj) (a b : list nat)
    (x y : Q) (lay : Layout) :
  wf s -> pointerState s = Some ps -> isDragging ps = false ->
  beyond_threshold (x - startX ps) (y - startY ps) = true ->
  negb (over_play x y (lay_play lay)) && over_hand x y (lay_hand lay) = false ->
  cards s = a ++ card ps :: b -> objs s !! card ps = Some o ->
  let s2 := step s (PointerMove x y lay) in
  let p := next_placeholder s in
  wf s2 /\
  pointerState s2 = Some (set_placeholder (Some p) (set_isDragging true ps)) /\
  cards s2 = cards s /\ playedCards s2 = playedCards s /\
  hand_children (doc s2) = (Slot <$> a) ++ Placeholder p :: (Slot <$> b) /\
  play_children (doc s2) = play_children (doc s) /\
  body_children (doc s2) = [Slot (card ps)] /\
  timers s2 = filter (fun q => fst q <> holdTimer ps) (timers s) /\
  effects s2 = alter kill (holoEffect o) (effects s) /\
  exists o2, objs s2 !! card ps = Some o2 /\ cls_dragging o2 = true /\
             holoEffect o2 = holoEffect o /\
             style_width o2 = Some (width (lay_slot lay (card ps))) /\
             style_height o2 = Some (height (lay_slot lay (card ps))).
Proof.
  intros Hwf Hps Hd Hfar Haway Hab Ho. cbn zeta.
  pose proof (wf_step s (PointerMove x y lay) Hwf I) as Hwf2.
  pose proof Hwf as [H1 H2 H3 H4 H5 H6].
  unfold session_shape in H6. rewrite Hps, Hd in H6. destruct H6 as (Hc & Hh & Hb).
  apply NoDup_app in H1 as (Hnd & Hdisj & Hndp).
  assert (Ha' : card ps ∉ a).
  { rewrite Hab in Hnd. apply NoDup_app in Hnd as (_ & Hn & _).
    intros Hin. apply (Hn _ Hin). left. }
  assert (Hb' : card ps ∉ b).
  { rewrite Hab in Hnd. apply NoDup_app in Hnd as (_ & _ & Hn).
    apply NoDup_cons in Hn as [Hn _]. exact Hn. }
  assert (Hin : Slot (card ps) ∈ hand_children (doc s)).
  { rewrite Hh. apply list_elem_of_fmap_2. exact Hc. }
  split; [exact Hwf2|].
  rewrite (pointermove_start s ps x y lay Hps Hd Hfar).
  rewrite (startDrag_eq lay (clearTimeout (holdTimer ps) s) ps o Hps Hin Ho).
  cbn zeta.
  match goal with |- context [run (updateDrag x y lay) ?st] => set (s1 := st) end.
  assert (Hps1 : pointerState s1 =
                 Some (set_placeholder (Some (next_placeholder s)) (set_isDragging true ps)))
    by reflexivity.
  destruct (updateDrag_frame x y lay s1) as (-> & -> & -> & -> & _ & -> & _).
  rewrite (updateDrag_away x y lay s1 Haway).
  rewrite (updateDrag_objs x y lay s1 _ Hps1).
  subst s1. state_simpl. cbn [card set_placeholder set_isDragging].
  unfold appendChild. cbn [set_children children hand_children play_children
                          body_children dom_remove].
  split; [reflexivity|]. split; [reflexivity|]. split; [reflexivity|].
  split.
  { rewrite Hh, without_placeholder_slots, Hab, fmap_app, fmap_cons.
    rewrite insert_before_mid.
    2:{ intros H. apply list_elem_of_fmap in H as (k & Hk & Hka).
        injection Hk as <-. contradiction. }
    rewrite without_app. unfold without at 2.
    rewrite filter_cons_True by discriminate.
    rewrite filter_cons_False by (intros H; apply H; reflexivity).
    fold (without (Slot (card ps)) (Slot <$> b)).
    rewrite !without_slot_absent by assumption. reflexivity. }
  split.
  { rewrite H5, without_placeholder_slots. apply without_slot_absent. apply Hdisj, Hc. }
  split; [rewrite Hb; reflexivity|].
  split; [reflexivity|]. split; [reflexivity|].
  rewrite !lookup_alter_eq, Ho. cbn [fmap option_fmap option_map].
  eexists. split; [reflexivity|]. repeat split; reflexivity.
Qed.

(** X20.  Lifting a card does not reflow the hand.  When the move that
    starts the drag is away from the hand, the placeholder stands exactly
    where the card's slot was, the slot floats in the body with the size it
    had in the hand, the hold timer is cancelled, and [cards] still lists
    the lifted card.  The card's engine is destroyed for the duration of the
    drag: the engine object the card refers to, before and after the move,
    is marked destroyed on the element it was built on, and every other
    engine object is as it was. *)
Theorem lifting_keeps_the_cards_place (s : State) (ps : PointerState) (o : CardObj)
    (a b : list nat) (x y : Q) (lay : Layout) :
  wf s -> pointerState s = Some ps -> isDragging ps = false ->
  beyond_threshold (x - startX ps) (y - startY ps) = true ->
  negb (over_play x y (lay_play lay)) && over_hand x y (lay_hand lay) = false ->
  cards s = a ++ card ps :: b -> objs s !! card ps = Some o ->
  let s2 := step s (PointerMove x y lay) in
  let c := card ps in
  hand_children (doc s) = (Slot <$> a) ++ Slot c :: (Slot <$> b) /\
  hand_children (doc s2) = (Slot <$> a) ++ Placeholder (next_placeholder s) :: (Slot <$> b) /\
  body_children (doc s2) = [Slot c] /\
  cards s2 = cards s /\
  effects s2 = alter kill (holoEffect o) (effects s) /\
  (exists e, effects s !! holoEffect o = Some e /\
             effects s2 !! holoEffect o = Some (mkEffectInst (eff_el e) true)) /\
  (forall id, id <> holoEffect o -> effects s2 !! id = effects s !! id) /\
  (holdTimer ps ∉ (fst <$> timers s2)) /\
  exists o2, objs s2 !! c = Some o2 /\ cls_dragging o2 = true /\
             holoEffect o2 = holoEffect o /\
             style_width o2 = Some (width (lay_slot lay c)) /\
             style_height o2 = Some (height (lay_slot lay c)).
Proof.
  intros Hwf Hps Hd Hfar Haway Hab Ho. cbn zeta.
  destruct (drag_start_away s ps o a b x y lay Hwf Hps Hd Hfar Haway Hab Ho)
    as (_ & _ & G3 & _ & G5 & _ & G7 & G8 & G9 & o2 & G10 & G11 & G12 & G13 & G14).
  assert (Hold : holoEffect o ∈ dom (effects s)) by exact (wf_refs s Hwf (card ps) o Ho).
  apply elem_of_dom in Hold as [e He].
  split.
  { rewrite (wf_idle_hand s ps Hwf Hps Hd), Hab, fmap_app, fmap_cons. reflexivity. }
  split; [exact G5|]. split; [exact G7|]. split; [exact G3|]. split; [exact G9|].
  split.
  { exists e. split; [exact He|]. rewrite G9, lookup_alter_eq, He. reflexivity. }
  split.
  { intros id Hne. rewrite G9. apply lookup_alter_ne. congruence. }
  split; [rewrite G8; apply not_in_filtered_timers|].
  exists o2. auto.
Qed.


(** Card 2 pressed in the initial hand and pulled 250 px up, above the
    padded hand rectangle and below the play area: the placeholder takes
    the card's place and engine 2, the card's, is destroyed. *)
Lemma lifting_keeps_the_cards_place_witness :
  hand_children (doc (step (step initial (PointerDown (Some 2) 1 250 550 table_layout))
                        (PointerMove 250 400 table_layout))) =
  [Slot 0; Slot 1; Placeholder 0; Slot 3; Slot 4; Slot 5] /\
  effects (step initial (PointerDown (Some 2) 1 250 550 table_layout)) !! 2 =
  Some (mkEffectInst (Inner 2) false) /\
  effects (step (step initial (PointerDown (Some 2) 1 250 550 table_layout))
             (PointerMove 250 400 table_layout)) !! 2 =
  Some (mkEffectInst (Inner 2) true).
Proof.
  assert (Hps : pointerState (step initial (PointerDown (Some 2) 1 250 550 table_layout)) =
                Some (mkPointerState 2 1 250 550 50 50 false 0 None 2))
    by (vm_compute; reflexivity).
  assert (Ho : exists o, objs (step initial (PointerDown (Some 2) 1 250 550 table_layout)) !! 2
                         = Some o /\ holoEffect o = 2)
    by (eexists; split; vm_compute; reflexivity).
  destruct Ho as (o & Ho & Hid).
  assert (E : effects (step initial (PointerDown (Some 2) 1 250 550 table_layout)) !! 2 =
              Some (mkEffectInst (Inner 2) false)) by (vm_compute; reflexivity).
  destruct (lifting_keeps_the_cards_place
              (step initial (PointerDown (Some 2) 1 250 550 table_layout))
              (mkPointerState 2 1 250 550 50 50 false 0 None 2)
              o [0; 1] [3; 4; 5] 250 400 table_layout)
    as (_ & H & _ & _ & _ & (e & He & He') & _).
  - apply wf_step; [apply wf_initial|].
    intros ps Hps'. vm_compute in Hps'. discriminate Hps'.
  - exact Hps.
  - reflexivity.
  - reflexivity.
  - reflexivity.
  - vm_compute. reflexivity.
  - exact Ho.
  - rewrite Hid in He, He'. rewrite E in He. injection He as <-.
    split; [rewrite H; vm_compute; reflexivity|]. split; [exact E | exact He'].
Defined.

Lemma moves_away (s : State) (ps : PointerState) (moves : list (Q * Q * Layout)) :
  wf s -> pointerState s = Some ps -> isDragging ps = true ->
  Forall (fun m => negb (over_play m.1.1 m.1.2 (lay_play m.2)) &&
                   over_hand m.1.1 m.1.2 (lay_hand m.2) = false) moves ->
  let s' := steps s (map (fun m => PointerMove m.1.1 m.1.2 m.2) moves) in
  wf s' /\ pointerState s' = Some ps /\ doc s' = doc s /\ cards s' = cards s /\
  playedCards s' = playedCards s /\ timers s' = timers s /\ effects s' = effects s /\
  (holoEffect <$> objs s' !! card ps) = (holoEffect <$> objs s !! card ps).
Proof.
  intros Hwf Hps Hd Hall. cbn zeta. revert s Hwf Hps.
  induction Hall as [|m moves Hm Hall IH]; intros s Hwf Hps;
    [split; [exact Hwf | repeat split; first [exact Hps | reflexivity]]|].
  cbn [map]. unfold steps. cbn [foldl].
  fold (steps (step s (PointerMove m.1.1 m.1.2 m.2))
          (map (fun m => PointerMove m.1.1 m.1.2 m.2) moves)).
  pose proof (wf_step s (PointerMove m.1.1 m.1.2 m.2) Hwf I) as Hwf1.
  assert (H1 : pointerState (step s (PointerMove m.1.1 m.1.2 m.2)) = Some ps /\
               doc (step s (PointerMove m.1.1 m.1.2 m.2)) = doc s /\
               cards (step s (PointerMove m.1.1 m.1.2 m.2)) = cards s /\
               playedCards (step s (PointerMove m.1.1 m.1.2 m.2)) = playedCards s /\
               timers (step s (PointerMove m.1.1 m.1.2 m.2)) = timers s /\
               effects (step s (PointerMove m.1.1 m.1.2 m.2)) = effects s /\
               (holoEffect <$> objs (step s (PointerMove m.1.1 m.1.2 m.2)) !! card ps) =
               (holoEffect <$> objs s !! card ps)).
  { rewrite (pointermove_dragging s ps _ _ _ Hps Hd).
    destruct (updateDrag_frame m.1.1 m.1.2 m.2 s) as (-> & -> & -> & -> & _ & -> & _).
    rewrite (updateDrag_away _ _ _ s Hm). rewrite (updateDrag_objs _ _ _ s ps Hps).
    rewrite lookup_alter_eq. destruct (objs s !! card ps); repeat split; auto. }
  destruct H1 as (G1 & G2 & G3 & G4 & G5 & G6 & G7).
  destruct (IH _ Hwf1 G1) as (K0 & K1 & K2 & K3 & K4 & K5 & K6 & K7).
  split; [exact K0|]. repeat split; congruence.
Qed.

Lemma reindex_from_fields (cs : list nat) (i n : nat) (o : gmap nat CardObj) (c : nat)
    (obj : CardObj) :
  o !! c = Some obj ->
  exists i' n', reindex_from i n cs o !! c = Some (set_index i' n' obj).
Proof.
  revert i o obj. induction cs as [|k cs IH]; intros i o obj Ho.
  - exists (style_i obj), (style_n obj). cbn. rewrite Ho, set_index_same. reflexivity.
  - cbn [reindex_from]. destruct (decide (k = c)) as [->|Hne].
    + destruct (IH (S i) (alter (set_index i n) c o) (set_index i n obj))
        as (i' & n' & Hr).
      { rewrite lookup_alter_eq, Ho. reflexivity. }
      exists i', n'. rewrite Hr. reflexivity.
    + apply IH. rewrite lookup_alter_ne by exact Hne. exact Ho.
Qed.

(** X21.  A drag that never passes over the hand and is not released on a
    table with room puts everything back.  After the press, any moves that
    stay away from the hand (or over the play area) and the release,
    [cards], [playedCards] and the whole document tree are what they were
    before the drag; the session is over, and the card has no [dragging]
    class, no inline box, and a new, live engine of its own. *)
Theorem drag_released_elsewhere_restores_hand (s : State) (ps : PointerState)
    (x1 y1 : Q) (lay1 : Layout) (moves : list (Q * Q * Layout)) (x y : Q) (lay : Layout) :
  wf s -> pointerState s = Some ps -> isDragging ps = false ->
  beyond_threshold (x1 - startX ps) (y1 - startY ps) = true ->
  Forall (fun m => negb (over_play m.1.1 m.1.2 (lay_play m.2)) &&
                   over_hand m.1.1 m.1.2 (lay_hand m.2) = false)
         ((x1, y1, lay1) :: moves) ->
  over_play x y (lay_play lay) &&
    negb (bool_decide (MAX_FIELD <= length (playedCards s))) = false ->
  let s' := steps s (PointerMove x1 y1 lay1 ::
                     map (fun m => PointerMove m.1.1 m.1.2 m.2) moves ++
                     [PointerUp x y lay]) in
  cards s' = cards s /\ playedCards s' = playedCards s /\ doc s' = doc s /\
  pointerState s' = None /\
  exists o', objs s' !! card ps = Some o' /\
    cls_dragging o' = false /\
    style_left o' = None /\ style_top o' = None /\
    style_width o' = None /\ style_height o' = None /\
    (holoEffect o' ∉ dom (effects s)) /\
    effects s' !! holoEffect o' = Some (mkEffectInst (Inner (card ps)) false).
Proof.
  intros Hwf Hps Hd Hfar Hall Hcond. cbn zeta.
  apply Forall_cons in Hall as [Haway Hall]. cbn [fst snd] in Haway.
  pose proof Hwf as [H1 H2 H3 H4 H5 H6].
  unfold session_shape in H6. rewrite Hps, Hd in H6. destruct H6 as (Hc & Hh & Hb).
  destruct (H2 (card ps)) as [o Ho]; [apply elem_of_app; left; exact Hc|].
  destruct (list_elem_of_split_l _ _ Hc) as (a & b & Hab & Ha).
  assert (Hnd : NoDup (cards s)) by (apply NoDup_app in H1 as [H1 _]; exact H1).
  assert (Hb' : card ps ∉ b).
  { rewrite Hab in Hnd. apply NoDup_app in Hnd as (_ & _ & Hn).
    apply NoDup_cons in Hn as [Hn _]. exact Hn. }
  destruct (drag_start_away s ps o a b x1 y1 lay1 Hwf Hps Hd Hfar Haway Hab Ho)
    as (Hwf2 & Hps2 & G3 & G4 & G5 & G6 & G7 & G8 & G9 & o2 & G10 & _).
  cbn zeta in *.
  set (p := next_placeholder s) in *.
  set (ps2 := set_placeholder (Some p) (set_isDragging true ps)) in *.
  change (PointerMove x1 y1 lay1 ::
          map (fun m => PointerMove m.1.1 m.1.2 m.2) moves ++ [PointerUp x y lay])
    with ([PointerMove x1 y1 lay1] ++
          map (fun m => PointerMove m.1.1 m.1.2 m.2) moves ++ [PointerUp x y lay]).
  rewrite !steps_app.
  change (steps s [PointerMove x1 y1 lay1]) with (step s (PointerMove x1 y1 lay1)).
  set (s2 := step s (PointerMove x1 y1 lay1)) in *.
  destruct (moves_away s2 ps2 moves Hwf2 Hps2 eq_refl Hall)
    as (HwfN & HpsN & K2 & K3 & K4 & K5 & K6 & K7).
  cbn zeta in *.
  set (sN := steps s2 (map (fun m => PointerMove m.1.1 m.1.2 m.2) moves)) in *.
  change (steps sN [PointerUp x y lay]) with (step sN (PointerUp x y lay)).
  assert (HhN : hand_children (doc sN) = (Slot <$> a) ++ Placeholder p :: (Slot <$> b))
    by (rewrite K2; exact G5).
  assert (Hndh : NoDup (hand_children (doc sN)) /\ (Slot (card ps) ∉ hand_children (doc sN))).
  { destruct (wf_dragging sN ps2 HwfN HpsN eq_refl)
      as (_ & _ & _ & _ & _ & _ & _ & _ & _ & _ & _ & N1 & N2 & _). auto. }
  destruct Hndh as [Hndh Hch].
  destruct (replace_placeholder (doc sN) p (card ps) (Slot <$> a) (Slot <$> b) HhN Hndh Hch)
    as (d' & Hd' & Hh' & Hplay & Hbody).
  assert (HcondN : over_play x y (lay_play lay) &&
                   negb (bool_decide (MAX_FIELD <= length (playedCards sN))) = false)
    by (rewrite K4, G4; exact Hcond).
  rewrite (pointerup_return_run sN ps2 p x y lay d' HpsN eq_refl eq_refl HcondN Hd').
  change (card ps2) with (card ps).
  assert (Hd'eq : d' = doc s).
  { destruct d' as [h pl bo]. cbn [hand_children play_children body_children] in *.
    destruct (doc s) as [h0 pl0 bo0] eqn:Hdoc.
    cbn [hand_children play_children body_children] in *.
    f_equal.
    - rewrite Hh', Hh, Hab, fmap_app, fmap_cons. reflexivity.
    - rewrite Hplay, K2, G6, H5, without_placeholder_slots.
      apply without_slot_absent.
      apply NoDup_app in H1 as (_ & Hdisj & _). apply Hdisj, Hc.
    - rewrite Hbody, K2, G7, Hb. unfold without.
      rewrite filter_cons_True by discriminate.
      rewrite (filter_cons_False _ (Slot (card ps)) []) by (intros H; apply H; reflexivity).
      reflexivity. }
  assert (Hsort : sort_by (fun k => indexOf k (slots_of (hand_children d'))) (cards sN) =
                  cards s).
  { rewrite Hd'eq, Hh, slots_of_Slot, K3, G3.
    apply sort_by_position; [exact Hnd | reflexivity]. }
  state_simpl. rewrite Hsort.
  split; [reflexivity|]. split; [rewrite K4, G4; reflexivity|].
  split; [exact Hd'eq|]. split; [reflexivity|].
  assert (HoN : exists oN, objs sN !! card ps = Some oN).
  { change (card ps2) with (card ps) in K7. rewrite G10 in K7.
    destruct (objs sN !! card ps) as [oN|]; [eauto | discriminate K7]. }
  destruct HoN as [oN HoN].
  set (id := fresh (dom (effects sN))).
  destruct (reindex_from_fields (cards s) 0 (length (cards s))
              (alter (set_holoEffect id) (card ps)
                 (alter (set_box None None None None) (card ps)
                    (alter (set_dragging false) (card ps) (objs sN))))
              (card ps)
              (set_holoEffect id (set_box None None None None (set_dragging false oN))))
    as (i' & n' & Hr).
  { rewrite !lookup_alter_eq, HoN. reflexivity. }
  eexists. split; [exact Hr|].
  cbn [cls_dragging style_left style_top style_width style_height holoEffect
       set_index set_holoEffect set_box set_dragging].
  repeat split; try reflexivity.
  - unfold id. rewrite K6, G9, dom_alter_L. apply is_fresh.
  - apply lookup_insert_eq.
Qed.

(** Card 2 pressed, pulled above the hand, carried to the right below the
    play area and released there. *)
Lemma drag_released_elsewhere_restores_hand_witness :
  cards (steps (step initial (PointerDown (Some 2) 1 250 550 table_layout))
           [PointerMove 250 400 table_layout; PointerMove 500 400 table_layout;
            PointerUp 500 400 table_layout]) = [0; 1; 2; 3; 4; 5] /\
  hand_children
    (doc (steps (step initial (PointerDown (Some 2) 1 250 550 table_layout))
            [PointerMove 250 400 table_layout; PointerMove 500 400 table_layout;
             PointerUp 500 400 table_layout])) =
  [Slot 0; Slot 1; Slot 2; Slot 3; Slot 4; Slot 5].
Proof.
  assert (Hps : pointerState (step initial (PointerDown (Some 2) 1 250 550 table_layout)) =
                Some (mkPointerState 2 1 250 550 50 50 false 0 None 2))
    by (vm_compute; reflexivity).
  destruct (drag_released_elsewhere_restores_hand
              (step initial (PointerDown (Some 2) 1 250 550 table_layout))
              (mkPointerState 2 1 250 550 50 50 false 0 None 2)
              250 400 table_layout [(500%Q, 400%Q, table_layout)] 500 400 table_layout)
    as (H1 & _ & H3 & _).
  - apply wf_step; [apply wf_initial|].
    intros ps Hps'. vm_compute in Hps'. discriminate Hps'.
  - exact Hps.
  - reflexivity.
  - reflexivity.
  - repeat constructor.
  - reflexivity.
  - cbn [map app fst snd] in H1, H3. split.
    + rewrite H1. vm_compute. reflexivity.
    + rewrite H3. vm_compute. reflexivity.
Defined.

(** ** The engine of every card *)

Lemma engine_in_restyle (ob : gmap nat CardObj) (ef : gmap nat EffectInst)
    (f : CardObj -> CardObj) (k c : nat) :
  (forall o, holoEffect (f o) = holoEffect o) ->
  engine_in (alter f k ob) ef c = engine_in ob ef c.
Proof.
  intros Hf. unfold engine_in. destruct (decide (k = c)) as [->|Hne].
  - rewrite lookup_alter_eq. destruct (ob !! c); cbn; [rewrite Hf|]; reflexivity.
  - rewrite lookup_alter_ne by exact Hne. reflexivity.
Qed.

Lemma engine_in_reindex (cs : list nat) (i n : nat) (ob : gmap nat CardObj)
    (ef : gmap nat EffectInst) (c : nat) :
  engine_in (reindex_from i n cs ob) ef c = engine_in ob ef c.
Proof.
  revert i ob. induction cs as [|k cs IH]; intros i ob; cbn [reindex_from]; [reflexivity|].
  rewrite IH. apply engine_in_restyle. reflexivity.
Qed.

Lemma engine_in_new (ob : gmap nat CardObj) (ef : gmap nat EffectInst) (id : nat)
    (e x : EffectInst) (c : nat) :
  id ∉ dom ef -> engine_in ob ef c = Some x -> engine_in ob (<[id := e]> ef) c = Some x.
Proof.
  unfold engine_in. destruct (ob !! c) as [o|]; [|discriminate]. intros Hid Hx.
  rewrite lookup_insert_ne; [exact Hx|]. intros ->. apply Hid. apply elem_of_dom. eauto.
Qed.

Lemma engine_in_attach (ob : gmap nat CardObj) (ef : gmap nat EffectInst) (id : nat)
    (e : EffectInst) (c : nat) :
  is_Some (ob !! c) ->
  engine_in (alter (set_holoEffect id) c ob) (<[id := e]> ef) c = Some e.
Proof.
  intros [o Ho]. unfold engine_in. rewrite lookup_alter_eq, Ho. cbn.
  apply lookup_insert_eq.
Qed.

Lemma engine_in_attach_ne (ob : gmap nat CardObj) (ef : gmap nat EffectInst)
    (id k c : nat) :
  k <> c -> engine_in (alter (set_holoEffect id) k ob) ef c = engine_in ob ef c.
Proof. intros Hne. unfold engine_in. rewrite lookup_alter_ne by exact Hne. reflexivity. Qed.

Lemma engine_in_kill_own (ob : gmap nat CardObj) (ef : gmap nat EffectInst) (c : nat)
    (o : CardObj) (x : EffectInst) :
  ob !! c = Some o -> engine_in ob ef c = Some x ->
  engine_in ob (alter kill (holoEffect o) ef) c = Some (kill x).
Proof.
  unfold engine_in. intros -> Hx. rewrite lookup_alter_eq, Hx. reflexivity.
Qed.

Lemma engine_in_kill_other (ob : gmap nat CardObj) (ef : gmap nat EffectInst) (c id : nat)
    (o : CardObj) :
  ob !! c = Some o -> holoEffect o <> id ->
  engine_in ob (alter kill id ef) c = engine_in ob ef c.
Proof.
  unfold engine_in. intros -> Hne. apply lookup_alter_ne. congruence.
Qed.

Lemma engine_of_obj (s : State) (c : nat) (x : EffectInst) :
  engine_of s c = Some x ->
  exists o, objs s !! c = Some o /\ effects s !! holoEffect o = Some x.
Proof.
  unfold engine_of, engine_in. destruct (objs s !! c) as [o|]; [|discriminate].
  intros Hx. exists o. auto.
Qed.

(** Two cards never share an engine object, and no card has the lightbox's. *)
Lemma engines_distinct (s : State) (c c' : nat) (o o' : CardObj) :
  engines_ok s -> c ∈ cards s ++ playedCards s -> c' ∈ cards s ++ playedCards s ->
  objs s !! c = Some o -> objs s !! c' = Some o' ->
  holoEffect o = holoEffect o' -> c = c'.
Proof.
  intros [E1 _] Hc Hc' Ho Ho' Heq.
  pose proof (E1 c Hc) as X. pose proof (E1 c' Hc') as X'.
  unfold engine_of, engine_in in X, X'. rewrite Ho in X. rewrite Ho' in X'.
  rewrite Heq in X. rewrite X in X'. congruence.
Qed.

Lemma engines_lightbox (s : State) (id c : nat) (o : CardObj) :
  engines_ok s -> lightboxEffect s = Some id -> c ∈ cards s ++ playedCards s ->
  objs s !! c = Some o -> holoEffect o <> id.
Proof.
  intros [E1 E2] Hl Hc Ho Heq. destruct (E2 id Hl) as [d Hd].
  pose proof (E1 c Hc) as X. unfold engine_of, engine_in in X. rewrite Ho, Heq, Hd in X.
  discriminate.
Qed.

Local Abbreviation engines_over l s' :=
  ((forall c, c ∈ l ->
      engine_of s' c = Some (mkEffectInst (Inner c) (bool_decide (dragged s' = Some c)))) /\
   (forall id, lightboxEffect s' = Some id ->
      exists d, effects s' !! id = Some (mkEffectInst LightboxCard d))).

(** A listener that writes neither an engine reference nor an engine object
    nor the drag keeps the engines as they were. *)
Lemma engines_kept (s s' : State) :
  (forall c, engine_of s' c = engine_of s c) ->
  dragged s' = dragged s -> lightboxEffect s' = lightboxEffect s ->
  effects s' = effects s ->
  engines_ok s -> engines_over (cards s ++ playedCards s) s'.
Proof.
  intros He Hd Hl Hf [E1 E2]. split.
  - intros c Hc. rewrite He, Hd. apply E1, Hc.
  - intros id Hid. rewrite Hf. apply E2. congruence.
Qed.

Lemma engines_updateDrag (x y : Q) (lay : Layout) (s : State) (ps : PointerState) :
  pointerState s = Some ps ->
  (forall c, engine_of (run (updateDrag x y lay) s) c = engine_of s c) /\
  dragged (run (updateDrag x y lay) s) = dragged s /\
  lightboxEffect (run (updateDrag x y lay) s) = lightboxEffect s /\
  effects (run (updateDrag x y lay) s) = effects s.
Proof.
  intros Hps.
  destruct (updateDrag_frame x y lay s) as (_ & _ & F3 & _ & _ & F6 & F7 & _).
  cbn zeta in *. repeat split; auto.
  - intros c. unfold engine_of. rewrite F6, (updateDrag_objs x y lay s ps Hps).
    apply engine_in_restyle. reflexivity.
  - unfold dragged. rewrite F3. reflexivity.
Qed.

Lemma dragged_in_hand (s : State) (c : nat) : wf s -> dragged s = Some c -> c ∈ cards s.
Proof.
  intros Hwf. unfold dragged. pose proof (wf_session s Hwf) as Hs.
  unfold session_shape in Hs. destruct (pointerState s) as [ps|]; [|discriminate].
  destruct Hs as [Hc _]. destruct (isDragging ps); [|discriminate].
  intros [= <-]. exact Hc.
Qed.

Lemma engines_reset (s : State) :
  wf s -> engines_ok s -> engines_over (cards s ++ playedCards s) (on_reset s).
Proof.
  intros Hwf Hok. pose proof Hok as [E1 E2].
  pose proof (wf_nodup s Hwf) as Hnd. apply NoDup_app in Hnd as (Hndc & Hdisj & Hndp).
  destruct (reset_loop_effects (playedCards s) s eq_refl Hndp (wf_refs s Hwf))
    as (R1 & R2 & R3).
  destruct (reset_loop_frame (length (playedCards s)) s) as (F1 & _ & _ & F4 & _).
  cbn zeta in *. unfold on_reset.
  set (s1 := reset_loop (length (playedCards s)) s) in *. clearbody s1.
  assert (Hdr : dragged (reindexHand s1) = dragged s).
  { unfold dragged. state_simpl. rewrite F1. reflexivity. }
  split.
  - intros c Hc. rewrite Hdr. unfold engine_of. state_simpl. rewrite engine_in_reindex.
    destruct (decide (c ∈ playedCards s)) as [Hp|Hp].
    + destruct (wf_objs s Hwf c Hc) as [o Ho].
      destruct (R3 c o Hp Ho) as (o' & Ho' & _ & He' & _).
      unfold engine_in. rewrite Ho', He'. f_equal. f_equal. symmetry.
      apply bool_decide_eq_false. intros Hd.
      apply (dragged_in_hand s c Hwf) in Hd. exact (Hdisj c Hd Hp).
    + pose proof (E1 c Hc) as X. destruct (engine_of_obj s c _ X) as (o & Ho & He).
      destruct (R2 _ _ He) as (e' & He' & _ & _ & Hsame).
      unfold engine_in. rewrite (R1 c Hp), Ho, He'. f_equal. apply Hsame.
      intros c' o' Hc' Ho' Heq. apply Hp.
      assert (c' = c) as <-; [|exact Hc'].
      apply (engines_distinct s c' c o' o Hok); auto.
      apply elem_of_app. right. exact Hc'.
  - intros id Hid. state_simpl. state_simpl_in Hid. rewrite F4 in Hid.
    destruct (E2 id Hid) as [d Hd].
    destruct (R2 _ _ Hd) as (e' & He' & Hel & _). exists (eff_destroyed e').
    rewrite He'. f_equal. destruct e' as [el b]. cbn in *. congruence.
Qed.

Lemma engines_close (s : State) :
  engines_ok s -> engines_over (cards s ++ playedCards s) (closeLightbox s).
Proof.
  intros Hok. pose proof Hok as [E1 E2]. unfold closeLightbox. state_simpl.
  destruct (lightboxEffect s) as [id|] eqn:Hl.
  - split; [|intros id' Hid'; discriminate Hid'].
    intros c Hc. pose proof (E1 c Hc) as X.
    destruct (engine_of_obj s c _ X) as (o & Ho & He).
    unfold engine_of. state_simpl.
    rewrite (engine_in_kill_other _ _ c id o Ho (engines_lightbox s id c o Hok Hl Hc Ho)).
    exact X.
  - split; [exact E1|]. intros id Hid. state_simpl. discriminate Hid.
Qed.

Lemma engines_open (s : State) (ps : PointerState) :
  pointerState s = Some ps -> isDragging ps = false ->
  engines_ok s ->
  engines_over (cards s ++ playedCards s) (openLightbox (cleanupPointer true s)).
Proof.
  intros Hps Hd [E1 E2]. unfold openLightbox, cleanupPointer. rewrite Hps. state_simpl.
  assert (Hdr : dragged s = None) by (unfold dragged; rewrite Hps, Hd; reflexivity).
  split.
  - intros c Hc. pose proof (E1 c Hc) as X. rewrite Hdr in X.
    unfold engine_of, dragged. state_simpl.
    apply engine_in_new; [apply is_fresh | exact X].
  - intros id [= <-]. eexists. apply lookup_insert_eq.
Qed.

Lemma engines_timer (t : nat) (s : State) :
  engines_ok s -> engines_over (cards s ++ playedCards s) (on_timer t s).
Proof.
  intros Hok. unfold on_timer. destruct (bool_decide _); [|exact Hok].
  set (s0 := set_timers _ _ s).
  assert (Hok0 : engines_ok s0) by exact Hok.
  unfold hold_callback. destruct (pointerState s0) as [ps|] eqn:Hps; [|exact Hok].
  destruct (isDragging ps) eqn:Hd; cbn [negb]; [exact Hok|].
  exact (engines_open s0 ps Hps Hd Hok0).
Qed.

Lemma engines_pointerdown (t : option nat) (pid : nat) (x y : Q) (lay : Layout)
    (s : State) :
  allowed s (PointerDown t pid x y lay) -> engines_ok s ->
  engines_over (cards s ++ playedCards s) (on_pointerdown t pid x y lay s).
Proof.
  intros Hal Hok. unfold on_pointerdown. destruct t as [c|]; [|exact Hok].
  destruct (bool_decide (Slot c ∈ hand_children (doc s))) eqn:Hin; [|exact Hok].
  destruct (bool_decide (c ∈ cards s)); [|exact Hok].
  apply bool_decide_eq_true in Hin.
  assert (Hdr : dragged s = None).
  { unfold dragged. destruct (pointerState s) as [ps|] eqn:Hps; [|reflexivity].
    destruct (isDragging ps) eqn:Hd; [|reflexivity].
    exfalso. exact (Hal ps Hps Hd Hin). }
  apply engines_kept; auto.
  intros c'. unfold engine_of. state_simpl. apply engine_in_restyle. reflexivity.
Qed.

Lemma engines_pointermove (x y : Q) (lay : Layout) (s : State) :
  wf s -> engines_ok s ->
  engines_over (cards s ++ playedCards s) (step s (PointerMove x y lay)).
Proof.
  intros Hwf Hok. pose proof Hok as [E1 E2].
  destruct (pointerState s) as [ps|] eqn:Hps.
  2:{ cbn [step]. unfold run, pointermove, bind, get. rewrite Hps. exact Hok. }
  destruct (negb (isDragging ps) && beyond_threshold (x - startX ps) (y - startY ps))
    eqn:Hc.
  2:{ rewrite (pointermove_other s ps x y lay Hps Hc).
      destruct (isDragging ps); [|exact Hok].
      destruct (engines_updateDrag x y lay s ps Hps) as (U1 & U2 & U3 & U4).
      apply engines_kept; auto. }
  apply andb_true_iff in Hc as [Hd Hfar]. apply negb_true_iff in Hd.
  rewrite (pointermove_start s ps x y lay Hps Hd Hfar).
  pose proof (wf_session s Hwf) as Hsh. unfold session_shape in Hsh.
  rewrite Hps, Hd in Hsh. destruct Hsh as (Hcard & Hh & _).
  assert (Hall : card ps ∈ cards s ++ playedCards s) by (apply elem_of_app; left; exact Hcard).
  destruct (wf_objs s Hwf _ Hall) as [o Ho].
  assert (Hin : Slot (card ps) ∈ hand_children (doc (clearTimeout (holdTimer ps) s))).
  { state_simpl. rewrite Hh. apply list_elem_of_fmap_2. exact Hcard. }
  rewrite (startDrag_eq lay (clearTimeout (holdTimer ps) s) ps o Hps Hin Ho).
  cbn zeta.
  match goal with |- context [run (updateDrag x y lay) ?st] => set (s2 := st) end.
  assert (Hps2 : pointerState s2 =
                 Some (set_placeholder (Some (next_placeholder s)) (set_isDragging true ps)))
    by reflexivity.
  destruct (engines_updateDrag x y lay s2 _ Hps2) as (U1 & U2 & U3 & U4).
  assert (Hdr : dragged s2 = Some (card ps)) by reflexivity.
  assert (Hdr0 : dragged s = None) by (unfold dragged; rewrite Hps, Hd; reflexivity).
  split.
  - intros c Hc. rewrite U1, U2, Hdr. unfold engine_of. subst s2. state_simpl.
    rewrite !engine_in_restyle by reflexivity.
    pose proof (E1 c Hc) as X. rewrite Hdr0 in X.
    rewrite bool_decide_eq_false_2 in X by discriminate.
    destruct (decide (c = card ps)) as [->|Hne].
    + rewrite (engine_in_kill_own _ _ _ o _ Ho X).
      rewrite bool_decide_eq_true_2 by reflexivity. reflexivity.
    + destruct (engine_of_obj s c _ X) as (o' & Ho' & He').
      rewrite (engine_in_kill_other _ _ c (holoEffect o) o' Ho').
      * rewrite bool_decide_eq_false_2 by congruence. exact X.
      * intros Heq. apply Hne. apply (engines_distinct s c (card ps) o' o Hok); auto.
  - intros id Hid. rewrite U3 in Hid. rewrite U4. subst s2. state_simpl.
    state_simpl_in Hid. destruct (E2 id Hid) as [d Hd'].
    destruct (decide (holoEffect o = id)) as [->|Hne].
    + rewrite lookup_alter_eq, Hd'. cbn. eexists. reflexivity.
    + rewrite lookup_alter_ne by exact Hne. eauto.
Qed.

Lemma engines_attach (s s3 : State) (c : nat) :
  wf s -> engines_ok s -> dragged s = Some c ->
  (forall k, engine_of s3 k = engine_of s k) -> is_Some (objs s3 !! c) ->
  effects s3 = effects s -> lightboxEffect s3 = lightboxEffect s ->
  engines_over (cards s ++ playedCards s)
    (log SessionNull (set_pointerState None (reindexHand (attach_card_effect c s3)))).
Proof.
  intros Hwf [E1 E2] Hdr He Ho Hf Hl. split.
  - intros k Hk. unfold engine_of, dragged. state_simpl. rewrite engine_in_reindex.
    rewrite bool_decide_eq_false_2 by discriminate.
    destruct (decide (k = c)) as [->|Hne].
    + apply engine_in_attach. exact Ho.
    + rewrite engine_in_attach_ne by congruence.
      apply engine_in_new; [apply is_fresh|].
      change (engine_of s3 k = Some (mkEffectInst (Inner k) false)).
      rewrite He, (E1 k Hk), Hdr. rewrite bool_decide_eq_false_2 by congruence.
      reflexivity.
  - intros id Hid. state_simpl. state_simpl_in Hid. rewrite Hl in Hid.
    destruct (E2 id Hid) as [d Hd]. exists d.
    rewrite lookup_insert_ne; [rewrite Hf; exact Hd|].
    intros <-. apply (is_fresh (dom (effects s3))). apply elem_of_dom.
    rewrite <- Hf in Hd. eexists. exact Hd.
Qed.

Lemma engines_pointerup (x y : Q) (lay : Layout) (s : State) :
  wf s -> engines_ok s ->
  engines_over (cards s ++ playedCards s) (step s (PointerUp x y lay)).
Proof.
  intros Hwf Hok.
  destruct (pointerState s) as [ps|] eqn:Hps.
  2:{ rewrite pointerup_unfold, Hps. exact Hok. }
  destruct (isDragging ps) eqn:Hd.
  2:{ rewrite pointerup_unfold, Hps, Hd. unfold cleanupPointer. rewrite Hps.
      apply engines_kept; auto.
      unfold dragged. state_simpl. rewrite Hps, Hd. reflexivity. }
  assert (Hdr : dragged s = Some (card ps)) by (unfold dragged; rewrite Hps, Hd; reflexivity).
  destruct (wf_dragging s ps Hwf Hps Hd)
    as (p & l1 & l2 & Hp & Hh & Hl & Hb & Hnd & Hc & Ho & Hcp & Hndh & Hch & Hperm).
  destruct (over_play x y (lay_play lay) &&
            negb (bool_decide (MAX_FIELD <= length (playedCards s)))) eqn:Hcond.
  - apply andb_true_iff in Hcond as [Hov Hfull].
    apply negb_true_iff, bool_decide_eq_false in Hfull.
    rewrite (pointerup_play_run s ps p x y lay Hps Hd Hp Hov) by lia.
    apply engines_attach; auto.
    + intros k. unfold engine_of. state_simpl. rewrite !engine_in_restyle by reflexivity.
      reflexivity.
    + state_simpl. rewrite !is_Some_alter. exact Ho.
  - destruct (replace_placeholder (doc s) p (card ps) l1 l2 Hh Hndh Hch)
      as (d' & Hd' & _).
    rewrite (pointerup_return_run s ps p x y lay d' Hps Hd Hp Hcond Hd').
    apply engines_attach; auto.
    + intros k. unfold engine_of. state_simpl. rewrite !engine_in_restyle by reflexivity.
      reflexivity.
    + state_simpl. rewrite !is_Some_alter. exact Ho.
Qed.

Lemma engines_hover (s : State) (c : nat) (b : bool) :
  engines_ok s ->
  engines_over (cards s ++ playedCards s) (set_objs (alter (set_hovered b) c) s).
Proof.
  intros Hok. apply engines_kept; auto.
  intros k. unfold engine_of. state_simpl. apply engine_in_restyle. reflexivity.
Qed.

Lemma engines_step (s : State) (e : Event) :
  wf s -> allowed s e -> engines_ok s -> engines_ok (step s e).
Proof.
  intros Hwf Hal Hok.
  assert (H : engines_over (cards s ++ playedCards s) (step s e)).
  { destruct e as [| |b|t|t r|t pid x y lay|x y lay|x y lay|t].
    - exact Hok.
    - apply engines_reset; assumption.
    - cbn [step]. unfold on_lightbox_click. destruct b; [|exact Hok].
      apply engines_close, Hok.
    - cbn [step]. unfold on_pointerover. destruct t as [c|]; [|exact Hok].
      destruct (_ && _); [|exact Hok]. apply engines_hover, Hok.
    - cbn [step]. unfold on_pointerout. destruct t as [c|]; [|exact Hok].
      destruct (_ && _); [|exact Hok]. apply engines_hover, Hok.
    - apply engines_pointerdown; assumption.
    - apply engines_pointermove; assumption.
    - apply engines_pointerup; assumption.
    - apply engines_timer, Hok. }
  destruct H as [H1 H2]. split; [|exact H2].
  intros c Hc. apply H1. rewrite <- (step_conserves s e Hwf). exact Hc.
Qed.

Lemma engines_initial : engines_ok initial.
Proof.
  split.
  - intros c Hc. vm_compute in Hc.
    repeat (apply elem_of_cons in Hc as [->|Hc]; [vm_compute; reflexivity|]).
    inversion Hc.
  - intros id Hid. discriminate Hid.
Qed.

(** X22.  Along every run that keeps to [allowed], each card of the hand and
    of the table refers to an engine object constructed on its own [inner]
    element, which has been destroyed exactly when the card is the one being
    dragged; so no two cards share an engine, and the engine of the preview,
    while there is one, is on the lightbox card. *)
Theorem every_card_has_its_engine (s : State) (es : list Event) :
  wf s -> engines_ok s -> allowed_run s es ->
  engines_ok (steps s es) /\
  (forall c c' o o', c ∈ cards (steps s es) ++ playedCards (steps s es) ->
     c' ∈ cards (steps s es) ++ playedCards (steps s es) ->
     objs (steps s es) !! c = Some o -> objs (steps s es) !! c' = Some o' ->
     c <> c' -> holoEffect o <> holoEffect o').
Proof.
  intros Hwf Hok Hrun.
  assert (H : engines_ok (steps s es)).
  { revert s Hwf Hok Hrun. induction es as [|e es IH]; intros s Hwf Hok Hrun; [exact Hok|].
    destruct Hrun as [Hal Hrun]. cbn [steps foldl]. apply IH; auto.
    - apply wf_step; assumption.
    - apply engines_step; assumption. }
  split; [exact H|].
  intros c c' o o' Hc Hc' Ho Ho' Hne Heq. apply Hne.
  exact (engines_distinct _ c c' o o' H Hc Hc' Ho Ho' Heq).
Qed.

(** Card 2 lifted out of the initial hand: its engine is destroyed, the
    engine of card 3 is not. *)
Lemma every_card_has_its_engine_witness :
  engine_of (steps initial (lift 2)) 2 = Some (mkEffectInst (Inner 2) true) /\
  engine_of (steps initial (lift 2)) 3 = Some (mkEffectInst (Inner 3) false).
Proof.
  destruct (every_card_has_its_engine initial (lift 2)) as ([H _] & _).
  - apply wf_initial.
  - apply engines_initial.
  - cbn [lift allowed_run allowed]. repeat split.
    intros ps Hps. vm_compute in Hps. discriminate Hps.
  - split.
    + rewrite (H 2) by (apply list_elem_of_In; vm_compute; tauto).
      vm_compute. reflexivity.
    + rewrite (H 3) by (apply list_elem_of_In; vm_compute; tauto).
      vm_compute. reflexivity.
Defined.

End AppProps.
